(** * EchoScribe: media preparation, transcription orchestration and speech analytics

    A shallow embedding of the TypeScript services of the repository and the
    properties of its design document that were checked against them.

    Modelling conventions.
    - A JavaScript [number] that holds a byte offset, a size or a count is an
      integer below 2^53 and is modelled by [Z]; a number that holds a
      duration, a rate or a score is modelled by an exact rational [Q]
      (IEEE-754 rounding of the double arithmetic is not modelled).
    - A JavaScript string is a sequence of UTF-16 code units; the model keeps
      the code units below 256 (Rocq's [ascii]), which covers every literal
      and every regular expression of the sources.
    - A Node.js [Buffer] is a [list byte].
    - Code that may throw returns a value of [Js.run]; [try]/[catch] is
      [Js.try_catch].  Loops without a static bound take fuel, and the
      theorems show that the fuel handed to them is never exhausted.
    - The media engine (FFmpeg), and the transcription backend (Gemini) are
      external collaborators: they are fields of an environment record. *)

From Stdlib Require Import ZArith QArith Qround List Ascii String Bool Lia Lqa.
From Stdlib Require Import Init.Byte Numbers.DecimalString.
Import ListNotations.

Set Implicit Arguments.

(* ================================================================== *)
(** * JavaScript runtime notions shared by the services                *)
(* ================================================================== *)

Module Js.

(** Outcome of running a statement or an expression of the source:
    it completes with a value, throws an [Error] with a message, or (in the
    model only) exhausts the fuel of a loop. *)
Inductive run (A : Type) : Type :=
| Done (a : A)
| Raise (message : string)
| Diverge.

Arguments Done {A} a.
Arguments Raise {A} message.
Arguments Diverge {A}.

Definition bind {A B : Type} (m : run A) (k : A -> run B) : run B :=
  match m with
  | Done a => k a
  | Raise e => Raise e
  | Diverge => Diverge
  end.

(** [try { m } catch (error) { h error }] *)
Definition try_catch {A : Type} (m : run A) (h : string -> run A) : run A :=
  match m with
  | Raise e => h e
  | other => other
  end.

(** [Math.round(a / b)] for integers [0 <= a] and [0 < b]: the quotient
    rounded to the nearest integer, halves upwards. *)
Definition round_div (a b : Z) : Z := ((2 * a + b) / (2 * b))%Z.

(** [Math.round(x)]: nearest integer, halves towards plus infinity. *)
Definition round (x : Q) : Z := Qfloor (x + (1 # 2)).

Definition Qmin (x y : Q) : Q := if Qle_bool x y then x else y.
Definition Qmax (x y : Q) : Q := if Qle_bool x y then y else x.
Definition Qltb (x y : Q) : bool := negb (Qle_bool y x).

End Js.

Import Js.

Declare Scope run_scope.
Delimit Scope run_scope with run.
Notation "x <- m ;; k" := (Js.bind m (fun x => k))
  (at level 61, m at next level, right associativity) : run_scope.

(* ================================================================== *)
(** * Strings                                                           *)
(* ================================================================== *)

Module Str.

(** Code units are processed as lists; [string] is kept at the interfaces. *)
Definition chars (s : string) : list ascii := list_ascii_of_string s.
Definition str (l : list ascii) : string := string_of_list_ascii l.

Definition code (c : ascii) : N := N_of_ascii c.

Definition between (lo hi : N) (c : ascii) : bool :=
  ((lo <=? code c) && (code c <=? hi))%N.

(** [\w] is [[A-Za-z0-9_]]. *)
Definition isWordChar (c : ascii) : bool :=
  between 97 122 c || between 65 90 c || between 48 57 c || (code c =? 95)%N.

(** [\s], also the set removed by [trim]: TAB, LF, VT, FF, CR, SP, NBSP. *)
Definition isSpace (c : ascii) : bool :=
  between 9 13 c || (code c =? 32)%N || (code c =? 160)%N.

(** [[,.!?;:]] *)
Definition isPunct (c : ascii) : bool :=
  existsb (Ascii.eqb c) (chars ",.!?;:").

(** [[.!?]] *)
Definition isSentenceEnd (c : ascii) : bool :=
  existsb (Ascii.eqb c) (chars ".!?").

(** [toLowerCase] on one code unit below 256. *)
Definition lowerChar (c : ascii) : ascii :=
  if between 65 90 c || (between 192 222 c && negb (code c =? 215)%N)
  then ascii_of_N (code c + 32)
  else c.

Definition toLowerCase (s : list ascii) : list ascii := map lowerChar s.

(** Canonicalisation of the [i] flag (no [u] flag): upper case, where a
    character above 127 never folds onto an ASCII one. *)
Definition canonical (c : ascii) : ascii :=
  if between 97 122 c then ascii_of_N (code c - 32) else c.

Fixpoint dropSpaces (s : list ascii) : list ascii :=
  match s with
  | c :: s' => if isSpace c then dropSpaces s' else s
  | [] => []
  end.

(** [s.trim()] *)
Definition trim (s : list ascii) : list ascii :=
  rev (dropSpaces (rev (dropSpaces s))).

(** [parts.join(sep)] *)
Fixpoint join (sep : list ascii) (parts : list (list ascii)) : list ascii :=
  match parts with
  | [] => []
  | [p] => p
  | p :: rest => p ++ sep ++ join sep rest
  end.

(** [s.split(sep)] for a separator of one code unit: [cur] is the piece
    being read, in reverse. *)
Fixpoint splitChar (sep : ascii) (cur : list ascii) (s : list ascii)
  : list (list ascii) :=
  match s with
  | [] => [rev cur]
  | c :: s' =>
      if Ascii.eqb c sep then rev cur :: splitChar sep [] s'
      else splitChar sep (c :: cur) s'
  end.

(** [String(n)] for a natural number. *)
Definition ofNat (n : nat) : string := NilEmpty.string_of_uint (Nat.to_uint n).

End Str.

(* ================================================================== *)
(** * Node.js buffers                                                   *)
(* ================================================================== *)

Module Buf.

Local Open Scope Z_scope.

Definition Buffer : Type := list byte.

(** [buffer.length] *)
Definition length (b : Buffer) : Z := Z.of_nat (List.length b).

Definition byte_val (x : byte) : Z := Z.of_N (Byte.to_N x).

(** The [n] bytes that start at [offset], when they all lie in the buffer. *)
Definition bytes_at (b : Buffer) (offset : Z) (n : nat) : option (list Z) :=
  if (offset <? 0) || (length b <? offset + Z.of_nat n) then None
  else Some (map byte_val (firstn n (skipn (Z.to_nat offset) b))).

Definition out_of_range : string := "ERR_OUT_OF_RANGE"%string.

(** [buffer.readUInt8(offset)] *)
Definition readUInt8 (b : Buffer) (offset : Z) : run Z :=
  match bytes_at b offset 1 with
  | Some [b0] => Done b0
  | _ => Raise out_of_range
  end.

(** [buffer.readUInt32LE(offset)] *)
Definition readUInt32LE (b : Buffer) (offset : Z) : run Z :=
  match bytes_at b offset 4 with
  | Some [b0; b1; b2; b3] =>
      Done (b0 + b1 * 2 ^ 8 + b2 * 2 ^ 16 + b3 * 2 ^ 24)
  | _ => Raise out_of_range
  end.

(** [buffer.readUInt32BE(offset)] *)
Definition readUInt32BE (b : Buffer) (offset : Z) : run Z :=
  match bytes_at b offset 4 with
  | Some [b0; b1; b2; b3] =>
      Done (b0 * 2 ^ 24 + b1 * 2 ^ 16 + b2 * 2 ^ 8 + b3)
  | _ => Raise out_of_range
  end.

(** [buffer[i]] used as a number: [undefined] out of range, which the
    bitwise operators read as 0. *)
Definition index (b : Buffer) (i : Z) : Z :=
  match bytes_at b i 1 with
  | Some [b0] => b0
  | _ => 0
  end.

(** The 'ascii' decoder of Node clears the high bit of every byte. *)
Definition ascii_char (x : byte) : ascii :=
  ascii_of_N (N.land (Byte.to_N x) 127).

(** [buffer.toString('ascii', start, end)]: both ends are clamped to the
    buffer, an empty range gives the empty string. *)
Definition toString (b : Buffer) (start end_ : Z) : string :=
  let s := Z.max 0 start in
  let e := Z.min end_ (length b) in
  if e <=? s then EmptyString
  else string_of_list_ascii
         (map ascii_char (firstn (Z.to_nat (e - s)) (skipn (Z.to_nat s) b))).

End Buf.

(* ================================================================== *)
(** * SimpleDurationExtractor (simple-duration.service)                 *)
(* ================================================================== *)

Module SimpleDurationExtractor.

Import Buf.
Local Open Scope Z_scope.
Local Open Scope run_scope.

Record MediaDurationInfo : Type := {
  duration : Z;          (* in seconds *)
  isEstimated : bool
}.

(** [Math.max(1, Math.round(buffer.length / bytesPerSecond))], estimated. *)
Definition estimate (buffer : Buffer) (bytesPerSecond : Z) : MediaDurationInfo :=
  {| duration := Z.max 1 (round_div (length buffer) bytesPerSecond);
     isEstimated := true |}.

(** ** WAV: walk of the RIFF sub-chunks *)

(** The inner [while (dataOffset < buffer.length - 8)] loop: [Some] is the
    [return] of the function, [None] the normal end of the loop. *)
Fixpoint findDataChunk (fuel : nat) (buffer : Buffer) (byteRate dataOffset : Z)
  : run (option MediaDurationInfo) :=
  match fuel with
  | O => Diverge
  | S fuel' =>
      if dataOffset <? length buffer - 8 then
        let dataChunkId := toString buffer dataOffset (dataOffset + 4) in
        dataSize <- readUInt32LE buffer (dataOffset + 4) ;;
        if String.eqb dataChunkId "data" then
          Done (Some {| duration := round_div dataSize byteRate;
                        isEstimated := false |})
        else findDataChunk fuel' buffer byteRate (dataOffset + 8 + dataSize)
      else Done None
  end.

(** The body of [if (chunkId === 'fmt ')]. *)
Definition fmtChunk (buffer : Buffer) (offset chunkSize : Z)
  : run (option MediaDurationInfo) :=
  sampleRate <- readUInt32LE buffer (offset + 12) ;;
  byteRate <- readUInt32LE buffer (offset + 16) ;;
  if (0 <? sampleRate) && (0 <? byteRate) then
    findDataChunk (S (List.length buffer)) buffer byteRate (offset + 8 + chunkSize)
  else Done None.

(** The outer [while (offset < buffer.length - 8)] loop and the [throw]
    that follows it. *)
Fixpoint walkChunks (fuel : nat) (buffer : Buffer) (offset : Z)
  : run MediaDurationInfo :=
  match fuel with
  | O => Diverge
  | S fuel' =>
      if offset <? length buffer - 8 then
        let chunkId := toString buffer offset (offset + 4) in
        chunkSize <- readUInt32LE buffer (offset + 4) ;;
        found <- (if String.eqb chunkId "fmt "
                  then fmtChunk buffer offset chunkSize
                  else Done None) ;;
        match found with
        | Some info => Done info
        | None => walkChunks fuel' buffer (offset + 8 + chunkSize)
        end
      else Raise "Could not parse WAV duration"
  end.

(** The [try] block of [extractWavDuration]. *)
Definition parseWav (buffer : Buffer) : run MediaDurationInfo :=
  if length buffer <? 44 then Raise "Invalid WAV file"
  else if negb (String.eqb (toString buffer 0 4) "RIFF") then Raise "Not a RIFF file"
  else if negb (String.eqb (toString buffer 8 12) "WAVE") then Raise "Not a WAVE file"
  else walkChunks (S (List.length buffer)) buffer 12.

Definition extractWavDuration (buffer : Buffer) : run MediaDurationInfo :=
  try_catch (parseWav buffer)
            (fun _ => Done (estimate buffer 176400)). (* 44.1kHz 16-bit stereo *)

(** ** MP3: TLEN frame of an ID3v2 tag *)

(** [parseInt(s)] without a radix: leading white space, an optional sign,
    an optional [0x] prefix, then the longest run of digits; [None] is
    [NaN].  The value is kept exact. *)
Definition isStrWhiteSpace (c : ascii) : bool :=
  let n := N_of_ascii c in
  ((9 <=? n) && (n <=? 13))%N || (n =? 32)%N || (n =? 160)%N.

Definition digitValue (radix : Z) (c : ascii) : option Z :=
  let n := Z.of_N (N_of_ascii c) in
  let v := if (48 <=? n) && (n <=? 57) then n - 48
           else if (97 <=? n) && (n <=? 122) then n - 87
           else if (65 <=? n) && (n <=? 90) then n - 55
           else 36 in
  if v <? radix then Some v else None.

Fixpoint digits (radix : Z) (acc : option Z) (s : list ascii) : option Z :=
  match s with
  | [] => acc
  | c :: s' =>
      match digitValue radix c with
      | Some v =>
          digits radix (Some (match acc with Some a => a * radix + v | None => v end)) s'
      | None => acc
      end
  end.

Fixpoint skipWhiteSpace (s : list ascii) : list ascii :=
  match s with
  | c :: s' => if isStrWhiteSpace c then skipWhiteSpace s' else s
  | [] => []
  end.

Definition parseInt (text : string) : option Z :=
  let s := skipWhiteSpace (list_ascii_of_string text) in
  let '(sign, s) :=
    match s with
    | "-"%char :: s' => (-1, s')
    | "+"%char :: s' => (1, s')
    | _ => (1, s)
    end in
  let '(radix, s) :=
    match s with
    | "0"%char :: "x"%char :: s' => (16, s')
    | "0"%char :: "X"%char :: s' => (16, s')
    | _ => (10, s)
    end in
  option_map (fun v => sign * v) (digits radix None s).

(** The four masked bytes of the synchsafe tag size. *)
Definition id3Size (buffer : Buffer) : Z :=
  Z.lor (Z.lor (Z.lor (Z.shiftl (Z.land (index buffer 6) 127) 21)
                      (Z.shiftl (Z.land (index buffer 7) 127) 14))
               (Z.shiftl (Z.land (index buffer 8) 127) 7))
        (Z.land (index buffer 9) 127).

(** One iteration of the search loop at position [i]. *)
Definition tlenAt (buffer : Buffer) (i : Z) : run (option MediaDurationInfo) :=
  if String.eqb (toString buffer i (i + 4)) "TLEN" then
    frameSize <- readUInt32BE buffer (i + 4) ;;
    if (0 <? frameSize) && (frameSize <? 20) then
      match parseInt (toString buffer (i + 11) (i + 11 + frameSize - 1)) with
      | Some durationMs =>
          if 0 <? durationMs
          then Done (Some {| duration := round_div durationMs 1000;
                             isEstimated := false |})
          else Done None
      | None => Done None
      end
    else Done None
  else Done None.

(** [for (let i = 10; i < bound; i++)], [n] iterations left. *)
Fixpoint scanTLEN (n : nat) (buffer : Buffer) (i : Z)
  : run (option MediaDurationInfo) :=
  match n with
  | O => Done None
  | S n' =>
      found <- tlenAt buffer i ;;
      match found with
      | Some info => Done (Some info)
      | None => scanTLEN n' buffer (i + 1)
      end
  end.

Definition parseMp3 (buffer : Buffer) : run MediaDurationInfo :=
  found <- (if (10 <? length buffer) && String.eqb (toString buffer 0 3) "ID3" then
              let bound := Z.min (id3Size buffer + 10) (length buffer - 10) in
              scanTLEN (Z.to_nat (bound - 10)) buffer 10
            else Done None) ;;
  match found with
  | Some info => Done info
  | None => Done (estimate buffer 16000) (* Assume 128kbps *)
  end.

Definition extractMp3Duration (buffer : Buffer) : run MediaDurationInfo :=
  try_catch (parseMp3 buffer) (fun _ => Done (estimate buffer 16000)).

(** ** MP4 / M4A: search of the [mvhd] atom *)

Definition mvhdAtom (buffer : Buffer) (offset : Z) : run (option MediaDurationInfo) :=
  version <- readUInt8 buffer (offset + 8) ;;
  fields <- (if version =? 0 then
               timeScale <- readUInt32BE buffer (offset + 20) ;;
               duration <- readUInt32BE buffer (offset + 24) ;;
               Done (timeScale, duration)
             else
               timeScale <- readUInt32BE buffer (offset + 28) ;;
               duration <- readUInt32BE buffer (offset + 36) ;;
               Done (timeScale, duration)) ;;
  let '(timeScale, duration) := fields in
  if 0 <? timeScale
  then Done (Some {| duration := round_div duration timeScale; isEstimated := false |})
  else Done None.

Fixpoint walkAtoms (fuel : nat) (buffer : Buffer) (offset : Z)
  : run MediaDurationInfo :=
  match fuel with
  | O => Diverge
  | S fuel' =>
      if offset <? length buffer - 8 then
        atomSize <- readUInt32BE buffer offset ;;
        let atomType := toString buffer (offset + 4) (offset + 8) in
        found <- (if String.eqb atomType "mvhd"
                  then mvhdAtom buffer offset
                  else Done None) ;;
        match found with
        | Some info => Done info
        | None =>
            if (atomSize =? 0) || (length buffer - offset <? atomSize)
            then Raise "Could not find mvhd atom"             (* break *)
            else walkAtoms fuel' buffer (offset + atomSize)
        end
      else Raise "Could not find mvhd atom"
  end.

Definition parseMp4 (buffer : Buffer) : run MediaDurationInfo :=
  walkAtoms (S (List.length buffer)) buffer 0.

Definition extractMp4Duration (buffer : Buffer) : run MediaDurationInfo :=
  try_catch (parseMp4 buffer)
            (fun _ => Done (estimate buffer 125000)). (* Assume 1Mbps *)

(** ** Extract duration from common media formats using header analysis *)

(** [fileName.toLowerCase().split('.').pop() || ''] *)
Definition extensionOf (fileName : string) : string :=
  Str.str (last (Str.splitChar "."%char [] (Str.toLowerCase (Str.chars fileName))) []).

(** The [switch] on the extension. *)
Definition dispatch (buffer : Buffer) (fileName : string) : run MediaDurationInfo :=
  let extension := extensionOf fileName in
  if String.eqb extension "wav" then extractWavDuration buffer
  else if String.eqb extension "mp3" then extractMp3Duration buffer
  else if String.eqb extension "mp4" || String.eqb extension "m4a"
  then extractMp4Duration buffer
  else
    (* Fallback to file size estimation (rough) *)
    Done (estimate buffer 32000).

(** Default to 1 minute *)
Definition defaultDuration : MediaDurationInfo :=
  {| duration := 60; isEstimated := true |}.

Definition extractDuration (buffer : Buffer) (fileName : string)
  : run MediaDurationInfo :=
  try_catch (dispatch buffer fileName) (fun _ => Done defaultDuration).

End SimpleDurationExtractor.

(* ================================================================== *)
(** * Regular expressions                                               *)
(* ================================================================== *)

(** The fragment of ECMAScript regular expressions used by the services,
    with the backtracking semantics of the language: alternatives are tried
    from left to right, repetition is greedy, a global search restarts after
    the end of the previous match. *)

Module RegExp.

Import Str.

Inductive regex : Type :=
| Eps                                   (* the empty pattern *)
| Chr (c : ascii)                       (* a literal character *)
| Cls (p : ascii -> bool)               (* a character class *)
| Star (p : ascii -> bool)              (* class*, greedy *)
| Plus (p : ascii -> bool)              (* class+, greedy *)
| Seq (r1 r2 : regex)
| Alt (r1 r2 : regex)
| Group (i : nat) (r : regex)           (* the i-th capturing group *)
| NotAhead (r : regex)                  (* (?! r) *)
| WordB                                 (* \b *)
| Bol.                                  (* ^ without the m flag *)

Fixpoint lit (s : list ascii) : regex :=
  match s with
  | [] => Eps
  | [c] => Chr c
  | c :: s' => Seq (Chr c) (lit s')
  end.

Fixpoint seqs (rs : list regex) : regex :=
  match rs with
  | [] => Eps
  | [r] => r
  | r :: rs' => Seq r (seqs rs')
  end.

(** [(a|b|c)] without the group. *)
Fixpoint alts (ws : list string) : regex :=
  match ws with
  | [] => NotAhead Eps                  (* matches nothing *)
  | [w] => lit (chars w)
  | w :: ws' => Alt (lit (chars w)) (alts ws')
  end.

(** Number of capturing groups of a pattern. *)
Fixpoint groupCount (r : regex) : nat :=
  match r with
  | Seq r1 r2 | Alt r1 r2 => groupCount r1 + groupCount r2
  | Group _ r => S (groupCount r)
  | NotAhead r => groupCount r
  | _ => 0
  end.

(** A position in the subject: the code unit before it, its index, and
    the code units from it on. *)
Record cursor : Type := {
  before : option ascii;
  pos : nat;
  rest : list ascii
}.

Definition captures : Type := list (nat * list ascii).

Definition step (c : ascii) (rest' : list ascii) (cur : cursor) : cursor :=
  {| before := Some c; pos := S (pos cur); rest := rest' |}.

Definition wordBefore (cur : cursor) : bool :=
  match before cur with Some c => isWordChar c | None => false end.

Definition wordAfter (cur : cursor) : bool :=
  match rest cur with c :: _ => isWordChar c | [] => false end.

Definition outcome : Type := option (cursor * captures).

Section Matcher.

Variable ignoreCase : bool.            (* the i flag *)

Definition sameChar (p c : ascii) : bool :=
  if ignoreCase then Ascii.eqb (canonical p) (canonical c) else Ascii.eqb p c.

(** Greedy repetition of a class with backtracking: the longest run is
    tried first, then shorter ones. *)
Fixpoint star (p : ascii -> bool) (b : option ascii) (n : nat) (s : list ascii)
         (k : cursor -> outcome) : outcome :=
  match s with
  | c :: s' =>
      if p c then
        match star p (Some c) (S n) s' k with
        | Some r => Some r
        | None => k {| before := b; pos := n; rest := s |}
        end
      else k {| before := b; pos := n; rest := s |}
  | [] => k {| before := b; pos := n; rest := s |}
  end.

(** [rmatch r cur caps k]: match [r] at [cur], then continue with [k];
    [None] when every way of matching fails. *)
Fixpoint rmatch (r : regex) (cur : cursor) (caps : captures)
         (k : cursor -> captures -> outcome) {struct r} : outcome :=
  match r with
  | Eps => k cur caps
  | Chr p =>
      match rest cur with
      | c :: s' => if sameChar p c then k (step c s' cur) caps else None
      | [] => None
      end
  | Cls p =>
      match rest cur with
      | c :: s' => if p c then k (step c s' cur) caps else None
      | [] => None
      end
  | Star p => star p (before cur) (pos cur) (rest cur) (fun cur' => k cur' caps)
  | Plus p =>
      match rest cur with
      | c :: s' =>
          if p c then star p (Some c) (S (pos cur)) s' (fun cur' => k cur' caps)
          else None
      | [] => None
      end
  | Seq r1 r2 => rmatch r1 cur caps (fun cur' caps' => rmatch r2 cur' caps' k)
  | Alt r1 r2 =>
      match rmatch r1 cur caps k with
      | Some res => Some res
      | None => rmatch r2 cur caps k
      end
  | Group i r1 =>
      rmatch r1 cur caps
             (fun cur' caps' =>
                k cur' ((i, firstn (pos cur' - pos cur) (rest cur)) :: caps'))
  | NotAhead r1 =>
      match rmatch r1 cur caps (fun cur' caps' => Some (cur', caps')) with
      | Some _ => None
      | None => k cur caps
      end
  | WordB => if xorb (wordBefore cur) (wordAfter cur) then k cur caps else None
  | Bol => if Nat.eqb (pos cur) 0 then k cur caps else None
  end.

(** One attempt at a given position: the end of the match and the
    captured groups. *)
Definition exec (r : regex) (cur : cursor) : outcome :=
  rmatch r cur [] (fun cur' caps' => Some (cur', caps')).

(** A match found by a global search. *)
Record hit : Type := {
  matched : list ascii;                (* the matched substring *)
  groups : captures;                   (* the groups that took part *)
  offset : nat                         (* where it starts *)
}.

(** The subject cut into the code units no match covers and the matches,
    from left to right. *)
Inductive segment : Type :=
| Lit (c : ascii)
| Hit (h : hit).

(** The global search: [skip] code units of the current match are still
    to be passed over.  After an empty match the search moves on by one
    code unit. *)
Fixpoint scan (r : regex) (b : option ascii) (n : nat) (s : list ascii)
         (skip : nat) {struct s} : list segment :=
  match skip with
  | S skip' =>
      match s with
      | c :: s' => scan r (Some c) (S n) s' skip'
      | [] => []
      end
  | O =>
      match exec r {| before := b; pos := n; rest := s |} with
      | Some (cur', caps) =>
          let len := (pos cur' - n)%nat in
          Hit {| matched := firstn len s; groups := caps; offset := n |} ::
          match s with
          | c :: s' =>
              match len with
              | O => Lit c :: scan r (Some c) (S n) s' O
              | S len' => scan r (Some c) (S n) s' len'
              end
          | [] => []
          end
      | None =>
          match s with
          | c :: s' => Lit c :: scan r (Some c) (S n) s' O
          | [] => []
          end
      end
  end.

Definition segments (r : regex) (subject : list ascii) : list segment :=
  scan r None 0 subject 0.

Definition hits (segs : list segment) : list hit :=
  flat_map (fun seg => match seg with Hit h => [h] | Lit _ => [] end) segs.

(** [subject.match(r) || []] for a pattern with the g flag. *)
Definition matchAll (r : regex) (subject : list ascii) : list (list ascii) :=
  map matched (hits (segments r subject)).

(** [subject.replace(r, f)] for a pattern with the g flag, where the
    callback [f] updates a variable of type [S] that it closes over. *)
Fixpoint substitute (St : Type) (f : St -> hit -> list ascii * St) (st : St)
         (segs : list segment) : list ascii * St :=
  match segs with
  | [] => ([], st)
  | Lit c :: segs' =>
      let '(out, st') := substitute f st segs' in (c :: out, st')
  | Hit h :: segs' =>
      let '(text, st1) := f st h in
      let '(out, st2) := substitute f st1 segs' in
      (text ++ out, st2)
  end.

Definition replaceWith (St : Type) (r : regex) (f : St -> hit -> list ascii * St)
           (st : St) (subject : list ascii) : list ascii * St :=
  substitute f st (segments r subject).

(** [subject.replace(r, f)] with a callback without state. *)
Definition replace (r : regex) (f : hit -> list ascii) (subject : list ascii)
  : list ascii :=
  fst (replaceWith r (fun (_ : unit) h => (f h, tt)) tt subject).

(** [subject.split(r)] for a pattern without groups. *)
Fixpoint pieces (cur : list ascii) (segs : list segment) : list (list ascii) :=
  match segs with
  | [] => [rev cur]
  | Lit c :: segs' => pieces (c :: cur) segs'
  | Hit _ :: segs' => rev cur :: pieces [] segs'
  end.

Definition split (r : regex) (subject : list ascii) : list (list ascii) :=
  pieces [] (segments r subject).

End Matcher.

(** The text of capturing group [i], when it took part in the match. *)
Definition group (i : nat) (h : hit) : option (list ascii) :=
  option_map snd (find (fun g => Nat.eqb (fst g) i) (groups h)).

(** [$i] in a replacement string: the empty string for a group that did
    not take part. *)
Definition ref (i : nat) (h : hit) : list ascii :=
  match group i h with Some s => s | None => [] end.

End RegExp.

(* ================================================================== *)
(** * SpeechAnalyticsService (speech-analytics.service)                 *)
(* ================================================================== *)

Module SpeechAnalyticsService.

Import Str RegExp.
Local Open Scope string_scope.
Local Open Scope list_scope.
Local Open Scope nat_scope.

Record PaceAnalysis : Type := {
  paceCategory : string;
  paceScore : Z;
  paceRecommendation : string
}.

(** A [Record<string, number>]: the keys in insertion order. *)
Definition counts : Type := list (string * nat).

Record FillerWordAnalysis : Type := {
  totalFillerWords : nat;
  fillerWordPercentage : Q;
  fillerWordScore : Z;
  fillerWordFeedback : string;
  fillerWordCounts : counts
}.

Record VocabularyAnalysis : Type := {
  uniqueWords : nat;
  vocabularyDiversity : Q;
  vocabularyScore : Z;
  vocabularyFeedback : string;
  wordComplexityDistribution : counts
}.

Record ConfidenceAnalysis : Type := {
  confidenceScore : Z;
  confidenceFeedback : string;
  confidenceWords : nat;
  uncertaintyWords : nat
}.

(** The entries of [recommendations]; each constructor stands for one of
    the message templates, which begin with distinct pictographs. *)
Inductive recommendation : Type :=
| PaceImprovement (paceRecommendation : string)
| ReduceFillerWords (topFillers : list string)
| ExpandVocabulary (vocabularyFeedback : string)
| BoostConfidence (confidenceFeedback : string)
| PracticeRegularly
| StudyGreatSpeakers
| KeepItUp.

Record SpeechAnalytics : Type := {
  overallScore : Q;
  totalWords : nat;
  wordsPerMinute : Q;
  paceAnalysis : PaceAnalysis;
  fillerWordAnalysis : FillerWordAnalysis;
  vocabularyAnalysis : VocabularyAnalysis;
  confidenceAnalysis : ConfidenceAnalysis;
  recommendations : list recommendation
}.

Definition OPTIMAL_WPM_MIN : Q := 140.
Definition OPTIMAL_WPM_MAX : Q := 180.

(** Pure filler sounds (always fillers) *)
Definition PURE_FILLER_SOUNDS : list string :=
  ["um"; "uh"; "ah"; "er"; "eh"; "hmm"; "mm"; "mhm"; "uhm"].

(** Discourse markers that become fillers when overused *)
Definition DISCOURSE_MARKERS : list string :=
  ["well"; "okay"; "right"; "now"; "alright"; "yeah"].

(** Words that become fillers when used excessively *)
Definition HEDGE_WORDS : list string :=
  ["basically"; "actually"; "literally"; "totally"; "really"].

Record fillerPattern : Type := {
  pattern : regex;                       (* flags gi *)
  word : string;
  description : string
}.

(** [\bphrase\b] *)
Definition wordPattern (phrase : string) : regex :=
  seqs [WordB; lit (chars phrase); WordB].

Definition FILLER_PATTERNS : list fillerPattern :=
  [ {| pattern := seqs [WordB; lit (chars "like"); Plus isSpace;
                        Group 1 (alts ["um"; "uh"; "ah"; "er"; "so"; "and"; "i"; "you";
                                       "we"; "they"; "it"; "this"; "that"; "when";
                                       "where"; "what"]);
                        WordB];
       word := "like"; description := "like as hesitation marker" |};
    {| pattern := seqs [WordB;
                        Group 1 (alts ["um"; "uh"; "ah"; "er"; "like"; "yeah"; "well"; "okay"]);
                        Plus isSpace; lit (chars "so"); WordB];
       word := "so"; description := "so after hesitation" |};
    {| pattern := seqs [WordB; lit (chars "so"); Plus isSpace;
                        Group 1 (alts ["um"; "uh"; "ah"; "er"; "like"; "yeah"]);
                        WordB];
       word := "so"; description := "so before hesitation" |};
    {| pattern := wordPattern "you know";
       word := "you know"; description := "filler phrase" |};
    {| pattern := wordPattern "i mean";
       word := "i mean"; description := "filler phrase" |};
    {| pattern := seqs [WordB; lit (chars "sort of"); WordB;
                        NotAhead (Seq (Plus isSpace)
                                      (Group 1 (alts ["like"; "similar"; "the same"])))];
       word := "sort of"; description := "sort of not in comparison" |};
    {| pattern := seqs [WordB; lit (chars "kind of"); WordB;
                        NotAhead (Seq (Plus isSpace)
                                      (Group 1 (alts ["like"; "similar"; "the same";
                                                      "person"; "thing"])))];
       word := "kind of"; description := "kind of not in comparison" |};
    {| pattern := wordPattern "let me think";
       word := "let me think"; description := "stalling phrase" |};
    {| pattern := wordPattern "how do i say";
       word := "how do i say"; description := "stalling phrase" |};
    {| pattern := wordPattern "what do you call it";
       word := "what do you call it"; description := "stalling phrase" |} ].

Definition CONFIDENCE_WORDS : list string :=
  ["definitely"; "certainly"; "absolutely"; "clearly"; "obviously";
   "without doubt"; "undoubtedly"; "precisely"; "exactly"; "specifically";
   "conclusively"; "positively"; "unquestionably"; "confident"; "sure";
   "convinced"; "guarantee"; "promise"; "assure"; "affirm"].

Definition UNCERTAINTY_WORDS : list string :=
  ["maybe"; "perhaps"; "possibly"; "might"; "could be"; "i think";
   "i believe"; "i guess"; "probably"; "likely"; "seems like";
   "appears to"; "i suppose"; "presumably"; "apparently"; "unsure";
   "uncertain"; "not sure"; "hard to say"; "difficult to tell"].

Definition ofNat (n : nat) : Q := inject_Z (Z.of_nat n).

(** [text.split(/\s+/).filter(word => word.length > 0)] *)
Definition extractWords (text : list ascii) : list (list ascii) :=
  filter (fun word => Nat.ltb 0 (List.length word)) (split false (Plus isSpace) text).

(** [text.split(/[.!?]+/).filter(sentence => sentence.trim().length > 0)] *)
Definition extractSentences (text : list ascii) : list (list ascii) :=
  filter (fun sentence => Nat.ltb 0 (List.length (trim sentence)))
         (split false (Plus isSentenceEnd) text).

(** ** Pace *)

Definition analyzePace (wordsPerMinute : Q) : PaceAnalysis :=
  if Qle_bool OPTIMAL_WPM_MIN wordsPerMinute && Qle_bool wordsPerMinute OPTIMAL_WPM_MAX then
    {| paceCategory := "Optimal"; paceScore := 10;
       paceRecommendation := "Excellent speaking pace! You maintain an ideal rhythm for audience comprehension." |}
  else if Qltb wordsPerMinute 100 then
    {| paceCategory := "Too Slow"; paceScore := 4;
       paceRecommendation := "Consider speaking faster to maintain audience engagement and energy." |}
  else if Qltb wordsPerMinute OPTIMAL_WPM_MIN then
    {| paceCategory := "Slow"; paceScore := 6;
       paceRecommendation := "Try to increase your speaking pace slightly for better flow and engagement." |}
  else if Qle_bool wordsPerMinute 200 then
    {| paceCategory := "Fast"; paceScore := 7;
       paceRecommendation := "Good pace, but consider slowing down slightly for better clarity." |}
  else
    {| paceCategory := "Too Fast"; paceScore := 4;
       paceRecommendation := "Slow down to ensure your audience can follow and understand your message." |}.

(** ** Filler words *)

(** [counts[key] = (counts[key] || 0) + n] *)
Fixpoint bump (key : string) (n : nat) (c : counts) : counts :=
  match c with
  | [] => [(key, n)]
  | (k, v) :: c' =>
      if String.eqb k key then (k, v + n) :: c' else (k, v) :: bump key n c'
  end.

(** [counts[key] || 0] *)
Fixpoint lookup (key : string) (c : counts) : nat :=
  match c with
  | [] => 0
  | (k, v) :: c' => if String.eqb k key then v else lookup key c'
  end.

(** [word.toLowerCase().replace(/[^\w]/g, '')] *)
Definition cleanWord (word : list ascii) : string :=
  str (replace false (Cls (fun c => negb (isWordChar c))) (fun _ => []) (toLowerCase word)).

Definition includes (l : list string) (s : string) : bool :=
  existsb (String.eqb s) l.

(** The state of the counting loops: [fillerWordCounts] and
    [totalFillerWords]. *)
Definition tally : Type := (counts * nat)%type.

(** 1. Count pure filler sounds (always fillers) *)
Definition countPureFillers (words : list (list ascii)) (t : tally) : tally :=
  fold_left (fun '(fillerWordCounts, totalFillerWords) word =>
               let cleanWord := cleanWord word in
               if includes PURE_FILLER_SOUNDS cleanWord
               then (bump cleanWord 1 fillerWordCounts, S totalFillerWords)
               else (fillerWordCounts, totalFillerWords))
            words t.

Definition wordFrequency (words : list (list ascii)) : counts :=
  fold_left (fun freq word => bump (cleanWord word) 1 freq) words [].

(** 2. Count discourse markers and hedge words with frequency threshold *)
Definition countOverused (words : list (list ascii)) (t : tally) : tally :=
  let wordFrequency := wordFrequency words in
  let overuseThreshold := if Nat.ltb 100 (List.length words) then 3 else 2 in
  let potentialFillers := DISCOURSE_MARKERS ++ HEDGE_WORDS in
  fold_left (fun '(fillerWordCounts, totalFillerWords) word =>
               let count := lookup word wordFrequency in
               if Nat.ltb overuseThreshold count then
                 let fillerCount := count - overuseThreshold in
                 if Nat.ltb 0 fillerCount
                 then (bump word fillerCount fillerWordCounts,
                       totalFillerWords + fillerCount)
                 else (fillerWordCounts, totalFillerWords)
               else (fillerWordCounts, totalFillerWords))
            potentialFillers t.

(** 3. Apply context-sensitive pattern matching *)
Definition countPatterns (fullText : list ascii) (t : tally) : tally :=
  fold_left (fun '(fillerWordCounts, totalFillerWords) p =>
               let matches := matchAll true (pattern p) fullText in
               if Nat.ltb 0 (List.length matches)
               then (bump (word p) (List.length matches) fillerWordCounts,
                     totalFillerWords + List.length matches)
               else (fillerWordCounts, totalFillerWords))
            FILLER_PATTERNS t.

(** The band table of the filler percentage: score and feedback. *)
Definition fillerBand (fillerWordPercentage : Q) : Z * string :=
  if Qltb fillerWordPercentage 1 then
    (10%Z, "Excellent! You maintain very clean speech with minimal filler words.")
  else if Qltb fillerWordPercentage 2 then
    (8%Z, "Great job keeping filler words to a minimum.")
  else if Qltb fillerWordPercentage 4 then
    (6%Z, "Good control, but try to reduce filler words for more professional delivery.")
  else if Qltb fillerWordPercentage 7 then
    (4%Z, "Practice pausing instead of using filler words to improve clarity.")
  else
    (2%Z, "Focus on reducing filler words significantly. Practice speaking more slowly and deliberately.").

Definition analyzeFillerWords (words : list (list ascii)) : FillerWordAnalysis :=
  let fullText := toLowerCase (join (chars " ") words) in
  let '(fillerWordCounts, totalFillerWords) :=
    countPatterns fullText (countOverused words (countPureFillers words ([], 0%nat))) in
  let fillerWordPercentage :=
    if Nat.ltb 0 (List.length words)
    then ((ofNat totalFillerWords / ofNat (List.length words)) * 100)%Q
    else 0%Q in
  let '(fillerWordScore, fillerWordFeedback) := fillerBand fillerWordPercentage in
  {| totalFillerWords := totalFillerWords;
     fillerWordPercentage := fillerWordPercentage;
     fillerWordScore := fillerWordScore;
     fillerWordFeedback := fillerWordFeedback;
     fillerWordCounts := fillerWordCounts |}.

(** ** Vocabulary *)

Definition analyzeWordComplexity (words : list string) : counts :=
  let count p := List.length (filter p words) in
  [ ("Simple (1-4 letters)", count (fun w => Nat.leb (String.length w) 4));
    ("Medium (5-7 letters)",
     count (fun w => negb (Nat.leb (String.length w) 4) && Nat.leb (String.length w) 7));
    ("Complex (8+ letters)", count (fun w => negb (Nat.leb (String.length w) 7))) ].

(** The band table of the type-token ratio. *)
Definition vocabularyBand (vocabularyDiversity : Q) : Z * string :=
  if Qltb 0.7 vocabularyDiversity then
    (10%Z, "Outstanding vocabulary diversity! You use a rich variety of words.")
  else if Qltb 0.5 vocabularyDiversity then
    (8%Z, "Good vocabulary diversity. Your word choice keeps the content engaging.")
  else if Qltb 0.35 vocabularyDiversity then
    (6%Z, "Decent vocabulary, but try to vary your word choices more for better engagement.")
  else if Qltb 0.2 vocabularyDiversity then
    (4%Z, "Limited vocabulary diversity. Practice using more varied expressions and synonyms.")
  else
    (2%Z, "Very repetitive vocabulary. Focus on expanding your word choices and expressions.").

Definition analyzeVocabulary (words : list (list ascii)) : VocabularyAnalysis :=
  let cleanWords :=
    filter (fun w => Nat.ltb 0 (String.length w)) (map cleanWord words) in
  let uniqueWords := List.length (nodup string_dec cleanWords) in   (* new Set(...).size *)
  let vocabularyDiversity :=
    if Nat.ltb 0 (List.length cleanWords)
    then (ofNat uniqueWords / ofNat (List.length cleanWords))%Q
    else 0%Q in
  let wordComplexityDistribution := analyzeWordComplexity cleanWords in
  let '(vocabularyScore, vocabularyFeedback) := vocabularyBand vocabularyDiversity in
  {| uniqueWords := uniqueWords;
     vocabularyDiversity := vocabularyDiversity;
     vocabularyScore := vocabularyScore;
     vocabularyFeedback := vocabularyFeedback;
     wordComplexityDistribution := wordComplexityDistribution |}.

(** ** Confidence *)

(** [new RegExp(`\\b${word.replace(/\s+/g, '\\s+')}\\b`, 'gi')] *)
Definition phrasePattern (word : string) : regex :=
  seqs [WordB;
        seqs (map (fun seg => match seg with Lit c => Chr c | Hit _ => Plus isSpace end)
                  (segments false (Plus isSpace) (chars word)));
        WordB].

(** The sum over the indicator words of [(textLower.match(regex) || []).length]. *)
Definition countIndicators (indicators : list string) (textLower : list ascii) : nat :=
  fold_left (fun total word =>
               total + List.length (matchAll true (phrasePattern word) textLower))
            indicators 0.

Definition confidenceBand (confidenceScore : Z) : string :=
  if (9 <=? confidenceScore)%Z then
    "You speak with exceptional confidence and authority!"
  else if (7 <=? confidenceScore)%Z then
    "Good confidence level. Your assertions are clear and strong."
  else if (5 <=? confidenceScore)%Z then
    "Moderate confidence. Consider using more definitive language."
  else if (3 <=? confidenceScore)%Z then
    "Work on speaking more confidently. Reduce uncertain language."
  else
    "Focus on building confidence. Use stronger, more assertive statements.".

Definition analyzeConfidence (textLower : list ascii) : ConfidenceAnalysis :=
  let confidenceWords := countIndicators CONFIDENCE_WORDS textLower in
  let uncertaintyWords := countIndicators UNCERTAINTY_WORDS textLower in
  let totalWords := List.length (split false (Plus isSpace) textLower) in
  let confidenceRatio := (ofNat confidenceWords / Qmax (ofNat totalWords / 100) 1)%Q in
  let uncertaintyRatio := (ofNat uncertaintyWords / Qmax (ofNat totalWords / 100) 1)%Q in
  (* Base score starts at 6, up to +3 for confidence words, up to -4 for
     uncertainty words *)
  let confidenceScore :=
    (6 + Qmin (confidenceRatio * 2) 3 - Qmin (uncertaintyRatio * 2) 4)%Q in
  (* Clamp to 1-10 range *)
  let confidenceScore := Z.max 1 (Z.min 10 (round confidenceScore)) in
  {| confidenceScore := confidenceScore;
     confidenceFeedback := confidenceBand confidenceScore;
     confidenceWords := confidenceWords;
     uncertaintyWords := uncertaintyWords |}.

(** ** Overall score *)

Definition weightedScore (pace : PaceAnalysis) (fillers : FillerWordAnalysis)
           (vocabulary : VocabularyAnalysis) (confidence : ConfidenceAnalysis) : Q :=
  (inject_Z (paceScore pace) * 0.25
   + inject_Z (fillerWordScore fillers) * 0.30
   + inject_Z (vocabularyScore vocabulary) * 0.25
   + inject_Z (confidenceScore confidence) * 0.20)%Q.

(** [Math.round(weightedScore * 10) / 10] *)
Definition calculateOverallScore (pace : PaceAnalysis) (fillers : FillerWordAnalysis)
           (vocabulary : VocabularyAnalysis) (confidence : ConfidenceAnalysis) : Q :=
  (inject_Z (round (weightedScore pace fillers vocabulary confidence * 10)) / 10)%Q.

(** ** Recommendations *)

(** Stable insertion into a list sorted by decreasing count. *)
Fixpoint insertByCount (e : string * nat) (sorted : counts) : counts :=
  match sorted with
  | [] => [e]
  | e' :: sorted' =>
      if Nat.ltb (snd e) (snd e') then e' :: insertByCount e sorted' else e :: sorted
  end.

(** [Object.entries(c).sort(([,a], [,b]) => b - a)] *)
Definition sortByCount (c : counts) : counts := fold_right insertByCount [] c.

Definition generateRecommendations (pace : PaceAnalysis) (fillers : FillerWordAnalysis)
           (vocabulary : VocabularyAnalysis) (confidence : ConfidenceAnalysis)
  : list recommendation :=
  let paceRecs :=
    if (paceScore pace <? 7)%Z then [PaceImprovement (paceRecommendation pace)] else [] in
  let fillerRecs :=
    if (fillerWordScore fillers <? 7)%Z then
      let topFillers := map fst (firstn 2 (sortByCount (fillerWordCounts fillers))) in
      if Nat.ltb 0 (List.length topFillers) then [ReduceFillerWords topFillers] else []
    else [] in
  let vocabularyRecs :=
    if (vocabularyScore vocabulary <? 7)%Z
    then [ExpandVocabulary (vocabularyFeedback vocabulary)] else [] in
  let confidenceRecs :=
    if (confidenceScore confidence <? 7)%Z
    then [BoostConfidence (confidenceFeedback confidence)] else [] in
  let recommendations :=
    paceRecs ++ fillerRecs ++ vocabularyRecs ++ confidenceRecs
    ++ [PracticeRegularly; StudyGreatSpeakers] in
  let flagged :=
    filter (fun r => match r with
                     | PaceImprovement _ | ReduceFillerWords _ => true
                     | _ => false
                     end) recommendations in
  if Nat.eqb (List.length flagged) 0
  then recommendations ++ [KeepItUp]
  else recommendations.

(** ** Analyze speech from transcription text *)

Definition analyzeSpeech (text : string) (durationMinutes : Q) : SpeechAnalytics :=
  let words := extractWords (chars text) in
  let totalWords := List.length words in
  let wordsPerMinute :=
    if Qltb 0 durationMinutes then (ofNat totalWords / durationMinutes)%Q else 0%Q in
  let paceAnalysis := analyzePace wordsPerMinute in
  let fillerWordAnalysis := analyzeFillerWords words in
  let vocabularyAnalysis := analyzeVocabulary words in
  let confidenceAnalysis := analyzeConfidence (toLowerCase (chars text)) in
  {| overallScore := calculateOverallScore paceAnalysis fillerWordAnalysis
                                           vocabularyAnalysis confidenceAnalysis;
     totalWords := totalWords;
     wordsPerMinute := wordsPerMinute;
     paceAnalysis := paceAnalysis;
     fillerWordAnalysis := fillerWordAnalysis;
     vocabularyAnalysis := vocabularyAnalysis;
     confidenceAnalysis := confidenceAnalysis;
     recommendations := generateRecommendations paceAnalysis fillerWordAnalysis
                                                vocabularyAnalysis confidenceAnalysis |}.

End SpeechAnalyticsService.

(* ================================================================== *)
(** * Asynchronous code that talks to external collaborators           *)
(* ================================================================== *)

(** An [async] function of a service is a computation over the state of the
    outside world (the media engine, the transcription backend, the clock):
    it completes normally or throws, and leaves a new state in both cases. *)

Module Async.

Inductive completion (A : Type) : Type :=
| Normal (a : A)
| Throw (message : string).

Arguments Normal {A} a.
Arguments Throw {A} message.

Definition M (World A : Type) : Type := World -> completion A * World.

Section Monad.

Variable World : Type.

Definition ret {A : Type} (a : A) : M World A := fun w => (Normal a, w).

Definition throw {A : Type} (message : string) : M World A :=
  fun w => (Throw message, w).

Definition bind {A B : Type} (m : M World A) (k : A -> M World B) : M World B :=
  fun w =>
    match m w with
    | (Normal a, w') => k a w'
    | (Throw e, w') => (Throw e, w')
    end.

(** [try { m } catch (error) { h error.message }] *)
Definition tryCatch {A : Type} (m : M World A) (h : string -> M World A) : M World A :=
  fun w =>
    match m w with
    | (Normal a, w') => (Normal a, w')
    | (Throw e, w') => h e w'
    end.

End Monad.

End Async.

Import Async.

Declare Scope async_scope.
Delimit Scope async_scope with async.
Notation "x <- m ;; k" := (Async.bind m (fun x => k))
  (at level 61, m at next level, right associativity) : async_scope.
Notation "m ;;; k" := (Async.bind m (fun _ => k))
  (at level 61, right associativity) : async_scope.

(* ================================================================== *)
(** * Types of the transcription API (types/transcription)             *)
(* ================================================================== *)

Module Types.

Record TranscriptionConfig : Type := {
  language : option string;
  includeTimestamps : option bool;
  removeFillerWords : option bool;
  chunkDuration : option Q;
  maxRetries : option Z
}.

(** [config = {}] *)
Definition emptyConfig : TranscriptionConfig :=
  {| language := None; includeTimestamps := None; removeFillerWords := None;
     chunkDuration := None; maxRetries := None |}.

(** Of a [TranscriptionResult] the services read the text only. *)
Record TranscriptionResult : Type := {
  text : string
}.

Record MediaInfo : Type := {
  duration : Q;                          (* seconds *)
  format : string;
  hasAudio : bool;
  hasVideo : bool;
  sampleRate : option Z;
  channels : option Z
}.

Record TranscriptionApiResponse : Type := {
  success : bool;
  transcription : string;
  rawTranscription : option string;
  fileName : string;
  responseDuration : option Q;           (* the field [duration], in minutes *)
  analytics : option SpeechAnalyticsService.SpeechAnalytics;
  fillerWordsRemoved : option bool;
  error : option string
}.

(** A value used as a condition: [undefined] and [false] are falsy. *)
Definition truthy (b : option bool) : bool :=
  match b with Some true => true | _ => false end.

End Types.

(* ================================================================== *)
(** * ServerlessMediaProcessingService (serverless-media.service)       *)
(* ================================================================== *)

Module ServerlessMediaProcessingService.

Import Types.
Local Open Scope string_scope.
Local Open Scope list_scope.

(** [Math.ceil(totalDuration / chunkDuration)] *)
Definition numChunks (totalDuration chunkDuration : Q) : Z :=
  Qceiling (totalDuration / chunkDuration).

(** The windows that the loop of [splitAudio] asks the media engine to cut:
    the values of [-ss] ([startTime]) and [-t] ([chunkDuration]) of the
    successive [exec] calls. *)
Definition chunkRequests (totalDuration chunkDurationMinutes : Q) : list (Q * Q) :=
  let chunkDuration := (chunkDurationMinutes * 60)%Q in
  map (fun i => ((inject_Z (Z.of_nat i) * chunkDuration)%Q, chunkDuration))
      (seq 0 (Z.to_nat (numChunks totalDuration chunkDuration))).

Section Service.

Variable Buffer : Type.
Variable World : Type.

(** The media engine (FFmpeg compiled to WebAssembly). *)
Record Engine : Type := {
  (* initialize(): load the engine once *)
  initialize : M World unit;
  (* getMediaInfo(inputBuffer, fileName): probe of the container *)
  getMediaInfo : Buffer -> string -> M World MediaInfo;
  (* extractAudio(inputBuffer, fileName): mono 16 kHz PCM WAV *)
  extractAudio : Buffer -> string -> M World Buffer;
  (* optimizeAudio(inputBuffer, fileName): the same, normalised *)
  optimizeAudio : Buffer -> string -> M World Buffer;
  (* writeFile(inputFileName, inputBuffer) *)
  writeFile : Buffer -> string -> M World unit;
  (* exec(['-i', input, '-ss', startTime, '-t', chunkDuration, ...]),
     readFile(outputFileName) and deleteFile(outputFileName) *)
  cutChunk : Q -> Q -> M World Buffer;
  (* deleteFile(inputFileName) *)
  deleteFile : M World unit
}.

Variable engine : Engine.

Local Open Scope async_scope.

(** The [for] loop over the chunks, pushing each one on [chunks]. *)
Fixpoint cutChunks (requests : list (Q * Q)) (chunks : list Buffer)
  : M World (list Buffer) :=
  match requests with
  | [] => ret chunks
  | (startTime, chunkDuration) :: requests' =>
      chunk <- cutChunk engine startTime chunkDuration ;;
      cutChunks requests' (chunks ++ [chunk])
  end.

(** Split large audio files into chunks *)
Definition splitAudio (inputBuffer : Buffer) (fileName : string)
           (chunkDurationMinutes : Q) : M World (list Buffer) :=
  mediaInfo <- getMediaInfo engine inputBuffer fileName ;;
  let totalDuration := duration mediaInfo in
  if Qle_bool totalDuration (chunkDurationMinutes * 60) then
    (* File is small enough, return as single chunk *)
    ret [inputBuffer]
  else
    initialize engine ;;;
    tryCatch
      (writeFile engine inputBuffer fileName ;;;
       chunks <- cutChunks (chunkRequests totalDuration chunkDurationMinutes) [] ;;
       deleteFile engine ;;;
       ret chunks)
      (fun _ => throw "Failed to split audio file").

End Service.

End ServerlessMediaProcessingService.

(* ================================================================== *)
(** * GeminiTranscriptionService (transcription.service)                *)
(* ================================================================== *)

Module GeminiTranscriptionService.

Import Types.
Local Open Scope string_scope.

Section Service.

Variable Buffer : Type.
Variable World : Type.

(** The transcription backend and the timer. *)
Record Backend : Type := {
  (* transcribe(audioBuffer, fileName, config): one call of the model;
     throws on a rejected payload or a failed request *)
  transcribe : Buffer -> string -> TranscriptionConfig -> M World TranscriptionResult;
  (* sleep(ms) *)
  sleep : Z -> M World unit
}.

Variable backend : Backend.

Local Open Scope async_scope.
Local Open Scope Z_scope.

(** [for (let attempt = ...; attempt <= maxRetries; attempt++)] with
    [n] iterations left. *)
Fixpoint attempts (n : nat) (attempt maxRetries : Z) (lastError : option string)
         (audioBuffer : Buffer) (fileName : string) (config : TranscriptionConfig)
  : M World TranscriptionResult :=
  match n with
  | O =>
      throw (match lastError with
             | Some e => e
             | None => "All transcription attempts failed"
             end)
  | S n' =>
      tryCatch
        (transcribe backend audioBuffer fileName config)
        (fun error =>
           (if attempt <? maxRetries
            then sleep backend (2 ^ attempt * 1000)   (* exponential backoff *)
            else ret tt) ;;;
           attempts n' (attempt + 1) maxRetries (Some error)
                    audioBuffer fileName config)
  end.

(** Transcribe with retry logic *)
Definition transcribeWithRetry (audioBuffer : Buffer) (fileName : string)
           (config : TranscriptionConfig) : M World TranscriptionResult :=
  let maxRetries :=
    match maxRetries config with
    | None | Some 0 => 3               (* config.maxRetries || 3 *)
    | Some n => n
    end in
  attempts (Z.to_nat maxRetries) 1 maxRetries None audioBuffer fileName config.

End Service.

End GeminiTranscriptionService.

(* ================================================================== *)
(** * TranscriptionOrchestrator (orchestrator.service)                  *)
(* ================================================================== *)

Module TranscriptionOrchestrator.

Import Str RegExp Types.
Local Open Scope string_scope.
Local Open Scope list_scope.
Local Open Scope nat_scope.

Local Notation "a +++ b" := (String.append a b) (at level 60, right associativity).

(** ** Remove filler words from transcription text *)

(** The values a [replace] callback receives and returns. *)
Inductive value : Type :=
| Text (s : list ascii)
| Num (n : nat)
| Undefined.

(** [v || ''] keeps [v] when it is truthy. *)
Definition truthyValue (v : value) : bool :=
  match v with
  | Text [] | Num O | Undefined => false
  | _ => true
  end.

(** The string that [replace] substitutes for a returned value. *)
Definition toText (v : value) : list ascii :=
  match v with
  | Text s => s
  | Num n => chars (ofNat n)
  | Undefined => chars "undefined"
  end.

(** The arguments that [replace] hands to its callback after the matched
    substring: one per capturing group ([undefined] for a group that did
    not take part), then the offset of the match, then the whole string
    that is being examined. *)
Definition restArguments (r : regex) (h : hit) (subject : list ascii) : list value :=
  map (fun i => match group i h with Some s => Text s | None => Undefined end)
      (seq 1 (groupCount r))
  ++ [Num (offset h); Text subject].

(** [subject.replace(r, callback)] for a pattern with flags gi. *)
Definition replaceCallback (r : regex)
           (callback : list ascii -> list value -> value) (subject : list ascii)
  : list ascii :=
  replace true r (fun h => toText (callback (matched h) (restArguments r h subject)))
          subject.

Definition pureFillers : list string :=
  ["um"; "uh"; "ah"; "er"; "eh"; "hmm"; "mm"; "mhm"; "uhm"].

(** [\bfiller\b] with flags gi *)
Definition wordPattern (w : string) : regex := seqs [WordB; lit (chars w); WordB].

(** 1. Remove pure filler sounds *)
Definition removePureFillers (cleanText : list ascii) : list ascii :=
  fold_left (fun cleanText filler => replace true (wordPattern filler) (fun _ => []) cleanText)
            pureFillers cleanText.

Definition fillerPatterns : list regex :=
  [ (* "like" as filler (not comparison) *)
    seqs [WordB; lit (chars "like"); Plus isSpace;
          Group 1 (alts ["um"; "uh"; "ah"; "er"; "and then"; "when i"; "so i"]); WordB];
    (* "so" as filler (not conclusion) *)
    seqs [WordB; Group 1 (alts ["um"; "uh"; "ah"; "er"; "like"; "well"]);
          Plus isSpace; lit (chars "so"); WordB];
    seqs [WordB; lit (chars "so"); Plus isSpace;
          Group 1 (alts ["um"; "uh"; "ah"; "er"]); WordB];
    (* Always safe to remove phrases *)
    wordPattern "you know";
    wordPattern "i mean";
    wordPattern "let me think";
    wordPattern "how do i say";
    wordPattern "what do you call it";
    (* "sort of" and "kind of", only when followed by clear fillers *)
    seqs [WordB; lit (chars "sort of"); Plus isSpace;
          Group 1 (alts ["like"; "um"; "uh"]); WordB];
    seqs [WordB; lit (chars "kind of"); Plus isSpace;
          Group 1 (alts ["like"; "um"; "uh"]); WordB] ].

(** The callback [(match, ...groups) => ...] of the pattern pass. *)
Definition keepLastGroup (match_ : list ascii) (groups : list value) : value :=
  if Nat.ltb 0 (List.length groups) then
    let lastGroup := last groups Undefined in       (* groups[groups.length - 1] *)
    if truthyValue lastGroup then lastGroup else Text []
  else Text [].

(** 2. Remove contextual filler patterns *)
Definition removeFillerPatterns (cleanText : list ascii) : list ascii :=
  fold_left (fun cleanText pattern => replaceCallback pattern keepLastGroup cleanText)
            fillerPatterns cleanText.

Definition discourseMarkers : list string :=
  ["well"; "okay"; "right"; "actually"; "basically"].

(** The callback of the marker pass: it counts [removeCount] down. *)
Definition removeExcess (removeCount : nat) (h : hit) : list ascii * nat :=
  if Nat.ltb 0 removeCount
  then ([], removeCount - 1)               (* Remove this instance *)
  else (matched h, removeCount).           (* Keep this instance *)

(** The body of [discourseMarkers.forEach(marker => ...)]. *)
Definition stripMarker (cleanText : list ascii) (marker : string) : list ascii :=
  let globalRegex := wordPattern marker in
  let matches := matchAll true globalRegex cleanText in
  if Nat.ltb 4 (List.length matches) then
    let removeCount := List.length matches - 2 in
    fst (replaceWith true globalRegex removeExcess removeCount cleanText)
  else cleanText.

(** 3. Remove overused discourse markers *)
Definition removeDiscourseMarkers (cleanText : list ascii) : list ascii :=
  fold_left stripMarker discourseMarkers cleanText.

(** 4. Clean up spacing and punctuation *)
Definition cleanUp (cleanText : list ascii) : list ascii :=
  let t1 := replace false (Plus isSpace) (fun _ => chars " ") cleanText in
  let t2 := replace false (Seq (Plus isSpace) (Group 1 (Cls isPunct)))
                    (fun h => ref 1 h) t1 in
  let t3 := replace false
                    (seqs [Group 1 (Cls isPunct); Star isSpace; Group 2 (Cls isPunct)])
                    (fun h => ref 1 h ++ ref 2 h) t2 in
  let t4 := replace false (seqs [Bol; Star isSpace; Cls isPunct; Star isSpace])
                    (fun _ => []) t3 in
  trim t4.

Definition removeFillerWords (text : string) : string :=
  str (cleanUp (removeDiscourseMarkers (removeFillerPatterns
                  (removePureFillers (chars text))))).

(** ** The processing pipeline *)

Section Pipeline.

Variable Buffer : Type.
Variable bufferLength : Buffer -> Z.    (* buffer.length *)
Variable World : Type.
Variable mediaService : ServerlessMediaProcessingService.Engine Buffer World.
Variable transcriptionService : GeminiTranscriptionService.Backend Buffer World.

Local Open Scope async_scope.

Definition transcribeWithRetry :=
  GeminiTranscriptionService.transcribeWithRetry transcriptionService.
Definition splitAudio :=
  ServerlessMediaProcessingService.splitAudio mediaService.
Definition analyzeSpeech := SpeechAnalyticsService.analyzeSpeech.

(** Gemini limit (20MB) *)
Definition maxSize : Z := 20 * 1024 * 1024.

(** [`${fileName}_chunk_${i + 1}`] *)
Definition chunkFileName (fileName : string) (i : nat) : string :=
  fileName +++ "_chunk_" +++ ofNat (i + 1).

Definition failure (fileName message : string) : TranscriptionApiResponse :=
  {| success := false; transcription := ""; rawTranscription := None;
     fileName := fileName; responseDuration := None; analytics := None;
     fillerWordsRemoved := None; error := Some message |}.

(** The chunk loop of the oversized branch of [processFile], from
    index [i] on. *)
Fixpoint oversizedChunks (chunks : list Buffer) (i : nat) (transcriptionText : string)
         (fileName : string) (config : TranscriptionConfig) : M World string :=
  match chunks with
  | [] => ret transcriptionText
  | chunk :: chunks' =>
      if (maxSize <? bufferLength chunk)%Z then
        oversizedChunks chunks' (S i)
          (transcriptionText +++ "[Chunk " +++ ofNat (i + 1) +++ " too large to process] ")
          fileName config
      else
        result <- transcribeWithRetry chunk (chunkFileName fileName i) config ;;
        oversizedChunks chunks' (S i)
          (transcriptionText +++ (if Nat.ltb 0 i then " " else "") +++ text result)
          fileName config
  end.

(** The chunk loop of [processLargeFile], from index [i] on. *)
Fixpoint largeFileChunks (chunks : list Buffer) (i : nat) (chunkResults : list string)
         (fileName : string) (config : TranscriptionConfig) : M World (list string) :=
  match chunks with
  | [] => ret chunkResults
  | chunk :: chunks' =>
      piece <- tryCatch
                 (result <- transcribeWithRetry chunk (chunkFileName fileName i) config ;;
                  ret (text result))
                 (fun _ => ret ("[Chunk " +++ ofNat (i + 1) +++ " transcription failed]")) ;;
      largeFileChunks chunks' (S i) (chunkResults ++ [piece]) fileName config
  end.

(** Process large files by splitting them into chunks *)
Definition processLargeFile (audioBuffer : Buffer) (fileName : string)
           (config : TranscriptionConfig) (chunkDurationMinutes : Q) : M World string :=
  chunks <- splitAudio audioBuffer fileName chunkDurationMinutes ;;
  chunkResults <- largeFileChunks chunks 0 [] fileName config ;;
  ret (String.concat " " chunkResults).

(** Steps 1 and 2: analyze the media file, extract or optimize audio. *)
Definition prepareAudio (fileBuffer : Buffer) (fileName : string)
  : M World (MediaInfo * Buffer) :=
  mediaInfo <- ServerlessMediaProcessingService.getMediaInfo mediaService fileBuffer fileName ;;
  if negb (hasAudio mediaInfo) then
    throw "File does not contain audio that can be transcribed"
  else
    audioBuffer <- (if hasVideo mediaInfo
                    then ServerlessMediaProcessingService.extractAudio mediaService fileBuffer fileName
                    else ServerlessMediaProcessingService.optimizeAudio mediaService fileBuffer fileName) ;;
    ret (mediaInfo, audioBuffer).

(** Steps 4 to 6: analytics on the raw transcription, filtering for
    display afterwards, and the complete result. *)
Definition complete (fileName : string) (config : TranscriptionConfig)
           (mediaInfo : MediaInfo) (transcriptionText : string)
  : TranscriptionApiResponse :=
  let durationMinutes := (duration mediaInfo / 60)%Q in
  let analytics := analyzeSpeech transcriptionText durationMinutes in
  let displayText :=
    if truthy (Types.removeFillerWords config)
    then removeFillerWords transcriptionText
    else transcriptionText in
  {| success := true;
     transcription := displayText;             (* Filtered for display *)
     rawTranscription := Some transcriptionText;
     fileName := fileName;
     responseDuration := Some durationMinutes;
     analytics := Some analytics;
     fillerWordsRemoved := Some (truthy (Types.removeFillerWords config));
     error := None |}.

(** The [try] block of [processFile]. *)
Definition processFileBody (fileBuffer : Buffer) (fileName : string)
           (config : TranscriptionConfig) : M World TranscriptionApiResponse :=
  prepared <- prepareAudio fileBuffer fileName ;;
  let '(mediaInfo, audioBuffer) := prepared in
  if (maxSize <? bufferLength audioBuffer)%Z then
    (* Force chunk processing for large files, with smaller chunks *)
    let maxDurationMinutes := 5%Q in
    chunks <- splitAudio audioBuffer fileName maxDurationMinutes ;;
    transcriptionText <- oversizedChunks chunks 0 "" fileName config ;;
    (* Return early with chunked results *)
    ret {| success := true;
           transcription := transcriptionText;
           rawTranscription := None;
           fileName := fileName;
           responseDuration := Some (duration mediaInfo / 60)%Q;
           analytics := Some (analyzeSpeech transcriptionText (duration mediaInfo / 60)%Q);
           fillerWordsRemoved := None;
           error := None |}
  else
    let maxDurationMinutes := 10%Q in
    transcriptionText <-
      (if Qltb (maxDurationMinutes * 60) (duration mediaInfo) then
         processLargeFile audioBuffer fileName config maxDurationMinutes
       else
         result <- transcribeWithRetry audioBuffer fileName config ;;
         ret (text result)) ;;
    ret (complete fileName config mediaInfo transcriptionText).

(** Process uploaded file: extract audio, transcribe, and analyze *)
Definition processFile (fileBuffer : Buffer) (fileName : string)
           (config : TranscriptionConfig) : M World TranscriptionApiResponse :=
  tryCatch (processFileBody fileBuffer fileName config)
           (fun message => ret (failure fileName message)).

(** [onProgress?: (stage, progress, message) => void] *)
Definition progressCallback : Type := string -> Q -> string -> M World unit.

Definition updateProgress (onProgress : option progressCallback)
           (stage : string) (progress : Q) (message : string) : M World unit :=
  match onProgress with
  | Some callback => callback stage progress message
  | None => ret tt
  end.

(** The chunk loop of [processFileWithProgress], from index [i] on. *)
Fixpoint progressChunks (onProgress : option progressCallback) (total : nat)
         (chunks : list Buffer) (i : nat) (transcriptionText : string)
         (fileName : string) (config : TranscriptionConfig) : M World string :=
  match chunks with
  | [] => ret transcriptionText
  | chunk :: chunks' =>
      let chunkProgress :=
        (40 + 40 * (inject_Z (Z.of_nat i) / inject_Z (Z.of_nat total)))%Q in
      updateProgress onProgress "transcribing" chunkProgress
        ("Processing chunk " +++ ofNat (i + 1) +++ "/" +++ ofNat total +++ "...") ;;;
      result <- transcribeWithRetry chunk (chunkFileName fileName i) config ;;
      progressChunks onProgress total chunks' (S i)
        (transcriptionText +++ (if Nat.ltb 0 i then " " else "") +++ text result)
        fileName config
  end.

(** The [try] block of [processFileWithProgress]. *)
Definition processFileWithProgressBody (fileBuffer : Buffer) (fileName : string)
           (config : TranscriptionConfig) (onProgress : option progressCallback)
  : M World TranscriptionApiResponse :=
  updateProgress onProgress "processing" 10 "Analyzing media file..." ;;;
  mediaInfo <- ServerlessMediaProcessingService.getMediaInfo mediaService fileBuffer fileName ;;
  if negb (hasAudio mediaInfo) then
    throw "File does not contain audio that can be transcribed"
  else
    updateProgress onProgress "processing" 25 "Optimizing audio..." ;;;
    audioBuffer <- (if hasVideo mediaInfo
                    then ServerlessMediaProcessingService.extractAudio mediaService fileBuffer fileName
                    else ServerlessMediaProcessingService.optimizeAudio mediaService fileBuffer fileName) ;;
    updateProgress onProgress "transcribing" 40 "Starting transcription..." ;;;
    let maxDurationMinutes := 10%Q in
    transcriptionText <-
      (if Qltb (maxDurationMinutes * 60) (duration mediaInfo) then
         chunks <- splitAudio audioBuffer fileName maxDurationMinutes ;;
         progressChunks onProgress (List.length chunks) chunks 0 "" fileName config
       else
         result <- transcribeWithRetry audioBuffer fileName config ;;
         ret (text result)) ;;
    updateProgress onProgress "analyzing" 85 "Analyzing speech patterns..." ;;;
    let response := complete fileName config mediaInfo transcriptionText in
    updateProgress onProgress "completed" 100 "Processing complete!" ;;;
    ret response.

(** Process file with progress callback *)
Definition processFileWithProgress (fileBuffer : Buffer) (fileName : string)
           (config : TranscriptionConfig) (onProgress : option progressCallback)
  : M World TranscriptionApiResponse :=
  tryCatch (processFileWithProgressBody fileBuffer fileName config onProgress)
           (fun message => ret (failure fileName message)).

End Pipeline.

End TranscriptionOrchestrator.

(* ================================================================== *)
(** * Notions used to state the properties of SimpleDurationExtractor   *)
(* ================================================================== *)

Module DurationSpec.

Import Buf SimpleDurationExtractor.
Local Open Scope Z_scope.

(** A read either throws or gives an unsigned 32-bit value. *)
Inductive reads (m : run Z) : Prop :=
| reads_value (v : Z) : m = Done v -> 0 <= v < 2 ^ 32 -> reads m
| reads_throw (e : string) : m = Raise e -> reads m.

(** What a header parser can come to: a duration read from the header,
    marked exact, or an exception. *)
Inductive parsed (m : run MediaDurationInfo) : Prop :=
| parsed_exact (info : MediaDurationInfo) :
    m = Done info -> isEstimated info = false -> parsed m
| parsed_throw (e : string) : m = Raise e -> parsed m.

(** The same for a loop that may also end without a result. *)
Inductive searched (m : run (option MediaDurationInfo)) : Prop :=
| searched_exact (info : MediaDurationInfo) :
    m = Done (Some info) -> isEstimated info = false -> searched m
| searched_none : m = Done None -> searched m
| searched_throw (e : string) : m = Raise e -> searched m.

(** What an extractor with its own fallback returns. *)
Inductive extracted (buffer : Buffer) (rate : Z) (m : run MediaDurationInfo) : Prop :=
| extracted_exact (info : MediaDurationInfo) :
    m = Done info -> isEstimated info = false -> extracted buffer rate m
| extracted_estimate : m = Done (estimate buffer rate) -> extracted buffer rate m.

(** The assumed bytes per second of the size-based estimates: WAV, MP3,
    MP4 and the other formats. *)
Definition fallbackRates : list Z := [176400; 16000; 125000; 32000].

Definition exact (dataSize byteRate : Z) : MediaDurationInfo :=
  {| duration := round_div dataSize byteRate; isEstimated := false |}.

(** ** Encoding of a RIFF/WAVE file *)

Definition byteOf (z : Z) : byte :=
  match Byte.of_N (Z.to_N (z mod 256)) with
  | Some b => b
  | None => x00
  end.

(** Four bytes, least significant first. *)
Definition le32 (n : Z) : list byte :=
  map byteOf [n; n / 2 ^ 8; n / 2 ^ 16; n / 2 ^ 24].

Definition tag (s : string) : list byte :=
  map byte_of_ascii (list_ascii_of_string s).

(** A sub-chunk: four bytes of identifier and a body. *)
Record subchunk : Type := {
  tagBytes : list byte;
  body : list byte
}.

Definition size (c : subchunk) : Z := Z.of_nat (List.length (body c)).

(** Identifier, little-endian size, body; no padding byte. *)
Definition encode (c : subchunk) : list byte :=
  tagBytes c ++ le32 (size c) ++ body c.

(** A sub-chunk that the walk steps over while it looks for [id]. *)
Definition skipped (id : string) (c : subchunk) : Prop :=
  List.length (tagBytes c) = 4%nat
  /\ toString (tagBytes c) 0 4 <> id
  /\ size c < 2 ^ 32.

(** The body of the format chunk: format tag and channel count ([head]),
    sample rate, byte rate, then block alignment, bits per sample and any
    extension ([tail]). *)
Definition fmtBody (head : list byte) (sampleRate byteRate : Z) (tail : list byte)
  : list byte :=
  head ++ le32 sampleRate ++ le32 byteRate ++ tail.

Definition fmtChunkOf (head : list byte) (sampleRate byteRate : Z) (tail : list byte)
  : subchunk :=
  {| tagBytes := tag "fmt "; body := fmtBody head sampleRate byteRate tail |}.

(** What follows the format chunk: other sub-chunks, then 'data', its
    size and [back], the audio bytes and whatever follows them. *)
Definition afterFmt (mid : list subchunk) (dataSize : Z) (back : list byte) : list byte :=
  List.concat (map encode mid) ++ tag "data" ++ le32 dataSize ++ back.

Definition wavFile (riffSize : Z) (pre : list subchunk)
           (head : list byte) (sampleRate byteRate : Z) (tail : list byte)
           (mid : list subchunk) (dataSize : Z) (payload trailer : list byte)
  : Buffer :=
  tag "RIFF" ++ le32 riffSize ++ tag "WAVE"
  ++ List.concat (map encode pre)
  ++ encode (fmtChunkOf head sampleRate byteRate tail)
  ++ afterFmt mid dataSize (payload ++ trailer).

End DurationSpec.

(* ================================================================== *)
(** * Notions used to state the properties of SpeechAnalyticsService    *)
(* ================================================================== *)

Module AnalyticsSpec.

Import Str SpeechAnalyticsService.

(** A token that step 1 of [analyzeFillerWords] counts as a pure filler. *)
Definition isPureFiller (word : list ascii) : bool :=
  includes PURE_FILLER_SOUNDS (cleanWord word).

Definition pureFillerCount (words : list (list ascii)) : nat :=
  List.length (filter isPureFiller words).

(** The transcript without its pure-filler tokens. *)
Definition withoutPureFillers (words : list (list ascii)) : list (list ascii) :=
  filter (fun word => negb (isPureFiller word)) words.

(** The fillers that the other two layers count: overused discourse
    markers and hedge words, and matches of the phrase patterns. *)
Definition contextualFillers (words : list (list ascii)) : nat :=
  totalFillerWords (analyzeFillerWords words) - pureFillerCount words.

(** The words of a transcript, as [analyzeSpeech] splits it. *)
Definition wordsOf (text : string) : list (list ascii) := extractWords (chars text).

End AnalyticsSpec.

(* ================================================================== *)
(** * Notions used to state the properties of removeFillerWords         *)
(* ================================================================== *)

Module NormalizerSpec.

Import Str RegExp.

(** A match extends a cursor: it consumes some code units of the rest. *)
Definition extends (cur cur' : cursor) : Prop :=
  exists consumed,
    rest cur = consumed ++ rest cur'
    /\ pos cur' = (pos cur + List.length consumed)%nat.

(** The text that a list of segments stands for. *)
Definition render (segs : list segment) : list ascii :=
  flat_map (fun seg => match seg with Lit c => [c] | Hit h => matched h end) segs.

(** The same text with every match taken out. *)
Definition literals (segs : list segment) : list ascii :=
  flat_map (fun seg => match seg with Lit c => [c] | Hit _ => [] end) segs.

(** The occurrences of a discourse marker in a text, as the marker pass of
    [removeFillerWords] finds them. *)
Definition markerSegments (marker : string) (cleanText : list ascii) : list segment :=
  segments true (TranscriptionOrchestrator.wordPattern marker) cleanText.

(** The marker pass as the design document words it: the first [budget]
    occurrences are kept, every later one is stripped. *)
Fixpoint keepFirst (budget : nat) (segs : list segment) : list ascii :=
  match segs with
  | [] => []
  | Lit c :: segs' => c :: keepFirst budget segs'
  | Hit h :: segs' =>
      match budget with
      | O => keepFirst O segs'
      | S budget' => matched h ++ keepFirst budget' segs'
      end
  end.

(** The pattern pass as the design document words it: a match is
    replaced by its last captured group if there is one, else deleted. *)
Definition lastCapturedGroup (r : regex) (h : hit) : list ascii :=
  match groupCount r with
  | O => []
  | S n => ref (S n) h
  end.

Definition removeFillerPatternsAsSpecified (cleanText : list ascii) : list ascii :=
  fold_left (fun cleanText pattern => replace true pattern (lastCapturedGroup pattern) cleanText)
            TranscriptionOrchestrator.fillerPatterns cleanText.

Definition removeFillerWordsAsSpecified (text : string) : string :=
  str (TranscriptionOrchestrator.cleanUp
         (TranscriptionOrchestrator.removeDiscourseMarkers
            (removeFillerPatternsAsSpecified
               (TranscriptionOrchestrator.removePureFillers (chars text))))).

(** The tokens of a text: its maximal runs of word characters, the words
    that [\b] delimits. *)
Definition wordTokens (text : string) : list string :=
  map str (matchAll false (Plus isWordChar) (chars text)).

(** The number of times a token occurs in a text. *)
Definition occurrences (token text : string) : nat :=
  count_occ string_dec (wordTokens text) token.

End NormalizerSpec.

(* ================================================================== *)
(** * Notions used to state the properties of the orchestrator          *)
(* ================================================================== *)

Module PipelineSpec.

Import Types.
Local Open Scope string_scope.

Section Outcomes.

Variable Buffer : Type.
Variable World : Type.
Variable transcriptionService : GeminiTranscriptionService.Backend Buffer World.

(** The outcome of [transcribeWithRetry] on each chunk, the chunks being
    taken in index order from index [i] on, each one in the state of the
    world that the chunk before it left, whatever its outcome was. *)
Fixpoint chunkOutcomes (chunks : list Buffer) (i : nat) (fileName : string)
         (config : TranscriptionConfig) (w : World)
  : list (completion TranscriptionResult) * World :=
  match chunks with
  | [] => ([], w)
  | chunk :: chunks' =>
      let '(outcome, w1) :=
        GeminiTranscriptionService.transcribeWithRetry
          transcriptionService chunk
          (TranscriptionOrchestrator.chunkFileName fileName i) config w in
      let '(outcomes, w2) := chunkOutcomes chunks' (S i) fileName config w1 in
      (outcome :: outcomes, w2)
  end.

End Outcomes.

(** What the chunk at index [i] contributes to the transcript of
    [processLargeFile]: its text, or the placeholder of a failed chunk. *)
Definition pieceOf (i : nat) (outcome : completion TranscriptionResult) : string :=
  match outcome with
  | Normal result => text result
  | Throw _ => String.append "[Chunk " (String.append (Str.ofNat (i + 1)) " transcription failed]")
  end.

Fixpoint piecesFrom (i : nat) (outcomes : list (completion TranscriptionResult))
  : list string :=
  match outcomes with
  | [] => []
  | outcome :: outcomes' => pieceOf i outcome :: piecesFrom (S i) outcomes'
  end.

(** The value that a run returns, when it does not throw. *)
Definition returned {A World : Type} (run : completion A * World) : option A :=
  match fst run with
  | Normal a => Some a
  | Throw _ => None
  end.

(** The two complete shapes of a response, and the shape that the
    oversized branch of [processFile] returns. *)
Definition fullSuccess (r : TranscriptionApiResponse) : Prop :=
  success r = true
  /\ rawTranscription r <> None
  /\ analytics r <> None
  /\ responseDuration r <> None
  /\ fillerWordsRemoved r <> None
  /\ error r = None.

Definition fullFailure (r : TranscriptionApiResponse) : Prop :=
  success r = false
  /\ transcription r = ""
  /\ error r <> None
  /\ rawTranscription r = None
  /\ analytics r = None
  /\ responseDuration r = None
  /\ fillerWordsRemoved r = None.

Definition partialSuccess (r : TranscriptionApiResponse) : Prop :=
  success r = true
  /\ rawTranscription r = None
  /\ fillerWordsRemoved r = None
  /\ analytics r <> None
  /\ responseDuration r <> None
  /\ error r = None.

End PipelineSpec.

(* ================================================================== *)
(** * Scripted collaborators for concrete runs                          *)
(* ================================================================== *)

Module Scenario.

Import Types.
Local Open Scope string_scope.

(** A buffer is represented by its length. *)
Definition Buffer : Type := Z.
Definition bufferLength (b : Buffer) : Z := b.

(** The state of the world is the number of calls of the backend. *)
Definition World : Type := nat.

(** A media engine that always succeeds: it reports [info], produces
    [audio] from any input and cuts chunks of [chunkLength] bytes. *)
Definition engine (info : MediaInfo) (audio : Buffer) (chunkLength : Z)
  : ServerlessMediaProcessingService.Engine Buffer World :=
  {| ServerlessMediaProcessingService.initialize := ret tt;
     ServerlessMediaProcessingService.getMediaInfo := fun _ _ => ret info;
     ServerlessMediaProcessingService.extractAudio := fun _ _ => ret audio;
     ServerlessMediaProcessingService.optimizeAudio := fun _ _ => ret audio;
     ServerlessMediaProcessingService.writeFile := fun _ _ => ret tt;
     ServerlessMediaProcessingService.cutChunk := fun _ _ => ret chunkLength;
     ServerlessMediaProcessingService.deleteFile := ret tt |}.

(** A backend whose answer depends on the name of the file only. *)
Definition backend (script : string -> completion TranscriptionResult)
  : GeminiTranscriptionService.Backend Buffer World :=
  {| GeminiTranscriptionService.transcribe :=
       fun _ fileName _ w => (script fileName, S w);
     GeminiTranscriptionService.sleep := fun _ => ret tt |}.

Definition audioOnly (seconds : Q) : MediaInfo :=
  {| duration := seconds; format := "wav"; hasAudio := true; hasVideo := false;
     sampleRate := Some 16000%Z; channels := Some 1%Z |}.

(** Three chunks: the first and the third are transcribed, every attempt
    on the second one is rejected. *)
Definition middleChunkFails (fileName : string) : completion TranscriptionResult :=
  if String.eqb fileName "talk.wav_chunk_1" then Normal {| text := "Hello world." |}
  else if String.eqb fileName "talk.wav_chunk_3" then Normal {| text := "Goodbye now." |}
  else Throw "Transcription failed: quota exceeded".

(** Every call answers with the same short text. *)
Definition alwaysAnswers (fileName : string) : completion TranscriptionResult :=
  Normal {| text := "um hello" |}.

Definition withFillerRemoval : TranscriptionConfig :=
  {| language := None; includeTimestamps := None; removeFillerWords := Some true;
     chunkDuration := None; maxRetries := None |}.

End Scenario.

(* ================================================================== *)
(** * Layouts of MP4 and ID3v2 data, to state what the extractor reads  *)
(* ================================================================== *)

Module ContainerSpec.

Import Buf SimpleDurationExtractor DurationSpec.
Local Open Scope Z_scope.

(** Four bytes, most significant first. *)
Definition be32 (n : Z) : list byte :=
  map byteOf [n / 2 ^ 24; n / 2 ^ 16; n / 2 ^ 8; n].

(** ** Atoms of an MP4 / M4A file *)

(** An atom: four bytes of type and a payload; its size field counts the
    eight bytes of the header as well. *)
Record atom : Type := {
  atomType : list byte;
  payload : list byte
}.

Definition atomSize (a : atom) : Z := 8 + Z.of_nat (List.length (payload a)).

(** Big-endian size, type, payload. *)
Definition encodeAtom (a : atom) : list byte :=
  be32 (atomSize a) ++ atomType a ++ payload a.

(** A complete atom that is not read as a movie header. *)
Definition passedOver (a : atom) : Prop :=
  List.length (atomType a) = 4%nat
  /\ toString (atomType a) 0 4 <> "mvhd"%string
  /\ atomSize a < 2 ^ 32.

(** The payload of a movie header of version 0: version, flags, creation
    and modification times on 32 bits, time scale, duration. *)
Definition mvhdVersion0 (flags created modified : list byte) (timeScale duration : Z)
           (rest : list byte) : list byte :=
  [x00] ++ flags ++ created ++ modified ++ be32 timeScale ++ be32 duration ++ rest.

(** The payload of a movie header of a later version: the times and the
    duration are on 64 bits, the duration as its high and low halves. *)
Definition mvhdVersion1 (version : byte) (flags created modified : list byte)
           (timeScale durationHigh durationLow : Z) (rest : list byte) : list byte :=
  [version] ++ flags ++ created ++ modified ++ be32 timeScale
  ++ be32 durationHigh ++ be32 durationLow ++ rest.

(** A file in which a movie header stands at the top level, after the
    atoms [pre]: its size field, its type, its payload. *)
Definition mp4File (pre : list atom) (sizeField : Z) (header : list byte) : Buffer :=
  List.concat (map encodeAtom pre) ++ be32 sizeField ++ tag "mvhd" ++ header.

(** ** ID3v2 tags of an MP3 file *)

(** The ten bytes of the tag header: identifier, version, flags and the
    four bytes of the size. *)
Definition id3Header (version : list byte) (flags : byte) (sizeBytes : list byte)
  : list byte :=
  tag "ID3" ++ version ++ [flags] ++ sizeBytes.

(** A number below 2^28 on four bytes of seven bits, most significant first. *)
Definition synchsafe (n : Z) : list byte :=
  map byteOf [n / 2 ^ 21 mod 128; n / 2 ^ 14 mod 128; n / 2 ^ 7 mod 128; n mod 128].

(** The bytes of a number written with the decimal digits [ds]. *)
Definition digitBytes (ds : list Z) : list byte := map (fun d => byteOf (48 + d)) ds.

Definition isDigit (d : Z) : Prop := 0 <= d <= 9.

(** The character that the 'ascii' decoder gives for the byte of a digit. *)
Definition digitChar (d : Z) : ascii := ascii_char (byteOf (48 + d)).

Definition decimal (ds : list Z) : Z := fold_left (fun acc d => acc * 10 + d) ds 0.

(** A TLEN frame: identifier, size (the encoding byte and the text), two
    bytes of flags, the encoding byte, the length in milliseconds. *)
Definition tlenFrame (frameFlags : list byte) (encoding : byte) (ds : list Z) : list byte :=
  tag "TLEN" ++ be32 (1 + Z.of_nat (List.length ds)) ++ frameFlags ++ [encoding]
  ++ digitBytes ds.

(** The bytes [pre] that stand between the tag header and a TLEN frame do
    not show the identifier of a TLEN frame themselves. *)
Definition noLengthFrameIn (pre : list byte) : Prop :=
  forall j : nat,
    (j < List.length pre)%nat ->
    toString (pre ++ tag "TLEN") (Z.of_nat j) (Z.of_nat j + 4) <> "TLEN"%string.

End ContainerSpec.

(* ================================================================== *)
(** * Notions used to state how texts are split and counted             *)
(* ================================================================== *)

Module TextSpec.

Import Str RegExp SpeechAnalyticsService.
Local Open Scope nat_scope.

(** A text that does not begin with a character of the class [p]. *)
Definition stops (p : ascii -> bool) (s : list ascii) : Prop :=
  match s with
  | [] => True
  | c :: _ => p c = false
  end.

(** A word as [extractWords] gives it: not empty and free of white space. *)
Definition isWord (w : list ascii) : Prop :=
  w <> [] /\ Forall (fun c => isSpace c = false) w.

(** The sum of the values of a [Record<string, number>]. *)
Definition sumCounts (c : counts) : nat := fold_right (fun e total => snd e + total) 0 c.

(** What every step of the three counting passes keeps: the entries add
    up to the running total, every entry is positive, no key is entered
    twice. *)
Definition balanced (t : tally) : Prop :=
  sumCounts (fst t) = snd t
  /\ Forall (fun e => 0 < snd e) (fst t)
  /\ NoDup (map fst (fst t)).

(** The words that [analyzeVocabulary] keeps: lower-cased, stripped of the
    characters outside [\w], the empty ones left out. *)
Definition cleanWordsOf (words : list (list ascii)) : list string :=
  filter (fun w => Nat.ltb 0 (String.length w)) (map cleanWord words).

End TextSpec.

(* ================================================================== *)
(** * GeminiTranscriptionService: one transcription request             *)
(* ================================================================== *)

(** [buffer.toString('base64')]: the standard alphabet, padded with '='. *)
Module Base64.

Import Str Buf.
Local Open Scope Z_scope.

Definition alphabet : list ascii :=
  chars "ABCDEFGHIJKLMNOPQRSTUVWXYZabcdefghijklmnopqrstuvwxyz0123456789+/".

Definition sextet (n : Z) : ascii := nth (Z.to_nat n) alphabet "="%char.

Fixpoint encodeBytes (bytes : list Z) : list ascii :=
  match bytes with
  | b0 :: b1 :: b2 :: rest =>
      sextet (b0 / 4) :: sextet (b0 mod 4 * 16 + b1 / 16)
             :: sextet (b1 mod 16 * 4 + b2 / 64) :: sextet (b2 mod 64)
             :: encodeBytes rest
  | [b0; b1] =>
      [sextet (b0 / 4); sextet (b0 mod 4 * 16 + b1 / 16); sextet (b1 mod 16 * 4); "="%char]
  | [b0] => [sextet (b0 / 4); sextet (b0 mod 4 * 16); "="%char; "="%char]
  | [] => []
  end.

Definition encode (buffer : Buffer) : string := str (encodeBytes (map byte_val buffer)).

End Base64.

Module GeminiTranscribe.

Import Str Buf RegExp Types.
Local Open Scope string_scope.
Local Open Scope list_scope.

Local Notation "a +++ b" := (String.append a b) (at level 60, right associativity).

(** The result of a transcription, as [transcribe] fills it. *)
Record TranscriptionResult : Type := {
  text : string;
  confidence : Q;
  wordCount : nat;
  originalFileName : string;
  processedAt : Z
}.

(** The request sent to the model: the prompt and the inline audio. *)
Record GenerateContentRequest : Type := {
  prompt : string;
  mime_type : string;
  data : string                          (* the audio in base64 *)
}.

(** Gemini has a 20MB limit *)
Definition maxSize : Z := 20 * 1024 * 1024.

(** ** The MIME type of a file *)

(** [bytes.toString() === literal] for a literal of ASCII characters: the
    UTF-8 decoder gives a character below 128 for a byte below 128 only,
    one character for one byte, so the decoded text is the literal
    exactly when the bytes are those of the literal. *)
Definition reads (bytes : list byte) (literal : string) : bool :=
  if list_eq_dec Byte.byte_eq_dec bytes (map byte_of_ascii (chars literal))
  then true else false.

Fixpoint startsWith (literal bytes : list byte) : bool :=
  match literal, bytes with
  | [], _ => true
  | l :: literal', b :: bytes' =>
      (if Byte.byte_eq_dec l b then true else false) && startsWith literal' bytes'
  | _ :: _, [] => false
  end.

(** [bytes.toString().includes(literal)], for the same reason: the bytes
    of the literal stand side by side among the bytes. *)
Fixpoint includesText (bytes : list byte) (literal : list byte) : bool :=
  startsWith literal bytes
  || match bytes with
     | _ :: bytes' => includesText bytes' literal
     | [] => false
     end.

(** [buffer.subarray(start, end)] for [0 <= start <= end]. *)
Definition subarray (buffer : list byte) (start end_ : nat) : list byte :=
  firstn (end_ - start) (skipn start buffer).

(** Detect MIME type from buffer content using magic bytes *)
Definition detectMimeFromBuffer (buffer : Buffer) : string :=
  if (length buffer <? 12)%Z then "audio/wav"        (* Default fallback *)
  else
    let header := subarray buffer 0 12 in
    if reads (subarray header 0 4) "RIFF" && reads (subarray header 8 12) "WAVE"
    then "audio/wav"
    else if (index header 0 =? 255)%Z && (Z.land (index header 1) 224 =? 224)%Z
    then "audio/mpeg"
    else if reads (subarray header 4 8) "ftyp" then
      let subtype := subarray header 8 12 in
      if includesText subtype (map byte_of_ascii (chars "M4A"))
         || includesText subtype (map byte_of_ascii (chars "mp41"))
      then "audio/mp4"
      else "video/mp4"
    else if reads (subarray header 0 4) "OggS" then "audio/ogg"
    else if reads (subarray header 0 4) "fLaC" then "audio/flac"
    else "audio/wav".                                 (* Default fallback *)

(** The [switch] on the extension of the file name. *)
Definition mimeOfExtension (extension : string) : option string :=
  if String.eqb extension "wav" then Some "audio/wav"
  else if String.eqb extension "mp3" then Some "audio/mpeg"
  else if String.eqb extension "mp4" then Some "video/mp4"
  else if String.eqb extension "m4a" then Some "audio/mp4"
  else if String.eqb extension "aac" then Some "audio/aac"
  else if String.eqb extension "ogg" then Some "audio/ogg"
  else if String.eqb extension "flac" then Some "audio/flac"
  else if String.eqb extension "webm" then Some "audio/webm"
  else if String.eqb extension "avi" then Some "video/x-msvideo"
  else if String.eqb extension "mov" then Some "video/quicktime"
  else if String.eqb extension "mkv" then Some "video/x-matroska"
  else if String.eqb extension "wmv" then Some "video/x-ms-wmv"
  else None.

(** Detect MIME type from file name and buffer *)
Definition detectMimeType (fileName : string) (buffer : Buffer) : string :=
  let extension := SimpleDurationExtractor.extensionOf fileName in
  match mimeOfExtension extension with
  | Some mimeType => mimeType
  | None => detectMimeFromBuffer buffer   (* Try to detect from buffer content *)
  end.

Definition supportedFormats : list string :=
  ["audio/wav"; "audio/mpeg"; "audio/aac"; "audio/ogg"; "audio/flac"; "audio/mp4";
   "video/mp4"; "video/mpeg"; "video/quicktime"; "video/x-msvideo"; "video/webm"].

(** Check if the MIME type is supported by Gemini *)
Definition isGeminiSupportedFormat (mimeType : string) : bool :=
  existsb (String.eqb mimeType) supportedFormats.

(** ** The prompt *)

Definition quote : string := String (ascii_of_nat 34) EmptyString.

(** Build the transcription prompt based on config *)
Definition buildPrompt (config : TranscriptionConfig) : string :=
  let prompt :=
    "Transcribe the audio content from this file. Provide an accurate word-for-word transcription." in
  let prompt :=
    match language config with
    | Some language =>
        if negb (String.eqb language "") && negb (String.eqb language "auto")
        then prompt +++ " The spoken language is " +++ language +++ "."
        else prompt
    | None => prompt
    end in
  let prompt :=
    if truthy (includeTimestamps config)
    then prompt +++ " Include timestamps in the format [MM:SS] where possible."
    else prompt in
  prompt +++ " Rules:"
         +++ " - Provide only the transcribed text"
         +++ " - Use proper punctuation and capitalization"
         +++ " - Do not include any commentary, analysis, or explanations"
         +++ " - If multiple speakers, distinguish them with labels like "
         +++ quote +++ "Speaker 1:" +++ quote +++ ", "
         +++ quote +++ "Speaker 2:" +++ quote +++ ", etc."
         +++ " - If audio is unclear, use [inaudible] for unclear portions".

(** ** Words and filler words *)

(** Count words in text *)
Definition countWords (text : string) : nat :=
  List.length (filter (fun word => Nat.ltb 0 (List.length word))
                      (split false (Plus isSpace) (chars text))).

Definition fillerWords : list string :=
  ["um"; "uh"; "ah"; "er"; "eh"; "hmm"; "mm"; "mhm";
   "like"; "you know"; "so"; "well"; "okay"; "right";
   "basically"; "actually"; "literally"; "i mean"].

(** Remove filler words from transcription (the private helper of the
    service, which [transcribe] does not call). *)
Definition removeFillerWords (text : string) : string :=
  let cleanText :=
    fold_left (fun cleanText filler =>
                 (* new RegExp(`\\b${filler}\\b`, 'gi') *)
                 replace true (seqs [WordB; lit (chars filler); WordB]) (fun _ => [])
                         cleanText)
              fillerWords (chars text) in
  (* Clean up extra spaces *)
  str (trim (replace false (Plus isSpace) (fun _ => chars " ") cleanText)).

(** ** One request *)

Section Service.

Variable World : Type.

(** The generative model and the clock. *)
Record Collaborators : Type := {
  (* model.generateContent(requestBody), result.response, response.text() *)
  generateContent : GenerateContentRequest -> M World string;
  (* new Date() *)
  now : M World Z
}.

Variable services : Collaborators.

Local Open Scope async_scope.

(** [`${n}`] for a size. *)
Definition ofSize (n : Z) : string := ofNat (Z.to_nat n).

(** Transcribe audio file buffer using Gemini API.  An exception of a
    collaborator is an [Error] with a message. *)
Definition transcribe (audioBuffer : Buffer) (fileName : string)
           (config : TranscriptionConfig) : M World TranscriptionResult :=
  tryCatch
    (if (maxSize <? length audioBuffer)%Z then
       throw ("Audio file too large: " +++ ofSize (length audioBuffer)
              +++ " bytes (max: " +++ ofSize maxSize +++ " bytes)")
     else
       let base64Audio := Base64.encode audioBuffer in
       let mimeType := detectMimeType fileName audioBuffer in
       if negb (isGeminiSupportedFormat mimeType) then
         throw ("Unsupported file format: " +++ mimeType
                +++ ". Supported formats: WAV, MP3, AAC, OGG, FLAC, MP4, MOV, AVI, WebM")
       else
         let requestBody :=
           {| prompt := buildPrompt config; mime_type := mimeType; data := base64Audio |} in
         tryCatch
           (transcriptionText <- generateContent services requestBody ;;
            processedAt <- now services ;;
            (* no filtering here - done at orchestrator level *)
            ret {| text := transcriptionText;
                   confidence := 0.95;
                   wordCount := countWords transcriptionText;
                   originalFileName := fileName;
                   processedAt := processedAt |})
           (fun apiError => throw apiError))
    (fun error => throw ("Transcription failed: " +++ error)).

(** The service as the retry loop and the orchestrator use it: of the
    result they read the text. *)
Definition backend (sleep : Z -> M World unit)
  : GeminiTranscriptionService.Backend Buffer World :=
  {| GeminiTranscriptionService.transcribe :=
       fun audioBuffer fileName config =>
         result <- transcribe audioBuffer fileName config ;;
         ret {| Types.text := text result |};
     GeminiTranscriptionService.sleep := sleep |}.

End Service.

End GeminiTranscribe.

(* ================================================================== *)
(** * Notions used to state the properties of one request               *)
(* ================================================================== *)

Module GeminiSpec.

Import Buf Types GeminiTranscribe.

(** The two checks that precede a request: the size and the format. *)
Definition accepted (audioBuffer : Buffer) (fileName : string) : bool :=
  (length audioBuffer <=? maxSize)%Z
  && isGeminiSupportedFormat (detectMimeType fileName audioBuffer).

(** The request that [transcribe] builds for a file. *)
Definition requestFor (audioBuffer : Buffer) (fileName : string)
           (config : TranscriptionConfig) : GenerateContentRequest :=
  {| prompt := buildPrompt config;
     mime_type := detectMimeType fileName audioBuffer;
     data := Base64.encode audioBuffer |}.

End GeminiSpec.

(* ================================================================== *)
(** * A backend that records its calls, to state what the retry loop does *)
(* ================================================================== *)

Module RetrySpec.

Import Types.
Local Open Scope Z_scope.

Inductive event : Type :=
| Called (fileName : string)             (* one call of [transcribe] *)
| Slept (ms : Z).                        (* one call of [sleep] *)

(** The state of the world is the list of the calls made so far. *)
Definition Log : Type := list event.

Definition calls (log : Log) : nat :=
  List.length (filter (fun e => match e with Called _ => true | Slept _ => false end) log).

(** A backend whose [k]-th call (from 0) is answered by [script k]. *)
Definition scripted (Buffer : Type) (script : nat -> completion TranscriptionResult)
  : GeminiTranscriptionService.Backend Buffer Log :=
  {| GeminiTranscriptionService.transcribe :=
       fun _ fileName _ log => (script (calls log), log ++ [Called fileName]);
     GeminiTranscriptionService.sleep :=
       fun ms log => (Normal tt, log ++ [Slept ms]) |}.

(** [config.maxRetries || 3] *)
Definition effectiveRetries (config : TranscriptionConfig) : Z :=
  match maxRetries config with
  | None | Some 0 => 3
  | Some n => n
  end.

(** The calls of a loop that ends with its attempt number
    [attempt + remaining - 1]: a call for each attempt, a pause of
    [2 ^ attempt] seconds after each one but the last. *)
Fixpoint retryLog (fileName : string) (attempt : Z) (remaining : nat) : Log :=
  match remaining with
  | O => []
  | S remaining' =>
      Called fileName ::
      match remaining' with
      | O => []
      | S _ => Slept (2 ^ attempt * 1000) :: retryLog fileName (attempt + 1) remaining'
      end
  end.

Definition failed {A : Type} (outcome : completion A) : Prop :=
  exists e, outcome = Throw e.

End RetrySpec.

(* ================================================================== *)
(** * GoogleDriveService (google-drive.service): the links              *)
(* ================================================================== *)

Module GoogleDriveService.

Import Str RegExp.
Local Open Scope string_scope.
Local Open Scope list_scope.
Local Open Scope nat_scope.

(** [[a-zA-Z0-9_-]] *)
Definition isIdChar (c : ascii) : bool := isWordChar c || (code c =? 45)%N.

(** [class{n,}]: [n] characters of the class, then as many as there are. *)
Definition atLeast (n : nat) (p : ascii -> bool) : regex :=
  seqs (repeat (Cls p) n ++ [Star p]).

(** [subject.match(pattern)] for a pattern without the g flag: the first
    match from the left, or [null]. *)
Definition firstMatch (pattern : regex) (subject : list ascii) : option hit :=
  hd_error (hits (segments false pattern subject)).

Fixpoint startsWith (prefix s : list ascii) : bool :=
  match prefix, s with
  | [], _ => true
  | c :: prefix', d :: s' => Ascii.eqb c d && startsWith prefix' s'
  | _ :: _, [] => false
  end.

(** [s.includes(part)] *)
Fixpoint includes (s part : list ascii) : bool :=
  startsWith part s
  || match s with
     | _ :: s' => includes s' part
     | [] => false
     end.

(** [prefix([a-zA-Z0-9_-]{10,})] *)
Definition longId (prefix : string) : regex :=
  Seq (lit (chars prefix)) (Group 1 (atLeast 10 isIdChar)).

(** [prefix([a-zA-Z0-9_-]+)] *)
Definition anyId (prefix : regex) : regex :=
  Seq prefix (Group 1 (Plus isIdChar)).

Definition sharePrefixes : list string :=
  [ (* Most common format: https://drive.google.com/file/d/FILE_ID/view?usp=sharing *)
    "https://drive.google.com/file/d/";
    (* Open format: https://drive.google.com/open?id=FILE_ID *)
    "https://drive.google.com/open?id=";
    (* Docs formats *)
    "https://docs.google.com/document/d/";
    "https://docs.google.com/presentation/d/";
    "https://docs.google.com/spreadsheets/d/" ].

Definition directPrefix : string := "https://drive.google.com/uc?export=download&id=".

(** The [for] loop over the patterns: the file ID of the first pattern
    whose match has a first group of ten characters or more. *)
Fixpoint firstFileId (patterns : list regex) (cleanUrl : list ascii)
  : option (list ascii) :=
  match patterns with
  | [] => None
  | pattern :: patterns' =>
      match firstMatch pattern cleanUrl with
      | Some match_ =>
          match group 1 match_ with
          | Some fileId =>
              if Nat.ltb 0 (List.length fileId) && Nat.leb 10 (List.length fileId)
              then Some fileId
              else firstFileId patterns' cleanUrl
          | None => firstFileId patterns' cleanUrl
          end
      | None => firstFileId patterns' cleanUrl
      end
  end.

(** The message of the error thrown for a link of no known format. *)
Definition invalidFormat : string :=
  "Invalid Google Drive URL format. Please ensure you're using a valid Google Drive share link like: https://drive.google.com/file/d/FILE_ID/view?usp=sharing".

(** Convert Google Drive share link to direct download link *)
Definition convertToDirectDownloadLink (driveUrl : string) : run string :=
  (* Clean the URL first *)
  let cleanUrl := trim (chars driveUrl) in
  match firstFileId (map longId sharePrefixes) cleanUrl with
  | Some fileId => Done (str (chars directPrefix ++ fileId))
  | None =>
      (* If already a direct download link, return as-is *)
      if includes cleanUrl (chars "drive.google.com/uc?")
         && includes cleanUrl (chars "export=download")
      then Done (str cleanUrl)
      else Raise invalidFormat
  end.

(** Check if URL is a Google Drive link *)
Definition isGoogleDriveUrl (url : string) : bool :=
  let cleanUrl := trim (chars url) in
  match firstMatch (seqs [lit (chars "https://"); Group 1 (alts ["drive"; "docs"]);
                          lit (chars ".google.com")]) cleanUrl with
  | Some _ => true
  | None => false
  end.

Definition idPatterns : list regex :=
  [ anyId (lit (chars "https://drive.google.com/file/d/"));
    anyId (lit (chars "https://drive.google.com/open?id="));
    anyId (seqs [lit (chars "https://docs.google.com/");
                 alts ["document"; "presentation"; "spreadsheets"];
                 lit (chars "/d/")]) ].

(** The [for] loop of [extractFileId]. *)
Fixpoint firstGroup (patterns : list regex) (driveUrl : list ascii)
  : option (list ascii) :=
  match patterns with
  | [] => None
  | pattern :: patterns' =>
      match firstMatch pattern driveUrl with
      | Some match_ =>
          match group 1 match_ with
          | Some fileId =>
              if Nat.ltb 0 (List.length fileId) then Some fileId
              else firstGroup patterns' driveUrl
          | None => firstGroup patterns' driveUrl
          end
      | None => firstGroup patterns' driveUrl
      end
  end.

(** Extract file ID from Google Drive URL; [None] is [null]. *)
Definition extractFileId (driveUrl : string) : option string :=
  option_map str (firstGroup idPatterns (chars driveUrl)).

End GoogleDriveService.

(* ================================================================== *)
(** * Notions used to state the properties of the links                 *)
(* ================================================================== *)

Module LinkSpec.

Import Str RegExp GoogleDriveService.
Local Open Scope nat_scope.

(** The cursor after the characters [w] have been passed. *)
Fixpoint advance (w : list ascii) (cur : cursor) : cursor :=
  match w with
  | [] => cur
  | c :: w' =>
      advance w' {| before := Some c; pos := S (pos cur); rest := tl (rest cur) |}
  end.

(** The last character of [block], or [b] when it is empty. *)
Fixpoint lastOf (b : option ascii) (block : list ascii) : option ascii :=
  match block with
  | [] => b
  | c :: block' => lastOf (Some c) block'
  end.

(** A property of a text and of all the texts that remain when
    characters are taken from its front. *)
Fixpoint everywhere (P : list ascii -> Prop) (s : list ascii) : Prop :=
  P s /\ match s with
         | [] => True
         | _ :: s' => everywhere P s'
         end.

(** The pattern [r] does not match where the text [t] begins, whatever
    precedes. *)
Definition noMatchAt (r : regex) (t : list ascii) : Prop :=
  forall (b : option ascii) (n : nat),
    exec false r {| before := b; pos := n; rest := t |} = None.

(** An identifier as the links carry it. *)
Definition isId (id : list ascii) : Prop := Forall (fun c => isIdChar c = true) id.

(** What may follow an identifier in a link: nothing, or a character
    that cannot belong to it; and no colon, so that no second link
    follows. *)
Definition isTail (tail : list ascii) : Prop :=
  TextSpec.stops isIdChar tail /\ Forall (fun c => c <> ":"%char) tail.

End LinkSpec.

(* ================================================================== *)
(** * A progress callback that records what it is told                  *)
(* ================================================================== *)

Module ProgressSpec.

Import Types.
Local Open Scope string_scope.

(** One call of [onProgress]: the stage and the percentage. *)
Definition report : Type := (string * Q)%type.

Section Recording.

Variable Buffer : Type.
Variable World : Type.

(** The world of the collaborators, and the reports received so far
    (the latest last). *)
Definition Recorded : Type := (World * list report)%type.

(** An operation of the collaborators: it leaves the reports alone. *)
Definition lift (A : Type) (m : M World A) : M Recorded A :=
  fun s => let (r, w') := m (fst s) in (r, (w', snd s)).

Definition liftEngine (engine : ServerlessMediaProcessingService.Engine Buffer World)
  : ServerlessMediaProcessingService.Engine Buffer Recorded :=
  {| ServerlessMediaProcessingService.initialize :=
       lift (ServerlessMediaProcessingService.initialize engine);
     ServerlessMediaProcessingService.getMediaInfo :=
       fun b f => lift (ServerlessMediaProcessingService.getMediaInfo engine b f);
     ServerlessMediaProcessingService.extractAudio :=
       fun b f => lift (ServerlessMediaProcessingService.extractAudio engine b f);
     ServerlessMediaProcessingService.optimizeAudio :=
       fun b f => lift (ServerlessMediaProcessingService.optimizeAudio engine b f);
     ServerlessMediaProcessingService.writeFile :=
       fun b f => lift (ServerlessMediaProcessingService.writeFile engine b f);
     ServerlessMediaProcessingService.cutChunk :=
       fun t d => lift (ServerlessMediaProcessingService.cutChunk engine t d);
     ServerlessMediaProcessingService.deleteFile :=
       lift (ServerlessMediaProcessingService.deleteFile engine) |}.

Definition liftBackend (backend : GeminiTranscriptionService.Backend Buffer World)
  : GeminiTranscriptionService.Backend Buffer Recorded :=
  {| GeminiTranscriptionService.transcribe :=
       fun b f c => lift (GeminiTranscriptionService.transcribe backend b f c);
     GeminiTranscriptionService.sleep :=
       fun ms => lift (GeminiTranscriptionService.sleep backend ms) |}.

(** An operation that makes no report. *)
Definition quiet (A : Type) (m : M Recorded A) : Prop :=
  forall s, snd (snd (m s)) = snd s.

(** The callback: it appends the report and returns. *)
Definition record : TranscriptionOrchestrator.progressCallback Recorded :=
  fun stage progress _ s => (Normal tt, (fst s, (snd s ++ [(stage, progress)])%list)).

(** [processFileWithProgress] with the recording callback, no report
    having been made before. *)
Definition observed (engine : ServerlessMediaProcessingService.Engine Buffer World)
           (backend : GeminiTranscriptionService.Backend Buffer World)
           (fileBuffer : Buffer) (fileName : string) (config : TranscriptionConfig)
           (w : World) : completion TranscriptionApiResponse * Recorded :=
  TranscriptionOrchestrator.processFileWithProgress
    (liftEngine engine) (liftBackend backend) fileBuffer fileName config
    (Some record) (w, []).

End Recording.

(** The percentage reported before chunk [i] of [total]. *)
Definition chunkReport (total i : nat) : report :=
  ("transcribing",
   (40 + 40 * (inject_Z (Z.of_nat i) / inject_Z (Z.of_nat total)))%Q).

(** All the reports of a job of [total] chunks ([0] for a file that is
    not cut) that succeeds. *)
Definition schedule (total : nat) : list report :=
  ([("processing", 10%Q); ("processing", 25%Q); ("transcribing", 40%Q)]
     ++ map (chunkReport total) (seq 0 total)
     ++ [("analyzing", 85%Q); ("completed", 100%Q)])%list.

(** The percentages never go down. *)
Definition rising (reports : list report) : Prop :=
  forall (i j : nat) (a b : report),
    (i <= j)%nat -> nth_error reports i = Some a -> nth_error reports j = Some b ->
    (snd a <= snd b)%Q.

End ProgressSpec.

(* ================================================================== *)
(** * AccurateDurationExtractor (accurate-duration-extractor.service)   *)
(* ================================================================== *)

Module AccurateDurationExtractor.

Import Str Buf.
Local Open Scope string_scope.

Local Notation "a +++ b" := (String.append a b) (at level 60, right associativity).

(** [metadata.format] as music-metadata returns it, with the fields that
    are read; a number that is [undefined] or [NaN] is [None]. *)
Record IFormat : Type := {
  duration : option Q;                   (* seconds *)
  bitrate : option Q;
  codec : option string
}.

(** A number used as a condition: [undefined], [NaN] and [0] are falsy. *)
Definition truthyNumber (x : option Q) : bool :=
  match x with
  | Some q => negb (Qeq_bool q 0)
  | None => false
  end.

(** A string used as a condition: [undefined] and [''] are falsy. *)
Definition truthyString (s : option string) : bool :=
  match s with
  | Some s => negb (String.eqb s "")
  | None => false
  end.

Section Service.

Variable World : Type.

(** [parseBuffer(buffer, undefined, options)] of music-metadata, then
    [.format]. *)
Variable parseBuffer : Buffer -> M World IFormat.

Local Open Scope async_scope.

(** Handle complex container formats that might need special handling *)
Definition handleComplexContainer (buffer : Buffer) (fileName : string)
           (metadata : IFormat) : M World Z :=
  (* For now, we refuse to estimate and ask for a supported format instead *)
  let extension := SimpleDurationExtractor.extensionOf fileName in
  throw ("Complex " +++ extension
         +++ " container detected. Please convert to a standard format (MP4, MP3, WAV) for accurate duration extraction.").

(** Extract exact duration from media file using metadata parsing *)
Definition extractDuration (buffer : Buffer) (fileName : string) : M World Z :=
  tryCatch
    (metadata <- parseBuffer buffer ;;
     let duration := duration metadata in
     let bitrate := bitrate metadata in
     let codec := codec metadata in
     if truthyNumber duration
        && match duration with Some d => Qltb 0 d | None => false end
     then
       let roundedDuration :=
         round (match duration with Some d => d | None => 0 end) in
       ret roundedDuration
     else if truthyNumber bitrate || truthyString codec then
       (* If no duration but we have other metadata *)
       handleComplexContainer buffer fileName metadata
     else
       throw "No duration information found in file metadata")
    (fun _ =>
       (* Instead of estimation, throw an error with helpful message *)
       throw ("Cannot extract duration from " +++ fileName
              +++ ". This file format may not be supported for duration extraction. Please try converting to MP4, MP3, or WAV format.")).

End Service.

End AccurateDurationExtractor.

(* ================================================================== *)
(** * The API route /api/transcribe (pages/api/transcribe)              *)
(* ================================================================== *)

Module TranscribeApi.

Import Str Buf RegExp Types.
Local Open Scope string_scope.
Local Open Scope list_scope.

Local Notation "a +++ b" := (String.append a b) (at level 60, right associativity).

(** A file of the form, as formidable describes it. *)
Record UploadedFile : Type := {
  originalFilename : option string;
  mimetype : option string;
  size : Z;
  filepath : string
}.

(** What [GoogleDriveService.downloadFile] returns. *)
Record DownloadResult : Type := {
  buffer : Buffer;
  filename : string;
  downloadSize : Z
}.

(** Of the request, what the handler reads. *)
Record Request : Type := {
  method : string;
  contentType : option string            (* req.headers['content-type'] *)
}.

Inductive details : Type :=
| FileDetails (fileSize maxSize : Z) (fileName : option string)
| Received (text : string).

(** The bodies of the answers; a field that is absent is [None]. *)
Record Json : Type := {
  success : option bool;
  error : option string;
  message : option string;
  errorDetails : option details;
  transcription : option string;
  fileName : option string;
  duration : option Z;                   (* seconds *)
  analytics : option SpeechAnalyticsService.SpeechAnalytics
}.

(** [res.status(status).json(json)] *)
Record Response : Type := {
  status : Z;
  json : Json
}.

(** [{ error }] *)
Definition errorOnly (error : string) : Json :=
  {| success := None; error := Some error; message := None; errorDetails := None;
     transcription := None; fileName := None; duration := None; analytics := None |}.

(** [{ success: false, error, message, details }] *)
Definition failed (error : string) (message : option string) (details : option details)
  : Json :=
  {| success := Some false; error := Some error; message := message;
     errorDetails := details;
     transcription := None; fileName := None; duration := None; analytics := None |}.

(** [{ success: true, transcription, fileName, duration, analytics }] *)
Definition succeeded (transcription fileName : string) (duration : Z)
           (analytics : SpeechAnalyticsService.SpeechAnalytics) : Json :=
  {| success := Some true; error := None; message := None; errorDetails := None;
     transcription := Some transcription; fileName := Some fileName;
     duration := Some duration; analytics := Some analytics |}.

(** [x.toFixed(1)] for [x >= 0]: the closest number of tenths, the larger
    one of two. *)
Definition toFixed1 (x : Q) : string :=
  let n := Qfloor (x * 10 + (1 # 2)) in
  ofNat (Z.to_nat (n / 10)) +++ "." +++ ofNat (Z.to_nat (n mod 10)).

Definition maxFileSize : Z := 20 * 1024 * 1024.      (* 20MB *)

(** [$] without the m flag: nothing follows. *)
Definition Eol : regex := NotAhead (Cls (fun _ => true)).

(** [/\.(mp3|wav|mp4|avi|mov|mkv|m4a|aac|ogg|flac|webm)$/i] *)
Definition mediaExtension : regex :=
  seqs [Chr "."%char;
        Group 1 (alts ["mp3"; "wav"; "mp4"; "avi"; "mov"; "mkv"; "m4a"; "aac"; "ogg";
                       "flac"; "webm"]);
        Eol].

(** [fileName.match(pattern)] as a condition, for a pattern with the i
    flag. *)
Definition matches (pattern : regex) (subject : string) : bool :=
  match hits (segments true pattern (chars subject)) with
  | [] => false
  | _ :: _ => true
  end.

Definition startsWith (s prefix : string) : bool :=
  GoogleDriveService.startsWith (chars prefix) (chars s).

Definition includes (s part : string) : bool :=
  GoogleDriveService.includes (chars s) (chars part).

Section Handler.

Variable World : Type.

(** What the handler calls. *)
Record Services : Type := {
  (* process.env.GEMINI_API_KEY *)
  GEMINI_API_KEY : option string;
  (* new GeminiTranscriptionService(geminiApiKey) *)
  transcriptionService : GeminiTranscriptionService.Backend Buffer World;
  (* GoogleDriveService.downloadFile(url) *)
  downloadFile : string -> M World DownloadResult;
  (* parseBuffer of music-metadata *)
  parseBuffer : Buffer -> M World AccurateDurationExtractor.IFormat;
  (* JSON.parse(await getRawBody(req)).url when it is a string, [None]
     for any other value; it throws when the body cannot be read or
     parsed *)
  bodyUrl : M World (option string);
  (* parseForm(req), then the files of the field 'file' (one file is
     a list of one) *)
  parseForm : M World (list UploadedFile);
  (* readFileSync(filepath) *)
  readFileSync : string -> M World Buffer
}.

Variable services : Services.

Local Open Scope async_scope.

(** [let actualDuration = 60; try { ... } catch { ... }]: the block that
    follows the transcription in both branches. *)
Definition actualDuration (buffer : Buffer) (fileName : string)
           (result : TranscriptionResult) : M World Z :=
  tryCatch
    (AccurateDurationExtractor.extractDuration (parseBuffer services) buffer fileName)
    (fun _ =>
       (* Use word-count estimation as last resort *)
       let wordCount :=
         List.length (filter (fun word => Nat.ltb 0 (List.length word))
                             (split false (Plus isSpace) (chars (text result)))) in
       if Nat.ltb 0 wordCount then
         ret (Z.max 10 (round (SpeechAnalyticsService.ofNat wordCount * 60 / 150)))
       else ret 60%Z (* Default fallback (1 minute) *)).

(** Handle URL downloads (Google Drive, etc.) *)
Definition handleUrl (url : string) : M World Response :=
  tryCatch
    (downloadResult <- downloadFile services url ;;
     let buffer := buffer downloadResult in
     let fileName := filename downloadResult in
     (* Check file size before transcription (Gemini limit: ~20MB) *)
     if (maxFileSize <? Buf.length buffer)%Z then
       let fileSizeMB := toFixed1 (inject_Z (Buf.length buffer) / (1024 * 1024)) in
       let maxSizeMB := toFixed1 (inject_Z maxFileSize / (1024 * 1024)) in
       ret {| status := 413;
              json := failed "File too large for transcription"
                        (Some ("The downloaded file is " +++ fileSizeMB
                               +++ "MB, but the maximum supported size is " +++ maxSizeMB
                               +++ "MB. Please try a smaller file or compress the video before uploading."))
                        (Some (FileDetails (Buf.length buffer) maxFileSize
                                           (Some fileName))) |}
     else
       (* Transcribe the audio directly *)
       result <- GeminiTranscriptionService.transcribeWithRetry
                   (transcriptionService services) buffer fileName emptyConfig ;;
       actualDuration <- actualDuration buffer fileName result ;;
       (* Perform analytics (convert seconds to minutes) *)
       let durationInMinutes := (inject_Z actualDuration / 60)%Q in
       let analytics :=
         SpeechAnalyticsService.analyzeSpeech (text result) durationInMinutes in
       ret {| status := 200;
              json := succeeded (text result) fileName actualDuration analytics |})
    (fun _ =>
       ret {| status := 500;
              json := failed "Failed to download or process file from URL"
                             None None |}).

(** Handle file uploads *)
Definition handleUpload (uploadedFile : UploadedFile) : M World Response :=
  tryCatch
    ((* Read the uploaded file *)
     fileBuffer <- readFileSync services (filepath uploadedFile) ;;
     if (maxFileSize <? Buf.length fileBuffer)%Z then
       let fileSizeMB := toFixed1 (inject_Z (Buf.length fileBuffer) / (1024 * 1024)) in
       let maxSizeMB := toFixed1 (inject_Z maxFileSize / (1024 * 1024)) in
       ret {| status := 413;
              json := failed "File too large for transcription"
                        (Some ("The uploaded file is " +++ fileSizeMB
                               +++ "MB, but the maximum supported size is " +++ maxSizeMB
                               +++ "MB. Please compress your file or try a shorter audio/video clip."))
                        (Some (FileDetails (Buf.length fileBuffer) maxFileSize
                                           (originalFilename uploadedFile))) |}
     else
       let fileName :=
         if AccurateDurationExtractor.truthyString (originalFilename uploadedFile)
         then match originalFilename uploadedFile with Some s => s | None => "" end
         else "audio.wav" in
       let mimeType :=
         match mimetype uploadedFile with Some s => s | None => "" end in
       (* Validate that it's a media file *)
       let isValidMediaFile :=
         startsWith mimeType "audio/" || startsWith mimeType "video/"
         || matches mediaExtension fileName in
       if negb isValidMediaFile && negb (String.eqb mimeType "text/plain") then
         ret {| status := 400;
                json := failed "Invalid file type. Please upload an audio or video file."
                          None
                          (Some (Received
                                   ("Received: "
                                    +++ (if String.eqb mimeType "" then "unknown"
                                         else mimeType)
                                    +++ " - " +++ fileName))) |}
       else
         (* Transcribe the audio *)
         result <- GeminiTranscriptionService.transcribeWithRetry
                     (transcriptionService services) fileBuffer fileName emptyConfig ;;
         actualDuration <- actualDuration fileBuffer fileName result ;;
         let durationInMinutes := (inject_Z actualDuration / 60)%Q in
         let analytics :=
           SpeechAnalyticsService.analyzeSpeech (text result) durationInMinutes in
         ret {| status := 200;
                json := succeeded (text result) fileName actualDuration analytics |})
    (fun message =>
       ret {| status := 500;
              json := failed "Transcription failed" (Some message) None |}).

Definition handler (req : Request) : M World Response :=
  if negb (String.eqb (method req) "POST") then
    ret {| status := 405; json := errorOnly "Method not allowed" |}
  else
    tryCatch
      (if negb (AccurateDurationExtractor.truthyString (GEMINI_API_KEY services)) then
         ret {| status := 500; json := failed "API configuration error" None None |}
       else
         let contentType :=
           match contentType req with Some s => s | None => "" end in
         if includes contentType "application/json" then
           url <- bodyUrl services ;;
           match url with
           | Some url =>
               if String.eqb url "" then
                 ret {| status := 400; json := failed "URL is required" None None |}
               else handleUrl url
           | None =>
               ret {| status := 400; json := failed "URL is required" None None |}
           end
         else if includes contentType "multipart/form-data" then
           files <- parseForm services ;;
           match hd_error files with
           | None =>
               ret {| status := 400; json := failed "No file uploaded" None None |}
           | Some uploadedFile => handleUpload uploadedFile
           end
         else
           (* Unsupported content type *)
           ret {| status := 400; json := failed "Unsupported content type" None None |})
      (fun message =>
         ret {| status := 500;
                json := failed "Internal server error" (Some message) None |}).

End Handler.

End TranscribeApi.

(* ================================================================== *)
(** * A deployment of the API route whose metadata parser fails         *)
(* ================================================================== *)

Module ApiSpec.

Import Buf Types TranscribeApi.
Local Open Scope string_scope.

(** A world without state: the model answers [answer] to every file, the
    metadata parser rejects every file, nothing is uploaded. *)
Definition withoutMetadata (answer : string) : Services unit :=
  {| GEMINI_API_KEY := Some "key";
     transcriptionService :=
       {| GeminiTranscriptionService.transcribe :=
            fun _ _ _ => ret {| text := answer |};
          GeminiTranscriptionService.sleep := fun _ => ret tt |};
     downloadFile := fun _ => throw "offline";
     parseBuffer := fun _ => throw "unsupported";
     bodyUrl := ret None;
     parseForm := ret nil;
     readFileSync := fun _ => throw "ENOENT" |}.

(** The number of calls of the model is the state of the world: the form
    holds the file [file], whose content is [bytes]; the model answers
    'hello' and counts the call; the timer returns at once. *)
Definition uploading (file : UploadedFile) (bytes : Buffer) : Services nat :=
  {| GEMINI_API_KEY := Some "key";
     transcriptionService :=
       GeminiTranscribe.backend
         {| GeminiTranscribe.generateContent := fun _ calls => (Normal "hello", S calls);
            GeminiTranscribe.now := ret 0%Z |}
         (fun _ => ret tt);
     downloadFile := fun _ => throw "offline";
     parseBuffer := fun _ => throw "unsupported";
     bodyUrl := ret None;
     parseForm := ret (file :: nil);
     readFileSync := fun _ => ret bytes |}.

End ApiSpec.

(* ================================================================== *)
(** * ClientMediaProcessingService (client-media.service)               *)
(* ================================================================== *)

Module ClientMediaProcessingService.

Import Str.
Local Open Scope string_scope.
Local Open Scope list_scope.

(** Of a [File] of the browser, what the service reads. *)
Record File : Type := {
  name : string;
  type : string;
  size : Z                               (* bytes *)
}.

(** Check if file needs processing *)
Definition needsProcessing (file : File) : bool :=
  (* Always process video files *)
  if TranscribeApi.startsWith (type file) "video/" then true
  else
    (* Process audio files that are large OR not in optimal format *)
    let isOptimalFormat :=
      String.eqb (type file) "audio/wav" || String.eqb (type file) "audio/x-wav" in
    (10 * 1024 * 1024 <? size file)%Z || negb isOptimalFormat.

(** ['extract' | 'optimize' | 'split' | 'none'] *)
Inductive strategy : Type :=
| extract
| optimize
| split
| none.

(** Get recommended processing approach *)
Definition getProcessingStrategy (file : File) : strategy :=
  if TranscribeApi.startsWith (type file) "video/" then extract
  else if (50 * 1024 * 1024 <? size file)%Z then split
  else if (20 * 1024 * 1024 <? size file)%Z then optimize
  else none.

(** [Math.max(600, file.size / 1000000 * 10)] *)
Definition estimatedDuration (file : File) : Q :=
  Qmax 600 (inject_Z (size file) / 1000000 * 10).

(** The values of [-ss] and [-t] of the successive [exec] calls of
    [splitAudio], with the progress reported before each. *)
Definition chunkRequests (file : File) (chunkDurationMinutes : Q)
  : list (Q * Q * Q) :=
  let chunkDuration := (chunkDurationMinutes * 60)%Q in
  let numChunks := Qceiling (estimatedDuration file / chunkDuration) in
  map (fun i =>
         (inject_Z (Z.of_nat i) * chunkDuration,
          chunkDuration,
          15 + 70 * (inject_Z (Z.of_nat i) / inject_Z numChunks))%Q)
      (seq 0 (Z.to_nat numChunks)).

Section Service.

Variable Blob : Type.
Variable World : Type.

(** FFmpeg in the browser. *)
Record Engine : Type := {
  (* this.initialize(): load the engine once *)
  initialize : M World unit;
  (* writeFile(inputFileName, await fetchFile(file)) *)
  writeFile : File -> M World unit;
  (* exec(['-i', input, '-ss', startTime, '-t', chunkDuration, ...]),
     readFile(outputFileName), new Blob(...), deleteFile(outputFileName) *)
  cutChunk : Q -> Q -> M World Blob;
  (* deleteFile(inputFileName) *)
  deleteFile : M World unit
}.

Variable engine : Engine.

Local Open Scope async_scope.

(** [onProgress?.(progress)] *)
Definition report (onProgress : option (Q -> M World unit)) (progress : Q)
  : M World unit :=
  match onProgress with
  | Some callback => callback progress
  | None => ret tt
  end.

(** The [for] loop over the chunks. *)
Fixpoint cutChunks (onProgress : option (Q -> M World unit))
         (requests : list (Q * Q * Q)) (chunks : list Blob) : M World (list Blob) :=
  match requests with
  | [] => ret chunks
  | (startTime, chunkDuration, chunkProgress) :: requests' =>
      report onProgress chunkProgress ;;;
      chunk <- cutChunk engine startTime chunkDuration ;;
      cutChunks onProgress requests' (chunks ++ [chunk])
  end.

(** Split large audio files into chunks (client-side) *)
Definition splitAudio (file : File) (chunkDurationMinutes : Q)
           (onProgress : option (Q -> M World unit)) : M World (list Blob) :=
  initialize engine ;;;
  tryCatch
    (report onProgress 5 ;;;
     (* Write input file *)
     writeFile engine file ;;;
     report onProgress 15 ;;;
     chunks <- cutChunks onProgress (chunkRequests file chunkDurationMinutes) [] ;;
     (* Clean up input file *)
     deleteFile engine ;;;
     report onProgress 100 ;;;
     ret chunks)
    (fun _ => throw "Failed to split audio file").

End Service.

End ClientMediaProcessingService.

(* ================================================================== *)
(** * Theorems                                                          *)
(* ================================================================== *)

Unset Implicit Arguments.


(* ================================================================== *)
(** * Properties of SimpleDurationExtractor                             *)
(* ================================================================== *)

Module DurationFacts.

Import Buf SimpleDurationExtractor DurationSpec.
Local Open Scope Z_scope.

Lemma byte_val_range (x : byte) : 0 <= byte_val x < 256.
Proof.
  unfold byte_val. pose proof (Byte.to_N_bounded x). lia.
Qed.

Lemma bytes_at_range (b : Buffer) (offset : Z) (n : nat) (l : list Z) :
  bytes_at b offset n = Some l -> Forall (fun v => 0 <= v < 256) l.
Proof.
  unfold bytes_at. destruct (_ || _); [discriminate|].
  intros H. injection H as <-.
  apply Forall_forall. intros v Hv. apply in_map_iff in Hv.
  destruct Hv as [x [<- _]]. apply byte_val_range.
Qed.

Lemma readUInt32LE_reads (b : Buffer) (offset : Z) : reads (readUInt32LE b offset).
Proof.
  unfold readUInt32LE.
  destruct (bytes_at b offset 4) as [l|] eqn:E; [|eapply reads_throw; reflexivity].
  apply bytes_at_range in E.
  destruct l as [|b0 [|b1 [|b2 [|b3 [|b4 l]]]]];
    try (eapply reads_throw; reflexivity).
  eapply reads_value; [reflexivity|].
  repeat match goal with H : Forall _ (_ :: _) |- _ => inversion H; clear H; subst end.
  lia.
Qed.

Lemma readUInt32BE_reads (b : Buffer) (offset : Z) : reads (readUInt32BE b offset).
Proof.
  unfold readUInt32BE.
  destruct (bytes_at b offset 4) as [l|] eqn:E; [|eapply reads_throw; reflexivity].
  apply bytes_at_range in E.
  destruct l as [|b0 [|b1 [|b2 [|b3 [|b4 l]]]]];
    try (eapply reads_throw; reflexivity).
  eapply reads_value; [reflexivity|].
  repeat match goal with H : Forall _ (_ :: _) |- _ => inversion H; clear H; subst end.
  lia.
Qed.

Lemma readUInt8_reads (b : Buffer) (offset : Z) : reads (readUInt8 b offset).
Proof.
  unfold readUInt8.
  destruct (bytes_at b offset 1) as [l|] eqn:E; [|eapply reads_throw; reflexivity].
  apply bytes_at_range in E.
  destruct l as [|b0 [|b1 l]]; try (eapply reads_throw; reflexivity).
  eapply reads_value; [reflexivity|].
  inversion E; subst. lia.
Qed.

Ltac run_step := cbn [Js.bind Js.try_catch].

Lemma findDataChunk_searched (buffer : Buffer) (byteRate : Z) :
  forall (fuel : nat) (dataOffset : Z),
    length buffer - 8 - dataOffset < Z.of_nat fuel ->
    (1 <= fuel)%nat ->
    searched (findDataChunk fuel buffer byteRate dataOffset).
Proof.
  induction fuel as [|fuel IH]; intros dataOffset Hfuel Hpos; [lia|].
  cbn [findDataChunk]. destruct (dataOffset <? length buffer - 8) eqn:Hlt.
  - apply Z.ltb_lt in Hlt.
    destruct (readUInt32LE_reads buffer (dataOffset + 4)) as [v -> Hv | e ->]; run_step.
    + destruct (String.eqb _ _).
      * eapply searched_exact; reflexivity.
      * apply IH; lia.
    + eapply searched_throw; reflexivity.
  - apply searched_none. reflexivity.
Qed.

Lemma fmtChunk_searched (buffer : Buffer) (offset chunkSize : Z) :
  0 <= offset -> 0 <= chunkSize ->
  searched (fmtChunk buffer offset chunkSize).
Proof.
  intros Hoff Hsize. unfold fmtChunk.
  destruct (readUInt32LE_reads buffer (offset + 12)) as [sr -> Hsr | e ->]; run_step;
    [|eapply searched_throw; reflexivity].
  destruct (readUInt32LE_reads buffer (offset + 16)) as [br -> Hbr | e ->]; run_step;
    [|eapply searched_throw; reflexivity].
  destruct (_ && _).
  - apply findDataChunk_searched; unfold length; lia.
  - apply searched_none. reflexivity.
Qed.

Lemma walkChunks_parsed (buffer : Buffer) :
  forall (fuel : nat) (offset : Z),
    0 <= offset ->
    length buffer - 8 - offset < Z.of_nat fuel ->
    (1 <= fuel)%nat ->
    parsed (walkChunks fuel buffer offset).
Proof.
  induction fuel as [|fuel IH]; intros offset Hoff Hfuel Hpos; [lia|].
  cbn [walkChunks]. destruct (offset <? length buffer - 8) eqn:Hlt.
  - apply Z.ltb_lt in Hlt.
    destruct (readUInt32LE_reads buffer (offset + 4)) as [size -> Hsize | e ->]; run_step;
      [|eapply parsed_throw; reflexivity].
    destruct (String.eqb _ _).
    + destruct (fmtChunk_searched buffer offset size) as [info -> Hex | -> | e ->];
        run_step; try lia.
      * eapply parsed_exact; [reflexivity|assumption].
      * apply IH; lia.
      * eapply parsed_throw; reflexivity.
    + run_step. apply IH; lia.
  - eapply parsed_throw; reflexivity.
Qed.

Lemma parseWav_parsed (buffer : Buffer) : parsed (parseWav buffer).
Proof.
  unfold parseWav.
  destruct (length buffer <? 44); [eapply parsed_throw; reflexivity|].
  destruct (negb _); [eapply parsed_throw; reflexivity|].
  destruct (negb _); [eapply parsed_throw; reflexivity|].
  apply walkChunks_parsed; unfold length; lia.
Qed.

Lemma tlenAt_searched (buffer : Buffer) (i : Z) : searched (tlenAt buffer i).
Proof.
  unfold tlenAt. destruct (String.eqb _ _); [|apply searched_none; reflexivity].
  destruct (readUInt32BE_reads buffer (i + 4)) as [size -> Hsize | e ->]; run_step;
    [|eapply searched_throw; reflexivity].
  destruct (_ && _); [|apply searched_none; reflexivity].
  destruct (parseInt _) as [ms|]; [|apply searched_none; reflexivity].
  destruct (0 <? ms); [eapply searched_exact; reflexivity|apply searched_none; reflexivity].
Qed.

Lemma scanTLEN_searched (buffer : Buffer) :
  forall (n : nat) (i : Z), searched (scanTLEN n buffer i).
Proof.
  induction n as [|n IH]; intros i; cbn [scanTLEN]; [apply searched_none; reflexivity|].
  destruct (tlenAt_searched buffer i) as [info -> Hex | -> | e ->]; run_step.
  - eapply searched_exact; [reflexivity|assumption].
  - apply IH.
  - eapply searched_throw; reflexivity.
Qed.

Lemma mvhdAtom_searched (buffer : Buffer) (offset : Z) :
  searched (mvhdAtom buffer offset).
Proof.
  unfold mvhdAtom.
  destruct (readUInt8_reads buffer (offset + 8)) as [version -> _ | e ->]; run_step;
    [|eapply searched_throw; reflexivity].
  destruct (version =? 0).
  - destruct (readUInt32BE_reads buffer (offset + 20)) as [ts -> _ | e ->]; run_step;
      [|eapply searched_throw; reflexivity].
    destruct (readUInt32BE_reads buffer (offset + 24)) as [d -> _ | e ->]; run_step;
      [|eapply searched_throw; reflexivity].
    destruct (0 <? ts); [eapply searched_exact; reflexivity|apply searched_none; reflexivity].
  - destruct (readUInt32BE_reads buffer (offset + 28)) as [ts -> _ | e ->]; run_step;
      [|eapply searched_throw; reflexivity].
    destruct (readUInt32BE_reads buffer (offset + 36)) as [d -> _ | e ->]; run_step;
      [|eapply searched_throw; reflexivity].
    destruct (0 <? ts); [eapply searched_exact; reflexivity|apply searched_none; reflexivity].
Qed.

Lemma walkAtoms_parsed (buffer : Buffer) :
  forall (fuel : nat) (offset : Z),
    length buffer - 8 - offset < Z.of_nat fuel ->
    (1 <= fuel)%nat ->
    parsed (walkAtoms fuel buffer offset).
Proof.
  induction fuel as [|fuel IH]; intros offset Hfuel Hpos; [lia|].
  cbn [walkAtoms]. destruct (offset <? length buffer - 8) eqn:Hlt.
  - apply Z.ltb_lt in Hlt.
    destruct (readUInt32BE_reads buffer offset) as [size -> Hsize | e ->]; run_step;
      [|eapply parsed_throw; reflexivity].
    assert (Hnext : parsed
              (if (size =? 0) || (length buffer - offset <? size)
               then Raise "Could not find mvhd atom"
               else walkAtoms fuel buffer (offset + size))).
    { destruct (size =? 0) eqn:Hz; run_step; [eapply parsed_throw; reflexivity|].
      apply Z.eqb_neq in Hz.
      destruct (_ <? _); [eapply parsed_throw; reflexivity|].
      apply IH; lia. }
    destruct (String.eqb _ _).
    + destruct (mvhdAtom_searched buffer offset) as [info -> Hex | -> | e ->]; run_step.
      * eapply parsed_exact; [reflexivity|assumption].
      * exact Hnext.
      * eapply parsed_throw; reflexivity.
    + run_step. exact Hnext.
  - eapply parsed_throw; reflexivity.
Qed.

Lemma extractWavDuration_extracted (buffer : Buffer) :
  extracted buffer 176400 (extractWavDuration buffer).
Proof.
  unfold extractWavDuration.
  destruct (parseWav_parsed buffer) as [info -> Hex | e ->]; run_step.
  - eapply extracted_exact; [reflexivity|assumption].
  - apply extracted_estimate. reflexivity.
Qed.

Lemma extractMp3Duration_extracted (buffer : Buffer) :
  extracted buffer 16000 (extractMp3Duration buffer).
Proof.
  unfold extractMp3Duration, parseMp3.
  destruct (_ && _).
  - destruct (scanTLEN_searched buffer
                (Z.to_nat (Z.min (id3Size buffer + 10) (length buffer - 10) - 10)) 10)
      as [info -> Hex | -> | e ->]; run_step.
    + eapply extracted_exact; [reflexivity|assumption].
    + apply extracted_estimate. reflexivity.
    + apply extracted_estimate. reflexivity.
  - run_step. apply extracted_estimate. reflexivity.
Qed.

Lemma extractMp4Duration_extracted (buffer : Buffer) :
  extracted buffer 125000 (extractMp4Duration buffer).
Proof.
  unfold extractMp4Duration, parseMp4.
  destruct (walkAtoms_parsed buffer (S (List.length buffer)) 0) as [info -> Hex | e ->];
    run_step; try (unfold length; lia).
  - eapply extracted_exact; [reflexivity|assumption].
  - apply extracted_estimate. reflexivity.
Qed.

Lemma dispatch_extracted (buffer : Buffer) (fileName : string) :
  exists rate, In rate fallbackRates /\ extracted buffer rate (dispatch buffer fileName).
Proof.
  unfold dispatch, fallbackRates.
  destruct (String.eqb _ "wav").
  { exists 176400. split; [simpl; tauto|apply extractWavDuration_extracted]. }
  destruct (String.eqb _ "mp3").
  { exists 16000. split; [simpl; tauto|apply extractMp3Duration_extracted]. }
  destruct (_ || _).
  { exists 125000. split; [simpl; tauto|apply extractMp4Duration_extracted]. }
  exists 32000. split; [simpl; tauto|apply extracted_estimate; reflexivity].
Qed.

Lemma estimate_at_least_one (buffer : Buffer) (rate : Z) :
  1 <= duration (estimate buffer rate) /\ isEstimated (estimate buffer rate) = true.
Proof. unfold estimate; simpl. split; [lia|reflexivity]. Qed.

(** ** Reading inside a concatenation *)

Lemma byte_val_byteOf (z : Z) : byte_val (byteOf z) = z mod 256.
Proof.
  unfold byte_val, byteOf.
  assert (Hr : 0 <= z mod 256 < 256) by (apply Z.mod_pos_bound; lia).
  destruct (Byte.of_N (Z.to_N (z mod 256))) as [b|] eqn:E.
  - apply Byte.to_of_N in E. rewrite E. lia.
  - apply Byte.of_N_None_iff in E. lia.
Qed.

Lemma length_le32 (n : Z) : List.length (le32 n) = 4%nat.
Proof. reflexivity. Qed.

Lemma bytes_at_middle (front mid back : list byte) :
  bytes_at (front ++ mid ++ back) (Z.of_nat (List.length front)) (List.length mid)
  = Some (map byte_val mid).
Proof.
  unfold bytes_at, length.
  rewrite !length_app.
  destruct (_ || _) eqn:E.
  - apply orb_true_iff in E. destruct E as [E|E]; [apply Z.ltb_lt in E|apply Z.ltb_lt in E]; lia.
  - rewrite Nat2Z.id.
    rewrite skipn_app, Nat.sub_diag, skipn_all. cbn [skipn app].
    rewrite firstn_app, Nat.sub_diag, firstn_all. cbn [firstn].
    rewrite app_nil_r. reflexivity.
Qed.

Lemma readUInt32LE_middle (front back : list byte) (n : Z) :
  0 <= n < 2 ^ 32 ->
  readUInt32LE (front ++ le32 n ++ back) (Z.of_nat (List.length front)) = Done n.
Proof.
  intros Hn. unfold readUInt32LE.
  pose proof (bytes_at_middle front (le32 n) back) as H.
  rewrite length_le32 in H. rewrite H.
  unfold le32. cbn [map]. rewrite !byte_val_byteOf. f_equal.
  change (2 ^ 8) with 256. change (2 ^ 16) with 65536. change (2 ^ 24) with 16777216.
  change (2 ^ 32) with 4294967296 in Hn.
  Z.to_euclidean_division_equations. lia.
Qed.

Lemma toString_middle (front mid back : list byte) :
  mid <> [] ->
  toString (front ++ mid ++ back) (Z.of_nat (List.length front))
           (Z.of_nat (List.length front) + Z.of_nat (List.length mid))
  = string_of_list_ascii (map ascii_char mid).
Proof.
  intros Hmid. unfold toString, length.
  assert (0 < List.length mid)%nat by (destruct mid; [congruence|simpl; lia]).
  rewrite !length_app.
  rewrite Z.max_r by lia. rewrite Z.min_l by lia.
  destruct (_ <=? _) eqn:E; [apply Z.leb_le in E; lia|].
  replace (Z.of_nat (List.length front) + Z.of_nat (List.length mid)
           - Z.of_nat (List.length front)) with (Z.of_nat (List.length mid)) by lia.
  rewrite !Nat2Z.id.
  rewrite skipn_app, Nat.sub_diag, skipn_all. cbn [skipn app].
  rewrite firstn_app, Nat.sub_diag, firstn_all. cbn [firstn].
  rewrite app_nil_r. reflexivity.
Qed.

Lemma toString_whole (mid : list byte) :
  List.length mid = 4%nat ->
  toString mid 0 4 = string_of_list_ascii (map ascii_char mid).
Proof.
  intros H. pose proof (@toString_middle [] mid []) as T.
  cbn [app List.length Z.of_nat] in T. rewrite app_nil_r, H in T.
  apply T. destruct mid; [discriminate|congruence].
Qed.

(** ** The walk over a well-formed file *)

Lemma length_encode (c : subchunk) :
  List.length (tagBytes c) = 4%nat ->
  Z.of_nat (List.length (encode c)) = 8 + size c.
Proof.
  intros H. unfold encode, size. rewrite !length_app, length_le32, H. lia.
Qed.

Lemma length_chunks (id : string) (cs : list subchunk) :
  Forall (skipped id) cs ->
  8 * Z.of_nat (List.length cs) <= Z.of_nat (List.length (List.concat (map encode cs))).
Proof.
  induction 1 as [|c cs [Htag _] _ IH]; cbn [map List.concat List.length]; [lia|].
  rewrite length_app. pose proof (length_encode c Htag). unfold size in *. lia.
Qed.

(** One iteration of the inner loop on a sub-chunk that is not 'data'. *)
Lemma findDataChunk_skip (fuel : nat) (front back : list byte) (c : subchunk) (byteRate : Z) :
  skipped "data" c ->
  back <> [] ->
  findDataChunk (S fuel) (front ++ encode c ++ back) byteRate (Z.of_nat (List.length front))
  = findDataChunk fuel (front ++ encode c ++ back) byteRate
                  (Z.of_nat (List.length front) + 8 + size c).
Proof.
  intros [Htag [Hid Hsize]] Hback. cbn [findDataChunk].
  assert (Hlen : (Z.of_nat (List.length front) <? length (front ++ encode c ++ back) - 8) = true).
  { apply Z.ltb_lt. unfold length. rewrite !length_app.
    pose proof (length_encode c Htag). unfold size in *.
    destruct back; [congruence|]. cbn [List.length]. lia. }
  rewrite Hlen.
  assert (Hread : readUInt32LE (front ++ encode c ++ back) (Z.of_nat (List.length front) + 4)
                  = Done (size c)).
  { unfold encode. rewrite <- !app_assoc.
    rewrite (app_assoc front (tagBytes c)).
    replace (Z.of_nat (List.length front) + 4)
      with (Z.of_nat (List.length (front ++ tagBytes c)))
      by (rewrite length_app, Htag; lia).
    apply readUInt32LE_middle. unfold size in *. lia. }
  rewrite Hread. run_step.
  assert (Hname : toString (front ++ encode c ++ back) (Z.of_nat (List.length front))
                           (Z.of_nat (List.length front) + 4)
                  = toString (tagBytes c) 0 4).
  { unfold encode. rewrite <- !app_assoc.
    rewrite toString_whole by assumption.
    replace 4 with (Z.of_nat (List.length (tagBytes c))) at 1 by (rewrite Htag; reflexivity).
    apply toString_middle. destruct (tagBytes c); [discriminate|congruence]. }
  rewrite Hname.
  destruct (String.eqb_spec (toString (tagBytes c) 0 4) "data"); [contradiction|reflexivity].
Qed.

(** The iteration that meets the 'data' sub-chunk. *)
Lemma findDataChunk_hit (fuel : nat) (front back : list byte) (dataSize byteRate : Z) :
  0 <= dataSize < 2 ^ 32 ->
  back <> [] ->
  findDataChunk (S fuel) (front ++ tag "data" ++ le32 dataSize ++ back) byteRate
                (Z.of_nat (List.length front))
  = Done (Some (exact dataSize byteRate)).
Proof.
  intros Hsize Hback. cbn [findDataChunk].
  assert (Hlen : (Z.of_nat (List.length front)
                  <? length (front ++ tag "data" ++ le32 dataSize ++ back) - 8) = true).
  { apply Z.ltb_lt. unfold length. rewrite !length_app, length_le32.
    destruct back; [congruence|]. cbn [List.length tag map list_ascii_of_string]. lia. }
  rewrite Hlen.
  assert (Hread : readUInt32LE (front ++ tag "data" ++ le32 dataSize ++ back)
                               (Z.of_nat (List.length front) + 4)
                  = Done dataSize).
  { rewrite (app_assoc front (tag "data")).
    replace (Z.of_nat (List.length front) + 4)
      with (Z.of_nat (List.length (front ++ tag "data")))
      by (rewrite length_app; cbn [List.length tag map list_ascii_of_string]; lia).
    apply readUInt32LE_middle. assumption. }
  rewrite Hread. run_step.
  assert (Hname : toString (front ++ tag "data" ++ le32 dataSize ++ back)
                           (Z.of_nat (List.length front)) (Z.of_nat (List.length front) + 4)
                  = "data"%string).
  { change 4 with (Z.of_nat (List.length (tag "data"))) at 1.
    rewrite toString_middle by discriminate. reflexivity. }
  rewrite Hname. reflexivity.
Qed.

Lemma findDataChunk_found (byteRate dataSize : Z) (back : list byte) :
  0 <= dataSize < 2 ^ 32 ->
  back <> [] ->
  forall (mid : list subchunk) (front : list byte) (fuel : nat),
    Forall (skipped "data") mid ->
    (List.length mid < fuel)%nat ->
    findDataChunk fuel
      (front ++ List.concat (map encode mid) ++ tag "data" ++ le32 dataSize ++ back)
      byteRate (Z.of_nat (List.length front))
    = Done (Some (exact dataSize byteRate)).
Proof.
  intros Hsize Hback.
  induction mid as [|c mid IH]; intros front fuel Hmid Hfuel.
  - destruct fuel as [|fuel]; [cbn in Hfuel; lia|].
    cbn [map List.concat app]. apply findDataChunk_hit; assumption.
  - destruct fuel as [|fuel]; [cbn in Hfuel; lia|].
    inversion Hmid as [|c' mid' Hc Hmid']; subst.
    cbn [map List.concat]. rewrite <- app_assoc.
    rewrite findDataChunk_skip; [|assumption|].
    + destruct Hc as [Htag _].
      replace (Z.of_nat (List.length front) + 8 + size c)
        with (Z.of_nat (List.length (front ++ encode c)))
        by (rewrite length_app; pose proof (length_encode c Htag); lia).
      rewrite (app_assoc front (encode c)).
      apply IH; [assumption|cbn [List.length] in Hfuel; lia].
    + intros E. apply (f_equal (@List.length byte)) in E.
      rewrite !length_app in E. cbn [List.length tag map list_ascii_of_string] in E. lia.
Qed.

(** One iteration of the outer loop on a sub-chunk that is not 'fmt '. *)
Lemma walkChunks_skip (fuel : nat) (front back : list byte) (c : subchunk) :
  skipped "fmt " c ->
  back <> [] ->
  walkChunks (S fuel) (front ++ encode c ++ back) (Z.of_nat (List.length front))
  = walkChunks fuel (front ++ encode c ++ back) (Z.of_nat (List.length front) + 8 + size c).
Proof.
  intros [Htag [Hid Hsize]] Hback. cbn [walkChunks].
  assert (Hlen : (Z.of_nat (List.length front) <? length (front ++ encode c ++ back) - 8) = true).
  { apply Z.ltb_lt. unfold length. rewrite !length_app.
    pose proof (length_encode c Htag). unfold size in *.
    destruct back; [congruence|]. cbn [List.length]. lia. }
  rewrite Hlen.
  assert (Hread : readUInt32LE (front ++ encode c ++ back) (Z.of_nat (List.length front) + 4)
                  = Done (size c)).
  { unfold encode. rewrite <- !app_assoc.
    rewrite (app_assoc front (tagBytes c)).
    replace (Z.of_nat (List.length front) + 4)
      with (Z.of_nat (List.length (front ++ tagBytes c)))
      by (rewrite length_app, Htag; lia).
    apply readUInt32LE_middle. unfold size in *. lia. }
  rewrite Hread. run_step.
  assert (Hname : toString (front ++ encode c ++ back) (Z.of_nat (List.length front))
                           (Z.of_nat (List.length front) + 4)
                  = toString (tagBytes c) 0 4).
  { unfold encode. rewrite <- !app_assoc.
    rewrite toString_whole by assumption.
    replace 4 with (Z.of_nat (List.length (tagBytes c))) at 1 by (rewrite Htag; reflexivity).
    apply toString_middle. destruct (tagBytes c); [discriminate|congruence]. }
  rewrite Hname.
  destruct (String.eqb_spec (toString (tagBytes c) 0 4) "fmt "); [contradiction|].
  run_step. reflexivity.
Qed.

Section FormatChunk.

Variables (head tail : list byte) (sampleRate byteRate dataSize : Z).
Variables (mid : list subchunk) (back : list byte).

Hypothesis head_length : List.length head = 4%nat.
Hypothesis sampleRate_range : 0 < sampleRate < 2 ^ 32.
Hypothesis byteRate_range : 0 < byteRate < 2 ^ 32.
Hypothesis dataSize_range : 0 <= dataSize < 2 ^ 32.
Hypothesis mid_skipped : Forall (skipped "data") mid.
Hypothesis back_nonempty : back <> [].

Hypothesis fmt_size : size (fmtChunkOf head sampleRate byteRate tail) < 2 ^ 32.

Local Abbreviation fmt := (fmtChunkOf head sampleRate byteRate tail).
Local Abbreviation after := (afterFmt mid dataSize back).

(** The iteration that meets the 'fmt ' sub-chunk returns the duration. *)
Lemma walkChunks_fmt (fuel : nat) (front : list byte) :
  walkChunks (S fuel) (front ++ encode fmt ++ after) (Z.of_nat (List.length front))
  = Done (exact dataSize byteRate).
Proof.
  set (B := front ++ encode fmt ++ after).
  assert (Htag : List.length (tagBytes fmt) = 4%nat) by reflexivity.
  assert (Hafter : (8 < List.length after)%nat).
  { unfold afterFmt. rewrite !length_app, length_le32.
    destruct back; [congruence|]. cbn [List.length tag map list_ascii_of_string]. lia. }
  cbn [walkChunks].
  assert (Hlen : (Z.of_nat (List.length front) <? length B - 8) = true).
  { apply Z.ltb_lt. unfold length, B. rewrite !length_app.
    pose proof (length_encode fmt Htag). unfold size in *. lia. }
  rewrite Hlen.
  assert (Hread : readUInt32LE B (Z.of_nat (List.length front) + 4) = Done (size fmt)).
  { unfold B, encode. rewrite <- !app_assoc.
    rewrite (app_assoc front (tagBytes fmt)).
    replace (Z.of_nat (List.length front) + 4)
      with (Z.of_nat (List.length (front ++ tagBytes fmt)))
      by (rewrite length_app, Htag; lia).
    apply readUInt32LE_middle. unfold size in *. lia. }
  rewrite Hread. run_step.
  assert (Hname : toString B (Z.of_nat (List.length front)) (Z.of_nat (List.length front) + 4)
                  = "fmt "%string).
  { unfold B, encode. rewrite <- !app_assoc.
    change 4 with (Z.of_nat (List.length (tagBytes fmt))) at 1.
    rewrite toString_middle by discriminate. reflexivity. }
  rewrite Hname. cbn [String.eqb Ascii.eqb Bool.eqb].
  unfold fmtChunk.
  assert (Hsr : readUInt32LE B (Z.of_nat (List.length front) + 12) = Done sampleRate).
  { unfold B, encode, fmtChunkOf, fmtBody. cbn [tagBytes body]. rewrite <- !app_assoc.
    rewrite (app_assoc front (tag "fmt ")), (app_assoc _ (le32 _)), (app_assoc _ head).
    match goal with |- readUInt32LE (?f ++ _) _ = _ =>
      replace (Z.of_nat (List.length front) + 12) with (Z.of_nat (List.length f))
    end.
    - apply readUInt32LE_middle. lia.
    - rewrite !length_app, length_le32, head_length.
      cbn [List.length tag map list_ascii_of_string]. lia. }
  rewrite Hsr. run_step.
  assert (Hbr : readUInt32LE B (Z.of_nat (List.length front) + 16) = Done byteRate).
  { unfold B, encode, fmtChunkOf, fmtBody. cbn [tagBytes body]. rewrite <- !app_assoc.
    rewrite (app_assoc front (tag "fmt ")), (app_assoc _ (le32 _)), (app_assoc _ head),
      (app_assoc _ (le32 sampleRate)).
    match goal with |- readUInt32LE (?f ++ _) _ = _ =>
      replace (Z.of_nat (List.length front) + 16) with (Z.of_nat (List.length f))
    end.
    - apply readUInt32LE_middle. lia.
    - rewrite !length_app, !length_le32, head_length.
      cbn [List.length tag map list_ascii_of_string]. lia. }
  rewrite Hbr. run_step.
  replace ((0 <? sampleRate) && (0 <? byteRate)) with true
    by (symmetry; apply andb_true_iff; split; apply Z.ltb_lt; lia).
  assert (Hfound : findDataChunk (S (List.length B)) B byteRate
                                 (Z.of_nat (List.length front) + 8 + size fmt)
                   = Done (Some (exact dataSize byteRate))).
  { replace (Z.of_nat (List.length front) + 8 + size fmt)
      with (Z.of_nat (List.length (front ++ encode fmt)))
      by (rewrite length_app; pose proof (length_encode fmt Htag); lia).
    unfold B, afterFmt. rewrite (app_assoc front (encode fmt)).
    apply findDataChunk_found; try assumption.
    pose proof (length_chunks "data" mid mid_skipped) as Hm.
    rewrite !length_app. lia. }
  rewrite Hfound. run_step. reflexivity.
Qed.

Lemma walkChunks_found :
  forall (pre : list subchunk) (front : list byte) (fuel : nat),
    Forall (skipped "fmt ") pre ->
    (List.length pre < fuel)%nat ->
    walkChunks fuel (front ++ List.concat (map encode pre) ++ encode fmt ++ after)
               (Z.of_nat (List.length front))
    = Done (exact dataSize byteRate).
Proof.
  induction pre as [|c pre IH]; intros front fuel Hpre Hfuel.
  - destruct fuel as [|fuel]; [cbn in Hfuel; lia|].
    cbn [map List.concat app]. apply walkChunks_fmt.
  - destruct fuel as [|fuel]; [cbn in Hfuel; lia|].
    inversion Hpre as [|c' pre' Hc Hpre']; subst.
    cbn [map List.concat]. rewrite <- app_assoc.
    rewrite walkChunks_skip; [|assumption|].
    + destruct Hc as [Htag _].
      replace (Z.of_nat (List.length front) + 8 + size c)
        with (Z.of_nat (List.length (front ++ encode c)))
        by (rewrite length_app; pose proof (length_encode c Htag); lia).
      rewrite (app_assoc front (encode c)).
      apply IH; [assumption|cbn [List.length] in Hfuel; lia].
    + intros E. apply (f_equal (@List.length byte)) in E.
      unfold encode in E. rewrite !length_app in E.
      cbn [List.length tag map list_ascii_of_string tagBytes fmtChunkOf] in E. lia.
Qed.

End FormatChunk.

(** [round_div a b] is the integer nearest to [a / b], halves upwards. *)
Lemma round_div_nearest (a b : Z) :
  0 < b ->
  2 * a - b < 2 * b * round_div a b <= 2 * a + b.
Proof.
  intros Hb. unfold round_div.
  pose proof (Z.div_mod (2 * a + b) (2 * b)) as H.
  pose proof (Z.mod_pos_bound (2 * a + b) (2 * b)) as M.
  lia.
Qed.



(** C10. [extractDuration] is total: for every buffer and file name it
    returns a duration (it neither throws nor runs forever).  A returned
    value marked as estimated is the size-based estimate of the format,
    which is at least one second; an error that reaches the outer handler
    gives the default of 60 seconds, estimated; a failed parse of a WAV or
    MP4 header gives the estimate of that format. *)
Theorem extractDuration_total (buffer : Buffer) (fileName : string) :
  (exists info,
      extractDuration buffer fileName = Done info
      /\ (isEstimated info = true ->
          1 <= duration info
          /\ exists rate, In rate fallbackRates /\ info = estimate buffer rate))
  /\ (forall e, dispatch buffer fileName = Raise e ->
                extractDuration buffer fileName
                = Done {| duration := 60; isEstimated := true |})
  /\ (forall e, parseWav buffer = Raise e ->
                extractWavDuration buffer = Done (estimate buffer 176400))
  /\ (forall e, parseMp4 buffer = Raise e ->
                extractMp4Duration buffer = Done (estimate buffer 125000)).
Proof.
  split; [|split; [|split]].
  - destruct (dispatch_extracted buffer fileName) as [rate [Hin Hx]].
    unfold extractDuration.
    destruct Hx as [info Hrun Hex | Hrun]; rewrite Hrun; cbn [try_catch].
    + exists info. split; [reflexivity|]. rewrite Hex. discriminate.
    + exists (estimate buffer rate). split; [reflexivity|]. intros _.
      split; [apply estimate_at_least_one|]. exists rate. split; [assumption|reflexivity].
  - intros e He. unfold extractDuration. rewrite He. reflexivity.
  - intros e He. unfold extractWavDuration. rewrite He. reflexivity.
  - intros e He. unfold extractMp4Duration. rewrite He. reflexivity.
Qed.

(** A buffer that is no WAV file, under a [.wav] name: the estimate. *)
Lemma extractDuration_total_witness :
  exists info,
    extractDuration [x00; x01; x02] "memo.wav" = Done info
    /\ 1 <= duration info
    /\ extractWavDuration [x00; x01; x02] = Done (estimate [x00; x01; x02] 176400).
Proof.
  destruct (extractDuration_total [x00; x01; x02] "memo.wav")
    as [[info [Hrun Hest]] [_ [Hwav _]]].
  exists info. split; [exact Hrun|]. split.
  - apply Hest. vm_compute in Hrun. injection Hrun as <-. reflexivity.
  - apply (Hwav "Invalid WAV file"%string). reflexivity.
Defined.

End DurationFacts.

(* ================================================================== *)
(** * Properties of SpeechAnalyticsService                              *)
(* ================================================================== *)

Module AnalyticsFacts.

Import Str SpeechAnalyticsService AnalyticsSpec.

Lemma Qltb_lt (x y : Q) : Qltb x y = true <-> x < y.
Proof.
  unfold Qltb. rewrite negb_true_iff. split.
  - intros H. apply Qnot_le_lt. intros Hle. apply Qle_bool_iff in Hle. congruence.
  - intros H. destruct (Qle_bool y x) eqn:E; [|reflexivity].
    apply Qle_bool_iff in E. apply Qlt_not_le in H. contradiction.
Qed.

Lemma Qltb_ge (x y : Q) : Qltb x y = false <-> y <= x.
Proof.
  unfold Qltb. rewrite negb_false_iff. apply Qle_bool_iff.
Qed.

(** [Math.round] keeps integer bounds. *)
Lemma round_bounds (x : Q) (lo hi : Z) :
  inject_Z lo <= x -> x <= inject_Z hi -> (lo <= round x <= hi)%Z.
Proof.
  intros Hlo Hhi. unfold round. split.
  - rewrite <- (Qfloor_Z lo). apply Qfloor_resp_le. lra.
  - pose proof (Qfloor_le (x + (1 # 2))) as Hf.
    assert (H : inject_Z (Qfloor (x + (1 # 2))) < inject_Z (hi + 1)).
    { rewrite inject_Z_plus. change (inject_Z 1) with 1. lra. }
    rewrite <- Zlt_Qlt in H. lia.
Qed.

(** [Math.round(x)] is within one half of [x]. *)
Lemma round_nearest (x : Q) :
  x - (1 # 2) < inject_Z (round x) /\ inject_Z (round x) <= x + (1 # 2).
Proof.
  unfold round. pose proof (Qfloor_le (x + (1 # 2))) as H1.
  pose proof (Qlt_floor (x + (1 # 2))) as H2.
  rewrite inject_Z_plus in H2. change (inject_Z 1) with 1 in H2.
  split; lra.
Qed.

Lemma analyzePace_score (wordsPerMinute : Q) :
  In (paceScore (analyzePace wordsPerMinute)) [4; 6; 7; 10]%Z.
Proof.
  unfold analyzePace.
  repeat match goal with |- context [if ?c then _ else _] => destruct c end;
    cbn; tauto.
Qed.

Lemma fillerBand_score (p : Q) : In (fst (fillerBand p)) [2; 4; 6; 8; 10]%Z.
Proof.
  unfold fillerBand.
  repeat match goal with |- context [if ?c then _ else _] => destruct c end;
    cbn; tauto.
Qed.

Lemma vocabularyBand_score (d : Q) : In (fst (vocabularyBand d)) [2; 4; 6; 8; 10]%Z.
Proof.
  unfold vocabularyBand.
  repeat match goal with |- context [if ?c then _ else _] => destruct c end;
    cbn; tauto.
Qed.

(** The fields of the filler analysis, read off the definition. *)
Lemma analyzeFillerWords_fields (words : list (list ascii)) :
  let a := analyzeFillerWords words in
  fillerWordPercentage a
  = (if Nat.ltb 0 (List.length words)
     then (ofNat (totalFillerWords a) / ofNat (List.length words)) * 100
     else 0)
  /\ fillerWordScore a = fst (fillerBand (fillerWordPercentage a)).
Proof.
  unfold analyzeFillerWords.
  destruct (countPatterns _ _) as [c t].
  match goal with |- context [fillerBand ?p] => set (pct := p) end.
  destruct (fillerBand pct) as [s f] eqn:E.
  cbn [fillerWordPercentage fillerWordScore totalFillerWords].
  fold pct. rewrite E. split; reflexivity.
Qed.

Lemma analyzeVocabulary_score (words : list (list ascii)) :
  In (vocabularyScore (analyzeVocabulary words)) [2; 4; 6; 8; 10]%Z.
Proof.
  unfold analyzeVocabulary.
  match goal with |- context [vocabularyBand ?d] =>
    pose proof (vocabularyBand_score d) as H; destruct (vocabularyBand d) as [s f]
  end.
  exact H.
Qed.

Lemma analyzeConfidence_score (textLower : list ascii) :
  (1 <= confidenceScore (analyzeConfidence textLower) <= 10)%Z.
Proof. unfold analyzeConfidence. cbn. lia. Qed.

Lemma in_bounds (x lo hi : Z) (l : list Z) :
  In x l -> Forall (fun v => (lo <= v <= hi)%Z) l -> (lo <= x <= hi)%Z.
Proof. intros Hin Hall. rewrite Forall_forall in Hall. apply Hall. assumption. Qed.


Lemma fillerBand_monotone (p q : Q) :
  p <= q -> (fst (fillerBand q) <= fst (fillerBand p))%Z.
Proof.
  intros Hpq. unfold fillerBand.
  repeat match goal with
         | |- context [if Qltb ?x ?y then _ else _] =>
             let E := fresh "E" in
             destruct (Qltb x y) eqn:E;
             [apply Qltb_lt in E | apply Qltb_ge in E]
         end;
    cbn [fst]; try lia; exfalso; lra.
Qed.

Lemma ofNat_nonneg (n : nat) : 0 <= ofNat n.
Proof. unfold ofNat. change 0 with (inject_Z 0). rewrite <- Zle_Qle. lia. Qed.

Lemma ofNat_pos (n : nat) : (0 < n)%nat -> 0 < ofNat n.
Proof. intros H. unfold ofNat. change 0 with (inject_Z 0). rewrite <- Zlt_Qlt. lia. Qed.

(** Comparison of two ratios of counts by cross multiplication. *)
Lemma ratio_le (a b c d : nat) :
  (0 < b)%nat -> (0 < d)%nat -> (a * d <= c * b)%nat ->
  ofNat a / ofNat b * 100 <= ofNat c / ofNat d * 100.
Proof.
  intros Hb Hd H.
  pose proof (ofNat_pos b Hb) as Qb. pose proof (ofNat_pos d Hd) as Qd.
  assert (Hq : ofNat a * ofNat d <= ofNat c * ofNat b).
  { unfold ofNat. rewrite <- !inject_Z_mult, <- Zle_Qle. lia. }
  apply Qmult_le_compat_r; [|lra].
  apply Qle_shift_div_r; [assumption|].
  apply Qle_shift_div_l in Hq; [|assumption].
  setoid_replace (ofNat c / ofNat d * ofNat b) with (ofNat c * ofNat b / ofNat d)
    by (field; lra).
  assumption.
Qed.

(** Monotonicity read off the counts: [k] more words and at least [k]
    more counted fillers. *)
Lemma percentage_monotone_counts (shorter longer : list (list ascii)) (k : nat) :
  List.length longer = (List.length shorter + k)%nat ->
  (totalFillerWords (analyzeFillerWords shorter) + k
   <= totalFillerWords (analyzeFillerWords longer))%nat ->
  (totalFillerWords (analyzeFillerWords shorter) <= List.length shorter)%nat ->
  fillerWordPercentage (analyzeFillerWords shorter)
  <= fillerWordPercentage (analyzeFillerWords longer).
Proof.
  intros Hlen Hfill Hcap.
  destruct (analyzeFillerWords_fields shorter) as [Hps _].
  destruct (analyzeFillerWords_fields longer) as [Hpl _].
  rewrite Hps, Hpl.
  destruct (Nat.ltb_spec 0 (List.length shorter)) as [Hs|Hs];
    destruct (Nat.ltb_spec 0 (List.length longer)) as [Hl|Hl]; try lia.
  - apply ratio_le; try assumption. nia.
  - apply Qmult_le_0_compat; [|lra].
    apply Qle_shift_div_l; [apply ofNat_pos; assumption|].
    pose proof (ofNat_nonneg (totalFillerWords (analyzeFillerWords longer))). lra.
  - lra.
Qed.

(** A counting loop whose steps never lower the total. *)
Lemma fold_left_total_grows (A : Type) (f : tally -> A -> tally) (l : list A) :
  (forall (t : tally) (x : A), (snd t <= snd (f t x))%nat) ->
  forall t : tally, (snd t <= snd (fold_left f l t))%nat.
Proof.
  intros Hf. induction l as [|x l IH]; intros t; cbn [fold_left]; [lia|].
  specialize (IH (f t x)). specialize (Hf t x). lia.
Qed.

(** Step 1 adds one to the total for every pure-filler token. *)
Lemma countPureFillers_total (words : list (list ascii)) :
  forall t : tally,
    snd (countPureFillers words t) = (snd t + pureFillerCount words)%nat.
Proof.
  unfold countPureFillers, pureFillerCount.
  induction words as [|word words IH]; intros [c n]; cbn [fold_left filter].
  - cbn. lia.
  - unfold isPureFiller at 1.
    destruct (includes PURE_FILLER_SOUNDS (cleanWord word));
      rewrite IH; cbn [snd List.length]; lia.
Qed.

Lemma countOverused_total (words : list (list ascii)) (t : tally) :
  (snd t <= snd (countOverused words t))%nat.
Proof.
  unfold countOverused. apply fold_left_total_grows.
  intros [c n] word. cbn [snd].
  repeat match goal with |- context [if ?b then _ else _] => destruct b end;
    cbn [snd]; lia.
Qed.

Lemma countPatterns_total (fullText : list ascii) (t : tally) :
  (snd t <= snd (countPatterns fullText t))%nat.
Proof.
  unfold countPatterns. apply fold_left_total_grows.
  intros [c n] p. cbn [snd].
  destruct (Nat.ltb _ _); cbn [snd]; lia.
Qed.

(** Every pure-filler token is among the counted fillers. *)
Lemma pureFillers_counted (words : list (list ascii)) :
  (pureFillerCount words <= totalFillerWords (analyzeFillerWords words))%nat.
Proof.
  unfold analyzeFillerWords.
  pose proof (countPureFillers_total words ([], 0%nat)) as H1.
  pose proof (countOverused_total words (countPureFillers words ([], 0%nat))) as H2.
  pose proof (countPatterns_total
                (toLowerCase (join (chars " ") words))
                (countOverused words (countPureFillers words ([], 0%nat)))) as H3.
  destruct (countPatterns _ _) as [c t].
  destruct (fillerBand _) as [s f].
  cbn [totalFillerWords snd] in *. lia.
Qed.

Lemma words_partition (words : list (list ascii)) :
  List.length words
  = (pureFillerCount words + List.length (withoutPureFillers words))%nat.
Proof.
  unfold pureFillerCount, withoutPureFillers.
  rewrite filter_length. reflexivity.
Qed.

(** C7 (amended). The band table of the filler score is monotone: a
    higher percentage never selects a higher score.  For two transcripts
    that are identical except that [longer] has strictly more pure-filler
    tokens, the filler percentage of [longer] is at least that of
    [shorter] and its filler score is at most that of [shorter], provided
    that the added fillers do not lower the count of the other two layers
    (they break no phrase pattern and do not raise the overuse threshold)
    and that the counted fillers of [shorter] do not exceed its words. *)
Theorem filler_monotonicity :
  (forall p q : Q, p <= q -> (fst (fillerBand q) <= fst (fillerBand p))%Z)
  /\ (forall shorter longer : list (list ascii),
         withoutPureFillers shorter = withoutPureFillers longer ->
         (pureFillerCount shorter < pureFillerCount longer)%nat ->
         (contextualFillers shorter <= contextualFillers longer)%nat ->
         (totalFillerWords (analyzeFillerWords shorter) <= List.length shorter)%nat ->
         fillerWordPercentage (analyzeFillerWords shorter)
         <= fillerWordPercentage (analyzeFillerWords longer)
         /\ (fillerWordScore (analyzeFillerWords longer)
             <= fillerWordScore (analyzeFillerWords shorter))%Z).
Proof.
  split; [exact fillerBand_monotone|].
  intros shorter longer Hsame Hmore Hctx Hcap.
  assert (Hpct : fillerWordPercentage (analyzeFillerWords shorter)
                 <= fillerWordPercentage (analyzeFillerWords longer)).
  { apply (percentage_monotone_counts
             shorter longer (pureFillerCount longer - pureFillerCount shorter)).
    - rewrite (words_partition longer), (words_partition shorter), Hsame. lia.
    - pose proof (pureFillers_counted shorter). pose proof (pureFillers_counted longer).
      unfold contextualFillers in Hctx. lia.
    - exact Hcap. }
  split; [exact Hpct|].
  rewrite (proj2 (analyzeFillerWords_fields shorter)),
    (proj2 (analyzeFillerWords_fields longer)).
  apply fillerBand_monotone. exact Hpct.
Qed.

(** Two pure fillers added to a clean sentence of four words. *)
Lemma filler_monotonicity_witness :
  fillerWordPercentage (analyzeFillerWords (wordsOf "we ship it today"))
  <= fillerWordPercentage (analyzeFillerWords (wordsOf "we um ship it uh today"))
  /\ (fillerWordScore (analyzeFillerWords (wordsOf "we um ship it uh today"))
      <= fillerWordScore (analyzeFillerWords (wordsOf "we ship it today")))%Z.
Proof.
  apply (proj2 filler_monotonicity
               (wordsOf "we ship it today") (wordsOf "we um ship it uh today")).
  - reflexivity.
  - vm_compute. lia.
  - vm_compute. lia.
  - vm_compute. lia.
Defined.

(** C7 as stated fails: [shorter] and [longer] are the same 50 words
    except that [longer] has one more pure filler, "um", between "you" and
    "know".  The filler breaks the phrase "you know", so that one filler
    is counted in both transcripts: 1 of 50 words (2 percent, score 6)
    against 1 of 51 words (less than 2 percent, score 8). *)
Lemma filler_monotonicity_counterexample :
  let rest := repeat (chars "fine") 48 in
  let shorter := chars "you" :: chars "know" :: rest in
  let longer := chars "you" :: chars "um" :: chars "know" :: rest in
  withoutPureFillers shorter = withoutPureFillers longer
  /\ (pureFillerCount shorter < pureFillerCount longer)%nat
  /\ contextualFillers shorter = 1%nat
  /\ contextualFillers longer = 0%nat
  /\ ~ (fillerWordPercentage (analyzeFillerWords shorter)
        <= fillerWordPercentage (analyzeFillerWords longer))
  /\ ~ (fillerWordScore (analyzeFillerWords longer)
        <= fillerWordScore (analyzeFillerWords shorter))%Z.
Proof.
  cbv zeta. split; [vm_compute; reflexivity|].
  split; [vm_compute; lia|].
  split; [vm_compute; reflexivity|].
  split; [vm_compute; reflexivity|].
  split.
  - intros H. vm_compute in H. apply H. reflexivity.
  - intros H. vm_compute in H. apply H. reflexivity.
Qed.

End AnalyticsFacts.

(* ================================================================== *)
(** * Properties of the regular expression search                      *)
(* ================================================================== *)

Module RegExpFacts.

Import Str RegExp NormalizerSpec.

Lemma extends_refl (cur : cursor) : extends cur cur.
Proof. exists []. split; [reflexivity|cbn; lia]. Qed.

Lemma extends_trans (c1 c2 c3 : cursor) :
  extends c1 c2 -> extends c2 c3 -> extends c1 c3.
Proof.
  intros [u [Hu Pu]] [v [Hv Pv]]. exists (u ++ v). split.
  - rewrite Hu, Hv, app_assoc. reflexivity.
  - rewrite length_app. lia.
Qed.

Lemma extends_step (c : ascii) (s' : list ascii) (cur : cursor) :
  rest cur = c :: s' -> extends cur (step c s' cur).
Proof.
  intros H. exists [c]. split; [rewrite H; reflexivity|cbn; lia].
Qed.

Lemma star_extends (p : ascii -> bool) (k : cursor -> outcome) (res : cursor * captures) :
  forall (s : list ascii) (b : option ascii) (n : nat),
    star p b n s k = Some res ->
    exists cur',
      (exists consumed, s = consumed ++ rest cur'
                        /\ pos cur' = (n + List.length consumed)%nat)
      /\ k cur' = Some res.
Proof.
  induction s as [|c s IH]; intros b n H; cbn [star] in H.
  - eexists. split; [|exact H]. exists []. split; [reflexivity|cbn; lia].
  - destruct (p c).
    + destruct (star p (Some c) (S n) s k) as [r|] eqn:E.
      * injection H as <-. destruct (IH _ _ E) as [cur' [[u [Hu Pu]] Hk]].
        exists cur'. split; [|exact Hk].
        exists (c :: u). split; [rewrite Hu; reflexivity|cbn; lia].
      * eexists. split; [|exact H]. exists []. split; [reflexivity|cbn; lia].
    + eexists. split; [|exact H]. exists []. split; [reflexivity|cbn; lia].
Qed.

(** Whatever way a pattern matches, the continuation is entered at a
    cursor further on in the same subject. *)
Lemma rmatch_extends (i : bool) (r : regex) :
  forall (cur : cursor) (caps : captures) (k : cursor -> captures -> outcome)
         (res : cursor * captures),
    rmatch i r cur caps k = Some res ->
    exists cur' caps', extends cur cur' /\ k cur' caps' = Some res.
Proof.
  induction r as [|p|p|p|p|r1 IH1 r2 IH2|r1 IH1 r2 IH2|g r1 IH1|r1 IH1| |];
    intros cur caps k res H; cbn [rmatch] in H.
  - exists cur, caps. split; [apply extends_refl|exact H].
  - destruct (rest cur) as [|c s'] eqn:E; [discriminate|].
    destruct (sameChar i p c); [|discriminate].
    exists (step c s' cur), caps. split; [apply extends_step; exact E|exact H].
  - destruct (rest cur) as [|c s'] eqn:E; [discriminate|].
    destruct (p c); [|discriminate].
    exists (step c s' cur), caps. split; [apply extends_step; exact E|exact H].
  - apply star_extends in H. destruct H as [cur' [[u [Hu Pu]] Hk]].
    exists cur', caps. split; [|exact Hk]. exists u. split; assumption.
  - destruct (rest cur) as [|c s'] eqn:E; [discriminate|].
    destruct (p c); [|discriminate].
    apply star_extends in H. destruct H as [cur' [[u [Hu Pu]] Hk]].
    exists cur', caps. split; [|exact Hk].
    exists (c :: u). split; [rewrite E, Hu; reflexivity|cbn; lia].
  - apply IH1 in H. destruct H as [c1 [caps1 [E1 H]]].
    apply IH2 in H. destruct H as [c2 [caps2 [E2 H]]].
    exists c2, caps2. split; [eapply extends_trans; eassumption|exact H].
  - destruct (rmatch i r1 cur caps k) as [r|] eqn:E.
    + injection H as <-. apply IH1 in E. exact E.
    + apply IH2 in H. exact H.
  - apply IH1 in H. destruct H as [c1 [caps1 [E1 H]]].
    exists c1. eexists. split; [exact E1|exact H].
  - destruct (rmatch i r1 cur caps _); [discriminate|].
    exists cur, caps. split; [apply extends_refl|exact H].
  - destruct (xorb _ _); [|discriminate].
    exists cur, caps. split; [apply extends_refl|exact H].
  - destruct (Nat.eqb _ _); [|discriminate].
    exists cur, caps. split; [apply extends_refl|exact H].
Qed.

Lemma exec_extends (i : bool) (r : regex) (cur cur' : cursor) (caps : captures) :
  exec i r cur = Some (cur', caps) -> extends cur cur'.
Proof.
  unfold exec. intros H. apply rmatch_extends in H.
  destruct H as [c1 [caps1 [E H]]]. injection H as <- _. exact E.
Qed.

(** The segments of a global search spell the subject. *)
Lemma render_scan (i : bool) (r : regex) :
  forall (s : list ascii) (b : option ascii) (n skip : nat),
    render (scan i r b n s skip) = skipn skip s.
Proof.
  induction s as [|c s IH]; intros b n skip.
  - destruct skip; cbn [scan]; [|reflexivity].
    destruct (exec i r _) as [[cur' caps]|] eqn:E; [|reflexivity].
    apply exec_extends in E. destruct E as [u [Hu Pu]]. cbn [rest pos] in Hu, Pu.
    destruct u; [|discriminate].
    cbn [List.length] in Pu. replace (pos cur' - n)%nat with 0%nat by lia.
    reflexivity.
  - destruct skip; cbn [scan].
    + destruct (exec i r _) as [[cur' caps]|] eqn:E.
      * apply exec_extends in E. destruct E as [u [Hu Pu]]. cbn [rest pos] in Hu, Pu.
        replace (pos cur' - n)%nat with (List.length u) by lia.
        destruct u as [|c' u].
        -- cbn [List.length firstn render flat_map matched app]. rewrite <- (IH (Some c) (S n) 0%nat) at 2.
           reflexivity.
        -- cbn [List.length]. unfold render. cbn [flat_map matched].
           fold (render (scan i r (Some c) (S n) s (List.length u))).
           rewrite IH. cbn [firstn skipn app]. f_equal. apply firstn_skipn.
      * unfold render. cbn [flat_map]. fold (render (scan i r (Some c) (S n) s 0)).
        rewrite IH. reflexivity.
    + rewrite IH. reflexivity.
Qed.

Lemma render_segments (i : bool) (r : regex) (subject : list ascii) :
  render (segments i r subject) = subject.
Proof. unfold segments. apply render_scan. Qed.

End RegExpFacts.

(* ================================================================== *)
(** * Properties of removeFillerWords                                   *)
(* ================================================================== *)

Module NormalizerFacts.

Import Str RegExp NormalizerSpec TranscriptionOrchestrator RegExpFacts.
Local Open Scope nat_scope.

Lemma hits_app (a b : list segment) : hits (a ++ b) = hits a ++ hits b.
Proof. unfold hits. apply flat_map_app. Qed.

(** Once [removeCount] is zero the callback keeps every match. *)
Lemma substitute_keep (segs : list segment) :
  substitute removeExcess 0 segs = (render segs, 0%nat).
Proof.
  induction segs as [|[c|h] segs IH]; cbn [substitute]; [reflexivity| |].
  - rewrite IH. reflexivity.
  - unfold removeExcess at 1. cbn [Nat.ltb Nat.leb]. rewrite IH. reflexivity.
Qed.

(** With [removeCount = k] the callback erases the first [k] matches and
    keeps the others. *)
Lemma substitute_removeExcess :
  forall (segs : list segment) (k : nat),
    (k <= List.length (hits segs))%nat ->
    exists removed kept,
      segs = removed ++ kept
      /\ List.length (hits removed) = k
      /\ fst (substitute removeExcess k segs) = literals removed ++ render kept.
Proof.
  induction segs as [|[c|h] segs IH]; intros k Hk.
  - cbn in Hk. assert (k = 0%nat) by lia. subst k.
    exists [], []. repeat split.
  - destruct k as [|k].
    + exists [], (Lit c :: segs). split; [reflexivity|]. split; [reflexivity|].
      rewrite substitute_keep. reflexivity.
    + destruct (IH (S k) Hk) as [removed [kept [Hs [Hn Hout]]]].
      exists (Lit c :: removed), kept. split; [rewrite Hs; reflexivity|].
      split; [exact Hn|].
      cbn [substitute]. destruct (substitute removeExcess (S k) segs) as [out st].
      cbn [fst] in *. rewrite Hout. reflexivity.
  - destruct k as [|k].
    + exists [], (Hit h :: segs). split; [reflexivity|]. split; [reflexivity|].
      rewrite substitute_keep. reflexivity.
    + cbn [hits flat_map List.length app] in Hk.
      destruct (IH k ltac:(unfold hits; lia)) as [removed [kept [Hs [Hn Hout]]]].
      exists (Hit h :: removed), kept. split; [rewrite Hs; reflexivity|].
      split; [cbn [hits flat_map List.length app]; unfold hits in Hn; lia|].
      cbn [substitute]. unfold removeExcess at 1. cbn [Nat.ltb Nat.leb Nat.sub].
      rewrite Nat.sub_0_r.
      destruct (substitute removeExcess k segs) as [out st].
      cbn [fst] in *. rewrite Hout. reflexivity.
Qed.

(** C9 (amended). In the marker pass of [removeFillerWords], a discourse
    marker that occurs at most 4 times is left alone; when it occurs
    n > 4 times, the first n - 2 occurrences are removed and the last 2
    are kept, the text between the occurrences being unchanged. *)
Theorem stripMarker_keeps_last_two (cleanText : list ascii) (marker : string) :
  let segs := markerSegments marker cleanText in
  let n := List.length (hits segs) in
  render segs = cleanText
  /\ ((n <= 4)%nat -> stripMarker cleanText marker = cleanText)
  /\ ((4 < n)%nat ->
      exists removed kept,
        segs = removed ++ kept
        /\ List.length (hits removed) = (n - 2)%nat
        /\ List.length (hits kept) = 2%nat
        /\ stripMarker cleanText marker = literals removed ++ render kept).
Proof.
  intros segs n.
  assert (Hcount : List.length (matchAll true (wordPattern marker) cleanText) = n).
  { unfold matchAll. rewrite length_map. reflexivity. }
  split; [apply render_segments|]. split.
  - intros Hn. unfold stripMarker. rewrite Hcount.
    destruct (Nat.ltb_spec 4 n); [lia|reflexivity].
  - intros Hn. unfold stripMarker. rewrite Hcount.
    destruct (Nat.ltb_spec 4 n); [|lia].
    unfold replaceWith. fold (markerSegments marker cleanText). fold segs.
    destruct (substitute_removeExcess segs (n - 2)) as [removed [kept [Hs [Hr Hout]]]];
      [unfold n; lia|].
    exists removed, kept. repeat split; try assumption.
    assert (Hall : List.length (hits segs) = n) by reflexivity.
    rewrite Hs, hits_app, length_app in Hall. lia.
Qed.

(** Five occurrences of "well": the text splits into a part with three
    occurrences, which are removed, and a part with two, which are kept.
    Three occurrences: nothing is removed. *)
Lemma stripMarker_keeps_last_two_witness :
  (exists removed kept,
      markerSegments "well" (chars "well a well b well c well d well e")
      = removed ++ kept
      /\ List.length (hits removed) = 3
      /\ List.length (hits kept) = 2
      /\ stripMarker (chars "well a well b well c well d well e") "well"
         = literals removed ++ render kept)
  /\ stripMarker (chars "well a well b well c") "well" = chars "well a well b well c".
Proof.
  split.
  - apply (stripMarker_keeps_last_two
             (chars "well a well b well c well d well e") "well").
    vm_compute. lia.
  - apply (stripMarker_keeps_last_two (chars "well a well b well c") "well").
    vm_compute. lia.
Defined.

(** C9 as stated fails.  With five occurrences of "well" (more than a
    budget of 2) the code keeps the last two, not the first two; with
    three occurrences it strips none, although the third is beyond the
    budget. *)
Lemma stripMarker_counterexample :
  let five := chars "well a well b well c well d well e" in
  let three := chars "well a well b well c" in
  (2 < List.length (hits (markerSegments "well" five)))%nat
  /\ stripMarker five "well" = chars " a  b  c well d well e"
  /\ keepFirst 2 (markerSegments "well" five) = chars "well a well b  c  d  e"
  /\ stripMarker five "well" <> keepFirst 2 (markerSegments "well" five)
  /\ removeFillerWords "well a well b well c well d well e" = "a b c well d well e"%string
  /\ (2 < List.length (hits (markerSegments "well" three)))%nat
  /\ stripMarker three "well" = three
  /\ stripMarker three "well" <> keepFirst 2 (markerSegments "well" three).
Proof.
  cbv zeta. repeat split; try (vm_compute; reflexivity); try (vm_compute; lia);
    vm_compute; discriminate.
Qed.

(** The last of the arguments that [replace] hands to the callback is
    the whole text under examination, so that [keepLastGroup] returns that
    text for every match in a text that is not empty. *)
Lemma keepLastGroup_returns_subject (r : regex) (h : hit) (subject : list ascii) :
  subject <> [] ->
  keepLastGroup (matched h) (restArguments r h subject) = Text subject.
Proof.
  intros Hne. unfold keepLastGroup, restArguments.
  change [Num (offset h); Text subject] with ([Num (offset h)] ++ [Text subject]).
  rewrite app_assoc, last_last, !length_app. cbn [List.length].
  replace (Nat.ltb 0 _) with true by (symmetry; apply Nat.ltb_lt; lia).
  destruct subject; [congruence|reflexivity].
Qed.

(** C2 fails on the code.  The pattern pass replaces the match "I mean"
    by the whole text "I mean it" instead of deleting it: the output is
    longer than the input and holds the token "it" twice, the input once.
    Where a pattern has a captured group, as in "like when i go", the
    match is not replaced by the group "when i" either, but again by the
    whole text.  With the replacement that the design document and the
    comment of the callback describe, the two outputs would be "it" and
    "when i go". *)
Theorem removeFillerWords_repeats_the_text :
  removeFillerWords "I mean it" = "I mean it it"%string
  /\ str (removeFillerPatterns (chars "I mean it")) = "I mean it it"%string
  /\ wordTokens "I mean it" = ["I"; "mean"; "it"]%string
  /\ wordTokens (removeFillerWords "I mean it") = ["I"; "mean"; "it"; "it"]%string
  /\ occurrences "it" "I mean it" = 1
  /\ occurrences "it" (removeFillerWords "I mean it") = 2
  /\ String.length "I mean it" < String.length (removeFillerWords "I mean it")
  /\ removeFillerWords "like when i go" = "like when i go go"%string
  /\ removeFillerWordsAsSpecified "I mean it" = "it"%string
  /\ removeFillerWordsAsSpecified "like when i go" = "when i go"%string.
Proof.
  repeat split; try (vm_compute; reflexivity). vm_compute. lia.
Qed.

End NormalizerFacts.

(* ================================================================== *)
(** * Properties of splitAudio                                          *)
(* ================================================================== *)

Module SplitFacts.

Import Types ServerlessMediaProcessingService.

Lemma Qmult_lt_cancel (x y z : Q) : 0 < z -> x * z < y * z -> x < y.
Proof. intros Hz H. apply Qmult_lt_r in H; assumption. Qed.

(** The bounds that define the ceiling, multiplied out. *)
Lemma numChunks_bounds (totalDuration chunkDuration : Q) :
  0 < chunkDuration ->
  inject_Z (numChunks totalDuration chunkDuration - 1) * chunkDuration < totalDuration
  /\ totalDuration <= inject_Z (numChunks totalDuration chunkDuration) * chunkDuration.
Proof.
  intros Hc. unfold numChunks.
  pose proof (Qle_ceiling (totalDuration / chunkDuration)) as Hle.
  pose proof (Qceiling_lt (totalDuration / chunkDuration)) as Hlt.
  assert (E : totalDuration / chunkDuration * chunkDuration == totalDuration)
    by (field; lra).
  set (q := totalDuration / chunkDuration) in *.
  split.
  - rewrite <- E. apply Qmult_lt_r; assumption.
  - rewrite <- E at 1. apply Qmult_le_r; assumption.
Qed.

Lemma numChunks_positive (totalDuration chunkDuration : Q) :
  0 < chunkDuration -> 0 < totalDuration ->
  (0 < numChunks totalDuration chunkDuration)%Z.
Proof.
  intros Hc Hd.
  destruct (numChunks_bounds totalDuration chunkDuration Hc) as [_ Hle].
  assert (H : 0 < inject_Z (numChunks totalDuration chunkDuration)).
  { destruct (Qlt_le_dec 0 (inject_Z (numChunks totalDuration chunkDuration)))
      as [Hp|Hn]; [exact Hp|].
    exfalso. nra. }
  change 0 with (inject_Z 0) in H. rewrite <- Zlt_Qlt in H. exact H.
Qed.

Lemma chunkRequests_length (totalDuration chunkDurationMinutes : Q) :
  List.length (chunkRequests totalDuration chunkDurationMinutes)
  = Z.to_nat (numChunks totalDuration (chunkDurationMinutes * 60)).
Proof. unfold chunkRequests. rewrite length_map, length_seq. reflexivity. Qed.

Lemma chunkRequests_nth (totalDuration chunkDurationMinutes : Q) (i : nat) :
  (i < List.length (chunkRequests totalDuration chunkDurationMinutes))%nat ->
  nth_error (chunkRequests totalDuration chunkDurationMinutes) i
  = Some (inject_Z (Z.of_nat i) * (chunkDurationMinutes * 60), chunkDurationMinutes * 60).
Proof.
  intros Hi. rewrite chunkRequests_length in Hi. unfold chunkRequests.
  rewrite nth_error_map, nth_error_seq.
  destruct (Nat.ltb_spec i (Z.to_nat (numChunks totalDuration (chunkDurationMinutes * 60))));
    [reflexivity|lia].
Qed.

(** The chunk loop pushes one chunk per request. *)
Lemma cutChunks_length (Buffer World : Type) (engine : Engine Buffer World) :
  forall (requests : list (Q * Q)) (acc chunks : list Buffer) (w w' : World),
    cutChunks engine requests acc w = (Normal chunks, w') ->
    List.length chunks = (List.length acc + List.length requests)%nat.
Proof.
  induction requests as [|[startTime chunkDuration] requests IH];
    intros acc chunks w w' H; cbn [cutChunks] in H.
  - unfold ret in H. injection H as <- _. cbn. lia.
  - unfold bind in H.
    destruct (cutChunk engine startTime chunkDuration w) as [[chunk|e] w1];
      [|discriminate].
    apply IH in H. rewrite H, length_app. cbn. lia.
Qed.




End SplitFacts.

(* ================================================================== *)
(** * Properties of TranscriptionOrchestrator                           *)
(* ================================================================== *)

Module PipelineFacts.

Import Types PipelineSpec TranscriptionOrchestrator.
Local Open Scope string_scope.
Local Open Scope list_scope.
Local Open Scope nat_scope.

Local Notation "a +++ b" := (String.append a b) (at level 60, right associativity).

Section Pipeline.

Variable Buffer : Type.
Variable bufferLength : Buffer -> Z.
Variable World : Type.
Variable mediaService : ServerlessMediaProcessingService.Engine Buffer World.
Variable transcriptionService : GeminiTranscriptionService.Backend Buffer World.

(** When every call of the backend for a chunk is rejected, the retry
    loop ends by throwing: the chunk has failed for good. *)
Lemma attempts_exhausted
      (audioBuffer : Buffer) (fileName : string) (config : TranscriptionConfig)
      (maxRetries : Z) :
  (forall w : World,
      exists (e : string) (w' : World),
        GeminiTranscriptionService.transcribe transcriptionService
                                              audioBuffer fileName config w
        = (Throw e, w')) ->
  forall (n : nat) (attempt : Z) (lastError : option string) (w : World),
    exists (e : string) (w' : World),
      GeminiTranscriptionService.attempts transcriptionService n attempt maxRetries
                                          lastError audioBuffer fileName config w
      = (Throw e, w').
Proof.
  intros Hfail.
  induction n as [|n IH]; intros attempt lastError w;
    cbn [GeminiTranscriptionService.attempts].
  - eexists. eexists. reflexivity.
  - unfold tryCatch. destruct (Hfail w) as [e [w1 ->]].
    unfold bind.
    destruct ((if (attempt <? maxRetries)%Z
               then GeminiTranscriptionService.sleep transcriptionService
                                                     (2 ^ attempt * 1000)%Z
               else ret tt) w1) as [[[]|e'] w2].
    + apply IH.
    + eexists. eexists. reflexivity.
Qed.

Lemma chunkOutcomes_length (fileName : string) (config : TranscriptionConfig) :
  forall (chunks : list Buffer) (i : nat) (w : World),
    List.length (fst (chunkOutcomes transcriptionService chunks i fileName config w))
    = List.length chunks.
Proof.
  induction chunks as [|chunk chunks IH]; intros i w; cbn [chunkOutcomes]; [reflexivity|].
  destruct (GeminiTranscriptionService.transcribeWithRetry _ _ _ _ w) as [o w1].
  specialize (IH (S i) w1).
  destruct (chunkOutcomes transcriptionService chunks (S i) fileName config w1) as [os w2].
  cbn [fst List.length] in *. rewrite IH. reflexivity.
Qed.

Lemma piecesFrom_length (outcomes : list (completion TranscriptionResult)) :
  forall i : nat, List.length (piecesFrom i outcomes) = List.length outcomes.
Proof.
  induction outcomes as [|o os IH]; intros i; cbn [piecesFrom List.length];
    [reflexivity|]. rewrite IH. reflexivity.
Qed.

Lemma piecesFrom_nth (outcomes : list (completion TranscriptionResult)) :
  forall (i k : nat) (o : completion TranscriptionResult),
    nth_error outcomes k = Some o ->
    nth_error (piecesFrom i outcomes) k = Some (pieceOf (i + k) o).
Proof.
  induction outcomes as [|o' os IH]; intros i k o H.
  - destruct k; discriminate.
  - destruct k as [|k]; cbn [nth_error piecesFrom] in *.
    + injection H as ->. rewrite Nat.add_0_r. reflexivity.
    + rewrite (IH (S i) k o H). f_equal. f_equal. lia.
Qed.

(** The chunk loop of [processLargeFile] appends one piece per chunk
    and never throws. *)
Lemma largeFileChunks_pieces (fileName : string) (config : TranscriptionConfig) :
  forall (chunks : list Buffer) (i : nat) (chunkResults : list string) (w : World),
    largeFileChunks transcriptionService chunks i chunkResults fileName config w
    = (Normal (chunkResults
               ++ piecesFrom i (fst (chunkOutcomes transcriptionService chunks i
                                                   fileName config w))),
       snd (chunkOutcomes transcriptionService chunks i fileName config w)).
Proof.
  induction chunks as [|chunk chunks IH]; intros i acc w;
    cbn [largeFileChunks chunkOutcomes].
  - cbn. rewrite app_nil_r. reflexivity.
  - unfold bind at 1. unfold tryCatch, bind at 1, transcribeWithRetry.
    destruct (GeminiTranscriptionService.transcribeWithRetry _ _ _ _ w) as [[r|e] w1];
      cbn [ret].
    + rewrite IH.
      destruct (chunkOutcomes transcriptionService chunks (S i) fileName config w1)
        as [os w2].
      cbn [fst snd piecesFrom pieceOf]. rewrite <- app_assoc. reflexivity.
    + rewrite IH.
      destruct (chunkOutcomes transcriptionService chunks (S i) fileName config w1)
        as [os w2].
      cbn [fst snd piecesFrom pieceOf]. rewrite <- app_assoc. reflexivity.
Qed.

(** C3 (amended). On the duration-triggered chunked path of
    [processFile], that is in [processLargeFile], the chunks are
    transcribed in index order and a chunk whose retries are exhausted
    does not stop the loop: every chunk has an outcome and contributes
    exactly one piece at its own index, its text when it was transcribed
    and the placeholder "[Chunk N transcription failed]" (N = index + 1)
    when it failed; the pieces are joined in index order with single
    spaces, and [processFile] completes its result from that text. *)
Theorem processLargeFile_reassembly
        (audioBuffer : Buffer) (fileName : string) (config : TranscriptionConfig)
        (chunkDurationMinutes : Q) (chunks : list Buffer) (w w1 : World) :
  splitAudio mediaService audioBuffer fileName chunkDurationMinutes w
  = (Normal chunks, w1) ->
  let outcomes :=
    fst (chunkOutcomes transcriptionService chunks 0 fileName config w1) in
  let w2 := snd (chunkOutcomes transcriptionService chunks 0 fileName config w1) in
  let pieces := piecesFrom 0 outcomes in
  processLargeFile mediaService transcriptionService audioBuffer fileName config
                   chunkDurationMinutes w
  = (Normal (String.concat " " pieces), w2)
  /\ List.length outcomes = List.length chunks
  /\ List.length pieces = List.length chunks
  /\ (forall (i : nat) (e : string),
         nth_error outcomes i = Some (Throw e) ->
         nth_error pieces i
         = Some ("[Chunk " +++ Str.ofNat (i + 1) +++ " transcription failed]"))
  /\ (forall (i : nat) (result : TranscriptionResult),
         nth_error outcomes i = Some (Normal result) ->
         nth_error pieces i = Some (text result))
  /\ (forall (fileBuffer : Buffer) (mediaInfo : MediaInfo) (w0 : World),
         prepareAudio mediaService fileBuffer fileName w0
         = (Normal (mediaInfo, audioBuffer), w) ->
         (bufferLength audioBuffer <= maxSize)%Z ->
         (chunkDurationMinutes = 10)%Q ->
         (10 * 60 < duration mediaInfo)%Q ->
         processFile bufferLength mediaService transcriptionService
                     fileBuffer fileName config w0
         = (Normal (complete fileName config mediaInfo (String.concat " " pieces)),
            w2)).
Proof.
  intros Hsplit outcomes w2 pieces.
  assert (Hlarge :
            processLargeFile mediaService transcriptionService audioBuffer fileName
                             config chunkDurationMinutes w
            = (Normal (String.concat " " pieces), w2)).
  { unfold processLargeFile, bind. rewrite Hsplit.
    rewrite largeFileChunks_pieces. reflexivity. }
  split; [exact Hlarge|]. split; [|split; [|split; [|split]]].
  - apply chunkOutcomes_length.
  - unfold pieces. rewrite piecesFrom_length. apply chunkOutcomes_length.
  - intros i e H. unfold pieces. rewrite (piecesFrom_nth _ 0 i _ H). reflexivity.
  - intros i r H. unfold pieces. rewrite (piecesFrom_nth _ 0 i _ H). reflexivity.
  - intros fileBuffer mediaInfo w0 Hprep Hsize Hten Hlong.
    unfold processFile, tryCatch, processFileBody. unfold bind at 1.
    rewrite Hprep.
    replace (maxSize <? bufferLength audioBuffer)%Z with false
      by (symmetry; apply Z.ltb_ge; exact Hsize).
    unfold bind at 1.
    replace (Qltb (10 * 60) (duration mediaInfo)) with true
      by (symmetry; unfold Qltb; apply negb_true_iff;
          destruct (Qle_bool (duration mediaInfo) (10 * 60)) eqn:E;
          [apply Qle_bool_iff in E; apply Qlt_not_le in Hlong; contradiction
          |reflexivity]).
    rewrite <- Hten, Hlarge. reflexivity.
Qed.

(** The result that steps 4 to 6 build from a raw transcription. *)
Lemma complete_fields (fileName : string) (config : TranscriptionConfig)
      (mediaInfo : MediaInfo) (rawText : string) :
  let response := complete fileName config mediaInfo rawText in
  success response = true
  /\ analytics response = Some (analyzeSpeech rawText (duration mediaInfo / 60))
  /\ responseDuration response = Some (duration mediaInfo / 60)%Q
  /\ rawTranscription response = Some rawText
  /\ transcription response
     = (if truthy (Types.removeFillerWords config)
        then removeFillerWords rawText else rawText)
  /\ fillerWordsRemoved response = Some (truthy (Types.removeFillerWords config))
  /\ error response = None.
Proof. cbv zeta. unfold complete. cbn. repeat split; reflexivity. Qed.

(** What a normal completion of the [try] block of [processFile] is:
    the complete result of some raw text, or the early result of the
    oversized branch. *)
Lemma processFileBody_result
      (fileBuffer : Buffer) (fileName : string) (config : TranscriptionConfig)
      (w w' : World) (response : TranscriptionApiResponse) :
  processFileBody bufferLength mediaService transcriptionService
                  fileBuffer fileName config w = (Normal response, w') ->
  exists (mediaInfo : MediaInfo) (rawText : string),
    response = complete fileName config mediaInfo rawText
    \/ response
       = {| success := true; transcription := rawText; rawTranscription := None;
            fileName := fileName;
            responseDuration := Some (duration mediaInfo / 60)%Q;
            analytics := Some (analyzeSpeech rawText (duration mediaInfo / 60));
            fillerWordsRemoved := None; error := None |}.
Proof.
  intros H. unfold processFileBody in H. unfold bind at 1 in H.
  destruct (prepareAudio mediaService fileBuffer fileName w) as [[[mediaInfo audio]|e] w1];
    [|discriminate].
  exists mediaInfo.
  destruct (maxSize <? bufferLength audio)%Z.
  - unfold bind at 1 in H.
    destruct (splitAudio mediaService audio fileName 5 w1) as [[chunks|e] w2];
      [|discriminate].
    unfold bind at 1 in H.
    destruct (oversizedChunks bufferLength transcriptionService chunks 0 "" fileName config w2)
      as [[rawText|e] w3]; [|discriminate].
    unfold ret in H. injection H as <- _.
    exists rawText. right. reflexivity.
  - unfold bind at 1 in H.
    match type of H with
    | context [match ?m with _ => _ end] =>
        destruct m as [[rawText|e] w2]; [|discriminate]
    end.
    unfold ret in H. injection H as <- _.
    exists rawText. left. reflexivity.
Qed.

Lemma updateProgress_cases (onProgress : option (progressCallback World))
      (stage : string) (progress : Q) (message : string) (w : World) :
  exists (outcome : completion unit) (w' : World),
    updateProgress onProgress stage progress message w = (outcome, w').
Proof.
  destruct (updateProgress onProgress stage progress message w) as [o w'].
  exists o, w'. reflexivity.
Qed.

(** A normal completion of the [try] block of [processFileWithProgress]
    is the complete result of some raw text. *)
Lemma processFileWithProgressBody_result
      (fileBuffer : Buffer) (fileName : string) (config : TranscriptionConfig)
      (onProgress : option (progressCallback World))
      (w w' : World) (response : TranscriptionApiResponse) :
  processFileWithProgressBody mediaService transcriptionService
                              fileBuffer fileName config onProgress w
  = (Normal response, w') ->
  exists (mediaInfo : MediaInfo) (rawText : string),
    response = complete fileName config mediaInfo rawText.
Proof.
  intros H. unfold processFileWithProgressBody in H.
  unfold bind at 1 in H.
  destruct (updateProgress onProgress "processing" 10 _ w) as [[[]|e] w1];
    [|discriminate].
  unfold bind at 1 in H.
  destruct (ServerlessMediaProcessingService.getMediaInfo mediaService fileBuffer fileName w1)
    as [[mediaInfo|e] w2]; [|discriminate].
  exists mediaInfo.
  destruct (negb (hasAudio mediaInfo)); [discriminate|].
  unfold bind at 1 in H.
  destruct (updateProgress onProgress "processing" 25 _ w2) as [[[]|e] w3];
    [|discriminate].
  unfold bind at 1 in H.
  match type of H with
  | context [match ?m with _ => _ end] =>
      destruct m as [[audio|e] w4]; [|discriminate]
  end.
  unfold bind at 1 in H.
  destruct (updateProgress onProgress "transcribing" 40 _ w4) as [[[]|e] w5];
    [|discriminate].
  unfold bind at 1 in H.
  match type of H with
  | context [match ?m with _ => _ end] =>
      destruct m as [[rawText|e] w6]; [|discriminate]
  end.
  exists rawText.
  unfold bind at 1 in H.
  destruct (updateProgress onProgress "analyzing" 85 _ w6) as [[[]|e] w7];
    [|discriminate].
  unfold bind at 1 in H.
  destruct (updateProgress onProgress "completed" 100 _ w7) as [[[]|e] w8];
    [|discriminate].
  unfold ret in H. injection H as <- _. reflexivity.
Qed.


(** Neither entry point throws, and what they return is a complete
    success, a complete failure or, for [processFile] only, the early
    result of the oversized branch. *)
Lemma processFile_always_returns
      (fileBuffer : Buffer) (fileName : string) (config : TranscriptionConfig)
      (w : World) :
  exists (response : TranscriptionApiResponse) (w' : World),
    processFile bufferLength mediaService transcriptionService
                fileBuffer fileName config w = (Normal response, w')
    /\ (fullSuccess response \/ fullFailure response \/ partialSuccess response).
Proof.
  unfold processFile, tryCatch.
  destruct (processFileBody _ _ _ fileBuffer fileName config w) as [[r|e] w1] eqn:E.
  - exists r, w1. split; [reflexivity|].
    destruct (processFileBody_result _ _ _ _ _ _ E) as [mediaInfo [rawText [Hr|Hr]]];
      subst r.
    + left. unfold fullSuccess, complete. cbn. repeat split; discriminate.
    + right. right. unfold partialSuccess. cbn. repeat split; discriminate.
  - exists (failure fileName e), w1. split; [reflexivity|].
    right. left. unfold fullFailure, failure. cbn. repeat split; discriminate.
Qed.

Lemma processFileWithProgress_always_returns
      (fileBuffer : Buffer) (fileName : string) (config : TranscriptionConfig)
      (onProgress : option (progressCallback World)) (w : World) :
  exists (response : TranscriptionApiResponse) (w' : World),
    processFileWithProgress mediaService transcriptionService
                            fileBuffer fileName config onProgress w
    = (Normal response, w')
    /\ (fullSuccess response \/ fullFailure response).
Proof.
  unfold processFileWithProgress, tryCatch.
  destruct (processFileWithProgressBody _ _ fileBuffer fileName config onProgress w)
    as [[r|e] w1] eqn:E.
  - exists r, w1. split; [reflexivity|].
    destruct (processFileWithProgressBody_result _ _ _ _ _ _ _ E)
      as [mediaInfo [rawText Hr]]; subst r.
    left. unfold fullSuccess, complete. cbn. repeat split; discriminate.
  - exists (failure fileName e), w1. split; [reflexivity|].
    right. unfold fullFailure, failure. cbn. repeat split; discriminate.
Qed.

End Pipeline.

Import Scenario.


(** The example of the design document, with the placeholder of the
    code: three chunks, the second of which fails on each of its three
    attempts. *)
Lemma processLargeFile_reassembly_witness :
  processLargeFile (engine (audioOnly 1500) 1000%Z 500%Z) (backend middleChunkFails)
                   1000%Z "talk.wav" emptyConfig 10 0
  = (Normal "Hello world. [Chunk 2 transcription failed] Goodbye now.", 5).
Proof.
  destruct (processLargeFile_reassembly
              Buffer bufferLength World
              (engine (audioOnly 1500) 1000%Z 500%Z) (backend middleChunkFails)
              1000%Z "talk.wav" emptyConfig 10 [500%Z; 500%Z; 500%Z] 0 0)
    as [Hrun _].
  - vm_compute. reflexivity.
  - rewrite Hrun. vm_compute. reflexivity.
Defined.

(** C3 as stated fails.  On the chunks ["Hello world.", failure,
    "Goodbye now."] [processFile] puts "[Chunk 2 transcription failed]",
    not "[segment 2 unavailable]", in the second slot; and
    [processFileWithProgress], whose chunk loop has no handler, does not
    continue past the failed chunk: it gives up the whole job and returns
    the failure object with an empty transcription.  So does the oversized
    branch of [processFile]: for 25 minutes of 16 kHz mono PCM audio (48 MB,
    cut into chunks of 5 minutes) the failure of the second chunk fails
    the job. *)
Lemma processLargeFile_reassembly_counterexample :
  let mediaService := engine (audioOnly 1500) 1000%Z 500%Z in
  let pcmService := engine (audioOnly 1500) 48000044%Z 9600044%Z in
  let transcriptionService := backend middleChunkFails in
  option_map transcription
             (returned (processFile bufferLength mediaService transcriptionService
                                    2000%Z "talk.wav" emptyConfig 0))
  = Some "Hello world. [Chunk 2 transcription failed] Goodbye now."
  /\ option_map transcription
                (returned (processFile bufferLength mediaService transcriptionService
                                       2000%Z "talk.wav" emptyConfig 0))
     <> Some "Hello world. [segment 2 unavailable] Goodbye now."
  /\ processFileWithProgress mediaService transcriptionService
                             2000%Z "talk.wav" emptyConfig None 0
     = (Normal (failure "talk.wav" "Transcription failed: quota exceeded"), 4)
  /\ option_map transcription
                (returned (processFileWithProgress mediaService transcriptionService
                                                   2000%Z "talk.wav" emptyConfig None 0))
     <> Some "Hello world. [segment 2 unavailable] Goodbye now."
  /\ processFile bufferLength pcmService transcriptionService
                 48000044%Z "talk.wav" emptyConfig 0
     = (Normal (failure "talk.wav" "Transcription failed: quota exceeded"), 4).
Proof.
  cbv zeta. split; [vm_compute; reflexivity|].
  split; [vm_compute; discriminate|].
  split; [vm_compute; reflexivity|].
  split; [vm_compute; discriminate|].
  vm_compute. reflexivity.
Qed.

(** C4 fails on the oversized branch of [processFile].  A recording of
    700 seconds gives 22.4 MB of 16 kHz mono PCM audio, more than the limit
    of 20 MB, so the file is cut into 3 chunks of 5 minutes; filler removal
    is requested.  The result says [success: true] but has no
    [rawTranscription] and no [fillerWordsRemoved], and its transcription
    still holds the fillers: it is neither of the two complete shapes. *)
Theorem processFile_oversized_result_is_partial :
  exists response : TranscriptionApiResponse,
    returned (processFile bufferLength
                          (engine (audioOnly 700) 22400044%Z 9600044%Z)
                          (backend alwaysAnswers)
                          22400044%Z "talk.wav" withFillerRemoval 0)
    = Some response
    /\ success response = true
    /\ rawTranscription response = None
    /\ fillerWordsRemoved response = None
    /\ transcription response = "um hello um hello um hello"
    /\ removeFillerWords "um hello um hello um hello" = "hello hello hello"
    /\ partialSuccess response
    /\ ~ fullSuccess response
    /\ ~ fullFailure response.
Proof.
  eexists. split; [vm_compute; reflexivity|].
  split; [reflexivity|]. split; [reflexivity|]. split; [reflexivity|].
  split; [reflexivity|]. split; [vm_compute; reflexivity|].
  split; [unfold partialSuccess; cbn; repeat split; discriminate|].
  split.
  - intros [_ [H _]]. apply H. reflexivity.
  - intros [H _]. discriminate H.
Qed.

End PipelineFacts.

(* ================================================================== *)
(** * SimpleDurationExtractor on MP4, MP3 and truncated files           *)
(* ================================================================== *)

Module ContainerFacts.

Import Buf SimpleDurationExtractor DurationSpec ContainerSpec DurationFacts.
Local Open Scope Z_scope.

Ltac run_step := cbn [Js.bind Js.try_catch].

Lemma length_be32 (n : Z) : List.length (be32 n) = 4%nat.
Proof. reflexivity. Qed.

Lemma readUInt32BE_middle (front back : list byte) (n : Z) :
  0 <= n < 2 ^ 32 ->
  readUInt32BE (front ++ be32 n ++ back) (Z.of_nat (List.length front)) = Done n.
Proof.
  intros Hn. unfold readUInt32BE.
  pose proof (bytes_at_middle front (be32 n) back) as H.
  rewrite length_be32 in H. rewrite H.
  unfold be32. cbn [map]. rewrite !byte_val_byteOf. f_equal.
  change (2 ^ 8) with 256. change (2 ^ 16) with 65536. change (2 ^ 24) with 16777216.
  change (2 ^ 32) with 4294967296 in Hn.
  Z.to_euclidean_division_equations. lia.
Qed.

Lemma readUInt8_middle (front back : list byte) (x : byte) :
  readUInt8 (front ++ [x] ++ back) (Z.of_nat (List.length front)) = Done (byte_val x).
Proof.
  unfold readUInt8.
  pose proof (bytes_at_middle front [x] back) as H.
  cbn [List.length] in H. rewrite H. reflexivity.
Qed.

(** Reading at an offset given as a number: the front is named. *)
Lemma readUInt32BE_at (front back : list byte) (n offset : Z) :
  0 <= n < 2 ^ 32 ->
  offset = Z.of_nat (List.length front) ->
  readUInt32BE (front ++ be32 n ++ back) offset = Done n.
Proof. intros Hn ->. apply readUInt32BE_middle. assumption. Qed.

Lemma toString_at (front mid back : list byte) (start stop : Z) :
  mid <> [] ->
  start = Z.of_nat (List.length front) ->
  stop = start + Z.of_nat (List.length mid) ->
  toString (front ++ mid ++ back) start stop = string_of_list_ascii (map ascii_char mid).
Proof. intros Hmid -> ->. apply toString_middle. assumption. Qed.

Lemma length_encodeAtom (a : atom) :
  List.length (atomType a) = 4%nat ->
  Z.of_nat (List.length (encodeAtom a)) = atomSize a.
Proof.
  intros H. unfold encodeAtom, atomSize. rewrite !length_app, length_be32, H. lia.
Qed.

Lemma length_atoms (atoms : list atom) :
  Forall passedOver atoms ->
  8 * Z.of_nat (List.length atoms) <= Z.of_nat (List.length (List.concat (map encodeAtom atoms))).
Proof.
  induction 1 as [|a atoms [Htype _] _ IH]; cbn [map List.concat List.length]; [lia|].
  rewrite length_app. pose proof (length_encodeAtom a Htype). unfold atomSize in *. lia.
Qed.

(** One iteration of the walk on an atom that is not a movie header and
    that is followed by at least one byte, or has a payload. *)
Lemma walkAtoms_pass (fuel : nat) (front back : list byte) (a : atom) :
  passedOver a ->
  (0 < List.length (payload a) + List.length back)%nat ->
  walkAtoms (S fuel) (front ++ encodeAtom a ++ back) (Z.of_nat (List.length front))
  = walkAtoms fuel (front ++ encodeAtom a ++ back)
              (Z.of_nat (List.length (front ++ encodeAtom a))).
Proof.
  intros [Htype [Hid Hsize]] Hmore. cbn [walkAtoms].
  pose proof (length_encodeAtom a Htype) as Hlen.
  assert (Hguard : (Z.of_nat (List.length front)
                    <? length (front ++ encodeAtom a ++ back) - 8) = true).
  { apply Z.ltb_lt. unfold length. rewrite !length_app. unfold atomSize in *. lia. }
  rewrite Hguard.
  assert (Hread : readUInt32BE (front ++ encodeAtom a ++ back) (Z.of_nat (List.length front))
                  = Done (atomSize a)).
  { unfold encodeAtom. rewrite <- !app_assoc.
    apply readUInt32BE_middle. unfold atomSize in *. lia. }
  rewrite Hread. run_step.
  assert (Hname : toString (front ++ encodeAtom a ++ back)
                           (Z.of_nat (List.length front) + 4) (Z.of_nat (List.length front) + 8)
                  = toString (atomType a) 0 4).
  { unfold encodeAtom. rewrite <- !app_assoc.
    rewrite toString_whole by assumption.
    rewrite (app_assoc front (be32 _)).
    apply toString_at.
    - destruct (atomType a); [discriminate|congruence].
    - rewrite length_app, length_be32. lia.
    - rewrite Htype. lia. }
  rewrite Hname.
  destruct (String.eqb_spec (toString (atomType a) 0 4) "mvhd"); [contradiction|].
  run_step.
  replace (atomSize a =? 0) with false
    by (symmetry; apply Z.eqb_neq; unfold atomSize; lia).
  replace (length (front ++ encodeAtom a ++ back) - Z.of_nat (List.length front) <? atomSize a)
    with false
    by (symmetry; apply Z.ltb_ge; unfold length; rewrite !length_app; lia).
  cbn [orb]. f_equal. rewrite length_app. lia.
Qed.

(** The walk over atoms none of which is read as a movie header comes to
    the end of the file and gives up. *)
Lemma walkAtoms_none :
  forall (atoms : list atom) (front : list byte) (fuel : nat),
    Forall passedOver atoms ->
    (List.length atoms < fuel)%nat ->
    walkAtoms fuel (front ++ List.concat (map encodeAtom atoms))
              (Z.of_nat (List.length front))
    = Raise "Could not find mvhd atom".
Proof.
  induction atoms as [|a atoms IH]; intros front fuel Hall Hfuel.
  - destruct fuel as [|fuel]; [cbn in Hfuel; lia|].
    cbn [map List.concat walkAtoms]. rewrite app_nil_r.
    replace (Z.of_nat (List.length front) <? length front - 8) with false
      by (symmetry; apply Z.ltb_ge; unfold length; lia).
    reflexivity.
  - destruct fuel as [|fuel]; [cbn in Hfuel; lia|].
    inversion Hall as [|a' atoms' Ha Hatoms]; subst.
    cbn [map List.concat].
    destruct (Nat.eq_dec (List.length (payload a)
                          + List.length (List.concat (map encodeAtom atoms))) 0) as [Hz|Hnz].
    + (* eight bytes are left: the loop is not entered *)
      destruct Ha as [Htype _].
      pose proof (length_encodeAtom a Htype) as Hlen.
      cbn [walkAtoms].
      replace (Z.of_nat (List.length front)
               <? length (front ++ encodeAtom a ++ List.concat (map encodeAtom atoms)) - 8)
        with false
        by (symmetry; apply Z.ltb_ge; unfold length; rewrite !length_app;
            unfold atomSize in *; lia).
      reflexivity.
    + rewrite walkAtoms_pass by (assumption || lia).
      rewrite (app_assoc front (encodeAtom a)).
      apply IH; [assumption|cbn [List.length] in Hfuel; lia].
Qed.

(** The walk up to a movie header at the top level. *)
Lemma walkAtoms_upto (back : list byte) (result : run MediaDurationInfo) :
  back <> [] ->
  (forall (front : list byte) (fuel : nat),
      walkAtoms (S fuel) (front ++ back) (Z.of_nat (List.length front)) = result) ->
  forall (pre : list atom) (front : list byte) (fuel : nat),
    Forall passedOver pre ->
    (List.length pre < fuel)%nat ->
    walkAtoms fuel (front ++ List.concat (map encodeAtom pre) ++ back)
              (Z.of_nat (List.length front))
    = result.
Proof.
  intros Hback Hlast.
  induction pre as [|a pre IH]; intros front fuel Hall Hfuel.
  - destruct fuel as [|fuel]; [cbn in Hfuel; lia|].
    cbn [map List.concat app]. apply Hlast.
  - destruct fuel as [|fuel]; [cbn in Hfuel; lia|].
    inversion Hall as [|a' pre' Ha Hpre]; subst.
    cbn [map List.concat]. rewrite <- app_assoc.
    rewrite walkAtoms_pass.
    + rewrite (app_assoc front (encodeAtom a)).
      apply IH; [assumption|cbn [List.length] in Hfuel; lia].
    + assumption.
    + rewrite length_app. destruct back; [congruence|]. cbn [List.length]. lia.
Qed.

Section MovieHeader.

Variables (sizeField timeScale : Z).
Hypothesis sizeField_range : 0 <= sizeField < 2 ^ 32.
Hypothesis timeScale_range : 0 < timeScale < 2 ^ 32.

(** The iteration that meets a movie header of version 0. *)
Lemma walkAtoms_mvhd0 (flags created modified rest : list byte) (duration : Z)
      (front : list byte) (fuel : nat) :
  List.length flags = 3%nat ->
  List.length created = 4%nat ->
  List.length modified = 4%nat ->
  0 <= duration < 2 ^ 32 ->
  walkAtoms (S fuel)
            (front ++ be32 sizeField ++ tag "mvhd"
                   ++ mvhdVersion0 flags created modified timeScale duration rest)
            (Z.of_nat (List.length front))
  = Done (exact duration timeScale).
Proof.
  intros Hflags Hcreated Hmodified Hduration.
  set (header := mvhdVersion0 flags created modified timeScale duration rest).
  set (B := front ++ be32 sizeField ++ tag "mvhd" ++ header).
  cbn [walkAtoms].
  assert (Hguard : (Z.of_nat (List.length front) <? length B - 8) = true).
  { apply Z.ltb_lt. unfold length, B, header, mvhdVersion0.
    rewrite !length_app, !length_be32. cbn [List.length tag map list_ascii_of_string]. lia. }
  rewrite Hguard.
  assert (Hsize : readUInt32BE B (Z.of_nat (List.length front)) = Done sizeField).
  { unfold B. apply readUInt32BE_middle. assumption. }
  rewrite Hsize. run_step.
  assert (Hname : toString B (Z.of_nat (List.length front) + 4)
                           (Z.of_nat (List.length front) + 8) = "mvhd"%string).
  { unfold B. rewrite (app_assoc front (be32 _)).
    rewrite (@toString_at _ (tag "mvhd") _ _ _);
      [reflexivity|discriminate|rewrite length_app, length_be32; lia|
       cbn [List.length tag map list_ascii_of_string]; lia]. }
  rewrite Hname. cbn [String.eqb Ascii.eqb Bool.eqb].
  unfold mvhdAtom.
  assert (Hversion : readUInt8 B (Z.of_nat (List.length front) + 8) = Done 0).
  { unfold B, header, mvhdVersion0. rewrite <- ?app_assoc.
    rewrite (app_assoc front (be32 _)), (app_assoc _ (tag "mvhd")).
    match goal with |- readUInt8 (?f ++ _) _ = _ =>
      replace (Z.of_nat (List.length front) + 8) with (Z.of_nat (List.length f))
    end.
    - rewrite readUInt8_middle. reflexivity.
    - rewrite !length_app, length_be32. cbn [List.length tag map list_ascii_of_string]. lia. }
  rewrite Hversion. run_step. cbn [Z.eqb].
  assert (Hts : readUInt32BE B (Z.of_nat (List.length front) + 20) = Done timeScale).
  { unfold B, header, mvhdVersion0. rewrite <- ?app_assoc.
    rewrite (app_assoc front (be32 _)), (app_assoc _ (tag "mvhd")), (app_assoc _ [x00]),
      (app_assoc _ flags), (app_assoc _ created), (app_assoc _ modified).
    apply readUInt32BE_at; [lia|].
    rewrite !length_app, length_be32, Hflags, Hcreated, Hmodified.
    cbn [List.length tag map list_ascii_of_string]. lia. }
  rewrite Hts. run_step.
  assert (Hd : readUInt32BE B (Z.of_nat (List.length front) + 24) = Done duration).
  { unfold B, header, mvhdVersion0. rewrite <- ?app_assoc.
    rewrite (app_assoc front (be32 _)), (app_assoc _ (tag "mvhd")), (app_assoc _ [x00]),
      (app_assoc _ flags), (app_assoc _ created), (app_assoc _ modified),
      (app_assoc _ (be32 timeScale)).
    apply readUInt32BE_at; [lia|].
    rewrite !length_app, !length_be32, Hflags, Hcreated, Hmodified.
    cbn [List.length tag map list_ascii_of_string]. lia. }
  rewrite Hd. run_step.
  replace (0 <? timeScale) with true by (symmetry; apply Z.ltb_lt; lia).
  run_step. reflexivity.
Qed.

(** The iteration that meets a movie header of a later version: the
    low half of the duration is the one that is read. *)
Lemma walkAtoms_mvhd1 (version : byte) (flags created modified rest : list byte)
      (durationHigh durationLow : Z) (front : list byte) (fuel : nat) :
  version <> x00 ->
  List.length flags = 3%nat ->
  List.length created = 8%nat ->
  List.length modified = 8%nat ->
  0 <= durationLow < 2 ^ 32 ->
  walkAtoms (S fuel)
            (front ++ be32 sizeField ++ tag "mvhd"
                   ++ mvhdVersion1 version flags created modified timeScale
                                   durationHigh durationLow rest)
            (Z.of_nat (List.length front))
  = Done (exact durationLow timeScale).
Proof.
  intros Hv Hflags Hcreated Hmodified Hduration.
  set (header := mvhdVersion1 version flags created modified timeScale
                              durationHigh durationLow rest).
  set (B := front ++ be32 sizeField ++ tag "mvhd" ++ header).
  cbn [walkAtoms].
  assert (Hguard : (Z.of_nat (List.length front) <? length B - 8) = true).
  { apply Z.ltb_lt. unfold length, B, header, mvhdVersion1.
    rewrite !length_app, !length_be32. cbn [List.length tag map list_ascii_of_string]. lia. }
  rewrite Hguard.
  assert (Hsize : readUInt32BE B (Z.of_nat (List.length front)) = Done sizeField).
  { unfold B. apply readUInt32BE_middle. assumption. }
  rewrite Hsize. run_step.
  assert (Hname : toString B (Z.of_nat (List.length front) + 4)
                           (Z.of_nat (List.length front) + 8) = "mvhd"%string).
  { unfold B. rewrite (app_assoc front (be32 _)).
    rewrite (@toString_at _ (tag "mvhd") _ _ _);
      [reflexivity|discriminate|rewrite length_app, length_be32; lia|
       cbn [List.length tag map list_ascii_of_string]; lia]. }
  rewrite Hname. cbn [String.eqb Ascii.eqb Bool.eqb].
  unfold mvhdAtom.
  assert (Hversion : readUInt8 B (Z.of_nat (List.length front) + 8)
                     = Done (byte_val version)).
  { unfold B, header, mvhdVersion1. rewrite <- ?app_assoc.
    rewrite (app_assoc front (be32 _)), (app_assoc _ (tag "mvhd")).
    match goal with |- readUInt8 (?f ++ _) _ = _ =>
      replace (Z.of_nat (List.length front) + 8) with (Z.of_nat (List.length f))
    end.
    - apply readUInt8_middle.
    - rewrite !length_app, length_be32. cbn [List.length tag map list_ascii_of_string]. lia. }
  rewrite Hversion. run_step.
  replace (byte_val version =? 0) with false.
  2:{ symmetry. apply Z.eqb_neq. intros E. apply Hv. unfold byte_val in E.
      apply (f_equal Z.to_N) in E. rewrite N2Z.id in E. cbn in E.
      apply (f_equal Byte.of_N) in E. rewrite Byte.of_to_N in E. cbn in E. congruence. }
  assert (Hts : readUInt32BE B (Z.of_nat (List.length front) + 28) = Done timeScale).
  { unfold B, header, mvhdVersion1. rewrite <- ?app_assoc.
    rewrite (app_assoc front (be32 _)), (app_assoc _ (tag "mvhd")), (app_assoc _ [version]),
      (app_assoc _ flags), (app_assoc _ created), (app_assoc _ modified).
    apply readUInt32BE_at; [lia|].
    rewrite !length_app, length_be32, Hflags, Hcreated, Hmodified.
    cbn [List.length tag map list_ascii_of_string]. lia. }
  rewrite Hts. run_step.
  assert (Hd : readUInt32BE B (Z.of_nat (List.length front) + 36) = Done durationLow).
  { unfold B, header, mvhdVersion1. rewrite <- ?app_assoc.
    rewrite (app_assoc front (be32 _)), (app_assoc _ (tag "mvhd")), (app_assoc _ [version]),
      (app_assoc _ flags), (app_assoc _ created), (app_assoc _ modified),
      (app_assoc _ (be32 timeScale)), (app_assoc _ (be32 durationHigh)).
    apply readUInt32BE_at; [lia|].
    rewrite !length_app, !length_be32, Hflags, Hcreated, Hmodified.
    cbn [List.length tag map list_ascii_of_string]. lia. }
  rewrite Hd. run_step.
  replace (0 <? timeScale) with true by (symmetry; apply Z.ltb_lt; lia).
  run_step. reflexivity.
Qed.

End MovieHeader.

Lemma dispatch_mp4 (buffer : Buffer) (fileName : string) :
  extensionOf fileName = "mp4"%string \/ extensionOf fileName = "m4a"%string ->
  extractDuration buffer fileName
  = try_catch (extractMp4Duration buffer) (fun _ => Done defaultDuration).
Proof.
  intros [E|E]; unfold extractDuration, dispatch; rewrite E; reflexivity.
Qed.

(** X1. A movie header ('mvhd') that stands at the top level of an MP4 or
    M4A file, after any complete atoms of other types, is read: the
    duration divided by the time scale, rounded to the nearest second, and
    marked exact.  For a header of version 0 the 32-bit fields are read;
    for any other version the time scale and the low 32 bits of the 64-bit
    duration, the high 32 bits being left out. *)
Theorem extractDuration_mp4_top_level_mvhd
        (fileName : string) (pre : list atom) (sizeField timeScale : Z)
        (flags rest : list byte) :
  extensionOf fileName = "mp4"%string \/ extensionOf fileName = "m4a"%string ->
  Forall passedOver pre ->
  0 <= sizeField < 2 ^ 32 ->
  0 < timeScale < 2 ^ 32 ->
  List.length flags = 3%nat ->
  (forall (created modified : list byte) (duration : Z),
      List.length created = 4%nat ->
      List.length modified = 4%nat ->
      0 <= duration < 2 ^ 32 ->
      extractDuration
        (mp4File pre sizeField (mvhdVersion0 flags created modified timeScale duration rest))
        fileName
      = Done {| duration := round_div duration timeScale; isEstimated := false |})
  /\ (forall (version : byte) (created modified : list byte) (durationHigh durationLow : Z),
         version <> x00 ->
         List.length created = 8%nat ->
         List.length modified = 8%nat ->
         0 <= durationLow < 2 ^ 32 ->
         extractDuration
           (mp4File pre sizeField
                    (mvhdVersion1 version flags created modified timeScale
                                  durationHigh durationLow rest))
           fileName
         = Done {| duration := round_div durationLow timeScale; isEstimated := false |}).
Proof.
  intros Hext Hpre Hsize Hts Hflags. split.
  - intros created modified duration Hc Hm Hd.
    rewrite dispatch_mp4 by assumption.
    unfold extractMp4Duration, parseMp4, mp4File.
    pose proof (length_atoms pre Hpre) as Hlen.
    change 0 with (Z.of_nat (List.length (@nil byte))).
    rewrite <- (app_nil_l (List.concat _ ++ _)).
    rewrite (@walkAtoms_upto _ (Done (exact duration timeScale))); try assumption.
    + reflexivity.
    + discriminate.
    + intros front fuel. apply walkAtoms_mvhd0; assumption.
    + cbn [app]. rewrite !length_app. lia.
  - intros version created modified durationHigh durationLow Hv Hc Hm Hd.
    rewrite dispatch_mp4 by assumption.
    unfold extractMp4Duration, parseMp4, mp4File.
    pose proof (length_atoms pre Hpre) as Hlen.
    change 0 with (Z.of_nat (List.length (@nil byte))).
    rewrite <- (app_nil_l (List.concat _ ++ _)).
    rewrite (@walkAtoms_upto _ (Done (exact durationLow timeScale))); try assumption.
    + reflexivity.
    + discriminate.
    + intros front fuel. apply walkAtoms_mvhd1; assumption.
    + cbn [app]. rewrite !length_app. lia.
Qed.

(** A file type atom followed by a movie header of version 0 with a time
    scale of 1000 and a duration of 90500 (91 seconds), and the same with
    a header of version 1 whose duration is 2^32 + 5000 units: only the
    low half, 5 seconds, is reported. *)
Lemma extractDuration_mp4_top_level_mvhd_witness :
  extractDuration
    (mp4File [ {| atomType := tag "ftyp"; payload := tag "isom" |} ] 108
             (mvhdVersion0 [x00; x00; x00] (be32 0) (be32 0) 1000 90500 (be32 65536)))
    "clip.m4a"
  = Done {| duration := 91; isEstimated := false |}
  /\ extractDuration
       (mp4File [ {| atomType := tag "ftyp"; payload := tag "isom" |} ] 120
                (mvhdVersion1 x01 [x00; x00; x00] (be32 0 ++ be32 0) (be32 0 ++ be32 0)
                              1000 1 5000 []))
       "clip.mp4"
     = Done {| duration := 5; isEstimated := false |}.
Proof.
  assert (Hpre : Forall passedOver [ {| atomType := tag "ftyp"; payload := tag "isom" |} ]).
  { constructor; [|constructor].
    split; [reflexivity|]. split; [vm_compute; discriminate|vm_compute; reflexivity]. }
  split.
  - destruct (extractDuration_mp4_top_level_mvhd
                "clip.m4a" [ {| atomType := tag "ftyp"; payload := tag "isom" |} ]
                108 1000 [x00; x00; x00] (be32 65536)) as [H0 _];
      [right; reflexivity|exact Hpre|lia|lia|reflexivity|].
    rewrite (H0 (be32 0) (be32 0) 90500); [reflexivity|reflexivity|reflexivity|lia].
  - destruct (extractDuration_mp4_top_level_mvhd
                "clip.mp4" [ {| atomType := tag "ftyp"; payload := tag "isom" |} ]
                120 1000 [x00; x00; x00] []) as [_ H1];
      [left; reflexivity|exact Hpre|lia|lia|reflexivity|].
    rewrite (H1 x01 (be32 0 ++ be32 0) (be32 0 ++ be32 0) 1 5000);
      [reflexivity|discriminate|reflexivity|reflexivity|lia].
Defined.

(** X2. The walk of [extractMp4Duration] visits the top-level atoms only.
    For a file made of complete atoms none of which has the type 'mvhd' at
    the top level (the usual layout, where the movie header lies inside
    the 'moov' atom), the duration is never read from the file: the result
    is the size-based estimate at 125000 bytes per second, marked
    estimated. *)
Theorem extractDuration_mp4_nested_mvhd_estimated
        (fileName : string) (atoms : list atom) :
  extensionOf fileName = "mp4"%string \/ extensionOf fileName = "m4a"%string ->
  Forall passedOver atoms ->
  extractDuration (List.concat (map encodeAtom atoms)) fileName
  = Done (estimate (List.concat (map encodeAtom atoms)) 125000).
Proof.
  intros Hext Hall.
  rewrite dispatch_mp4 by assumption.
  unfold extractMp4Duration, parseMp4.
  pose proof (length_atoms atoms Hall) as Hlen.
  pose proof (walkAtoms_none atoms [] (S (List.length (List.concat (map encodeAtom atoms))))
                             Hall) as H.
  cbn [app List.length Z.of_nat] in H. rewrite H by lia.
  reflexivity.
Qed.

(** 'ftyp', then 'moov' holding a movie header of 600 seconds, then
    250000 bytes of 'mdat': the header inside 'moov' is not seen and the
    duration is estimated from the 250144 bytes of the file, 2 seconds. *)
Lemma extractDuration_mp4_nested_mvhd_estimated_witness :
  extractDuration
    (List.concat
       (map encodeAtom
            [ {| atomType := tag "ftyp"; payload := tag "isom" |};
              {| atomType := tag "moov";
                 payload := be32 108 ++ tag "mvhd"
                            ++ mvhdVersion0 [x00; x00; x00] (be32 0) (be32 0) 1000 600000
                                            (repeat x00 80) |};
              {| atomType := tag "mdat"; payload := repeat x00 (Z.to_nat 250000) |} ]))
    "talk.mp4"
  = Done {| duration := 2; isEstimated := true |}.
Proof.
  rewrite extractDuration_mp4_nested_mvhd_estimated.
  - unfold estimate, length. f_equal.
  - left. reflexivity.
  - repeat constructor; try (vm_compute; discriminate);
      unfold atomSize; cbn [payload]; rewrite ?length_app, ?repeat_length; cbn; lia.
Defined.

(** ** The TLEN frame of an ID3v2 tag *)

Lemma lor_disjoint (hi lo k : Z) :
  0 <= k -> 0 <= lo < 2 ^ k ->
  Z.lor (hi * 2 ^ k) lo = hi * 2 ^ k + lo.
Proof.
  intros Hk Hlo.
  assert (Hland : Z.land (hi * 2 ^ k) lo = 0).
  { apply Z.bits_inj'. intros m Hm. rewrite Z.land_spec, Z.bits_0.
    rewrite <- Z.shiftl_mul_pow2 by assumption.
    destruct (Z.lt_ge_cases m k) as [Hlt|Hge].
    - rewrite Z.shiftl_spec_low by assumption. reflexivity.
    - destruct (Z.eq_dec lo 0) as [->|Hnz].
      + rewrite Z.bits_0. apply andb_false_r.
      + rewrite (Z.bits_above_log2 lo m); [apply andb_false_r|lia|].
        apply Z.lt_le_trans with k; [|assumption].
        apply Z.log2_lt_pow2; lia. }
  pose proof (Z.add_lor_land (hi * 2 ^ k) lo) as H. lia.
Qed.

Lemma index_nth (b : Buffer) (i : nat) (x : byte) :
  nth_error b i = Some x -> index b (Z.of_nat i) = byte_val x.
Proof.
  intros H. apply nth_error_split in H. destruct H as [l1 [l2 [-> <-]]].
  unfold index.
  pose proof (bytes_at_middle l1 [x] l2) as E. cbn [List.length app] in E.
  cbn [app]. rewrite E. reflexivity.
Qed.

(** The size of an ID3v2 tag is read back from its four synchsafe bytes. *)
Lemma id3Size_synchsafe (version : list byte) (flags : byte) (n : Z) (back : list byte) :
  List.length version = 2%nat ->
  0 <= n < 2 ^ 28 ->
  id3Size (id3Header version flags (synchsafe n) ++ back) = n.
Proof.
  intros Hv Hn. unfold id3Size, id3Header, synchsafe. cbn [map].
  set (a := n / 2 ^ 21 mod 128). set (b := n / 2 ^ 14 mod 128).
  set (c := n / 2 ^ 7 mod 128). set (d := n mod 128).
  assert (Ha : 0 <= a < 128) by (apply Z.mod_pos_bound; lia).
  assert (Hb : 0 <= b < 128) by (apply Z.mod_pos_bound; lia).
  assert (Hc : 0 <= c < 128) by (apply Z.mod_pos_bound; lia).
  assert (Hd : 0 <= d < 128) by (apply Z.mod_pos_bound; lia).
  destruct version as [|v0 [|v1 [|v2 version]]]; try discriminate.
  set (B := (tag "ID3" ++ [v0; v1] ++ [flags] ++ [byteOf a; byteOf b; byteOf c; byteOf d])
            ++ back).
  assert (H6 : index B 6 = a).
  { change 6 with (Z.of_nat 6). rewrite (index_nth B 6 (byteOf a)) by reflexivity.
    rewrite byte_val_byteOf. apply Z.mod_small. lia. }
  assert (H7 : index B 7 = b).
  { change 7 with (Z.of_nat 7). rewrite (index_nth B 7 (byteOf b)) by reflexivity.
    rewrite byte_val_byteOf. apply Z.mod_small. lia. }
  assert (H8 : index B 8 = c).
  { change 8 with (Z.of_nat 8). rewrite (index_nth B 8 (byteOf c)) by reflexivity.
    rewrite byte_val_byteOf. apply Z.mod_small. lia. }
  assert (H9 : index B 9 = d).
  { change 9 with (Z.of_nat 9). rewrite (index_nth B 9 (byteOf d)) by reflexivity.
    rewrite byte_val_byteOf. apply Z.mod_small. lia. }
  rewrite H6, H7, H8, H9.
  change 127 with (Z.ones 7). rewrite !Z.land_ones by lia.
  rewrite !Z.shiftl_mul_pow2 by lia.
  change (2 ^ 7) with 128 in *.
  rewrite !Z.mod_small by lia.
  rewrite (lor_disjoint a (b * 2 ^ 14) 21) by lia.
  replace (a * 2 ^ 21 + b * 2 ^ 14) with ((a * 128 + b) * 2 ^ 14) by lia.
  rewrite (lor_disjoint (a * 128 + b) (c * 128) 14) by lia.
  replace ((a * 128 + b) * 2 ^ 14 + c * 128) with (((a * 128 + b) * 128 + c) * 2 ^ 7) by lia.
  rewrite (lor_disjoint _ d 7) by lia.
  unfold a, b, c, d.
  change (2 ^ 28) with 268435456 in Hn.
  change (2 ^ 21) with 2097152. change (2 ^ 14) with 16384. change (2 ^ 7) with 128.
  Z.to_euclidean_division_equations. lia.
Qed.

(** ** The text of a TLEN frame *)

Lemma isDigit_cases (d : Z) :
  isDigit d ->
  d = 0 \/ d = 1 \/ d = 2 \/ d = 3 \/ d = 4 \/ d = 5 \/ d = 6 \/ d = 7 \/ d = 8 \/ d = 9.
Proof. unfold isDigit. lia. Qed.

Ltac each_digit H :=
  apply isDigit_cases in H;
  repeat (destruct H as [H|H]); subst.

Lemma digitValue_digitChar (d : Z) :
  isDigit d -> digitValue 10 (digitChar d) = Some d.
Proof. intros H. each_digit H; reflexivity. Qed.

Lemma digits_digitChars :
  forall (ds : list Z) (acc : Z),
    Forall isDigit ds ->
    digits 10 (Some acc) (map digitChar ds)
    = Some (fold_left (fun acc d => acc * 10 + d) ds acc).
Proof.
  induction ds as [|d ds IH]; intros acc Hall; [reflexivity|].
  inversion Hall as [|d' ds' Hd Hds]; subst.
  cbn [map digits fold_left]. rewrite digitValue_digitChar by assumption.
  apply IH. assumption.
Qed.

Lemma parseInt_decimal (ds : list Z) :
  ds <> [] ->
  Forall isDigit ds ->
  parseInt (string_of_list_ascii (map digitChar ds)) = Some (decimal ds).
Proof.
  intros Hne Hall. unfold parseInt. rewrite list_ascii_of_string_of_list_ascii.
  destruct ds as [|d0 ds]; [congruence|].
  inversion Hall as [|d' ds' Hd0 Hds]; subst.
  assert (Hrest : forall acc,
             option_map (fun v => 1 * v) (digits 10 (Some acc) (map digitChar ds))
             = Some (fold_left (fun acc d => acc * 10 + d) ds acc)).
  { intros acc. rewrite digits_digitChars by assumption. cbn [option_map].
    f_equal. lia. }
  unfold decimal. cbn [map fold_left].
  destruct ds as [|d1 ds].
  - each_digit Hd0; reflexivity.
  - inversion Hds as [|d' ds' Hd1 Hds']; subst.
    specialize (Hrest (0 * 10 + d0)).
    cbn [map digits] in Hrest. rewrite digitValue_digitChar in Hrest by assumption.
    cbn [map].
    each_digit Hd0; try exact Hrest.
    all: each_digit Hd1; exact Hrest.
Qed.

Lemma digitBytes_text (ds : list Z) :
  map ascii_char (digitBytes ds) = map digitChar ds.
Proof. unfold digitBytes. rewrite map_map. reflexivity. Qed.

(** ** Reading inside a part of a buffer *)

Lemma toString_inside (front mid back : list byte) (a b : nat) :
  (a < b <= List.length mid)%nat ->
  toString (front ++ mid ++ back)
           (Z.of_nat (List.length front) + Z.of_nat a)
           (Z.of_nat (List.length front) + Z.of_nat b)
  = toString mid (Z.of_nat a) (Z.of_nat b).
Proof.
  intros Hab. unfold toString, length. rewrite !length_app.
  rewrite !Z.max_r by lia. rewrite !Z.min_l by lia.
  destruct (_ <=? _) eqn:E1; [apply Z.leb_le in E1; lia|].
  destruct (Z.of_nat b <=? Z.of_nat a) eqn:E2; [apply Z.leb_le in E2; lia|].
  f_equal. f_equal.
  replace (Z.to_nat (Z.of_nat (List.length front) + Z.of_nat b
                     - (Z.of_nat (List.length front) + Z.of_nat a)))
    with (b - a)%nat by lia.
  replace (Z.to_nat (Z.of_nat b - Z.of_nat a)) with (b - a)%nat by lia.
  replace (Z.to_nat (Z.of_nat (List.length front) + Z.of_nat a))
    with (List.length front + a)%nat by lia.
  rewrite Nat2Z.id.
  rewrite skipn_app, skipn_all2 by lia. cbn [app].
  replace (List.length front + a - List.length front)%nat with a by lia.
  rewrite skipn_app, firstn_app.
  rewrite length_skipn.
  replace (b - a - (List.length mid - a))%nat with 0%nat by lia.
  cbn [firstn]. rewrite app_nil_r. reflexivity.
Qed.

Section LengthFrame.

Variables (version : list byte) (flags : byte) (n : Z).
Variables (pre frameFlags : list byte) (encoding : byte) (ds : list Z) (rest : list byte).

Hypothesis version_length : List.length version = 2%nat.
Hypothesis n_range : 0 <= n < 2 ^ 28.
Hypothesis frame_in_tag : Z.of_nat (List.length pre) < n.
Hypothesis frameFlags_length : List.length frameFlags = 2%nat.
Hypothesis first_frame : noLengthFrameIn pre.
Hypothesis ds_nonempty : ds <> [].
Hypothesis ds_short : (List.length ds < 19)%nat.
Hypothesis ds_digits : Forall isDigit ds.
Hypothesis ds_positive : 0 < decimal ds.

Local Abbreviation header := (id3Header version flags (synchsafe n)).
Local Abbreviation file :=
  (header ++ pre ++ tlenFrame frameFlags encoding ds ++ rest).

Lemma header_length : List.length header = 10%nat.
Proof.
  unfold id3Header. rewrite !length_app, version_length. reflexivity.
Qed.

(** No position before the frame reads as 'TLEN'. *)
Lemma tlenAt_before (j : nat) :
  (j < List.length pre)%nat ->
  tlenAt file (10 + Z.of_nat j) = Done None.
Proof.
  intros Hj. unfold tlenAt.
  assert (Hname : toString file (10 + Z.of_nat j) (10 + Z.of_nat j + 4)
                  = toString (pre ++ tag "TLEN") (Z.of_nat j) (Z.of_nat j + 4)).
  { unfold tlenFrame. rewrite <- !app_assoc. rewrite (app_assoc pre (tag "TLEN")).
    pose proof (toString_inside header (pre ++ tag "TLEN")
                  (be32 (1 + Z.of_nat (List.length ds)) ++ frameFlags ++ [encoding]
                        ++ digitBytes ds ++ rest) j (j + 4)) as T.
    rewrite header_length in T.
    replace (Z.of_nat (j + 4)) with (Z.of_nat j + 4) in T by lia.
    replace (10 + Z.of_nat j + 4) with (Z.of_nat 10 + (Z.of_nat j + 4)) by lia.
    apply T. rewrite length_app. cbn [List.length tag map list_ascii_of_string]. lia. }
  rewrite Hname.
  destruct (String.eqb_spec (toString (pre ++ tag "TLEN") (Z.of_nat j) (Z.of_nat j + 4)) "TLEN")
    as [E|_]; [|reflexivity].
  exfalso. exact (first_frame j Hj E).
Qed.

(** The position of the frame gives the duration. *)
Lemma tlenAt_frame :
  tlenAt file (10 + Z.of_nat (List.length pre))
  = Done (Some (exact (decimal ds) 1000)).
Proof.
  unfold tlenAt.
  set (i := 10 + Z.of_nat (List.length pre)).
  assert (Hi : i = Z.of_nat (List.length (header ++ pre))).
  { rewrite length_app, header_length. unfold i. lia. }
  assert (Hname : toString file i (i + 4) = "TLEN"%string).
  { unfold tlenFrame. rewrite <- !app_assoc. rewrite (app_assoc header pre).
    rewrite (@toString_at _ (tag "TLEN") _ _ _);
      [reflexivity|discriminate|exact Hi|reflexivity]. }
  rewrite Hname. cbn [String.eqb Ascii.eqb Bool.eqb].
  assert (Hsize : readUInt32BE file (i + 4) = Done (1 + Z.of_nat (List.length ds))).
  { unfold tlenFrame. rewrite <- !app_assoc.
    rewrite (app_assoc header pre), (app_assoc _ (tag "TLEN")).
    apply readUInt32BE_at; [lia|].
    unfold i. rewrite !length_app, header_length.
    cbn [List.length tag map list_ascii_of_string]. lia. }
  rewrite Hsize. run_step.
  replace ((0 <? 1 + Z.of_nat (List.length ds)) && (1 + Z.of_nat (List.length ds) <? 20))
    with true
    by (symmetry; apply andb_true_iff; split; apply Z.ltb_lt; lia).
  assert (Htext : toString file (i + 11) (i + 11 + (1 + Z.of_nat (List.length ds)) - 1)
                  = string_of_list_ascii (map digitChar ds)).
  { unfold tlenFrame. rewrite <- !app_assoc.
    rewrite (app_assoc header pre), (app_assoc _ (tag "TLEN")), (app_assoc _ (be32 _)),
      (app_assoc _ frameFlags), (app_assoc _ [encoding]).
    rewrite <- digitBytes_text.
    apply toString_at.
    - unfold digitBytes. destruct ds; [congruence|discriminate].
    - unfold i. rewrite !length_app, header_length, length_be32, frameFlags_length.
      cbn [List.length tag map list_ascii_of_string]. lia.
    - unfold digitBytes. rewrite length_map. lia. }
  rewrite Htext, parseInt_decimal by assumption.
  replace (0 <? decimal ds) with true by (symmetry; apply Z.ltb_lt; assumption).
  reflexivity.
Qed.

Lemma scanTLEN_frame :
  forall (k j : nat) (count : nat),
    (j + k = List.length pre)%nat ->
    (k < count)%nat ->
    scanTLEN count file (10 + Z.of_nat j) = Done (Some (exact (decimal ds) 1000)).
Proof.
  induction k as [|k IH]; intros j count Hjk Hcount.
  - destruct count as [|count]; [lia|]. cbn [scanTLEN].
    replace j with (List.length pre) by lia.
    rewrite tlenAt_frame. reflexivity.
  - destruct count as [|count]; [lia|]. cbn [scanTLEN].
    rewrite tlenAt_before by lia. run_step.
    replace (10 + Z.of_nat j + 1) with (10 + Z.of_nat (S j)) by lia.
    apply IH; lia.
Qed.

Lemma parseMp3_frame : parseMp3 file = Done (exact (decimal ds) 1000).
Proof.
  unfold parseMp3.
  assert (Hlen : Z.of_nat (List.length file)
                 = 21 + Z.of_nat (List.length pre) + Z.of_nat (List.length ds)
                   + Z.of_nat (List.length rest)).
  { unfold tlenFrame, digitBytes.
    rewrite !length_app, header_length, length_be32, frameFlags_length, length_map.
    cbn [List.length tag map list_ascii_of_string]. lia. }
  replace (10 <? length file) with true
    by (symmetry; apply Z.ltb_lt; unfold length; lia).
  assert (Hid : toString file 0 3 = "ID3"%string).
  { unfold id3Header. rewrite <- !app_assoc.
    pose proof (toString_middle [] (tag "ID3")) as T. cbn [app List.length Z.of_nat] in T.
    rewrite T by discriminate. reflexivity. }
  rewrite Hid. cbn [String.eqb Ascii.eqb Bool.eqb andb].
  rewrite id3Size_synchsafe by assumption.
  pose proof (scanTLEN_frame (List.length pre) 0
                (Z.to_nat (Z.min (n + 10) (length file - 10) - 10))) as H.
  cbn [Z.of_nat] in H. rewrite Z.add_0_r in H.
  rewrite H; [reflexivity|reflexivity|unfold length; lia].
Qed.

End LengthFrame.



(** ** WAV files that end with the header of their data chunk *)

Lemma findDataChunk_end (byteRate dataSize : Z) :
  forall (mid : list subchunk) (front : list byte) (fuel : nat),
    Forall (skipped "data") mid ->
    (List.length mid < fuel)%nat ->
    findDataChunk fuel
      (front ++ List.concat (map encode mid) ++ tag "data" ++ le32 dataSize)
      byteRate (Z.of_nat (List.length front))
    = Done None.
Proof.
  induction mid as [|c mid IH]; intros front fuel Hmid Hfuel.
  - destruct fuel as [|fuel]; [cbn in Hfuel; lia|].
    cbn [map List.concat app findDataChunk].
    replace (Z.of_nat (List.length front)
             <? length (front ++ tag "data" ++ le32 dataSize) - 8) with false
      by (symmetry; apply Z.ltb_ge; unfold length; rewrite !length_app, length_le32;
          cbn [List.length tag map list_ascii_of_string]; lia).
    reflexivity.
  - destruct fuel as [|fuel]; [cbn in Hfuel; lia|].
    inversion Hmid as [|c' mid' Hc Hmid']; subst.
    cbn [map List.concat]. rewrite <- app_assoc.
    rewrite findDataChunk_skip; [|assumption|].
    + destruct Hc as [Htag _].
      replace (Z.of_nat (List.length front) + 8 + size c)
        with (Z.of_nat (List.length (front ++ encode c)))
        by (rewrite length_app; pose proof (length_encode c Htag); lia).
      rewrite (app_assoc front (encode c)).
      apply IH; [assumption|cbn [List.length] in Hfuel; lia].
    + intros E. apply (f_equal (@List.length byte)) in E.
      rewrite !length_app in E. cbn [List.length tag map list_ascii_of_string] in E. lia.
Qed.

Lemma walkChunks_end (dataSize : Z) :
  forall (cs : list subchunk) (front : list byte) (fuel : nat),
    Forall (skipped "fmt ") cs ->
    (List.length cs < fuel)%nat ->
    walkChunks fuel (front ++ List.concat (map encode cs) ++ tag "data" ++ le32 dataSize)
               (Z.of_nat (List.length front))
    = Raise "Could not parse WAV duration".
Proof.
  induction cs as [|c cs IH]; intros front fuel Hcs Hfuel.
  - destruct fuel as [|fuel]; [cbn in Hfuel; lia|].
    cbn [map List.concat app walkChunks].
    replace (Z.of_nat (List.length front)
             <? length (front ++ tag "data" ++ le32 dataSize) - 8) with false
      by (symmetry; apply Z.ltb_ge; unfold length; rewrite !length_app, length_le32;
          cbn [List.length tag map list_ascii_of_string]; lia).
    reflexivity.
  - destruct fuel as [|fuel]; [cbn in Hfuel; lia|].
    inversion Hcs as [|c' cs' Hc Hcs']; subst.
    cbn [map List.concat]. rewrite <- app_assoc.
    rewrite walkChunks_skip; [|assumption|].
    + destruct Hc as [Htag _].
      replace (Z.of_nat (List.length front) + 8 + size c)
        with (Z.of_nat (List.length (front ++ encode c)))
        by (rewrite length_app; pose proof (length_encode c Htag); lia).
      rewrite (app_assoc front (encode c)).
      apply IH; [assumption|cbn [List.length] in Hfuel; lia].
    + intros E. apply (f_equal (@List.length byte)) in E.
      rewrite !length_app in E. cbn [List.length tag map list_ascii_of_string] in E. lia.
Qed.

Section HeaderOnly.

Variables (head tail : list byte) (sampleRate byteRate dataSize : Z).
Variable mid : list subchunk.

Hypothesis head_length : List.length head = 4%nat.
Hypothesis sampleRate_range : 0 <= sampleRate < 2 ^ 32.
Hypothesis byteRate_range : 0 <= byteRate < 2 ^ 32.
Hypothesis mid_not_data : Forall (skipped "data") mid.
Hypothesis mid_not_fmt : Forall (skipped "fmt ") mid.
Hypothesis fmt_size : size (fmtChunkOf head sampleRate byteRate tail) < 2 ^ 32.

Local Abbreviation fmt := (fmtChunkOf head sampleRate byteRate tail).
Local Abbreviation after := (afterFmt mid dataSize []).

(** The iteration on the format chunk finds no data and the walk goes
    on to the end of the file. *)
Lemma walkChunks_fmt_without_data (fuel : nat) (front : list byte) :
  (List.length mid < fuel)%nat ->
  walkChunks (S fuel) (front ++ encode fmt ++ after) (Z.of_nat (List.length front))
  = Raise "Could not parse WAV duration".
Proof.
  intros Hfuel.
  set (B := front ++ encode fmt ++ after).
  assert (Htag : List.length (tagBytes fmt) = 4%nat) by reflexivity.
  assert (Hafter : (8 <= List.length after)%nat).
  { unfold afterFmt. rewrite !length_app, length_le32.
    cbn [List.length tag map list_ascii_of_string]. lia. }
  pose proof (length_encode fmt Htag) as Hfmt.
  cbn [walkChunks].
  assert (Hlen : (Z.of_nat (List.length front) <? length B - 8) = true).
  { apply Z.ltb_lt. unfold length, B. rewrite !length_app. unfold size in *. lia. }
  rewrite Hlen.
  assert (Hread : readUInt32LE B (Z.of_nat (List.length front) + 4) = Done (size fmt)).
  { unfold B, encode. rewrite <- !app_assoc.
    rewrite (app_assoc front (tagBytes fmt)).
    replace (Z.of_nat (List.length front) + 4)
      with (Z.of_nat (List.length (front ++ tagBytes fmt)))
      by (rewrite length_app, Htag; lia).
    apply readUInt32LE_middle. unfold size in *. lia. }
  rewrite Hread. run_step.
  assert (Hname : toString B (Z.of_nat (List.length front)) (Z.of_nat (List.length front) + 4)
                  = "fmt "%string).
  { unfold B, encode. rewrite <- !app_assoc.
    change 4 with (Z.of_nat (List.length (tagBytes fmt))) at 1.
    rewrite toString_middle by discriminate. reflexivity. }
  rewrite Hname. cbn [String.eqb Ascii.eqb Bool.eqb].
  unfold fmtChunk.
  assert (Hsr : readUInt32LE B (Z.of_nat (List.length front) + 12) = Done sampleRate).
  { unfold B, encode, fmtChunkOf, fmtBody. cbn [tagBytes body]. rewrite <- !app_assoc.
    rewrite (app_assoc front (tag "fmt ")), (app_assoc _ (le32 _)), (app_assoc _ head).
    match goal with |- readUInt32LE (?f ++ _) _ = _ =>
      replace (Z.of_nat (List.length front) + 12) with (Z.of_nat (List.length f))
    end.
    - apply readUInt32LE_middle. lia.
    - rewrite !length_app, length_le32, head_length.
      cbn [List.length tag map list_ascii_of_string]. lia. }
  rewrite Hsr. run_step.
  assert (Hbr : readUInt32LE B (Z.of_nat (List.length front) + 16) = Done byteRate).
  { unfold B, encode, fmtChunkOf, fmtBody. cbn [tagBytes body]. rewrite <- !app_assoc.
    rewrite (app_assoc front (tag "fmt ")), (app_assoc _ (le32 _)), (app_assoc _ head),
      (app_assoc _ (le32 sampleRate)).
    match goal with |- readUInt32LE (?f ++ _) _ = _ =>
      replace (Z.of_nat (List.length front) + 16) with (Z.of_nat (List.length f))
    end.
    - apply readUInt32LE_middle. lia.
    - rewrite !length_app, !length_le32, head_length.
      cbn [List.length tag map list_ascii_of_string]. lia. }
  rewrite Hbr. run_step.
  assert (Hnext : Z.of_nat (List.length front) + 8 + size fmt
                  = Z.of_nat (List.length (front ++ encode fmt)))
    by (rewrite length_app; lia).
  assert (Hfound : (if (0 <? sampleRate) && (0 <? byteRate)
                    then findDataChunk (S (List.length B)) B byteRate
                                       (Z.of_nat (List.length front) + 8 + size fmt)
                    else Done None) = Done None).
  { destruct (_ && _); [|reflexivity].
    rewrite Hnext. unfold B, afterFmt. rewrite (app_assoc front (encode fmt)).
    cbn [app]. apply findDataChunk_end; [assumption|].
    pose proof (length_chunks "data" mid mid_not_data) as Hm.
    rewrite !length_app. lia. }
  rewrite Hfound. run_step.
  rewrite Hnext. unfold B, afterFmt. rewrite (app_assoc front (encode fmt)).
  cbn [app]. apply walkChunks_end; assumption.
Qed.

Lemma walkChunks_without_data :
  forall (pre : list subchunk) (front : list byte) (fuel : nat),
    Forall (skipped "fmt ") pre ->
    (List.length pre + List.length mid + 1 < fuel)%nat ->
    walkChunks fuel (front ++ List.concat (map encode pre) ++ encode fmt ++ after)
               (Z.of_nat (List.length front))
    = Raise "Could not parse WAV duration".
Proof.
  induction pre as [|c pre IH]; intros front fuel Hpre Hfuel.
  - destruct fuel as [|fuel]; [cbn in Hfuel; lia|].
    cbn [map List.concat app]. apply walkChunks_fmt_without_data.
    cbn [List.length] in Hfuel. lia.
  - destruct fuel as [|fuel]; [cbn in Hfuel; lia|].
    inversion Hpre as [|c' pre' Hc Hpre']; subst.
    cbn [map List.concat]. rewrite <- app_assoc.
    rewrite walkChunks_skip; [|assumption|].
    + destruct Hc as [Htag _].
      replace (Z.of_nat (List.length front) + 8 + size c)
        with (Z.of_nat (List.length (front ++ encode c)))
        by (rewrite length_app; pose proof (length_encode c Htag); lia).
      rewrite (app_assoc front (encode c)).
      apply IH; [assumption|cbn [List.length] in Hfuel; lia].
    + intros E. apply (f_equal (@List.length byte)) in E.
      unfold encode in E. rewrite !length_app in E.
      cbn [List.length tag map list_ascii_of_string tagBytes fmtChunkOf] in E. lia.
Qed.

End HeaderOnly.

(** X4. A WAV file that ends with the eight bytes that introduce its data
    chunk, so that no sample follows, is never given the duration that
    its header declares: whatever the sample rate, the byte rate and the
    declared data size, the result is the size-based estimate at 176400
    bytes per second, marked estimated. *)
Theorem extractDuration_wav_without_samples
        (fileName : string) (riffSize : Z) (pre : list subchunk)
        (head : list byte) (sampleRate byteRate : Z) (tail : list byte)
        (mid : list subchunk) (dataSize : Z) :
  extensionOf fileName = "wav"%string ->
  Forall (skipped "fmt ") pre ->
  Forall (skipped "data") mid ->
  Forall (skipped "fmt ") mid ->
  List.length head = 4%nat ->
  Z.of_nat (List.length (fmtBody head sampleRate byteRate tail)) < 2 ^ 32 ->
  0 <= sampleRate < 2 ^ 32 ->
  0 <= byteRate < 2 ^ 32 ->
  extractDuration
    (wavFile riffSize pre head sampleRate byteRate tail mid dataSize [] [])
    fileName
  = Done (estimate (wavFile riffSize pre head sampleRate byteRate tail mid dataSize [] [])
                   176400).
Proof.
  intros Hext Hpre Hmid Hmid' Hhead Hfmt Hsr Hbr.
  set (B := wavFile riffSize pre head sampleRate byteRate tail mid dataSize [] []).
  assert (Hwalk : walkChunks (S (List.length B)) B 12 = Raise "Could not parse WAV duration").
  { unfold B, wavFile.
    rewrite (app_assoc (tag "RIFF")), (app_assoc _ (tag "WAVE")).
    match goal with |- walkChunks _ (?f ++ _) _ = _ =>
      change 12 with (Z.of_nat (List.length f))
    end.
    cbn [app].
    apply walkChunks_without_data; try assumption.
    pose proof (length_chunks "fmt " pre Hpre) as Hp.
    pose proof (length_chunks "data" mid Hmid) as Hm.
    pose proof (length_encode (fmtChunkOf head sampleRate byteRate tail) eq_refl) as Hf.
    unfold afterFmt, size in *. rewrite !length_app. lia. }
  unfold extractDuration, dispatch. rewrite Hext. cbn [String.eqb Ascii.eqb Bool.eqb].
  unfold extractWavDuration, parseWav. fold B.
  destruct (length B <? 44); [reflexivity|].
  destruct (negb _); [reflexivity|].
  destruct (negb _); [reflexivity|].
  rewrite Hwalk. reflexivity.
Qed.

(** The canonical header of 44 bytes that declares 64000 bytes of audio
    at 32000 bytes per second, with no audio after it: 1 second,
    estimated, instead of the 2 seconds that the header declares. *)
Lemma extractDuration_wav_without_samples_witness :
  extractDuration
    (wavFile 64036 [] (map byteOf [1; 0; 1; 0]) 16000 32000 (map byteOf [2; 0; 16; 0]) []
             64000 [] [])
    "speech.wav"
  = Done {| duration := 1; isEstimated := true |}.
Proof.
  rewrite extractDuration_wav_without_samples.
  - reflexivity.
  - reflexivity.
  - constructor.
  - constructor.
  - constructor.
  - reflexivity.
  - cbn. lia.
  - lia.
  - lia.
Defined.

(** X5. A buffer of at most eight bytes, the empty buffer included, gets a
    duration of one second, marked estimated, under every file name. *)
Theorem extractDuration_of_a_few_bytes (buffer : Buffer) (fileName : string) :
  length buffer <= 8 ->
  extractDuration buffer fileName = Done {| duration := 1; isEstimated := true |}.
Proof.
  intros Hlen.
  assert (Hest : forall rate, 16 < rate -> estimate buffer rate
                                           = {| duration := 1; isEstimated := true |}).
  { intros rate Hrate. unfold estimate, round_div. f_equal.
    assert (0 <= length buffer) by (unfold length; lia).
    rewrite Z.div_small by lia. reflexivity. }
  unfold extractDuration, dispatch.
  destruct (String.eqb _ "wav").
  { unfold extractWavDuration, parseWav.
    replace (length buffer <? 44) with true by (symmetry; apply Z.ltb_lt; lia).
    cbn [try_catch]. rewrite Hest by lia. reflexivity. }
  destruct (String.eqb _ "mp3").
  { unfold extractMp3Duration, parseMp3.
    replace (10 <? length buffer) with false by (symmetry; apply Z.ltb_ge; lia).
    cbn [andb Js.bind try_catch]. rewrite Hest by lia. reflexivity. }
  destruct (_ || _).
  { unfold extractMp4Duration, parseMp4. cbn [walkAtoms].
    replace (0 <? length buffer - 8) with false by (symmetry; apply Z.ltb_ge; lia).
    cbn [try_catch]. rewrite Hest by lia. reflexivity. }
  cbn [try_catch]. rewrite Hest by lia. reflexivity.
Qed.

Lemma extractDuration_of_a_few_bytes_witness :
  extractDuration [] "empty.mp4" = Done {| duration := 1; isEstimated := true |}
  /\ extractDuration [x52; x49; x46; x46; x00; x00; x00; x00] "riff"
     = Done {| duration := 1; isEstimated := true |}.
Proof.
  split; apply extractDuration_of_a_few_bytes; cbn; lia.
Defined.

End ContainerFacts.

(* ================================================================== *)
(** * Splitting a text at the runs of a character class                 *)
(* ================================================================== *)

Module TokenFacts.

Import Str RegExp TextSpec.
Local Open Scope nat_scope.

Section Runs.

Variable p : ascii -> bool.

Local Abbreviation stops := (TextSpec.stops p).

Lemma star_run (caps : captures) :
  forall (block s : list ascii) (b : option ascii) (n : nat),
    Forall (fun c => p c = true) block ->
    stops s ->
    exists cur',
      star p b n (block ++ s) (fun cur' => Some (cur', caps)) = Some (cur', caps)
      /\ pos cur' = n + List.length block.
Proof.
  induction block as [|c block IH]; intros s b n Hrun Hs.
  - cbn [app]. exists {| before := b; pos := n; rest := s |}.
    split; [|cbn; lia].
    destruct s as [|c s]; cbn [star]; [reflexivity|].
    cbn in Hs. rewrite Hs. reflexivity.
  - inversion Hrun as [|c' block' Hc Hrun']; subst.
    destruct (IH s (Some c) (S n) Hrun' Hs) as [cur' [E P]].
    exists cur'. split; [|cbn [List.length]; lia].
    cbn [app star]. rewrite Hc, E. reflexivity.
Qed.

Lemma exec_plus_run (block s : list ascii) (b : option ascii) (n : nat) :
  block <> [] ->
  Forall (fun c => p c = true) block ->
  stops s ->
  exists cur',
    exec false (Plus p) {| before := b; pos := n; rest := block ++ s |} = Some (cur', [])
    /\ pos cur' = n + List.length block.
Proof.
  intros Hne Hrun Hs. destruct block as [|c block]; [congruence|].
  inversion Hrun as [|c' block' Hc Hrun']; subst.
  unfold exec. cbn [rmatch rest pos app]. rewrite Hc.
  destruct (star_run [] block s (Some c) (S n) Hrun' Hs) as [cur' [E P]].
  exists cur'. split; [exact E|cbn [List.length]; lia].
Qed.

Lemma exec_plus_stops (s : list ascii) (b : option ascii) (n : nat) :
  stops s ->
  exec false (Plus p) {| before := b; pos := n; rest := s |} = None.
Proof.
  intros Hs. unfold exec. cbn [rmatch rest].
  destruct s as [|c s]; [reflexivity|]. cbn in Hs. rewrite Hs. reflexivity.
Qed.

(** The search does not look at the character before the position. *)
Lemma scan_plus_before :
  forall (s : list ascii) (b1 b2 : option ascii) (n skip : nat),
    scan false (Plus p) b1 n s skip = scan false (Plus p) b2 n s skip.
Proof.
  induction s as [|c s IH]; intros b1 b2 n skip.
  - destruct skip; reflexivity.
  - destruct skip; [|cbn [scan]; apply IH].
    cbn [scan]. reflexivity.
Qed.

Lemma scan_skip (r : regex) :
  forall (u s : list ascii) (b : option ascii) (n : nat),
    exists b',
      scan false r b n (u ++ s) (List.length u) = scan false r b' (n + List.length u) s 0.
Proof.
  induction u as [|c u IH]; intros s b n.
  - exists b. cbn [app List.length]. rewrite Nat.add_0_r. reflexivity.
  - destruct (IH s (Some c) (S n)) as [b' E]. exists b'.
    cbn [app List.length scan]. rewrite E. f_equal. lia.
Qed.

(** A character outside the class is passed as it is. *)
Lemma scan_plus_other (c : ascii) (s : list ascii) (b : option ascii) (n : nat) :
  p c = false ->
  scan false (Plus p) b n (c :: s) 0 = Lit c :: scan false (Plus p) None (S n) s 0.
Proof.
  intros Hc. cbn [scan]. rewrite exec_plus_stops by exact Hc.
  f_equal. apply scan_plus_before.
Qed.

(** A maximal block of the class is one match. *)
Lemma scan_plus_run (block s : list ascii) (b : option ascii) (n : nat) :
  block <> [] ->
  Forall (fun c => p c = true) block ->
  stops s ->
  scan false (Plus p) b n (block ++ s) 0
  = Hit {| matched := block; groups := []; offset := n |}
        :: scan false (Plus p) None (n + List.length block) s 0.
Proof.
  intros Hne Hrun Hs.
  destruct (exec_plus_run block s b n Hne Hrun Hs) as [cur' [E P]].
  destruct block as [|c block]; [congruence|].
  cbn [app scan] in *. rewrite E.
  replace (pos cur' - n) with (S (List.length block)) by (cbn [List.length] in P; lia).
  cbn [firstn]. rewrite firstn_app, Nat.sub_diag, firstn_all. cbn [firstn].
  rewrite app_nil_r. f_equal.
  destruct (scan_skip (Plus p) block s (Some c) (S n)) as [b' ->].
  cbn [List.length]. replace (n + S (List.length block)) with (S n + List.length block) by lia.
  apply scan_plus_before.
Qed.

Lemma scan_plus_nil (b : option ascii) (n : nat) :
  scan false (Plus p) b n [] 0 = [].
Proof. reflexivity. Qed.

(** A text that begins with a character of the class begins with a
    maximal block of it. *)
Lemma leading_run (c : ascii) (s : list ascii) :
  p c = true ->
  exists block s',
    c :: s = block ++ s' /\ block <> [] /\ Forall (fun c => p c = true) block /\ stops s'
    /\ List.length s' <= List.length s.
Proof.
  revert c. induction s as [|c' s IH]; intros c Hc.
  - exists [c], []. repeat split; try (constructor; [assumption|constructor]);
      [discriminate|cbn; lia].
  - destruct (p c') eqn:Hc'.
    + destruct (IH c' Hc') as [block [s' [E [Hne [Hrun [Hs Hlen]]]]]].
      exists (c :: block), s'.
      split; [cbn [app]; f_equal; exact E|]. repeat split.
      * discriminate.
      * constructor; assumption.
      * exact Hs.
      * cbn [List.length]. lia.
    + exists [c], (c' :: s). repeat split.
      * discriminate.
      * constructor; [assumption|constructor].
      * exact Hc'.
      * lia.
Qed.

(** An induction principle for texts along this segmentation. *)
Lemma run_induction (P : list ascii -> Prop) :
  P [] ->
  (forall c s, p c = false -> P s -> P (c :: s)) ->
  (forall block s, block <> [] -> Forall (fun c => p c = true) block -> stops s ->
                 P s -> P (block ++ s)) ->
  forall s, P s.
Proof.
  intros Hnil Hother Hrun s.
  assert (H : forall n s, List.length s <= n -> P s).
  { clear s. induction n as [|n IH]; intros s Hlen.
    - destruct s; [exact Hnil|cbn in Hlen; lia].
    - destruct s as [|c s]; [exact Hnil|].
      cbn [List.length] in Hlen.
      destruct (p c) eqn:Hc.
      + destruct (leading_run c s Hc) as [block [s' [E [Hne [Hr [Hs Hl]]]]]].
        rewrite E. apply Hrun; try assumption. apply IH. lia.
      + apply Hother; [exact Hc|]. apply IH. lia. }
  apply (H (List.length s)). lia.
Qed.

End Runs.

End TokenFacts.

(* ================================================================== *)
(** * The words of a transcript                                         *)
(* ================================================================== *)

Module WordFacts.

Import Str RegExp TextSpec SpeechAnalyticsService TokenFacts.
Local Open Scope nat_scope.

Local Abbreviation otherThanSpace := (fun c : ascii => isSpace c = false).
Local Abbreviation spaces := (Plus isSpace).

Lemma filter_spaces (block : list ascii) :
  Forall (fun c => isSpace c = true) block ->
  filter (fun c => negb (isSpace c)) block = [].
Proof.
  induction 1 as [|c block Hc _ IH]; [reflexivity|].
  cbn [filter]. rewrite Hc. exact IH.
Qed.

(** The pieces between the runs of white space: none holds white space,
    and together they spell the text without its white space. *)
Lemma pieces_between_spaces :
  forall (s cur : list ascii) (b : option ascii) (n : nat),
    Forall otherThanSpace cur ->
    Forall (Forall otherThanSpace) (pieces cur (scan false spaces b n s 0))
    /\ List.concat (pieces cur (scan false spaces b n s 0))
       = rev cur ++ filter (fun c => negb (isSpace c)) s.
Proof.
  intros s. pattern s. apply (run_induction isSpace); clear s.
  - intros cur b n Hcur. cbn [scan exec rmatch rest pieces List.concat filter].
    rewrite !app_nil_r. split; [|reflexivity].
    constructor; [|constructor]. apply Forall_rev. exact Hcur.
  - intros c s Hc IH cur b n Hcur.
    rewrite scan_plus_other by exact Hc. cbn [pieces filter].
    rewrite Hc. cbn [negb].
    destruct (IH (c :: cur) None (S n)) as [Hall Hcat]; [constructor; assumption|].
    split; [exact Hall|]. rewrite Hcat. cbn [rev]. rewrite <- app_assoc. reflexivity.
  - intros block s Hne Hblock Hs IH cur b n Hcur.
    rewrite scan_plus_run by assumption. cbn [pieces List.concat].
    destruct (IH [] None (n + List.length block)) as [Hall Hcat]; [constructor|].
    split.
    + constructor; [apply Forall_rev; exact Hcur|exact Hall].
    + rewrite Hcat. cbn [rev app]. rewrite filter_app, (filter_spaces block Hblock).
      reflexivity.
Qed.

Lemma concat_nonempty (ps : list (list ascii)) :
  List.concat (filter (fun w => Nat.ltb 0 (List.length w)) ps) = List.concat ps.
Proof.
  induction ps as [|w ps IH]; [reflexivity|].
  destruct w as [|c w]; simpl.
  - exact IH.
  - f_equal. f_equal. exact IH.
Qed.


(** The pieces of words joined by single spaces are the words. *)
Lemma pieces_of_joined_words :
  forall (ws : list (list ascii)) (w cur : list ascii) (b : option ascii) (n : nat),
    Forall isWord ws ->
    Forall otherThanSpace w ->
    pieces cur (scan false spaces b n (join (chars " ") (w :: ws)) 0)
    = (rev cur ++ w) :: ws.
Proof.
  assert (Hlits : forall (w tail cur : list ascii) (b : option ascii) (n : nat),
             Forall otherThanSpace w ->
             exists n',
               pieces cur (scan false spaces b n (w ++ tail) 0)
               = pieces (rev w ++ cur) (scan false spaces None n' tail 0)).
  { induction w as [|c w IH]; intros tail cur b n Hw.
    - exists n. cbn [app rev]. f_equal. apply scan_plus_before.
    - inversion Hw as [|c' w' Hc Hw']; subst.
      cbn [app]. rewrite scan_plus_other by exact Hc. cbn [pieces].
      destruct (IH tail (c :: cur) None (S n) Hw') as [n' ->].
      exists n'. cbn [rev]. rewrite <- app_assoc. reflexivity. }
  induction ws as [|w2 ws IH]; intros w cur b n Hws Hw.
  - cbn [join].
    destruct (Hlits w [] cur b n Hw) as [n' E]. rewrite app_nil_r in E. rewrite E.
    cbn [scan exec rmatch rest pieces]. rewrite rev_app_distr, rev_involutive. reflexivity.
  - inversion Hws as [|w2' ws' [Hne2 Hw2] Hws']; subst.
    assert (Hjoin : join (chars " ") (w :: w2 :: ws)
                    = w ++ chars " " ++ join (chars " ") (w2 :: ws)) by reflexivity.
    rewrite Hjoin.
    destruct (Hlits w (chars " " ++ join (chars " ") (w2 :: ws)) cur b n Hw) as [n' ->].
    rewrite scan_plus_run.
    + cbn [pieces]. rewrite rev_app_distr, rev_involutive.
      rewrite (IH w2 [] None _ Hws' Hw2). reflexivity.
    + discriminate.
    + constructor; [reflexivity|constructor].
    + destruct w2 as [|c w2]; [congruence|].
      inversion Hw2; subst.
      destruct ws; cbn [join app TextSpec.stops]; assumption.
Qed.

(** X7. Splitting undoes joining: for words that are not empty and hold
    no white space, [extractWords(words.join(' '))] gives the same words
    back, in the same order. *)
Theorem extractWords_join (ws : list (list ascii)) :
  Forall isWord ws ->
  extractWords (join (chars " ") ws) = ws.
Proof.
  intros Hws. unfold extractWords, split, segments.
  destruct ws as [|w ws]; [reflexivity|].
  inversion Hws as [|w' ws' [Hne Hw] Hws']; subst.
  rewrite pieces_of_joined_words by assumption. cbn [rev app].
  assert (Hkeep : forall l : list (list ascii),
             Forall isWord l -> filter (fun w => Nat.ltb 0 (List.length w)) l = l).
  { induction l as [|x l IH]; intros Hl; [reflexivity|].
    inversion Hl as [|x' l' [Hx _] Hl']; subst.
    destruct x; [congruence|]. simpl. f_equal. apply IH. assumption. }
  apply Hkeep. exact Hws.
Qed.

Lemma extractWords_join_witness :
  extractWords (join (chars " ") [chars "so,"; chars "um"; chars "hello!"])
  = [chars "so,"; chars "um"; chars "hello!"].
Proof.
  apply extractWords_join.
  repeat constructor; discriminate.
Defined.

End WordFacts.

(* ================================================================== *)
(** * The breakdowns of SpeechAnalyticsService                          *)
(* ================================================================== *)

Module BreakdownFacts.

Import Str RegExp TextSpec SpeechAnalyticsService AnalyticsSpec AnalyticsFacts.
Local Open Scope nat_scope.

(** ** The counts of the filler words *)

Lemma sumCounts_bump (key : string) (n : nat) (c : counts) :
  sumCounts (bump key n c) = sumCounts c + n.
Proof.
  induction c as [|[k v] c IH]; cbn [bump sumCounts fold_right snd]; [lia|].
  destruct (String.eqb k key); cbn [sumCounts fold_right snd].
  - fold (sumCounts c). lia.
  - fold (sumCounts (bump key n c)) (sumCounts c). rewrite IH. lia.
Qed.

Lemma positive_bump (key : string) (n : nat) (c : counts) :
  0 < n ->
  Forall (fun e => 0 < snd e) c ->
  Forall (fun e => 0 < snd e) (bump key n c).
Proof.
  intros Hn. induction 1 as [|[k v] c Hv Hc IH]; cbn [bump].
  - constructor; [exact Hn|constructor].
  - destruct (String.eqb k key).
    + constructor; [cbn [snd] in *; lia|assumption].
    + constructor; assumption.
Qed.

Lemma keys_bump (key : string) (n : nat) (c : counts) :
  forall k, In k (map fst (bump key n c)) -> k = key \/ In k (map fst c).
Proof.
  induction c as [|[k' v] c IH]; intros k; cbn [bump map fst In].
  - intros [H|[]]. left. congruence.
  - destruct (String.eqb k' key); cbn [map fst In]; [tauto|].
    intros [H|H]; [tauto|]. apply IH in H. tauto.
Qed.

Lemma nodup_bump (key : string) (n : nat) (c : counts) :
  NoDup (map fst c) -> NoDup (map fst (bump key n c)).
Proof.
  induction c as [|[k v] c IH]; intros H; cbn [bump map fst].
  - constructor; [intros []|constructor].
  - inversion H as [|k' l Hnot Hrest]; subst.
    destruct (String.eqb_spec k key) as [->|Hneq]; cbn [map fst].
    + constructor; assumption.
    + constructor; [|apply IH; assumption].
      intros Hin. apply keys_bump in Hin. destruct Hin as [->|Hin]; [congruence|contradiction].
Qed.

Lemma balanced_bump (key : string) (n : nat) (c : counts) (total : nat) :
  0 < n ->
  balanced (c, total) -> balanced (bump key n c, total + n).
Proof.
  intros Hn [Hsum [Hpos Hkeys]]. cbn [fst snd] in *. repeat split; cbn [fst snd].
  - rewrite sumCounts_bump. lia.
  - apply positive_bump; assumption.
  - apply nodup_bump; assumption.
Qed.

Lemma balanced_fold {A : Type} (f : tally -> A -> tally) (l : list A) :
  (forall t x, balanced t -> balanced (f t x)) ->
  forall t, balanced t -> balanced (fold_left f l t).
Proof.
  intros Hf. induction l as [|x l IH]; intros t Ht; [exact Ht|].
  cbn [fold_left]. apply IH. apply Hf. exact Ht.
Qed.

Lemma countPureFillers_balanced (words : list (list ascii)) (t : tally) :
  balanced t -> balanced (countPureFillers words t).
Proof.
  unfold countPureFillers. apply balanced_fold.
  intros [c total] word Ht. destruct (includes _ _); [|exact Ht].
  replace (S total) with (total + 1) by lia. apply balanced_bump; [lia|exact Ht].
Qed.

Lemma countOverused_balanced (words : list (list ascii)) (t : tally) :
  balanced t -> balanced (countOverused words t).
Proof.
  unfold countOverused. apply balanced_fold.
  intros [c total] word Ht. destruct (Nat.ltb _ _); [|exact Ht].
  destruct (Nat.ltb 0 _) eqn:E; [|exact Ht].
  apply Nat.ltb_lt in E. apply balanced_bump; assumption.
Qed.

Lemma countPatterns_balanced (fullText : list ascii) (t : tally) :
  balanced t -> balanced (countPatterns fullText t).
Proof.
  unfold countPatterns. apply balanced_fold.
  intros [c total] pat Ht. destruct (Nat.ltb 0 _) eqn:E; [|exact Ht].
  apply Nat.ltb_lt in E. apply balanced_bump; assumption.
Qed.

Lemma analyzeFillerWords_tally (words : list (list ascii)) :
  balanced (fillerWordCounts (analyzeFillerWords words),
            totalFillerWords (analyzeFillerWords words)).
Proof.
  unfold analyzeFillerWords.
  match goal with |- context [countPatterns ?text ?t] =>
    pose proof (countPatterns_balanced text t) as H; destruct (countPatterns text t) as [c total]
  end.
  destruct (fillerBand _) as [s f]. cbn [fillerWordCounts totalFillerWords].
  apply H. apply countOverused_balanced, countPureFillers_balanced.
  repeat split; constructor.
Qed.

(** X8. The breakdown of [analyzeFillerWords] adds up: the counts under
    the keys of [fillerWordCounts] sum to [totalFillerWords], every key
    that is present has a positive count, and no key is present twice. *)
Theorem fillerWordCounts_add_up (words : list (list ascii)) :
  sumCounts (fillerWordCounts (analyzeFillerWords words))
  = totalFillerWords (analyzeFillerWords words)
  /\ Forall (fun e => 0 < snd e) (fillerWordCounts (analyzeFillerWords words))
  /\ NoDup (map fst (fillerWordCounts (analyzeFillerWords words))).
Proof.
  destruct (analyzeFillerWords_tally words) as [Hsum [Hpos Hkeys]].
  cbn [fst snd] in *. repeat split; assumption.
Qed.

(** ** The vocabulary *)

Lemma nodup_length_le (l : list string) :
  List.length (nodup string_dec l) <= List.length l.
Proof.
  induction l as [|x l IH]; [reflexivity|].
  cbn [nodup]. destruct (in_dec string_dec x l); cbn [List.length]; lia.
Qed.

Lemma nodup_length_full (l : list string) :
  List.length (nodup string_dec l) = List.length l <-> NoDup l.
Proof.
  split.
  - induction l as [|x l IH]; intros H; [constructor|].
    cbn [nodup] in H. pose proof (nodup_length_le l) as Hle.
    destruct (in_dec string_dec x l) as [Hin|Hnot]; cbn [List.length] in H; [lia|].
    constructor; [exact Hnot|apply IH; lia].
  - intros H. rewrite nodup_fixed_point by exact H. reflexivity.
Qed.

Lemma nodup_length_positive (l : list string) :
  l <> [] -> 0 < List.length (nodup string_dec l).
Proof.
  intros Hne. destruct (nodup string_dec l) as [|x u] eqn:E; [|cbn; lia].
  destruct l as [|y l]; [congruence|].
  assert (Hin : In y (nodup string_dec (y :: l))) by (apply nodup_In; left; reflexivity).
  rewrite E in Hin. destruct Hin.
Qed.

Lemma complexity_classes (l : list string) :
  sumCounts (analyzeWordComplexity l) = List.length l.
Proof.
  unfold analyzeWordComplexity, sumCounts. cbn [fold_right snd].
  induction l as [|w l IH]; [reflexivity|].
  cbn [filter List.length].
  destruct (Nat.leb (String.length w) 4) eqn:E4;
    destruct (Nat.leb (String.length w) 7) eqn:E7;
    cbn [negb andb List.length]; try lia.
  apply Nat.leb_le in E4. apply Nat.leb_gt in E7. lia.
Qed.

Lemma analyzeVocabulary_fields (words : list (list ascii)) :
  let v := analyzeVocabulary words in
  let n := List.length (cleanWordsOf words) in
  uniqueWords v = List.length (nodup string_dec (cleanWordsOf words))
  /\ vocabularyDiversity v
     = (if Nat.ltb 0 n then (ofNat (uniqueWords v) / ofNat n)%Q else 0%Q)
  /\ wordComplexityDistribution v = analyzeWordComplexity (cleanWordsOf words).
Proof.
  unfold analyzeVocabulary. fold (cleanWordsOf words).
  destruct (vocabularyBand _) as [s f].
  cbn [uniqueWords vocabularyDiversity wordComplexityDistribution].
  repeat split; reflexivity.
Qed.

(** X9. For the words that [analyzeVocabulary] keeps (lower-cased,
    stripped of the characters outside [\w], the empty ones left out):
    [uniqueWords] is at most their number and is positive as soon as
    there is one; [vocabularyDiversity] lies between 0 and 1, and equals 1
    exactly when there is a word and no word occurs twice; the three
    classes of [wordComplexityDistribution] (1-4, 5-7, 8+ letters) count
    every kept word exactly once. *)
Theorem analyzeVocabulary_accounts_for_every_word (words : list (list ascii)) :
  let v := analyzeVocabulary words in
  let n := List.length (cleanWordsOf words) in
  uniqueWords v <= n
  /\ (0 < n -> 0 < uniqueWords v)
  /\ (0 <= vocabularyDiversity v /\ vocabularyDiversity v <= 1)%Q
  /\ ((vocabularyDiversity v == 1)%Q <-> 0 < n /\ NoDup (cleanWordsOf words))
  /\ map fst (wordComplexityDistribution v)
     = ["Simple (1-4 letters)"; "Medium (5-7 letters)"; "Complex (8+ letters)"]%string
  /\ sumCounts (wordComplexityDistribution v) = n.
Proof.
  intros v n.
  destruct (analyzeVocabulary_fields words) as [Hu [Hd Hc]].
  fold v n in Hu, Hd, Hc.
  assert (Hle : uniqueWords v <= n) by (rewrite Hu; apply nodup_length_le).
  assert (Hpos : 0 < n -> 0 < uniqueWords v).
  { intros Hn. rewrite Hu. apply nodup_length_positive.
    intros E. unfold n in Hn. rewrite E in Hn. exact (Nat.lt_irrefl 0 Hn). }
  split; [exact Hle|]. split; [exact Hpos|].
  assert (Hratio : (0 < n) ->
                   (vocabularyDiversity v == ofNat (uniqueWords v) / ofNat n)%Q).
  { intros Hn. rewrite Hd. apply Nat.ltb_lt in Hn. rewrite Hn. reflexivity. }
  split; [|split; [|split]].
  - destruct (Nat.eq_dec n 0) as [Hz|Hnz].
    + rewrite Hd, Hz. cbn. split; lra.
    + rewrite Hratio by lia.
      assert (Hn : (0 < ofNat n)%Q) by (apply ofNat_pos; lia).
      split.
      * apply Qle_shift_div_l; [exact Hn|]. rewrite Qmult_0_l. apply ofNat_nonneg.
      * apply Qle_shift_div_r; [exact Hn|]. rewrite Qmult_1_l.
        unfold ofNat. rewrite <- Zle_Qle. lia.
  - split.
    + intros H1. destruct (Nat.eq_dec n 0) as [Hz|Hnz].
      * rewrite Hd, Hz in H1. cbn in H1. lra.
      * split; [lia|]. apply nodup_length_full. rewrite <- Hu. fold n.
        rewrite Hratio in H1 by lia.
        assert (Hn : (0 < ofNat n)%Q) by (apply ofNat_pos; lia).
        assert (E : (ofNat (uniqueWords v) == ofNat n)%Q).
        { rewrite <- (Qmult_1_l (ofNat n)). rewrite <- H1. field. lra. }
        unfold ofNat, Qeq in E. cbn [Qnum Qden inject_Z] in E. lia.
    + intros [Hn Hnd]. rewrite Hratio by exact Hn.
      apply nodup_length_full in Hnd. rewrite <- Hu in Hnd. fold n in Hnd. rewrite Hnd.
      assert (Hq : (0 < ofNat n)%Q) by (apply ofNat_pos; lia).
      field. lra.
  - rewrite Hc. reflexivity.
  - rewrite Hc. apply complexity_classes.
Qed.

(** ** The recommendations *)

Lemma insertByCount_In (e x : string * nat) (l : counts) :
  In x (insertByCount e l) <-> x = e \/ In x l.
Proof.
  induction l as [|e' l IH]; cbn [insertByCount In].
  - split; intros [H|H]; auto.
  - destruct (Nat.ltb (snd e) (snd e')); cbn [In]; [rewrite IH|]; split; intros H;
      intuition congruence.
Qed.

Lemma insertByCount_length (e : string * nat) (l : counts) :
  List.length (insertByCount e l) = S (List.length l).
Proof.
  induction l as [|e' l IH]; cbn [insertByCount]; [reflexivity|].
  destruct (Nat.ltb _ _); cbn [List.length]; [rewrite IH|]; reflexivity.
Qed.

Lemma sortByCount_In (c : counts) (x : string * nat) :
  In x (sortByCount c) <-> In x c.
Proof.
  induction c as [|e c IH]; [reflexivity|].
  unfold sortByCount in *. cbn [fold_right In]. rewrite insertByCount_In, IH.
  split; intros [H|H]; auto.
Qed.

Lemma sortByCount_length (c : counts) :
  List.length (sortByCount c) = List.length c.
Proof.
  induction c as [|e c IH]; [reflexivity|].
  unfold sortByCount in *. cbn [fold_right List.length].
  rewrite insertByCount_length, IH. reflexivity.
Qed.

(** The first entry of the sorted breakdown has the highest count. *)
Lemma sortByCount_head (c : counts) (first : string * nat) (others : counts) :
  sortByCount c = first :: others ->
  forall e, In e c -> snd e <= snd first.
Proof.
  assert (Hins : forall e l h t,
             (forall h0 t0, l = h0 :: t0 -> forall x, In x l -> snd x <= snd h0) ->
             insertByCount e l = h :: t ->
             forall x, In x (insertByCount e l) -> snd x <= snd h).
  { intros e l h t Hl E x Hx. destruct l as [|e' l'].
    - cbn [insertByCount] in *. injection E as <- <-. destruct Hx as [<-|[]]. lia.
    - cbn [insertByCount] in *. destruct (Nat.ltb (snd e) (snd e')) eqn:Hlt.
      + injection E as <- <-. apply Nat.ltb_lt in Hlt.
        destruct Hx as [<-|Hx]; [lia|].
        apply insertByCount_In in Hx. destruct Hx as [->|Hx]; [lia|].
        apply (Hl e' l' eq_refl). right. exact Hx.
      + injection E as <- <-. apply Nat.ltb_ge in Hlt.
        destruct Hx as [<-|Hx]; [lia|].
        pose proof (Hl e' l' eq_refl x Hx). lia. }
  revert first others. induction c as [|e c IH]; intros first others E x Hx; [destruct Hx|].
  unfold sortByCount in *. cbn [fold_right] in E.
  apply (Hins e (fold_right insertByCount [] c) first others).
  - intros h0 t0 E0 y Hy. apply (IH h0 t0 E0).
    apply (proj1 (sortByCount_In c y)). exact Hy.
  - exact E.
  - apply insertByCount_In. destruct Hx as [<-|Hx]; [left; reflexivity|].
    right. apply (proj2 (sortByCount_In c x)). exact Hx.
Qed.

Lemma firstn_subset {A : Type} (n : nat) (l : list A) (x : A) :
  In x (firstn n l) -> In x l.
Proof.
  revert l. induction n as [|n IH]; intros l H; [destruct H|].
  destruct l as [|y l]; [destruct H|].
  cbn [firstn In] in *. destruct H as [H|H]; [left; exact H|right; apply IH; exact H].
Qed.

Lemma fillerBand_low (p : Q) :
  (fst (fillerBand p) <? 7)%Z = true <-> (2 <= p)%Q.
Proof.
  unfold fillerBand.
  destruct (Qltb p 1) eqn:E1.
  { apply Qltb_lt in E1. cbn. split; [discriminate|]. intros H. lra. }
  destruct (Qltb p 2) eqn:E2.
  { apply Qltb_lt in E2. cbn. split; [discriminate|]. intros H. lra. }
  apply Qltb_ge in E2.
  repeat match goal with |- context [if ?c then _ else _] => destruct c end;
    cbn; split; auto.
Qed.

(** A filler score below 7 comes with a breakdown that is not empty. *)
Lemma low_score_has_fillers (words : list (list ascii)) :
  (fillerWordScore (analyzeFillerWords words) <? 7)%Z = true ->
  fillerWordCounts (analyzeFillerWords words) <> [].
Proof.
  intros Hlow.
  destruct (analyzeFillerWords_fields words) as [Hpct Hscore].
  destruct (analyzeFillerWords_tally words) as [Hsum _]. cbn [fst snd] in Hsum.
  rewrite Hscore in Hlow. apply fillerBand_low in Hlow. rewrite Hpct in Hlow.
  intros Hempty. rewrite Hempty in Hsum. cbn in Hsum. rewrite <- Hsum in Hlow.
  destruct (Nat.ltb 0 (List.length words)); [|lra].
  unfold ofNat in Hlow. cbn in Hlow. unfold Qdiv in Hlow. rewrite Qmult_0_l in Hlow.
  rewrite Qmult_0_l in Hlow. lra.
Qed.

(** X10. The recommendations that [analyzeSpeech] attaches to its result:
    'Practice Regularly' and 'Study Great Speakers' are always present;
    'Keep it Up' is present exactly when the pace score and the filler
    score are both at least 7; when the filler score is below 7 the
    'Reduce Filler Words' entry is always present (its guard on an empty
    list never fails), naming one or two keys of the breakdown, the first
    of which has the highest count; the list has between 3 and 6
    entries. *)
Theorem recommendations_of_analyzeSpeech (text : string) (durationMinutes : Q) :
  let a := analyzeSpeech text durationMinutes in
  let r := recommendations a in
  let breakdown := fillerWordCounts (fillerWordAnalysis a) in
  In PracticeRegularly r
  /\ In StudyGreatSpeakers r
  /\ (In KeepItUp r
      <-> (7 <= paceScore (paceAnalysis a)
           /\ 7 <= fillerWordScore (fillerWordAnalysis a))%Z)
  /\ ((fillerWordScore (fillerWordAnalysis a) < 7)%Z ->
      exists (top : list string) (first : string * nat),
        In (ReduceFillerWords top) r
        /\ 1 <= List.length top <= 2
        /\ (forall w, In w top -> In w (map fst breakdown))
        /\ hd_error top = Some (fst first)
        /\ In first breakdown
        /\ (forall e, In e breakdown -> snd e <= snd first))
  /\ 3 <= List.length r <= 6.
Proof.
  intros a r breakdown.
  unfold r, a, analyzeSpeech. cbn [recommendations paceAnalysis fillerWordAnalysis].
  set (words := extractWords (chars text)).
  set (pace := analyzePace _).
  set (fillers := analyzeFillerWords words).
  set (vocabulary := analyzeVocabulary words).
  set (confidence := analyzeConfidence _).
  assert (Hbreak : breakdown = fillerWordCounts fillers) by reflexivity.
  rewrite Hbreak. clear Hbreak breakdown r a.
  unfold generateRecommendations.
  remember (sortByCount (fillerWordCounts fillers)) as sorted eqn:Hsorted.
  set (top := map fst (firstn 2 sorted)).
  assert (Htop : (fillerWordScore fillers <? 7)%Z = true ->
                 exists first others,
                   sorted = first :: others
                   /\ 1 <= List.length top <= 2
                   /\ hd_error top = Some (fst first)).
  { intros Hlow. apply low_score_has_fillers in Hlow. fold fillers in Hlow.
    unfold top. destruct sorted as [|first others].
    - exfalso. apply Hlow. apply (f_equal (@List.length _)) in Hsorted.
      rewrite sortByCount_length in Hsorted.
      destruct (fillerWordCounts fillers); [reflexivity|discriminate].
    - exists first, others. split; [reflexivity|].
      destruct others; cbn; split; (lia || reflexivity). }
  assert (Hin : forall w, In w top -> In w (map fst (fillerWordCounts fillers))).
  { intros w Hw. unfold top in Hw. apply in_map_iff in Hw. destruct Hw as [e [<- He]].
    apply in_map. apply firstn_subset in He. rewrite Hsorted in He.
    apply (proj1 (sortByCount_In _ _)) in He. exact He. }
  destruct (paceScore pace <? 7)%Z eqn:Ep;
    destruct (fillerWordScore fillers <? 7)%Z eqn:Ef;
    try (destruct (Htop eq_refl) as [first [others [Esorted [Hlen Hhd]]]];
         replace (Nat.ltb 0 (List.length top)) with true
           by (symmetry; apply Nat.ltb_lt; lia));
    destruct (vocabularyScore vocabulary <? 7)%Z;
    destruct (confidenceScore confidence <? 7)%Z;
    cbn [app filter List.length Nat.eqb In];
    (split; [tauto|]); (split; [tauto|]);
    (split; [split; [intros H; repeat (destruct H as [H|H]; try discriminate H);
                     try contradiction; try (apply Z.ltb_ge in Ep, Ef; lia)
                    |intros [H1 H2]; try (apply Z.ltb_lt in Ep; lia);
                     try (apply Z.ltb_lt in Ef; lia); tauto]|]);
    (split; [|lia]);
    intros Hlow; try (apply Z.ltb_ge in Ef; lia);
    exists top, first; (split; [tauto|]); (split; [exact Hlen|]);
    (split; [exact Hin|]); (split; [exact Hhd|]);
    (split; [apply (proj1 (sortByCount_In _ _)); rewrite <- Hsorted, Esorted;
             left; reflexivity|]);
    apply (sortByCount_head _ first others); rewrite <- Hsorted; exact Esorted.
Qed.

End BreakdownFacts.

(* ================================================================== *)
(** * The analytics do not depend on the case of the letters            *)
(* ================================================================== *)

Module CaseFacts.

Import Str RegExp TextSpec SpeechAnalyticsService TokenFacts WordFacts.
Local Open Scope nat_scope.

Lemma lowerChar_idempotent (c : ascii) : lowerChar (lowerChar c) = lowerChar c.
Proof. destruct c as [[] [] [] [] [] [] [] []]; reflexivity. Qed.

Lemma isSpace_lowerChar (c : ascii) : isSpace (lowerChar c) = isSpace c.
Proof. destruct c as [[] [] [] [] [] [] [] []]; reflexivity. Qed.

Lemma toLowerCase_idempotent (s : list ascii) :
  toLowerCase (toLowerCase s) = toLowerCase s.
Proof.
  unfold toLowerCase. rewrite map_map. apply map_ext. apply lowerChar_idempotent.
Qed.

Section Mapped.

Variable f : ascii -> ascii.
Hypothesis keeps_spaces : forall c, isSpace (f c) = isSpace c.

Lemma pieces_map :
  forall (s cur : list ascii) (b b' : option ascii) (n n' : nat),
    pieces (map f cur) (scan false (Plus isSpace) b n (map f s) 0)
    = map (map f) (pieces cur (scan false (Plus isSpace) b' n' s 0)).
Proof.
  intros s. pattern s. apply (run_induction isSpace); clear s.
  - intros cur b b' n n'. cbn [map scan exec rmatch rest pieces].
    rewrite map_rev. reflexivity.
  - intros c s Hc IH cur b b' n n'. cbn [map].
    rewrite !scan_plus_other by (rewrite ?keeps_spaces; exact Hc).
    cbn [pieces]. apply (IH (c :: cur)).
  - intros block s Hne Hblock Hs IH cur b b' n n'.
    rewrite map_app.
    rewrite (scan_plus_run isSpace block s) by assumption.
    rewrite (scan_plus_run isSpace (map f block) (map f s)).
    + cbn [pieces map]. rewrite map_rev. f_equal. apply (IH []).
    + destruct block; [congruence|discriminate].
    + apply Forall_map. eapply Forall_impl; [|exact Hblock].
      intros c Hc. rewrite keeps_spaces. exact Hc.
    + destruct s as [|c s]; [exact I|]. cbn [map TextSpec.stops] in *.
      rewrite keeps_spaces. exact Hs.
Qed.

Lemma extractWords_map (text : list ascii) :
  extractWords (map f text) = map (map f) (extractWords text).
Proof.
  unfold extractWords, split, segments.
  change (@nil ascii) with (map f []) at 1.
  rewrite (pieces_map text [] None None 0 0).
  generalize (pieces [] (scan false (Plus isSpace) None 0 text 0)). intros ps.
  induction ps as [|w ps IH]; [reflexivity|].
  cbn [map filter]. rewrite length_map.
  destruct (Nat.ltb 0 (List.length w)); cbn [map]; rewrite IH; reflexivity.
Qed.

End Mapped.

Lemma cleanWord_toLowerCase (word : list ascii) :
  cleanWord (toLowerCase word) = cleanWord word.
Proof. unfold cleanWord. rewrite toLowerCase_idempotent. reflexivity. Qed.

Lemma fold_left_map_same {A B : Type} (f : A -> B -> A) (g : B -> B) (l : list B) :
  (forall a x, f a (g x) = f a x) ->
  forall a, fold_left f (map g l) a = fold_left f l a.
Proof.
  intros H. induction l as [|x l IH]; intros a; [reflexivity|].
  cbn [map fold_left]. rewrite H. apply IH.
Qed.

Lemma toLowerCase_app (a b : list ascii) :
  toLowerCase (a ++ b) = toLowerCase a ++ toLowerCase b.
Proof. apply map_app. Qed.

Lemma toLowerCase_join (ws : list (list ascii)) :
  toLowerCase (join (chars " ") (map toLowerCase ws)) = toLowerCase (join (chars " ") ws).
Proof.
  induction ws as [|w ws IH]; [reflexivity|].
  destruct ws as [|w2 ws].
  - cbn [map join]. apply toLowerCase_idempotent.
  - change (join (chars " ") (map toLowerCase (w :: w2 :: ws)))
      with (toLowerCase w ++ chars " " ++ join (chars " ") (map toLowerCase (w2 :: ws))).
    change (join (chars " ") (w :: w2 :: ws))
      with (w ++ chars " " ++ join (chars " ") (w2 :: ws)).
    rewrite !toLowerCase_app, toLowerCase_idempotent, IH. reflexivity.
Qed.

Lemma analyzeFillerWords_toLowerCase (words : list (list ascii)) :
  analyzeFillerWords (map toLowerCase words) = analyzeFillerWords words.
Proof.
  unfold analyzeFillerWords.
  rewrite toLowerCase_join, length_map.
  assert (Hpure : forall t, countPureFillers (map toLowerCase words) t
                            = countPureFillers words t).
  { intros t. unfold countPureFillers. apply fold_left_map_same.
    intros [c total] w. rewrite cleanWord_toLowerCase. reflexivity. }
  assert (Hover : forall t, countOverused (map toLowerCase words) t
                            = countOverused words t).
  { intros t. unfold countOverused. rewrite length_map.
    replace (wordFrequency (map toLowerCase words)) with (wordFrequency words); [reflexivity|].
    unfold wordFrequency. symmetry. apply fold_left_map_same.
    intros freq w. rewrite cleanWord_toLowerCase. reflexivity. }
  rewrite Hpure, Hover. reflexivity.
Qed.

Lemma analyzeVocabulary_toLowerCase (words : list (list ascii)) :
  analyzeVocabulary (map toLowerCase words) = analyzeVocabulary words.
Proof.
  unfold analyzeVocabulary. rewrite map_map.
  rewrite (map_ext (fun x => cleanWord (toLowerCase x)) cleanWord cleanWord_toLowerCase).
  reflexivity.
Qed.

Lemma analyzeSpeech_toLowerCase (text : string) (durationMinutes : Q) :
  analyzeSpeech (str (toLowerCase (chars text))) durationMinutes
  = analyzeSpeech text durationMinutes.
Proof.
  unfold analyzeSpeech, chars, str.
  rewrite list_ascii_of_string_of_list_ascii.
  fold (chars text).
  assert (Hw : extractWords (toLowerCase (chars text))
               = map toLowerCase (extractWords (chars text)))
    by apply (extractWords_map lowerChar isSpace_lowerChar).
  rewrite !Hw, !length_map.
  rewrite !analyzeFillerWords_toLowerCase, !analyzeVocabulary_toLowerCase.
  rewrite !toLowerCase_idempotent. reflexivity.
Qed.

(** X11. The analytics do not depend on the case of the letters: two
    transcripts that are equal once lower-cased get the same result from
    [analyzeSpeech], field by field (word count, pace, filler counts and
    score, vocabulary, confidence, overall score, recommendations). *)
Theorem analyzeSpeech_ignores_case (text1 text2 : string) (durationMinutes : Q) :
  toLowerCase (chars text1) = toLowerCase (chars text2) ->
  analyzeSpeech text1 durationMinutes = analyzeSpeech text2 durationMinutes.
Proof.
  intros H.
  rewrite <- (analyzeSpeech_toLowerCase text1), <- (analyzeSpeech_toLowerCase text2).
  rewrite H. reflexivity.
Qed.

Lemma analyzeSpeech_ignores_case_witness :
  analyzeSpeech "UM, I Think So. You Know?" 0.5
  = analyzeSpeech "um, i think so. you know?" 0.5.
Proof.
  apply analyzeSpeech_ignores_case. reflexivity.
Defined.

End CaseFacts.

(* ================================================================== *)
(** * Properties of GeminiTranscriptionService                          *)
(* ================================================================== *)

Module GeminiFacts.

Import Str Buf Types GeminiTranscribe GeminiSpec.
Local Open Scope string_scope.
Local Open Scope list_scope.

Local Notation "a +++ b" := (String.append a b) (at level 60, right associativity).

(** The content of a buffer never gives a type that the service rejects. *)
Lemma detectMimeFromBuffer_supported (buffer : Buffer) :
  isGeminiSupportedFormat (detectMimeFromBuffer buffer) = true.
Proof.
  unfold detectMimeFromBuffer.
  repeat match goal with |- context [if ?c then _ else _] => destruct c end;
    reflexivity.
Qed.

(** The format check in terms of the extension alone. *)
Lemma format_gate (fileName : string) (buffer : Buffer) :
  isGeminiSupportedFormat (detectMimeType fileName buffer)
  = negb (existsb (String.eqb (SimpleDurationExtractor.extensionOf fileName))
                  ["webm"; "mkv"; "wmv"]).
Proof.
  unfold detectMimeType.
  set (extension := SimpleDurationExtractor.extensionOf fileName).
  unfold mimeOfExtension. cbn [existsb].
  repeat match goal with
         | |- context [String.eqb extension ?s] =>
             destruct (String.eqb_spec extension s) as [->|?]
         end;
    try reflexivity.
  rewrite detectMimeFromBuffer_supported. reflexivity.
Qed.

Lemma among_extensions (extension : string) (known : list string) :
  existsb (String.eqb extension) known = true <-> In extension known.
Proof.
  rewrite existsb_exists. split.
  - intros [x [Hin Hx]]. apply String.eqb_eq in Hx. subst x. exact Hin.
  - intros Hin. exists extension. split; [exact Hin|apply String.eqb_refl].
Qed.

(** X12. The format check of [transcribe] rejects a file exactly when the
    extension of its name is webm, mkv or wmv, whatever the bytes of the
    file are: every other known extension maps to a supported type, and
    for an unknown extension the type detected from the content is always
    a supported one.  (WebM is rejected because the type chosen for the
    extension is 'audio/webm' where the supported list has 'video/webm'.) *)
Theorem format_check_rejects_three_extensions (fileName : string) (buffer : Buffer) :
  isGeminiSupportedFormat (detectMimeType fileName buffer) = false
  <-> In (SimpleDurationExtractor.extensionOf fileName) ["webm"; "mkv"; "wmv"].
Proof.
  rewrite format_gate, negb_false_iff. apply among_extensions.
Qed.

Section Service.

Variable World : Type.
Variable services : Collaborators World.

(** [transcribe] on a file that passes the two checks, step by step. *)
Lemma transcribe_accepted (audioBuffer : Buffer) (fileName : string)
      (config : TranscriptionConfig) (w : World) :
  accepted audioBuffer fileName = true ->
  transcribe services audioBuffer fileName config w
  = match generateContent services (requestFor audioBuffer fileName config) w with
    | (Normal transcriptionText, w1) =>
        match now services w1 with
        | (Normal processedAt, w2) =>
            (Normal {| text := transcriptionText;
                       confidence := 0.95;
                       wordCount := countWords transcriptionText;
                       originalFileName := fileName;
                       processedAt := processedAt |}, w2)
        | (Throw e, w2) => (Throw ("Transcription failed: " +++ e), w2)
        end
    | (Throw e, w1) => (Throw ("Transcription failed: " +++ e), w1)
    end.
Proof.
  intros Hacc. apply andb_true_iff in Hacc. destruct Hacc as [Hsize Hformat].
  apply Z.leb_le in Hsize.
  unfold transcribe, tryCatch.
  replace (maxSize <? length audioBuffer)%Z with false
    by (symmetry; apply Z.ltb_ge; exact Hsize).
  rewrite Hformat. cbn [negb]. unfold Async.bind, requestFor.
  destruct (generateContent services _ w) as [[t|e] w1]; [|reflexivity].
  destruct (now services w1) as [[d|e] w2]; reflexivity.
Qed.

Lemma transcribe_rejected (audioBuffer : Buffer) (fileName : string)
      (config : TranscriptionConfig) (w : World) :
  accepted audioBuffer fileName = false ->
  exists message,
    transcribe services audioBuffer fileName config w
    = (Throw ("Transcription failed: " +++ message), w).
Proof.
  intros Hacc. unfold transcribe, tryCatch.
  destruct (maxSize <? length audioBuffer)%Z eqn:Hsize.
  - eexists. reflexivity.
  - apply Z.ltb_ge in Hsize. unfold accepted in Hacc.
    replace (length audioBuffer <=? maxSize)%Z with true in Hacc
      by (symmetry; apply Z.leb_le; exact Hsize).
    cbn [andb] in Hacc. rewrite Hacc. cbn [negb]. eexists. reflexivity.
Qed.

(** X13. What [transcribe] does with a file.  (1) A buffer of more
    than 20 MB, or a name with the extension webm, mkv or wmv, is
    rejected before anything is sent: the call throws and leaves the
    world as it was.  (2) Every exception of [transcribe] has a message
    that begins with 'Transcription failed: '.  (3) A result is returned
    only for a file that passes both checks, its text is the text that
    the model answered to the request for this file (the prompt of the
    configuration, the type detected for the file, the bytes in
    base64), unchanged; [wordCount] is the number of words that
    [extractWords] finds in it, the confidence is 0.95. *)
Theorem transcribe_outcomes (audioBuffer : Buffer) (fileName : string)
        (config : TranscriptionConfig) (w : World) :
  ((maxSize < length audioBuffer)%Z
   \/ In (SimpleDurationExtractor.extensionOf fileName) ["webm"; "mkv"; "wmv"] ->
   exists message,
     transcribe services audioBuffer fileName config w
     = (Throw ("Transcription failed: " +++ message), w))
  /\ (forall (e : string) (w' : World),
         transcribe services audioBuffer fileName config w = (Throw e, w') ->
         exists message, e = "Transcription failed: " +++ message)
  /\ (forall (r : TranscriptionResult) (w' : World),
         transcribe services audioBuffer fileName config w = (Normal r, w') ->
         (length audioBuffer <= maxSize)%Z
         /\ ~ In (SimpleDurationExtractor.extensionOf fileName) ["webm"; "mkv"; "wmv"]
         /\ (exists w1,
                generateContent services (requestFor audioBuffer fileName config) w
                = (Normal (text r), w1))
         /\ wordCount r
            = List.length (SpeechAnalyticsService.extractWords (chars (text r)))
         /\ originalFileName r = fileName
         /\ (confidence r == 0.95)%Q).
Proof.
  assert (Hgate : accepted audioBuffer fileName = true
                  <-> (length audioBuffer <= maxSize)%Z
                      /\ ~ In (SimpleDurationExtractor.extensionOf fileName)
                              ["webm"; "mkv"; "wmv"]).
  { unfold accepted.
    rewrite andb_true_iff, Z.leb_le, format_gate, negb_true_iff.
    rewrite <- among_extensions, not_true_iff_false. reflexivity. }
  destruct (accepted audioBuffer fileName) eqn:Hacc.
  - apply proj1 in Hgate. destruct (Hgate eq_refl) as [Hsize Hext].
    pose proof (transcribe_accepted audioBuffer fileName config w Hacc) as Hrun.
    split; [|split].
    + intros [H|H]; [lia|contradiction].
    + intros e w' E. rewrite Hrun in E.
      destruct (generateContent services _ w) as [[t|e1] w1].
      * destruct (now services w1) as [[d|e2] w2]; [discriminate|].
        injection E as <- _. eexists. reflexivity.
      * injection E as <- _. eexists. reflexivity.
    + intros r w' E. rewrite Hrun in E.
      destruct (generateContent services _ w) as [[t|e1] w1]; [|discriminate].
      destruct (now services w1) as [[d|e2] w2]; [|discriminate].
      injection E as <- _. cbn [text wordCount originalFileName confidence].
      repeat split; try assumption; try reflexivity.
      exists w1. reflexivity.
  - destruct (transcribe_rejected audioBuffer fileName config w Hacc) as [message Hrun].
    split; [|split].
    + intros _. exists message. exact Hrun.
    + intros e w' E. rewrite Hrun in E. injection E as <- _. exists message. reflexivity.
    + intros r w' E. rewrite Hrun in E. discriminate.
Qed.

End Service.

End GeminiFacts.
(* ================================================================== *)
(** * The retry loop                                                    *)
(* ================================================================== *)

Module RetryFacts.

Import Types RetrySpec.
Local Open Scope string_scope.
Local Open Scope list_scope.

Lemma calls_called (log : Log) (fileName : string) :
  calls (log ++ [Called fileName]) = S (calls log).
Proof.
  unfold calls. rewrite filter_app, length_app. cbn. lia.
Qed.

Lemma calls_slept (log : Log) (ms : Z) :
  calls (log ++ [Slept ms]) = calls log.
Proof.
  unfold calls. rewrite filter_app, length_app. cbn. lia.
Qed.

Section Loop.

Variable Buffer : Type.
Variable script : nat -> completion TranscriptionResult.
Variables (audioBuffer : Buffer) (fileName : string) (config : TranscriptionConfig).
Variable maxRetries : Z.

(** The loop from attempt [attempt] on, with [remaining] iterations
    left, when it ends with its [k]-th further attempt: either that
    attempt succeeds, or it fails and no iteration is left. *)
Lemma attempts_log :
  forall (remaining k : nat) (attempt : Z) (log : Log) (lastError : option string),
    (1 <= k <= remaining)%nat ->
    (attempt + Z.of_nat remaining = maxRetries + 1)%Z ->
    (forall j, (j < k - 1)%nat -> failed (script (calls log + j))) ->
    (exists r, script (calls log + (k - 1)) = Normal r)
    \/ (k = remaining /\ failed (script (calls log + (k - 1)))) ->
    GeminiTranscriptionService.attempts (scripted Buffer script) remaining attempt
                                        maxRetries lastError audioBuffer fileName config log
    = (script (calls log + (k - 1)), log ++ retryLog fileName attempt k).
Proof.
  induction remaining as [|remaining IH]; intros k attempt log lastError Hk Hsum Hfail Hlast;
    [lia|].
  cbn [GeminiTranscriptionService.attempts]. unfold tryCatch.
  cbn [GeminiTranscriptionService.transcribe scripted].
  destruct k as [|[|k]]; [lia| |].
  - (* the loop ends with this attempt *)
    cbn [Nat.sub retryLog] in *. rewrite Nat.add_0_r in *.
    destruct Hlast as [[r Hr]|[Hrem [e He]]].
    + rewrite Hr. reflexivity.
    + rewrite He. unfold Async.bind.
      replace (attempt <? maxRetries)%Z with false by (symmetry; apply Z.ltb_ge; lia).
      unfold ret. injection Hrem as <-.
      cbn [GeminiTranscriptionService.attempts]. reflexivity.
  - (* this attempt fails and another one follows *)
    destruct (Hfail 0%nat) as [e He]; [cbn; lia|].
    rewrite Nat.add_0_r in He. rewrite He. unfold Async.bind.
    replace (attempt <? maxRetries)%Z with true by (symmetry; apply Z.ltb_lt; lia).
    cbn [GeminiTranscriptionService.sleep scripted].
    set (log' := (log ++ [Called fileName]) ++ [Slept (2 ^ attempt * 1000)]).
    assert (Hcalls : calls log' = S (calls log)).
    { unfold log'. rewrite calls_slept, calls_called. reflexivity. }
    rewrite (IH (S k) (attempt + 1)%Z log' (Some e)).
    + rewrite Hcalls. f_equal.
      * f_equal. cbn [Nat.sub]. lia.
      * unfold log'. rewrite <- !app_assoc. reflexivity.
    + lia.
    + lia.
    + intros j Hj. rewrite Hcalls.
      replace (S (calls log) + j)%nat with (calls log + S j)%nat by lia.
      apply Hfail. cbn [Nat.sub] in *. lia.
    + rewrite Hcalls.
      replace (S (calls log) + (S k - 1))%nat with (calls log + (S (S k) - 1))%nat
        by (cbn [Nat.sub]; lia).
      destruct Hlast as [Hr|[Hrem He']]; [left; exact Hr|right].
      split; [lia|exact He'].
Qed.

End Loop.

(** X14. The retry loop against a backend that answers its successive
    calls by [script 0], [script 1], ...: with [maxRetries] attempts
    allowed (3 when the configuration gives none, or 0), if the first
    [k - 1] calls fail and the [k]-th succeeds, or fails with
    [k = maxRetries], then [transcribeWithRetry] makes exactly [k] calls,
    pauses [2 ^ i] seconds after the failed call number [i] except after
    the last call, and ends as the [k]-th call ended: it returns its
    result or throws its error.  With a negative [maxRetries] it makes no
    call and throws 'All transcription attempts failed'. *)
Theorem transcribeWithRetry_schedule
        (Buffer : Type) (script : nat -> completion TranscriptionResult)
        (audioBuffer : Buffer) (fileName : string) (config : TranscriptionConfig) :
  (forall k : nat,
      (1 <= k)%nat ->
      (Z.of_nat k <= effectiveRetries config)%Z ->
      (forall j, (j < k - 1)%nat -> failed (script j)) ->
      (exists r, script (k - 1)%nat = Normal r)
      \/ (Z.of_nat k = effectiveRetries config /\ failed (script (k - 1)%nat)) ->
      GeminiTranscriptionService.transcribeWithRetry
        (scripted Buffer script) audioBuffer fileName config []
      = (script (k - 1)%nat, retryLog fileName 1 k))
  /\ ((effectiveRetries config < 0)%Z ->
      GeminiTranscriptionService.transcribeWithRetry
        (scripted Buffer script) audioBuffer fileName config []
      = (Throw "All transcription attempts failed", [])).
Proof.
  assert (Hdef : forall w,
             GeminiTranscriptionService.transcribeWithRetry
               (scripted Buffer script) audioBuffer fileName config w
             = GeminiTranscriptionService.attempts
                 (scripted Buffer script) (Z.to_nat (effectiveRetries config)) 1
                 (effectiveRetries config) None audioBuffer fileName config w).
  { intros w. unfold GeminiTranscriptionService.transcribeWithRetry, effectiveRetries.
    destruct (maxRetries config) as [[| |]|]; reflexivity. }
  split.
  - intros k Hk Hmax Hfail Hlast. rewrite Hdef.
    rewrite (attempts_log Buffer script audioBuffer fileName config
                          (effectiveRetries config) _ k 1 [] None).
    + reflexivity.
    + lia.
    + lia.
    + exact Hfail.
    + destruct Hlast as [Hr|[Hn He]]; [left; exact Hr|right].
      split; [lia|exact He].
  - intros Hneg. rewrite Hdef.
    replace (Z.to_nat (effectiveRetries config)) with 0%nat by lia.
    reflexivity.
Qed.

(** With the default configuration and a backend that fails twice and
    then answers, the third call is the last one, after pauses of 2 and 4
    seconds; when it fails for good, the third error is thrown after the
    same calls.  With [maxRetries = -1] nothing is called. *)
Lemma transcribeWithRetry_schedule_witness :
  GeminiTranscriptionService.transcribeWithRetry
    (scripted Z (fun k => if Nat.ltb k 2 then Throw "Transcription failed: busy"
                          else Normal {| text := "hello" |}))
    0%Z "talk.wav" emptyConfig []
  = (Normal {| text := "hello" |},
     [Called "talk.wav"; Slept 2000; Called "talk.wav"; Slept 4000; Called "talk.wav"])
  /\ GeminiTranscriptionService.transcribeWithRetry
       (scripted Z (fun k => Throw (Str.ofNat k)))
       0%Z "talk.wav" emptyConfig []
     = (Throw "2",
        [Called "talk.wav"; Slept 2000; Called "talk.wav"; Slept 4000; Called "talk.wav"])
  /\ GeminiTranscriptionService.transcribeWithRetry
       (scripted Z (fun k => Normal {| text := "never asked" |}))
       0%Z "talk.wav"
       {| language := None; includeTimestamps := None; removeFillerWords := None;
          chunkDuration := None; maxRetries := Some (-1)%Z |} []
     = (Throw "All transcription attempts failed", []).
Proof.
  split; [|split].
  - apply (proj1 (transcribeWithRetry_schedule
                    Z (fun k => if Nat.ltb k 2 then Throw "Transcription failed: busy"
                                else Normal {| text := "hello" |})
                    0%Z "talk.wav" emptyConfig) 3%nat).
    + lia.
    + cbn. lia.
    + intros j Hj. assert (j = 0 \/ j = 1)%nat as [->| ->] by (cbn in Hj; lia);
        eexists; reflexivity.
    + left. eexists. reflexivity.
  - apply (proj1 (transcribeWithRetry_schedule
                    Z (fun k => Throw (Str.ofNat k)) 0%Z "talk.wav" emptyConfig) 3%nat).
    + lia.
    + cbn. lia.
    + intros j _. eexists. reflexivity.
    + right. split; [reflexivity|]. eexists. reflexivity.
  - apply (proj2 (transcribeWithRetry_schedule
                    Z (fun k => Normal {| text := "never asked" |}) 0%Z "talk.wav"
                    {| language := None; includeTimestamps := None;
                       removeFillerWords := None; chunkDuration := None;
                       maxRetries := Some (-1)%Z |})).
    cbn. lia.
Defined.

End RetryFacts.

(* ================================================================== *)
(** * Matching a literal prefix and a run of a class                    *)
(* ================================================================== *)

Module PrefixFacts.

Import Str RegExp TextSpec LinkSpec GoogleDriveService.
Local Open Scope nat_scope.

Lemma startsWith_app (w s : list ascii) : startsWith w (w ++ s) = true.
Proof.
  induction w as [|c w IH]; [reflexivity|].
  cbn [app startsWith]. rewrite Ascii.eqb_refl. exact IH.
Qed.

Lemma startsWith_split (w s : list ascii) :
  startsWith w s = true -> s = w ++ skipn (List.length w) s.
Proof.
  revert s. induction w as [|c w IH]; intros s H; [reflexivity|].
  destruct s as [|d s]; [discriminate|].
  cbn [startsWith] in H. apply andb_true_iff in H. destruct H as [Hc Hw].
  apply Ascii.eqb_eq in Hc. subst d. cbn [app List.length skipn]. f_equal.
  apply IH. exact Hw.
Qed.

Lemma advance_app (w r : list ascii) (b : option ascii) (n : nat) :
  exists b',
    advance w {| before := b; pos := n; rest := w ++ r |}
    = {| before := b'; pos := n + List.length w; rest := r |}.
Proof.
  revert b n. induction w as [|c w IH]; intros b n.
  - exists b. cbn. f_equal. lia.
  - cbn [advance app rest tl pos]. destruct (IH (Some c) (S n)) as [b' ->].
    exists b'. cbn [List.length]. f_equal. lia.
Qed.

(** A literal matches exactly where the text begins with it. *)
Lemma rmatch_lit (w : list ascii) :
  forall (cur : cursor) (caps : captures) (k : cursor -> captures -> outcome),
    rmatch false (lit w) cur caps k
    = if startsWith w (rest cur) then k (advance w cur) caps else None.
Proof.
  induction w as [|c w IH]; intros cur caps k; [reflexivity|].
  destruct cur as [b n r]. cbn [rest pos] in *.
  set (cur := {| before := b; pos := n; rest := r |}).
  assert (Hone : forall (k' : cursor -> captures -> outcome),
             rmatch false (Chr c) cur caps k'
             = match r with
               | d :: s' =>
                   if Ascii.eqb c d
                   then k' {| before := Some c; pos := S n; rest := s' |} caps
                   else None
               | [] => None
               end).
  { intros k'. unfold cur. cbn [rmatch rest pos]. destruct r as [|d s']; [reflexivity|].
    unfold sameChar, step. cbn [pos]. destruct (Ascii.eqb_spec c d) as [->|]; reflexivity. }
  destruct w as [|c2 w].
  - cbn [lit]. rewrite Hone. unfold cur. cbn [startsWith advance rest pos].
    destruct r as [|d s']; [reflexivity|].
    cbn [tl]. destruct (Ascii.eqb c d); reflexivity.
  - change (rmatch false (lit (c :: c2 :: w)) cur caps k)
      with (rmatch false (Chr c) cur caps
                   (fun cur' caps' => rmatch false (lit (c2 :: w)) cur' caps' k)).
    rewrite Hone.
    unfold cur. cbn [rest pos].
    change (startsWith (c :: c2 :: w) r)
      with (match r with
            | d :: s' => Ascii.eqb c d && startsWith (c2 :: w) s'
            | [] => false
            end).
    destruct r as [|d s']; [reflexivity|].
    destruct (Ascii.eqb c d); [|reflexivity].
    rewrite IH. cbn [rest andb advance tl pos]. reflexivity.
Qed.

Section ClassRuns.

Variable p : ascii -> bool.

Local Abbreviation inClass := (fun c : ascii => p c = true).

(** Repetition is greedy: when what follows accepts the longest run,
    that is the match. *)
Lemma star_longest (K : cursor -> outcome) (res : cursor * captures) :
  forall (block s : list ascii) (b : option ascii) (n : nat),
    Forall inClass block ->
    stops p s ->
    K {| before := lastOf b block; pos := n + List.length block; rest := s |} = Some res ->
    star p b n (block ++ s) K = Some res.
Proof.
  induction block as [|c block IH]; intros s b n Hblock Hs HK.
  - cbn [app lastOf List.length] in *. rewrite Nat.add_0_r in HK.
    destruct s as [|c s]; cbn [star]; [exact HK|].
    cbn in Hs. rewrite Hs. exact HK.
  - inversion Hblock as [|c' block' Hc Hblock']; subst.
    cbn [app star]. rewrite Hc.
    rewrite (IH s (Some c) (S n) Hblock' Hs); [reflexivity|].
    cbn [lastOf List.length] in HK.
    replace (S n + List.length block) with (n + S (List.length block)) by lia.
    exact HK.
Qed.

(** What [star] passes belongs to the class. *)
Lemma star_consumed (K : cursor -> outcome) (res : cursor * captures) :
  forall (s : list ascii) (b : option ascii) (n : nat),
    star p b n s K = Some res ->
    exists cur' consumed,
      s = consumed ++ rest cur'
      /\ pos cur' = n + List.length consumed
      /\ Forall inClass consumed
      /\ K cur' = Some res.
Proof.
  induction s as [|c s IH]; intros b n H; cbn [star] in H.
  - exists {| before := b; pos := n; rest := [] |}, [].
    cbn [app rest pos List.length]. repeat split; [lia|constructor|exact H].
  - assert (Hstay : K {| before := b; pos := n; rest := c :: s |} = Some res ->
                    exists cur' consumed,
                      c :: s = consumed ++ rest cur'
                      /\ pos cur' = n + List.length consumed
                      /\ Forall inClass consumed
                      /\ K cur' = Some res).
    { intros HK. exists {| before := b; pos := n; rest := c :: s |}, [].
      cbn [app rest pos List.length]. repeat split; [lia|constructor|exact HK]. }
    destruct (p c) eqn:Hc; [|exact (Hstay H)].
    destruct (star p (Some c) (S n) s K) as [r|] eqn:E; [|exact (Hstay H)].
    injection H as <-. destruct (IH _ _ E) as [cur' [u [Hu [Pu [Fu HK]]]]].
    exists cur', (c :: u). cbn [app List.length].
    repeat split; [f_equal; exact Hu|lia|constructor; assumption|exact HK].
Qed.

Lemma atLeast_S (n : nat) : atLeast (S n) p = Seq (Cls p) (atLeast n p).
Proof.
  unfold atLeast. cbn [repeat app seqs].
  destruct (repeat (Cls p) n ++ [Star p]) eqn:E; [|reflexivity].
  destruct (repeat (Cls p) n); discriminate.
Qed.

Lemma rmatch_atLeast_long (K : cursor -> captures -> outcome) (caps : captures)
      (res : cursor * captures) :
  forall (n : nat) (block s : list ascii) (b : option ascii) (m : nat),
    Forall inClass block ->
    stops p s ->
    n <= List.length block ->
    K {| before := lastOf b block; pos := m + List.length block; rest := s |} caps
    = Some res ->
    rmatch false (atLeast n p) {| before := b; pos := m; rest := block ++ s |} caps K
    = Some res.
Proof.
  induction n as [|n IH]; intros block s b m Hblock Hs Hlen HK.
  - unfold atLeast. cbn [repeat app seqs rmatch before pos rest].
    apply star_longest; assumption.
  - rewrite atLeast_S.
    destruct block as [|c block]; [cbn in Hlen; lia|].
    inversion Hblock as [|c' block' Hc Hblock']; subst.
    cbn [rmatch rest app]. rewrite Hc. unfold step. cbn [pos].
    apply IH; try assumption; [cbn [List.length] in Hlen; lia|].
    cbn [lastOf List.length] in HK.
    replace (S m + List.length block) with (m + S (List.length block)) by lia.
    exact HK.
Qed.

Lemma rmatch_atLeast_short (K : cursor -> captures -> outcome) (caps : captures) :
  forall (n : nat) (block s : list ascii) (b : option ascii) (m : nat),
    Forall inClass block ->
    stops p s ->
    List.length block < n ->
    rmatch false (atLeast n p) {| before := b; pos := m; rest := block ++ s |} caps K
    = None.
Proof.
  induction n as [|n IH]; intros block s b m Hblock Hs Hlen; [lia|].
  rewrite atLeast_S. cbn [rmatch rest].
  destruct block as [|c block].
  - cbn [app]. destruct s as [|c s]; [reflexivity|]. cbn in Hs. rewrite Hs. reflexivity.
  - inversion Hblock as [|c' block' Hc Hblock']; subst.
    cbn [app]. rewrite Hc. unfold step. cbn [pos].
    apply IH; try assumption. cbn [List.length] in Hlen. lia.
Qed.

Lemma rmatch_atLeast_consumed (K : cursor -> captures -> outcome) (caps : captures)
      (res : cursor * captures) :
  forall (n : nat) (cur : cursor),
    rmatch false (atLeast n p) cur caps K = Some res ->
    exists cur' consumed,
      rest cur = consumed ++ rest cur'
      /\ pos cur' = pos cur + List.length consumed
      /\ Forall inClass consumed
      /\ n <= List.length consumed
      /\ K cur' caps = Some res.
Proof.
  induction n as [|n IH]; intros cur H.
  - unfold atLeast in H. cbn [repeat app seqs rmatch] in H.
    apply star_consumed in H. destruct H as [cur' [u [Hu [Pu [Fu HK]]]]].
    exists cur', u. repeat split; try assumption. lia.
  - rewrite atLeast_S in H. cbn [rmatch] in H.
    destruct (rest cur) as [|c s'] eqn:E; [discriminate|].
    destruct (p c) eqn:Hc; [|discriminate].
    apply IH in H. destruct H as [cur' [u [Hu [Pu [Fu [Hn HK]]]]]].
    cbn [step rest pos] in Hu, Pu.
    exists cur', (c :: u). rewrite Hu. cbn [app List.length].
    repeat split; [lia|constructor; assumption|lia|exact HK].
Qed.

Lemma rmatch_plus_long (K : cursor -> captures -> outcome) (caps : captures)
      (res : cursor * captures) (block s : list ascii) (b : option ascii) (m : nat) :
  block <> [] ->
  Forall inClass block ->
  stops p s ->
  K {| before := lastOf b block; pos := m + List.length block; rest := s |} caps
  = Some res ->
  rmatch false (Plus p) {| before := b; pos := m; rest := block ++ s |} caps K = Some res.
Proof.
  intros Hne Hblock Hs HK. destruct block as [|c block]; [congruence|].
  inversion Hblock as [|c' block' Hc Hblock']; subst.
  cbn [rmatch rest app pos]. rewrite Hc.
  apply (star_longest (fun cur' => K cur' caps)); try assumption.
  cbn [lastOf List.length] in HK.
  replace (S m + List.length block) with (m + S (List.length block)) by lia.
  exact HK.
Qed.

End ClassRuns.

(** ** The first match of a pattern *)

Lemma firstMatch_at_start (r : regex) (s : list ascii) (cur' : cursor) (caps : captures) :
  exec false r {| before := None; pos := 0; rest := s |} = Some (cur', caps) ->
  firstMatch r s = Some {| matched := firstn (pos cur') s; groups := caps; offset := 0 |}.
Proof.
  intros E. unfold firstMatch, segments.
  destruct s as [|c s]; cbn [scan]; rewrite E; rewrite Nat.sub_0_r; reflexivity.
Qed.

Lemma hits_nowhere (r : regex) :
  forall (s : list ascii) (b : option ascii) (n : nat),
    everywhere (fun t => forall b n, exec false r {| before := b; pos := n; rest := t |} = None)
               s ->
    hits (scan false r b n s 0) = [].
Proof.
  induction s as [|c s IH]; intros b n [Hhere Hrest]; cbn [scan]; rewrite Hhere.
  - reflexivity.
  - cbn [hits flat_map app]. apply IH. exact Hrest.
Qed.

Lemma firstMatch_nowhere (r : regex) (s : list ascii) :
  everywhere (fun t => forall b n, exec false r {| before := b; pos := n; rest := t |} = None)
             s ->
  firstMatch r s = None.
Proof.
  intros H. unfold firstMatch, segments. rewrite hits_nowhere by exact H. reflexivity.
Qed.

(** Every match of a search is a match of the pattern at some position. *)
Lemma hits_scan_exec (r : regex) (h : hit) :
  forall (s : list ascii) (b : option ascii) (n skip : nat),
    In h (hits (scan false r b n s skip)) ->
    exists cur cur', exec false r cur = Some (cur', groups h).
Proof.
  induction s as [|c s IH]; intros b n skip Hin.
  - destruct skip; cbn [scan] in Hin; [|destruct Hin].
    destruct (exec false r _) as [[cur' caps]|] eqn:E; [|destruct Hin].
    cbn in Hin. destruct Hin as [<-|[]]. eexists. eexists. exact E.
  - destruct skip; cbn [scan] in Hin; [|apply IH in Hin; exact Hin].
    destruct (exec false r _) as [[cur' caps]|] eqn:E.
    + cbn [hits flat_map app In] in Hin. destruct Hin as [<-|Hin].
      * eexists. eexists. exact E.
      * destruct (pos cur' - n); [cbn [flat_map app] in Hin|];
          apply IH in Hin; exact Hin.
    + cbn [hits flat_map app] in Hin. apply IH in Hin. exact Hin.
Qed.

Lemma firstMatch_exec (r : regex) (s : list ascii) (h : hit) :
  firstMatch r s = Some h ->
  exists cur cur', exec false r cur = Some (cur', groups h).
Proof.
  unfold firstMatch, segments. intros H.
  apply (hits_scan_exec r h s None 0 0).
  destruct (hits _) as [|h' l]; [discriminate|]. injection H as ->. left. reflexivity.
Qed.

End PrefixFacts.

(* ================================================================== *)
(** * Google Drive links                                                *)
(* ================================================================== *)

Module LinkFacts.

Import Str RegExp TextSpec LinkSpec GoogleDriveService PrefixFacts.
Local Open Scope nat_scope.

Lemma chars_str (l : list ascii) : chars (str l) = l.
Proof. apply list_ascii_of_string_of_list_ascii. Qed.

Lemma firstn_exact (l r : list ascii) (a b : nat) :
  b = a + List.length l -> firstn (b - a) (l ++ r) = l.
Proof.
  intros ->. replace (a + List.length l - a) with (List.length l + 0) by lia.
  rewrite firstn_app_2. cbn [firstn]. apply app_nil_r.
Qed.

Lemma advance_exact (w r : list ascii) :
  forall (b : option ascii) (n : nat),
    advance w {| before := b; pos := n; rest := w ++ r |}
    = {| before := lastOf b w; pos := n + List.length w; rest := r |}.
Proof.
  induction w as [|c w IH]; intros b n.
  - cbn. f_equal. lia.
  - cbn [advance app rest tl pos lastOf List.length]. rewrite IH. f_equal. lia.
Qed.

(** ** Patterns that begin with a literal *)

Lemma rmatch_prefixed (w : list ascii) (r : regex) (cur : cursor) (caps : captures)
      (k : cursor -> captures -> outcome) :
  rmatch false (Seq (lit w) r) cur caps k
  = if startsWith w (rest cur) then rmatch false r (advance w cur) caps k else None.
Proof. cbn [rmatch]. rewrite rmatch_lit. reflexivity. Qed.

Lemma absent_prefixed (w : list ascii) (r : regex) (t : list ascii) :
  startsWith w t = false -> noMatchAt (Seq (lit w) r) t.
Proof.
  intros H b n. unfold exec. rewrite rmatch_prefixed. cbn [rest]. rewrite H. reflexivity.
Qed.

Lemma absent_prefixed_twice (w : list ascii) (r1 r2 : regex) (t : list ascii) :
  startsWith w t = false -> noMatchAt (Seq (Seq (lit w) r1) r2) t.
Proof.
  intros H b n. unfold exec. cbn [rmatch]. rewrite rmatch_lit. cbn [rest].
  rewrite H. reflexivity.
Qed.

Lemma everywhere_impl (P Q : list ascii -> Prop) :
  (forall t, P t -> Q t) -> forall s, everywhere P s -> everywhere Q s.
Proof.
  intros HPQ. induction s as [|c s IH]; intros [Hs Hrest]; split; auto.
Qed.

Lemma startsWith_In (c : ascii) :
  forall (w t : list ascii), startsWith w t = true -> In c w -> In c t.
Proof.
  intros w t H Hin. rewrite (startsWith_split w t H). apply in_or_app. left. exact Hin.
Qed.

(** A text without the character [x] holds no word that has it. *)
Lemma everywhere_without (x : ascii) (w : list ascii) :
  In x w ->
  forall t, Forall (fun c => c <> x) t ->
            everywhere (fun t' => startsWith w t' = false) t.
Proof.
  intros Hx.
  assert (Hone : forall t, Forall (fun c => c <> x) t -> startsWith w t = false).
  { intros t Ht. destruct (startsWith w t) eqn:E; [|reflexivity].
    exfalso. rewrite Forall_forall in Ht.
    exact (Ht x (startsWith_In x w t E Hx) eq_refl). }
  induction t as [|c t IH]; intros Ht; split; try exact I; try (apply Hone; exact Ht).
  apply IH. inversion Ht; assumption.
Qed.

Lemma includes_nowhere (part : list ascii) :
  forall s, everywhere (fun t => startsWith part t = false) s -> includes s part = false.
Proof.
  induction s as [|c s IH]; intros [Hs Hrest]; cbn [includes]; rewrite Hs; [reflexivity|].
  cbn [orb]. apply IH. exact Hrest.
Qed.

Lemma startsWith_extend (w s t : list ascii) :
  startsWith w s = true -> startsWith w (s ++ t) = true.
Proof.
  revert s. induction w as [|c w IH]; intros s H; [reflexivity|].
  destruct s as [|d s]; [discriminate|]. cbn [startsWith app] in *.
  apply andb_true_iff in H. destruct H as [-> H]. cbn [andb]. apply IH. exact H.
Qed.

Lemma includes_extend (part t : list ascii) :
  forall s, includes s part = true -> includes (s ++ t) part = true.
Proof.
  induction s as [|c s IH]; intros H.
  - cbn [includes] in H. rewrite orb_false_r in H.
    destruct part as [|d part]; [|discriminate].
    destruct t; reflexivity.
  - cbn [includes app] in *. apply orb_true_iff in H. apply orb_true_iff.
    destruct H as [H|H].
    + left. exact (startsWith_extend part (c :: s) t H).
    + right. apply IH. exact H.
Qed.

(** ** Identifiers *)

Lemma idChar_not_space (c : ascii) : isIdChar c = true -> isSpace c = false.
Proof.
  destruct c as [b0 b1 b2 b3 b4 b5 b6 b7].
  destruct b0, b1, b2, b3, b4, b5, b6, b7; intros H; try reflexivity; discriminate H.
Qed.

Lemma id_without (x : ascii) (id : list ascii) :
  isIdChar x = false -> isId id -> Forall (fun c => c <> x) id.
Proof.
  intros Hx Hid. unfold isId in Hid. rewrite Forall_forall in *.
  intros c Hc ->. rewrite (Hid x Hc) in Hx. discriminate.
Qed.

Lemma link_without (x : ascii) (id tail : list ascii) :
  isIdChar x = false -> isId id -> Forall (fun c => c <> x) tail ->
  Forall (fun c => c <> x) (id ++ tail).
Proof.
  intros Hx Hid Htail. apply Forall_app. split; [apply id_without; assumption|exact Htail].
Qed.

(** ** Where the prefixes of the links can stand *)

(** [walk x H]: the word looked for stands nowhere in a text made of known
    characters followed by a text without the character [x] (by [H]). *)
Ltac find_char := cbn; repeat first [left; reflexivity | right].

Ltac walk x H :=
  cbn [chars list_ascii_of_string app tl];
  repeat (cbn [everywhere]; split; [reflexivity|]);
  apply (everywhere_without x); [find_char | exact H].

Lemma share_prefix_later (wi wj : string) (X : list ascii) :
  In wi sharePrefixes -> In wj sharePrefixes ->
  Forall (fun c => c <> ":"%char) X ->
  everywhere (fun t => startsWith (chars wj) t = false) (tl (chars wi ++ X)).
Proof.
  intros Hi Hj HX. unfold sharePrefixes in Hi, Hj. cbn [In] in Hi, Hj.
  destruct Hi as [<-|[<-|[<-|[<-|[<-|[]]]]]];
    destruct Hj as [<-|[<-|[<-|[<-|[<-|[]]]]]]; walk ":"%char HX.
Qed.

Lemma share_prefix_other (wi wj : string) (X : list ascii) :
  In wi sharePrefixes -> In wj sharePrefixes -> wi <> wj ->
  startsWith (chars wj) (chars wi ++ X) = false.
Proof.
  intros Hi Hj Hne. unfold sharePrefixes in Hi, Hj. cbn [In] in Hi, Hj.
  destruct Hi as [<-|[<-|[<-|[<-|[<-|[]]]]]];
    destruct Hj as [<-|[<-|[<-|[<-|[<-|[]]]]]];
    first [reflexivity | exfalso; apply Hne; reflexivity].
Qed.

Lemma everywhere_tl (P : list ascii -> Prop) (s : list ascii) :
  P s -> everywhere P (tl s) -> everywhere P s.
Proof.
  intros Hs Hrest. destruct s as [|c s]; split; try exact Hs; try exact I. exact Hrest.
Qed.

(** A link of one format matches no pattern of another format. *)
Lemma firstMatch_other_format (wi wj : string) (X : list ascii) (r : regex) :
  In wi sharePrefixes -> In wj sharePrefixes -> wi <> wj ->
  Forall (fun c => c <> ":"%char) X ->
  firstMatch (Seq (lit (chars wj)) r) (chars wi ++ X) = None.
Proof.
  intros Hi Hj Hne HX. apply firstMatch_nowhere.
  apply (everywhere_impl (fun t => startsWith (chars wj) t = false)).
  - intros t Ht. apply absent_prefixed. exact Ht.
  - apply everywhere_tl.
    + apply share_prefix_other; assumption.
    + apply share_prefix_later; assumption.
Qed.

(** ** A prefix followed by a captured identifier *)

Section PrefixedGroup.

Variable prefix : regex.
Variable w : list ascii.
Variable R : regex.
Variables id tail : list ascii.

(** [prefix] passes the characters [w]. *)
Hypothesis prefix_passes :
  forall b n r caps K,
    rmatch false prefix {| before := b; pos := n; rest := w ++ r |} caps K
    = K {| before := lastOf b w; pos := n + List.length w; rest := r |} caps.

(** [R] takes the whole of [id] when what follows accepts it. *)
Hypothesis takes_id :
  forall K caps res b n,
    K {| before := lastOf b id; pos := n + List.length id; rest := tail |} caps
    = Some res ->
    rmatch false R {| before := b; pos := n; rest := id ++ tail |} caps K = Some res.

Lemma exec_captures (b : option ascii) (n : nat) :
  exists cur',
    exec false (Seq prefix (Group 1 R))
         {| before := b; pos := n; rest := w ++ id ++ tail |}
    = Some (cur', [(1, id)]).
Proof.
  unfold exec. cbn [rmatch]. rewrite prefix_passes. cbn [rmatch pos rest].
  eexists. apply takes_id. cbn [pos].
  rewrite (firstn_exact id tail (n + List.length w)) by reflexivity.
  reflexivity.
Qed.

Lemma firstMatch_captures :
  exists h,
    firstMatch (Seq prefix (Group 1 R)) (w ++ id ++ tail) = Some h
    /\ group 1 h = Some id.
Proof.
  destruct (exec_captures None 0) as [cur' E].
  eexists. split; [exact (firstMatch_at_start _ _ _ _ E)|reflexivity].
Qed.

End PrefixedGroup.

Lemma lit_passes (w : list ascii) :
  forall b n r caps K,
    rmatch false (lit w) {| before := b; pos := n; rest := w ++ r |} caps K
    = K {| before := lastOf b w; pos := n + List.length w; rest := r |} caps.
Proof.
  intros b n r caps K. rewrite rmatch_lit. cbn [rest]. rewrite startsWith_app.
  rewrite advance_exact. reflexivity.
Qed.

(** The three formats of the links to documents. *)
Lemma docs_passes (w : string) :
  In w [ "https://docs.google.com/document/d/";
         "https://docs.google.com/presentation/d/";
         "https://docs.google.com/spreadsheets/d/" ]%string ->
  forall b n r caps K,
    rmatch false (seqs [lit (chars "https://docs.google.com/");
                        alts ["document"; "presentation"; "spreadsheets"]%string;
                        lit (chars "/d/")])
           {| before := b; pos := n; rest := chars w ++ r |} caps K
    = K {| before := lastOf b (chars w); pos := n + List.length (chars w); rest := r |}
        caps.
Proof.
  intros Hw b n r caps K. cbn [seqs alts].
  set (host := chars "https://docs.google.com/").
  set (d := chars "/d/").
  assert (Hsplit : exists kind,
             In kind [chars "document"; chars "presentation"; chars "spreadsheets"]
             /\ chars w = host ++ kind ++ d).
  { cbn [In] in Hw. destruct Hw as [<-|[<-|[<-|[]]]]; eexists; split.
    1: left; reflexivity. 1: reflexivity.
    1: right; left; reflexivity. 1: reflexivity.
    1: right; right; left; reflexivity. reflexivity. }
  destruct Hsplit as [kind [Hkind Hw']]. rewrite Hw'.
  rewrite <- !app_assoc. rewrite rmatch_prefixed. cbn [rest].
  rewrite startsWith_app, advance_exact.
  assert (Hend : forall b' n',
             rmatch false (lit d)
                    {| before := b'; pos := n'; rest := d ++ r |} caps K
             = K {| before := lastOf b' d; pos := n' + List.length d; rest := r |} caps).
  { intros b' n'. apply lit_passes. }
  assert (Hlast : forall b0 (x y : list ascii), lastOf b0 (x ++ y) = lastOf (lastOf b0 x) y).
  { intros b0 x. revert b0. induction x as [|c x IH]; intros b0 y; [reflexivity|].
    cbn [app lastOf]. apply IH. }
  rewrite !Hlast, !length_app, !Nat.add_assoc.
  cbn [rmatch].
  cbn [In] in Hkind. destruct Hkind as [<-|[<-|[<-|[]]]].
  - rewrite (lit_passes (chars "document")), (lit_passes d).
    rewrite (rmatch_lit (chars "presentation")), (rmatch_lit (chars "spreadsheets")).
    cbn [rest].
    replace (startsWith (chars "presentation") (chars "document" ++ d ++ r)) with false
      by reflexivity.
    replace (startsWith (chars "spreadsheets") (chars "document" ++ d ++ r)) with false
      by reflexivity.
    destruct (K _ caps); reflexivity.
  - rewrite (rmatch_lit (chars "document")). cbn [rest].
    replace (startsWith (chars "document") (chars "presentation" ++ d ++ r)) with false
      by reflexivity.
    rewrite (lit_passes (chars "presentation")), (lit_passes d).
    rewrite (rmatch_lit (chars "spreadsheets")). cbn [rest].
    replace (startsWith (chars "spreadsheets") (chars "presentation" ++ d ++ r)) with false
      by reflexivity.
    destruct (K _ caps); reflexivity.
  - rewrite (rmatch_lit (chars "document")), (rmatch_lit (chars "presentation")).
    cbn [rest].
    replace (startsWith (chars "document") (chars "spreadsheets" ++ d ++ r)) with false
      by reflexivity.
    replace (startsWith (chars "presentation") (chars "spreadsheets" ++ d ++ r)) with false
      by reflexivity.
    rewrite (lit_passes (chars "spreadsheets")), (lit_passes d). reflexivity.
Qed.

(** ** The loops over the patterns *)

Lemma firstFileId_none (s : list ascii) :
  forall ps, Forall (fun p => firstMatch p s = None) ps -> firstFileId ps s = None.
Proof.
  induction ps as [|p ps IH]; intros H; [reflexivity|].
  inversion H as [|p' ps' Hp Hps]; subst. cbn [firstFileId]. rewrite Hp. apply IH. exact Hps.
Qed.

Lemma firstGroup_none (s : list ascii) :
  forall ps, Forall (fun p => firstMatch p s = None) ps -> firstGroup ps s = None.
Proof.
  induction ps as [|p ps IH]; intros H; [reflexivity|].
  inversion H as [|p' ps' Hp Hps]; subst. cbn [firstGroup]. rewrite Hp. apply IH. exact Hps.
Qed.

(** When the patterns that match all capture [id], the loop returns it. *)
Lemma firstFileId_found (s id : list ascii) :
  10 <= List.length id ->
  forall ps,
    Forall (fun p => firstMatch p s = None
                     \/ exists h, firstMatch p s = Some h /\ group 1 h = Some id) ps ->
    Exists (fun p => firstMatch p s <> None) ps ->
    firstFileId ps s = Some id.
Proof.
  intros Hlen. induction ps as [|p ps IH]; intros Hall Hsome.
  - inversion Hsome.
  - inversion Hall as [|p' ps' Hp Hps]; subst. cbn [firstFileId].
    destruct Hp as [Hp|[h [Hp Hg]]].
    + rewrite Hp. apply IH; [exact Hps|].
      inversion Hsome as [p' ps' Hq|p' ps' Hq]; subst; [congruence|exact Hq].
    + rewrite Hp, Hg.
      replace (Nat.ltb 0 (List.length id)) with true
        by (symmetry; apply Nat.ltb_lt; lia).
      replace (Nat.leb 10 (List.length id)) with true
        by (symmetry; apply Nat.leb_le; lia).
      reflexivity.
Qed.

Lemma firstGroup_found (s id : list ascii) :
  id <> [] ->
  forall ps,
    Forall (fun p => firstMatch p s = None
                     \/ exists h, firstMatch p s = Some h /\ group 1 h = Some id) ps ->
    Exists (fun p => firstMatch p s <> None) ps ->
    firstGroup ps s = Some id.
Proof.
  intros Hne. induction ps as [|p ps IH]; intros Hall Hsome.
  - inversion Hsome.
  - inversion Hall as [|p' ps' Hp Hps]; subst. cbn [firstGroup].
    destruct Hp as [Hp|[h [Hp Hg]]].
    + rewrite Hp. apply IH; [exact Hps|].
      inversion Hsome as [p' ps' Hq|p' ps' Hq]; subst; [congruence|exact Hq].
    + rewrite Hp, Hg. destruct id; [congruence|reflexivity].
Qed.

Lemma firstFileId_some (s id : list ascii) :
  forall ps,
    firstFileId ps s = Some id ->
    exists p h,
      In p ps /\ firstMatch p s = Some h /\ group 1 h = Some id
      /\ 10 <= List.length id.
Proof.
  induction ps as [|p ps IH]; intros H; [discriminate|].
  cbn [firstFileId] in H.
  assert (Hnext : firstFileId ps s = Some id ->
                  exists p0 h,
                    In p0 (p :: ps) /\ firstMatch p0 s = Some h /\ group 1 h = Some id
                    /\ 10 <= List.length id).
  { intros H'. destruct (IH H') as [p0 [h [Hin Hrest]]].
    exists p0, h. split; [right; exact Hin|exact Hrest]. }
  destruct (firstMatch p s) as [h|] eqn:Hp; [|exact (Hnext H)].
  destruct (group 1 h) as [g|] eqn:Hg; [|exact (Hnext H)].
  destruct (Nat.ltb 0 (List.length g) && Nat.leb 10 (List.length g)) eqn:Hc;
    [|exact (Hnext H)].
  injection H as <-. apply andb_true_iff in Hc. destruct Hc as [_ Hc].
  apply Nat.leb_le in Hc.
  exists p, h. repeat split; try assumption. left. reflexivity.
Qed.

Lemma firstGroup_skip (p : regex) (ps : list regex) (s : list ascii) :
  firstMatch p s = None -> firstGroup (p :: ps) s = firstGroup ps s.
Proof. intros H. cbn [firstGroup]. rewrite H. reflexivity. Qed.

Lemma firstGroup_hit (p : regex) (ps : list regex) (s id : list ascii) :
  id <> [] ->
  (exists h, firstMatch p s = Some h /\ group 1 h = Some id) ->
  firstGroup (p :: ps) s = Some id.
Proof.
  intros Hne [h [Hp Hg]]. cbn [firstGroup]. rewrite Hp, Hg.
  destruct id; [congruence|reflexivity].
Qed.

(** ** Links of the five formats *)

Section ShareLink.

Variable prefix : string.
Variables id tail : list ascii.
Hypothesis known : In prefix sharePrefixes.
Hypothesis id_chars : isId id.
Hypothesis tail_ok : isTail tail.

Local Abbreviation link := (chars prefix ++ id ++ tail).

Lemma link_without_colon : Forall (fun c => c <> ":"%char) (id ++ tail).
Proof.
  apply link_without; [reflexivity|exact id_chars|exact (proj2 tail_ok)].
Qed.

(** The pattern of the link's own format captures the identifier. *)
Lemma firstMatch_own_format (n : nat) :
  n <= List.length id ->
  exists h,
    firstMatch (Seq (lit (chars prefix)) (Group 1 (atLeast n isIdChar))) link = Some h
    /\ group 1 h = Some id.
Proof.
  intros Hn.
  apply (firstMatch_captures (lit (chars prefix)) (chars prefix)
                             (atLeast n isIdChar) id tail).
  - apply lit_passes.
  - intros K caps res b m HK.
    apply rmatch_atLeast_long; try assumption. exact (proj1 tail_ok).
Qed.

(** An identifier of fewer than [n] characters: no match at all. *)
Lemma firstMatch_too_short (n : nat) :
  List.length id < n ->
  firstMatch (Seq (lit (chars prefix)) (Group 1 (atLeast n isIdChar))) link = None.
Proof.
  intros Hn. apply firstMatch_nowhere. apply everywhere_tl.
  - intros b m. unfold exec. rewrite rmatch_prefixed. cbn [rest].
    rewrite startsWith_app, advance_exact. cbn [rmatch].
    apply rmatch_atLeast_short; try assumption. exact (proj1 tail_ok).
  - apply (everywhere_impl (fun t => startsWith (chars prefix) t = false)).
    + intros t Ht. apply absent_prefixed. exact Ht.
    + apply share_prefix_later; try assumption. exact link_without_colon.
Qed.

Lemma longId_other_format (w : string) :
  In w sharePrefixes -> w <> prefix -> firstMatch (longId w) link = None.
Proof.
  intros Hw Hne. apply firstMatch_other_format; try assumption.
  - congruence.
  - exact link_without_colon.
Qed.

Lemma firstFileId_long :
  10 <= List.length id ->
  firstFileId (map longId sharePrefixes) link = Some id.
Proof.
  intros Hlen. apply firstFileId_found; [exact Hlen| |].
  - apply Forall_forall. intros p Hp. apply in_map_iff in Hp.
    destruct Hp as [w [<- Hw]].
    destruct (string_dec w prefix) as [->|Hne].
    + right. apply firstMatch_own_format. exact Hlen.
    + left. apply longId_other_format; assumption.
  - apply Exists_exists. exists (longId prefix). split.
    + apply in_map. exact known.
    + destruct (firstMatch_own_format 10 Hlen) as [h [Hh _]].
      unfold longId. rewrite Hh. discriminate.
Qed.

Lemma firstFileId_short :
  List.length id < 10 ->
  firstFileId (map longId sharePrefixes) link = None.
Proof.
  intros Hlen. apply firstFileId_none.
  apply Forall_forall. intros p Hp. apply in_map_iff in Hp.
  destruct Hp as [w [<- Hw]].
  destruct (string_dec w prefix) as [->|Hne].
  - apply firstMatch_too_short. exact Hlen.
  - apply longId_other_format; assumption.
Qed.

Lemma not_a_direct_link :
  Forall (fun c => c <> "."%char) tail ->
  includes link (chars "drive.google.com/uc?") = false.
Proof.
  intros Hdot. apply includes_nowhere.
  assert (HX : Forall (fun c => c <> "."%char) (id ++ tail))
    by (apply link_without; [reflexivity|exact id_chars|exact Hdot]).
  revert HX. generalize (id ++ tail). intros X HX.
  pose proof known as Hk. unfold sharePrefixes in Hk. cbn [In] in Hk.
  destruct Hk as [<-|[<-|[<-|[<-|[<-|[]]]]]]; walk "."%char HX.
Qed.

Lemma firstGroup_share_link :
  id <> [] -> firstGroup idPatterns link = Some id.
Proof.
  intros Hne.
  assert (Hplus : forall K caps res b m,
             K {| before := lastOf b id; pos := m + List.length id; rest := tail |} caps
             = Some res ->
             rmatch false (Plus isIdChar)
                    {| before := b; pos := m; rest := id ++ tail |} caps K = Some res).
  { intros K caps res b m HK.
    apply rmatch_plus_long; try assumption. exact (proj1 tail_ok). }
  assert (Hdocs : forall w,
             In w [ "https://docs.google.com/document/d/";
                    "https://docs.google.com/presentation/d/";
                    "https://docs.google.com/spreadsheets/d/" ]%string ->
             prefix = w ->
             firstGroup idPatterns link = Some id).
  { intros w Hw ->. unfold idPatterns.
    rewrite firstGroup_skip
      by (apply (firstMatch_other_format w "https://drive.google.com/file/d/");
          [exact known|left; reflexivity
          |cbn [In] in Hw; destruct Hw as [<-|[<-|[<-|[]]]]; discriminate
          |exact link_without_colon]).
    rewrite firstGroup_skip
      by (apply (firstMatch_other_format w "https://drive.google.com/open?id=");
          [exact known|right; left; reflexivity
          |cbn [In] in Hw; destruct Hw as [<-|[<-|[<-|[]]]]; discriminate
          |exact link_without_colon]).
    apply firstGroup_hit; [exact Hne|].
    apply (firstMatch_captures _ (chars w) (Plus isIdChar) id tail);
      [apply docs_passes; exact Hw|exact Hplus]. }
  pose proof known as Hk. unfold sharePrefixes in Hk. cbn [In] in Hk.
  destruct Hk as [Hk|[Hk|[Hk|[Hk|[Hk|[]]]]]].
  - unfold idPatterns. rewrite <- Hk.
    apply firstGroup_hit; [exact Hne|].
    apply (firstMatch_captures _ _ (Plus isIdChar) id tail);
      [apply lit_passes|exact Hplus].
  - unfold idPatterns.
    rewrite firstGroup_skip
      by (apply (firstMatch_other_format prefix "https://drive.google.com/file/d/");
          [exact known|left; reflexivity|rewrite <- Hk; discriminate
          |exact link_without_colon]).
    rewrite <- Hk.
    apply firstGroup_hit; [exact Hne|].
    apply (firstMatch_captures _ _ (Plus isIdChar) id tail);
      [apply lit_passes|exact Hplus].
  - apply (Hdocs "https://docs.google.com/document/d/"%string);
      [left; reflexivity|symmetry; exact Hk].
  - apply (Hdocs "https://docs.google.com/presentation/d/"%string);
      [right; left; reflexivity|symmetry; exact Hk].
  - apply (Hdocs "https://docs.google.com/spreadsheets/d/"%string);
      [right; right; left; reflexivity|symmetry; exact Hk].
Qed.

End ShareLink.

(** ** Direct links *)

Lemma direct_link_later (w : string) (X : list ascii) :
  In w ("https://docs.google.com/"%string :: sharePrefixes) ->
  Forall (fun c => c <> ":"%char) X ->
  everywhere (fun t => startsWith (chars w) t = false) (chars directPrefix ++ X).
Proof.
  intros Hw HX. unfold sharePrefixes, directPrefix in *. cbn [In] in Hw.
  destruct Hw as [<-|[<-|[<-|[<-|[<-|[<-|[]]]]]]]; walk ":"%char HX.
Qed.

Lemma firstMatch_direct_link (w : string) (r : regex) (X : list ascii) :
  In w sharePrefixes ->
  Forall (fun c => c <> ":"%char) X ->
  firstMatch (Seq (lit (chars w)) r) (chars directPrefix ++ X) = None.
Proof.
  intros Hw HX. apply firstMatch_nowhere.
  apply (everywhere_impl (fun t => startsWith (chars w) t = false)).
  - intros t Ht. apply absent_prefixed. exact Ht.
  - apply direct_link_later; [right; exact Hw|exact HX].
Qed.

Lemma firstGroup_direct_link (X : list ascii) :
  Forall (fun c => c <> ":"%char) X ->
  firstGroup idPatterns (chars directPrefix ++ X) = None.
Proof.
  intros HX. apply firstGroup_none. unfold idPatterns, anyId.
  repeat apply Forall_cons; try apply Forall_nil.
  - apply firstMatch_direct_link; [left; reflexivity|exact HX].
  - apply firstMatch_direct_link; [right; left; reflexivity|exact HX].
  - apply firstMatch_nowhere. cbn [seqs].
    apply (everywhere_impl
             (fun t => startsWith (chars "https://docs.google.com/") t = false)).
    + intros t Ht. apply absent_prefixed_twice. exact Ht.
    + apply direct_link_later; [left; reflexivity|exact HX].
Qed.

(** What a pattern of [convertToDirectDownloadLink] captures. *)
Lemma exec_longId_groups (w : list ascii) (n : nat) (cur cur' : cursor)
      (caps : captures) :
  exec false (Seq (lit w) (Group 1 (atLeast n isIdChar))) cur = Some (cur', caps) ->
  exists u, caps = [(1, u)] /\ isId u /\ n <= List.length u.
Proof.
  unfold exec. rewrite rmatch_prefixed.
  destruct (startsWith w (rest cur)); [|discriminate].
  cbn [rmatch]. intros H. apply rmatch_atLeast_consumed in H.
  destruct H as [cur2 [u [Hu [Pu [Fu [Hn HK]]]]]].
  injection HK as _ <-. exists u. rewrite Hu.
  rewrite firstn_exact by exact Pu. auto.
Qed.

Lemma firstFileId_is_id (s fileId : list ascii) :
  firstFileId (map longId sharePrefixes) s = Some fileId ->
  isId fileId /\ 10 <= List.length fileId.
Proof.
  intros H. apply firstFileId_some in H.
  destruct H as [p [h [Hp [Hh [Hg Hlen]]]]]. split; [|exact Hlen].
  apply in_map_iff in Hp. destruct Hp as [w [<- _]].
  apply firstMatch_exec in Hh. destruct Hh as [cur [cur' E]].
  apply exec_longId_groups in E. destruct E as [u [Hu [Hid _]]].
  unfold group in Hg. rewrite Hu in Hg. cbn in Hg. injection Hg as <-. exact Hid.
Qed.

(** ** [trim] *)

Lemma length_dropSpaces (s : list ascii) :
  List.length (dropSpaces s) <= List.length s.
Proof.
  induction s as [|c s IH]; [apply Nat.le_refl|].
  cbn [dropSpaces]. destruct (isSpace c); cbn [List.length]; lia.
Qed.

Lemma dropSpaces_idempotent (s : list ascii) :
  dropSpaces (dropSpaces s) = dropSpaces s.
Proof.
  induction s as [|c s IH]; [reflexivity|].
  cbn [dropSpaces]. destruct (isSpace c) eqn:E; [exact IH|].
  cbn [dropSpaces]. rewrite E. reflexivity.
Qed.

Lemma dropSpaces_split (s : list ascii) : exists pre, s = pre ++ dropSpaces s.
Proof.
  induction s as [|c s [pre IH]]; [exists []; reflexivity|].
  cbn [dropSpaces]. destruct (isSpace c).
  - exists (c :: pre). cbn [app]. f_equal. exact IH.
  - exists []. reflexivity.
Qed.

Lemma dropSpaces_prefix (x y : list ascii) :
  dropSpaces (x ++ y) = x ++ y -> dropSpaces x = x.
Proof.
  destruct x as [|c x]; [reflexivity|].
  cbn [app dropSpaces]. destruct (isSpace c); [|reflexivity].
  intros H. exfalso. pose proof (length_dropSpaces (x ++ y)) as Hlen.
  rewrite H in Hlen. cbn [List.length] in Hlen. lia.
Qed.

Lemma trim_fixed (s : list ascii) :
  dropSpaces s = s -> dropSpaces (rev s) = rev s -> trim s = s.
Proof. intros H1 H2. unfold trim. rewrite H1, H2. apply rev_involutive. Qed.

Lemma trim_idempotent (s : list ascii) : trim (trim s) = trim s.
Proof.
  apply trim_fixed; unfold trim.
  - destruct (dropSpaces_split (rev (dropSpaces s))) as [pre Hpre].
    apply (dropSpaces_prefix _ (rev pre)).
    rewrite <- rev_app_distr, <- Hpre, rev_involutive.
    apply dropSpaces_idempotent.
  - rewrite rev_involutive. apply dropSpaces_idempotent.
Qed.

Lemma trim_direct_link (id : list ascii) :
  isId id -> trim (chars directPrefix ++ id) = chars directPrefix ++ id.
Proof.
  intros Hid. apply trim_fixed; [reflexivity|].
  rewrite rev_app_distr. destruct (rev id) as [|c l] eqn:E; [reflexivity|].
  assert (Hc : isSpace c = false).
  { apply idChar_not_space. unfold isId in Hid. rewrite Forall_forall in Hid.
    apply Hid. apply in_rev. rewrite E. left. reflexivity. }
  cbn [app dropSpaces]. rewrite Hc. reflexivity.
Qed.

(** ** The properties of the links *)

(** X15 -- convertToDirectDownloadLink turns every share link of the five
    formats into the direct link of its identifier: for a link that, once
    trimmed, is one of the five prefixes followed by an identifier of ten
    characters or more and by anything that cannot continue it (and holds
    no second link), the result is
    [https://drive.google.com/uc?export=download&id=] followed by the
    identifier, and what follows the identifier is dropped. *)
Theorem convertToDirectDownloadLink_share_link
        (url prefix : string) (id tail : list ascii) :
  In prefix sharePrefixes ->
  isId id ->
  10 <= List.length id ->
  isTail tail ->
  trim (chars url) = chars prefix ++ id ++ tail ->
  convertToDirectDownloadLink url = Done (str (chars directPrefix ++ id)).
Proof.
  intros Hprefix Hid Hlen Htail Hurl.
  unfold convertToDirectDownloadLink. rewrite Hurl.
  rewrite (firstFileId_long prefix id tail Hprefix Hid Htail Hlen).
  reflexivity.
Qed.

Lemma convertToDirectDownloadLink_share_link_witness :
  convertToDirectDownloadLink
    "  https://drive.google.com/open?id=1AbCdEfGhIjKlMnOpQrStUv&usp=sharing "
  = Done "https://drive.google.com/uc?export=download&id=1AbCdEfGhIjKlMnOpQrStUv"%string.
Proof.
  apply (convertToDirectDownloadLink_share_link
           _ "https://drive.google.com/open?id="
           (chars "1AbCdEfGhIjKlMnOpQrStUv") (chars "&usp=sharing")).
  - right. left. reflexivity.
  - repeat constructor.
  - cbn. lia.
  - split; [reflexivity|]. repeat constructor; discriminate.
  - reflexivity.
Defined.

(** X16 -- An identifier of fewer than ten characters is refused: a share
    link of one of the five formats whose identifier is shorter (what
    follows it holding neither a colon nor a dot) makes
    convertToDirectDownloadLink throw the error of an invalid format. *)
Theorem convertToDirectDownloadLink_short_id
        (url prefix : string) (id tail : list ascii) :
  In prefix sharePrefixes ->
  isId id ->
  List.length id < 10 ->
  isTail tail ->
  Forall (fun c => c <> "."%char) tail ->
  trim (chars url) = chars prefix ++ id ++ tail ->
  convertToDirectDownloadLink url = Raise invalidFormat.
Proof.
  intros Hprefix Hid Hlen Htail Hdot Hurl.
  unfold convertToDirectDownloadLink. rewrite Hurl.
  rewrite (firstFileId_short prefix id tail Hprefix Hid Htail Hlen).
  rewrite (not_a_direct_link prefix id tail Hprefix Hid Hdot).
  reflexivity.
Qed.

Lemma convertToDirectDownloadLink_short_id_witness :
  convertToDirectDownloadLink "https://drive.google.com/file/d/abc123XYZ/view"
  = Raise invalidFormat.
Proof.
  apply (convertToDirectDownloadLink_short_id
           _ "https://drive.google.com/file/d/" (chars "abc123XYZ") (chars "/view")).
  - left. reflexivity.
  - repeat constructor.
  - cbn. lia.
  - split; [reflexivity|]. repeat constructor; discriminate.
  - repeat constructor; discriminate.
  - reflexivity.
Defined.

(** X17 -- extractFileId returns the identifier of every share link of the
    five formats, whatever its length (one character is enough): the
    link is not trimmed, and the identifier ends where a character
    outside [A-Za-z0-9_-] stands. *)
Theorem extractFileId_share_link (url prefix : string) (id tail : list ascii) :
  In prefix sharePrefixes ->
  isId id ->
  id <> [] ->
  isTail tail ->
  chars url = chars prefix ++ id ++ tail ->
  extractFileId url = Some (str id).
Proof.
  intros Hprefix Hid Hne Htail Hurl.
  unfold extractFileId. rewrite Hurl.
  rewrite (firstGroup_share_link prefix id tail Hprefix Hid Htail Hne).
  reflexivity.
Qed.

Lemma extractFileId_share_link_witness :
  extractFileId "https://docs.google.com/presentation/d/abc/edit" = Some "abc"%string.
Proof.
  apply (extractFileId_share_link
           _ "https://docs.google.com/presentation/d/" (chars "abc") (chars "/edit")).
  - right. right. right. left. reflexivity.
  - repeat constructor.
  - discriminate.
  - split; [reflexivity|]. repeat constructor; discriminate.
  - reflexivity.
Defined.

(** X18 -- extractFileId does not read the links that
    convertToDirectDownloadLink produces: for a direct link
    [https://drive.google.com/uc?export=download&id=ID], with anything
    but a colon after the identifier, it returns null. *)
Theorem extractFileId_direct_link (id tail : list ascii) :
  isId id ->
  Forall (fun c => c <> ":"%char) tail ->
  extractFileId (str (chars directPrefix ++ id ++ tail)) = None.
Proof.
  intros Hid Htail. unfold extractFileId. rewrite chars_str.
  rewrite firstGroup_direct_link; [reflexivity|].
  apply link_without; [reflexivity|exact Hid|exact Htail].
Qed.

Lemma extractFileId_direct_link_witness :
  extractFileId "https://drive.google.com/uc?export=download&id=1AbCdEfGhIjKlMnOpQrStUv"
  = None.
Proof.
  apply (extractFileId_direct_link (chars "1AbCdEfGhIjKlMnOpQrStUv") []).
  - repeat constructor.
  - constructor.
Defined.

(** X19 -- convertToDirectDownloadLink is idempotent: whenever it returns
    a link, converting that link again returns it unchanged (the
    identifier it extracted holds only characters of [A-Za-z0-9_-], so
    the direct link matches no share pattern, and a link returned as it
    was is already trimmed). *)
Theorem convertToDirectDownloadLink_idempotent (url r : string) :
  convertToDirectDownloadLink url = Done r ->
  convertToDirectDownloadLink r = Done r.
Proof.
  unfold convertToDirectDownloadLink at 1.
  destruct (firstFileId (map longId sharePrefixes) (trim (chars url)))
    as [fileId|] eqn:E.
  - intros H.
    assert (Hr : r = str (chars directPrefix ++ fileId)) by congruence. subst r.
    destruct (firstFileId_is_id _ _ E) as [Hid _].
    unfold convertToDirectDownloadLink.
    rewrite chars_str, (trim_direct_link fileId Hid).
    assert (Hcolon : Forall (fun c => c <> ":"%char) fileId)
      by (apply id_without; [reflexivity|exact Hid]).
    rewrite firstFileId_none.
    + rewrite (includes_extend (chars "drive.google.com/uc?") fileId
                               (chars directPrefix) eq_refl).
      rewrite (includes_extend (chars "export=download") fileId
                               (chars directPrefix) eq_refl).
      reflexivity.
    + apply Forall_forall. intros p Hp. apply in_map_iff in Hp.
      destruct Hp as [w [<- Hw]].
      apply firstMatch_direct_link; assumption.
  - destruct (includes (trim (chars url)) (chars "drive.google.com/uc?")
              && includes (trim (chars url)) (chars "export=download")) eqn:Hinc;
      [|discriminate].
    intros H.
    assert (Hr : r = str (trim (chars url))) by congruence. subst r.
    unfold convertToDirectDownloadLink.
    rewrite chars_str, trim_idempotent, E, Hinc. reflexivity.
Qed.

Lemma convertToDirectDownloadLink_idempotent_witness :
  convertToDirectDownloadLink
    "https://drive.google.com/uc?export=download&id=1AbCdEfGhIjKlMnOpQrStUv"
  = Done "https://drive.google.com/uc?export=download&id=1AbCdEfGhIjKlMnOpQrStUv"%string.
Proof.
  apply (convertToDirectDownloadLink_idempotent
           "https://drive.google.com/file/d/1AbCdEfGhIjKlMnOpQrStUv/view?usp=sharing").
  reflexivity.
Defined.

(** ** Links that are converted are links to Google Drive *)

(** Every match of a search begins somewhere in the text. *)
Lemma hits_scan_suffix (r : regex) (h : hit) :
  forall (s : list ascii) (b : option ascii) (n skip : nat),
    In h (hits (scan false r b n s skip)) ->
    exists pre t b' n' cur',
      s = pre ++ t
      /\ exec false r {| before := b'; pos := n'; rest := t |} = Some (cur', groups h).
Proof.
  induction s as [|c s IH]; intros b n skip Hin.
  - destruct skip; cbn [scan] in Hin; [|destruct Hin].
    destruct (exec false r _) as [[cur' caps]|] eqn:E; [|destruct Hin].
    cbn in Hin. destruct Hin as [<-|[]].
    exists [], [], b, n, cur'. split; [reflexivity|exact E].
  - assert (Hlater : forall b1 n1 skip1,
               In h (hits (scan false r b1 n1 s skip1)) ->
               exists pre t b' n' cur',
                 c :: s = pre ++ t
                 /\ exec false r {| before := b'; pos := n'; rest := t |}
                    = Some (cur', groups h)).
    { intros b1 n1 skip1 H. destruct (IH _ _ _ H) as [pre [t [b' [n' [cur' [Hs E]]]]]].
      exists (c :: pre), t, b', n', cur'. split; [cbn [app]; f_equal; exact Hs|exact E]. }
    destruct skip; cbn [scan] in Hin; [|exact (Hlater _ _ _ Hin)].
    destruct (exec false r _) as [[cur' caps]|] eqn:E.
    + cbn [hits flat_map app In] in Hin. destruct Hin as [<-|Hin].
      * exists [], (c :: s), b, n, cur'. split; [reflexivity|exact E].
      * destruct (pos cur' - n); [cbn [flat_map app] in Hin|];
          exact (Hlater _ _ _ Hin).
    + cbn [hits flat_map app] in Hin. exact (Hlater _ _ _ Hin).
Qed.

(** A pattern that matches at some place of the text is found. *)
Lemma scan_finds (r : regex) (t : list ascii) :
  (forall b n, exec false r {| before := b; pos := n; rest := t |} <> None) ->
  forall pre b n, hits (scan false r b n (pre ++ t) 0) <> [].
Proof.
  intros Ht. induction pre as [|c pre IH]; intros b n.
  - cbn [app]. specialize (Ht b n).
    destruct t as [|c t]; cbn [scan];
      destruct (exec false r _) as [[cur' caps]|]; try congruence; discriminate.
  - cbn [app scan].
    destruct (exec false r _) as [[cur' caps]|]; [discriminate|].
    cbn [hits flat_map app]. apply IH.
Qed.

Lemma drive_host_of_share_prefix (w : string) (X : list ascii) :
  In w sharePrefixes ->
  forall b n,
    exec false (seqs [lit (chars "https://"); Group 1 (alts ["drive"; "docs"]%string);
                      lit (chars ".google.com")])
         {| before := b; pos := n; rest := chars w ++ X |} <> None.
Proof.
  intros Hw b n. unfold sharePrefixes in Hw. cbn [In] in Hw.
  destruct Hw as [<-|[<-|[<-|[<-|[<-|[]]]]]]; cbv; discriminate.
Qed.

(** X26 -- Every link that convertToDirectDownloadLink rewrites is a
    link to Google Drive for isGoogleDriveUrl: when the conversion
    returns anything but the trimmed link itself, the link holds
    'https://drive.google.com' or 'https://docs.google.com'.  (A link
    that is returned as it was need not: the check for a direct link
    does not look at the scheme.) *)
Theorem isGoogleDriveUrl_of_converted (url r : string) :
  convertToDirectDownloadLink url = Done r ->
  r <> str (trim (chars url)) ->
  isGoogleDriveUrl url = true.
Proof.
  unfold convertToDirectDownloadLink.
  destruct (firstFileId (map longId sharePrefixes) (trim (chars url)))
    as [fileId|] eqn:E.
  - intros _ _. apply firstFileId_some in E.
    destruct E as [p [h [Hp [Hh _]]]].
    apply in_map_iff in Hp. destruct Hp as [w [<- Hw]].
    assert (Hin : In h (hits (scan false (longId w) None 0 (trim (chars url)) 0))).
    { unfold firstMatch, segments in Hh.
      destruct (hits _) as [|h' l]; [discriminate|]. injection Hh as ->.
      left. reflexivity. }
    apply hits_scan_suffix in Hin.
    destruct Hin as [pre [t [b' [n' [cur' [Hs Hexec]]]]]].
    assert (Hstart : startsWith (chars w) t = true).
    { destruct (startsWith (chars w) t) eqn:Hst; [reflexivity|].
      pose proof (absent_prefixed (chars w) (Group 1 (atLeast 10 isIdChar)) t Hst b' n')
        as Hnone.
      unfold longId in Hexec. congruence. }
    apply startsWith_split in Hstart.
    unfold isGoogleDriveUrl. clear Hh.
    match goal with
    | |- match ?m with Some _ => true | None => false end = true =>
        destruct m as [h'|] eqn:Hd; [reflexivity|]
    end.
    exfalso. unfold firstMatch, segments in Hd. rewrite Hs, Hstart in Hd.
    pose proof (scan_finds _ _ (drive_host_of_share_prefix
                                  w (skipn (List.length (chars w)) t) Hw) pre None 0)
      as Hfound.
    destruct (hits _) as [|h' l]; [apply Hfound; reflexivity|discriminate].
  - destruct (includes (trim (chars url)) (chars "drive.google.com/uc?")
              && includes (trim (chars url)) (chars "export=download"));
      [|discriminate].
    intros H Hne. exfalso. apply Hne. congruence.
Qed.

Lemma isGoogleDriveUrl_of_converted_witness :
  isGoogleDriveUrl " https://docs.google.com/document/d/1AbCdEfGhIjKlMnOp/edit" = true.
Proof.
  apply (isGoogleDriveUrl_of_converted
           _ "https://drive.google.com/uc?export=download&id=1AbCdEfGhIjKlMnOp").
  - reflexivity.
  - discriminate.
Defined.

End LinkFacts.

(* ================================================================== *)
(** * The reports of processFileWithProgress                            *)
(* ================================================================== *)

Module ProgressFacts.

Import Types ProgressSpec.
Import ServerlessMediaProcessingService GeminiTranscriptionService.
Import TranscriptionOrchestrator.
Local Open Scope list_scope.
Local Open Scope nat_scope.

Section Quiet.

Variable Buffer : Type.
Variable World : Type.

Local Abbreviation Recorded := (Recorded World).

Lemma quiet_run (A : Type) (m : M Recorded A) :
  quiet m ->
  forall w reports, exists r w', m (w, reports) = (r, (w', reports)).
Proof.
  intros Hm w reports. specialize (Hm (w, reports)).
  destruct (m (w, reports)) as [r [w' reports']]. cbn in Hm. subst reports'.
  exists r, w'. reflexivity.
Qed.

Lemma quiet_lift (A : Type) (m : M World A) : quiet (lift m).
Proof. intros [w reports]. unfold lift. cbn. destruct (m w); reflexivity. Qed.

Lemma quiet_ret (A : Type) (a : A) : quiet (ret (World := Recorded) a).
Proof. intros s. reflexivity. Qed.

Lemma quiet_throw (A : Type) (e : string) : quiet (throw (World := Recorded) (A := A) e).
Proof. intros s. reflexivity. Qed.

Lemma quiet_bind (A B : Type) (m : M Recorded A) (k : A -> M Recorded B) :
  quiet m -> (forall a, quiet (k a)) -> quiet (Async.bind m k).
Proof.
  intros Hm Hk s. unfold Async.bind. specialize (Hm s).
  destruct (m s) as [[a|e] s']; cbn in Hm |- *; [|exact Hm].
  rewrite (Hk a s'). exact Hm.
Qed.

Lemma quiet_tryCatch (A : Type) (m : M Recorded A) (h : string -> M Recorded A) :
  quiet m -> (forall e, quiet (h e)) -> quiet (tryCatch m h).
Proof.
  intros Hm Hh s. unfold tryCatch. specialize (Hm s).
  destruct (m s) as [[a|e] s']; cbn in Hm |- *; [exact Hm|].
  rewrite (Hh e s'). exact Hm.
Qed.

Variable engine : Engine Buffer World.
Variable backend : Backend Buffer World.

Lemma quiet_attempts (audioBuffer : Buffer) (fileName : string)
      (config : TranscriptionConfig) (maxRetries : Z) :
  forall n attempt lastError,
    quiet (attempts (liftBackend backend) n attempt maxRetries lastError
                    audioBuffer fileName config).
Proof.
  induction n as [|n IH]; intros attempt lastError; cbn [attempts].
  - apply quiet_throw.
  - apply quiet_tryCatch; [apply quiet_lift|].
    intros e. apply quiet_bind; [|intros _; apply IH].
    destruct (attempt <? maxRetries)%Z; [apply quiet_lift|apply quiet_ret].
Qed.

Lemma quiet_transcribeWithRetry (audioBuffer : Buffer) (fileName : string)
      (config : TranscriptionConfig) :
  quiet (GeminiTranscriptionService.transcribeWithRetry
           (liftBackend backend) audioBuffer fileName config).
Proof. apply quiet_attempts. Qed.

Lemma quiet_cutChunks :
  forall requests chunks, quiet (cutChunks (liftEngine engine) requests chunks).
Proof.
  induction requests as [|[startTime chunkDuration] requests IH]; intros chunks;
    cbn [cutChunks].
  - apply quiet_ret.
  - apply quiet_bind; [apply quiet_lift|]. intros chunk. apply IH.
Qed.

Lemma quiet_splitAudio (inputBuffer : Buffer) (fileName : string)
      (chunkDurationMinutes : Q) :
  quiet (ServerlessMediaProcessingService.splitAudio
           (liftEngine engine) inputBuffer fileName chunkDurationMinutes).
Proof.
  unfold ServerlessMediaProcessingService.splitAudio.
  apply quiet_bind; [apply quiet_lift|]. intros mediaInfo.
  destruct (Qle_bool _ _); [apply quiet_ret|].
  apply quiet_bind; [apply quiet_lift|]. intros _.
  apply quiet_tryCatch; [|intros e; apply quiet_throw].
  apply quiet_bind; [apply quiet_lift|]. intros _.
  apply quiet_bind; [apply quiet_cutChunks|]. intros chunks.
  apply quiet_bind; [apply quiet_lift|]. intros _. apply quiet_ret.
Qed.

End Quiet.

(** ** The schedule *)

Lemma length_schedule (total : nat) : List.length (schedule total) = 5 + total.
Proof.
  unfold schedule. rewrite !length_app, length_map, length_seq. cbn [List.length]. lia.
Qed.

Lemma chunk_percentage (total i : nat) :
  i < total ->
  (40 <= snd (chunkReport total i))%Q /\ (snd (chunkReport total i) <= 80)%Q.
Proof.
  intros Hi. unfold chunkReport. cbn [snd].
  set (x := (inject_Z (Z.of_nat i) / inject_Z (Z.of_nat total))%Q).
  assert (Htotal : (0 < inject_Z (Z.of_nat total))%Q)
    by (rewrite <- (Zlt_Qlt 0); lia).
  assert (H0 : (0 <= x)%Q).
  { unfold x. apply Qle_shift_div_l; [exact Htotal|].
    rewrite Qmult_0_l. rewrite <- (Zle_Qle 0). lia. }
  assert (H1 : (x <= 1)%Q).
  { unfold x. apply Qle_shift_div_r; [exact Htotal|].
    rewrite Qmult_1_l. rewrite <- Zle_Qle. lia. }
  split; lra.
Qed.

Lemma chunk_percentage_rising (total i j : nat) :
  i <= j -> j < total ->
  (snd (chunkReport total i) <= snd (chunkReport total j))%Q.
Proof.
  intros Hij Hj. unfold chunkReport. cbn [snd].
  assert (Htotal : (0 < inject_Z (Z.of_nat total))%Q)
    by (rewrite <- (Zlt_Qlt 0); lia).
  assert (H : (inject_Z (Z.of_nat i) / inject_Z (Z.of_nat total)
               <= inject_Z (Z.of_nat j) / inject_Z (Z.of_nat total))%Q).
  { unfold Qdiv. apply Qmult_le_compat_r.
    - rewrite <- Zle_Qle. lia.
    - apply Qlt_le_weak. apply Qinv_lt_0_compat. exact Htotal. }
  lra.
Qed.

(** The place of each report in the schedule. *)
Lemma nth_schedule (total i : nat) (a : report) :
  nth_error (schedule total) i = Some a ->
  (i = 0 /\ a = ("processing"%string, 10%Q))
  \/ (i = 1 /\ a = ("processing"%string, 25%Q))
  \/ (i = 2 /\ a = ("transcribing"%string, 40%Q))
  \/ (3 <= i < 3 + total /\ a = chunkReport total (i - 3))
  \/ (i = 3 + total /\ a = ("analyzing"%string, 85%Q))
  \/ (i = 4 + total /\ a = ("completed"%string, 100%Q)).
Proof.
  unfold schedule. intros H.
  destruct i as [|[|[|i]]]; cbn [app nth_error] in H.
  - left. split; [reflexivity|congruence].
  - right. left. split; [reflexivity|congruence].
  - right. right. left. split; [reflexivity|congruence].
  - right. right. right.
    destruct (Nat.lt_ge_cases i total) as [Hi|Hi].
    + left. rewrite nth_error_app1 in H by (rewrite length_map, length_seq; exact Hi).
      rewrite nth_error_map, nth_error_seq in H.
      apply Nat.ltb_lt in Hi as Hi'. rewrite Hi' in H. cbn in H.
      split; [lia|]. replace (S (S (S i)) - 3) with i by lia. congruence.
    + right. rewrite nth_error_app2 in H by (rewrite length_map, length_seq; exact Hi).
      rewrite length_map, length_seq in H.
      destruct (i - total) as [|[|d]] eqn:E; cbn in H.
      * left. split; [lia|congruence].
      * right. split; [lia|congruence].
      * destruct d; discriminate.
Qed.

Lemma schedule_rising (total : nat) : rising (schedule total).
Proof.
  intros i j a b Hij Ha Hb.
  apply nth_schedule in Ha. apply nth_schedule in Hb.
  destruct Ha as [[Hi ->]|[[Hi ->]|[[Hi ->]|[[Hi ->]|[[Hi ->]|[Hi ->]]]]]];
    destruct Hb as [[Hj ->]|[[Hj ->]|[[Hj ->]|[[Hj ->]|[[Hj ->]|[Hj ->]]]]]];
    try lia; cbn [snd];
    try (apply Qle_bool_imp_le; reflexivity).
  - destruct (chunk_percentage total (j - 3)) as [H _]; [lia|]. lra.
  - destruct (chunk_percentage total (j - 3)) as [H _]; [lia|]. lra.
  - destruct (chunk_percentage total (j - 3)) as [H _]; [lia|]. exact H.
  - apply chunk_percentage_rising; lia.
  - destruct (chunk_percentage total (i - 3)) as [_ H]; [lia|]. lra.
  - destruct (chunk_percentage total (i - 3)) as [_ H]; [lia|]. lra.
Qed.

Lemma schedule_bounds (total : nat) :
  Forall (fun r : report => (10 <= snd r)%Q /\ (snd r <= 100)%Q) (schedule total).
Proof.
  apply Forall_forall. intros a Ha. apply In_nth_error in Ha. destruct Ha as [i Ha].
  apply nth_schedule in Ha.
  destruct Ha as [[Hi ->]|[[Hi ->]|[[Hi ->]|[[Hi ->]|[[Hi ->]|[Hi ->]]]]]];
    cbn [snd]; try (split; apply Qle_bool_imp_le; reflexivity).
  pose proof (chunk_percentage total (i - 3)) as H.
  destruct H as [H1 H2]; [lia|]. split; lra.
Qed.

Lemma nth_error_firstn_some (A : Type) (l : list A) (k i : nat) (a : A) :
  nth_error (firstn k l) i = Some a -> i < k /\ nth_error l i = Some a.
Proof.
  revert k i. induction l as [|x l IH]; intros k i H.
  - rewrite firstn_nil in H. destruct i; discriminate.
  - destruct k as [|k]; [destruct i; discriminate|].
    destruct i as [|i]; cbn in H |- *.
    + split; [lia|exact H].
    + apply IH in H. destruct H as [Hi H]. split; [lia|exact H].
Qed.

Lemma rising_firstn (reports : list report) (k : nat) :
  rising reports -> rising (firstn k reports).
Proof.
  intros H i j a b Hij Ha Hb.
  apply nth_error_firstn_some in Ha. apply nth_error_firstn_some in Hb.
  exact (H i j a b Hij (proj2 Ha) (proj2 Hb)).
Qed.

Lemma completed_last (total k : nat) :
  In ("completed"%string, 100%Q) (firstn k (schedule total)) -> 5 + total <= k.
Proof.
  intros Hin. apply In_nth_error in Hin. destruct Hin as [i Hi].
  apply nth_error_firstn_some in Hi. destruct Hi as [Hik Hi].
  apply nth_schedule in Hi.
  destruct Hi as [[Hi E]|[[Hi E]|[[Hi E]|[[Hi E]|[[Hi E]|[Hi E]]]]]];
    try discriminate E; lia.
Qed.

Lemma firstn_seq_prefix (start k total : nat) :
  k <= total -> firstn k (seq start total) = seq start k.
Proof.
  revert start total. induction k as [|k IH]; intros start total Hk; [reflexivity|].
  destruct total as [|total]; [lia|]. cbn [seq firstn]. f_equal. apply IH. lia.
Qed.

(** The schedule up to the report of chunk [k]. *)
Lemma firstn_schedule (total k : nat) :
  k <= total ->
  firstn (3 + k) (schedule total)
  = [("processing"%string, 10%Q); ("processing"%string, 25%Q);
     ("transcribing"%string, 40%Q)]
      ++ map (chunkReport total) (seq 0 k).
Proof.
  intros Hk. unfold schedule. cbn [app plus firstn]. do 3 f_equal.
  rewrite firstn_app, length_map, length_seq.
  replace (k - total) with 0 by lia. cbn [firstn]. rewrite app_nil_r.
  rewrite firstn_map, firstn_seq_prefix by exact Hk. reflexivity.
Qed.

Lemma firstn_schedule_all (total : nat) :
  firstn (5 + total) (schedule total) = schedule total.
Proof. rewrite <- length_schedule. apply firstn_all. Qed.

(** ** The run of a job *)

Section Reports.

Variable Buffer : Type.
Variable World : Type.
Variable engine : Engine Buffer World.
Variable backend : Backend Buffer World.

Local Abbreviation Recorded := (Recorded World).
Local Abbreviation recording := (Some (record (World := World))).

Lemma bind_record (A : Type) (stage message : string) (progress : Q)
      (k : unit -> M Recorded A) (w : World) (reports : list report) :
  Async.bind (updateProgress recording stage progress message) k (w, reports)
  = k tt (w, reports ++ [(stage, progress)]).
Proof. reflexivity. Qed.

Lemma bind_quiet (A B : Type) (m : M Recorded A) (k : A -> M Recorded B) :
  quiet m ->
  forall w reports,
    (exists a w', Async.bind m k (w, reports) = k a (w', reports))
    \/ (exists e w', Async.bind m k (w, reports) = (Throw e, (w', reports))).
Proof.
  intros Hm w reports. destruct (quiet_run _ _ m Hm w reports) as [[a|e] [w' E]].
  - left. exists a, w'. unfold Async.bind. rewrite E. reflexivity.
  - right. exists e, w'. unfold Async.bind. rewrite E. reflexivity.
Qed.

(** The chunk loop reports each chunk before it is transcribed. *)
Lemma progressChunks_reports (total : nat) (fileName : string)
      (config : TranscriptionConfig) :
  forall chunks i text w reports,
  exists outcome w' k,
    progressChunks (liftBackend backend) recording total chunks i text fileName config
                   (w, reports)
    = (outcome, (w', reports ++ map (chunkReport total) (seq i k)))
    /\ k <= List.length chunks
    /\ (forall t, outcome = Normal t -> k = List.length chunks).
Proof.
  induction chunks as [|chunk chunks IH]; intros i text w reports.
  - exists (Normal text), w, 0. cbn [progressChunks seq map].
    rewrite app_nil_r. repeat split. apply Nat.le_refl.
  - cbn [progressChunks]. rewrite bind_record.
    fold (chunkReport total i).
    match goal with
    | |- context [Async.bind ?m ?k (?w0, ?l0)] =>
        destruct (bind_quiet _ _ m k
                             (quiet_transcribeWithRetry _ _ backend _ _ _) w0 l0)
          as [[result [w1 E]]|[e [w1 E]]]; rewrite E; clear E; cbv beta
    end.
    + match goal with
      | |- context [progressChunks _ _ _ _ _ ?t _ _ _] =>
          destruct (IH (S i) t w1 (reports ++ [chunkReport total i]))
            as [outcome [w' [k [Ek [Hk Hall]]]]]
      end.
      exists outcome, w', (S k). split; [|split].
      * etransitivity; [exact Ek|]. cbn [seq map].
        rewrite <- app_assoc. reflexivity.
      * cbn [List.length]. lia.
      * intros t Ht. rewrite (Hall t Ht). reflexivity.
    + exists (Throw e), w1, 1. cbn [seq map List.length]. repeat split; [lia|].
      discriminate.
Qed.

(** One step of a run: an operation of the collaborators. *)
Ltac step tac a w1 e :=
  match goal with
  | |- context [Async.bind ?m ?k (?w0, ?l0)] =>
      let Hq := fresh "Hq" in
      let E := fresh "E" in
      assert (Hq : quiet m) by tac;
      destruct (bind_quiet _ _ m k Hq w0 l0) as [[a [w1 E]]|[e [w1 E]]];
      rewrite E; clear E Hq; cbv beta
  end.

Ltac stopped e w1 total k :=
  exists (Throw e), w1, total, k;
  split; [reflexivity|]; split; [lia|]; right; exists e; split; [reflexivity|lia].

(** The [try] block: the reports are the schedule up to the step that
    threw, or the whole of it. *)
Lemma body_reports (fileBuffer : Buffer) (fileName : string)
      (config : TranscriptionConfig) (w : World) :
  exists outcome w' total k,
    processFileWithProgressBody (liftEngine engine) (liftBackend backend)
                                fileBuffer fileName config recording (w, [])
    = (outcome, (w', firstn k (schedule total)))
    /\ 0 < k
    /\ ((exists response,
            outcome = Normal response /\ success response = true /\ k = 5 + total)
        \/ (exists e, outcome = Throw e /\ k <= 3 + total)).
Proof.
  unfold processFileWithProgressBody.
  rewrite bind_record. cbn [app].
  step ltac:(apply quiet_lift) mediaInfo w1 e; [|stopped e w1 0 1].
  destruct (hasAudio mediaInfo); cbn [negb].
  2: { eexists (Throw _), w1, 0, 1.
       split; [reflexivity|]. split; [lia|]. right. eexists. split; [reflexivity|lia]. }
  rewrite bind_record. cbn [app].
  step ltac:(destruct (hasVideo mediaInfo); apply quiet_lift) audioBuffer w2 e;
    [|stopped e w2 0 2].
  rewrite bind_record. cbn [app]. cbv zeta.
  unfold Async.bind at 1.
  destruct (Qltb (10 * 60) (duration mediaInfo)).
  - step ltac:(apply quiet_splitAudio) chunks w3 e; [|stopped e w3 0 3].
    match goal with
    | |- context [progressChunks _ _ ?total ?cs ?i ?t ?f ?c (?w0, ?l0)] =>
        destruct (progressChunks_reports total f c cs i t w0 l0)
          as [outcome [w4 [k [Ek [Hk Hall]]]]]; rewrite Ek; clear Ek
    end.
    destruct outcome as [transcriptionText|e].
    + rewrite (Hall _ eq_refl). rewrite !bind_record.
      eexists (Normal _), w4, (List.length chunks), (5 + List.length chunks).
      split.
      { rewrite firstn_schedule_all. unfold schedule, ret.
        rewrite <- !app_assoc. reflexivity. }
      split; [lia|]. left. eexists. split; [reflexivity|split; reflexivity].
    + exists (Throw e), w4, (List.length chunks), (3 + k).
      split; [|split; [lia|right; exists e; split; [reflexivity|lia]]].
      rewrite firstn_schedule by exact Hk. reflexivity.
  - step ltac:(apply quiet_transcribeWithRetry) answer w3 e; [|stopped e w3 0 3].
    unfold ret at 1. rewrite !bind_record.
    eexists (Normal _), w3, 0, 5.
    split; [reflexivity|]. split; [lia|]. left. eexists.
    split; [reflexivity|split; reflexivity].
Qed.

End Reports.

Lemma In_firstn (A : Type) (l : list A) (k : nat) (a : A) :
  In a (firstn k l) -> In a l.
Proof.
  intros H. apply In_nth_error in H. destruct H as [i H].
  apply nth_error_firstn_some in H. exact (nth_error_In _ _ (proj2 H)).
Qed.

(** X20 -- The progress that processFileWithProgress reports.  With a
    callback that records what it is told, whatever the media engine and
    the transcription backend do: the call returns a response (it never
    throws); the reports are a beginning of the schedule 10, 25, 40, then
    40 + 40 * i / n before chunk i of n, then 85 and 100, the first report
    being always made; so the percentages never go down and stay between
    10 and 100; and ('completed', 100) is reported exactly when the
    response is a success (a failure is reported by no call of the
    callback: the reports just stop). *)
Theorem processFileWithProgress_reports
        (Buffer World : Type)
        (engine : Engine Buffer World) (backend : Backend Buffer World)
        (fileBuffer : Buffer) (fileName : string) (config : TranscriptionConfig)
        (w : World) :
  exists response w' reports,
    observed engine backend fileBuffer fileName config w
    = (Normal response, (w', reports))
    /\ (exists total k, 0 < k /\ reports = firstn k (schedule total))
    /\ rising reports
    /\ Forall (fun r : report => (10 <= snd r)%Q /\ (snd r <= 100)%Q) reports
    /\ (success response = true <-> In ("completed"%string, 100%Q) reports).
Proof.
  destruct (body_reports Buffer World engine backend fileBuffer fileName config w)
    as [outcome [w' [total [k [E [Hk Hcases]]]]]].
  assert (Hshape : rising (firstn k (schedule total))
                   /\ Forall (fun r : report => (10 <= snd r)%Q /\ (snd r <= 100)%Q)
                             (firstn k (schedule total))).
  { split.
    - apply rising_firstn. apply schedule_rising.
    - apply Forall_forall. intros a Ha. apply In_firstn in Ha.
      pose proof (schedule_bounds total) as Hb. rewrite Forall_forall in Hb.
      exact (Hb a Ha). }
  unfold observed, processFileWithProgress, tryCatch. rewrite E.
  destruct Hcases as [[response [-> [Hs ->]]]|[e [-> Hke]]].
  - exists response, w', (firstn (5 + total) (schedule total)).
    split; [reflexivity|]. split; [exists total, (5 + total); split; [lia|reflexivity]|].
    split; [exact (proj1 Hshape)|]. split; [exact (proj2 Hshape)|].
    split; [|intros _; exact Hs].
    intros _. rewrite firstn_schedule_all. unfold schedule.
    apply in_or_app. right. apply in_or_app. right. right. left. reflexivity.
  - exists (failure fileName e), w', (firstn k (schedule total)).
    split; [reflexivity|]. split; [exists total, k; split; [exact Hk|reflexivity]|].
    split; [exact (proj1 Hshape)|]. split; [exact (proj2 Hshape)|].
    split; [discriminate|].
    intros Hin. apply completed_last in Hin. lia.
Qed.

(** ** The two entry points *)

(** X21 -- processFileWithProgress without a callback is processFile on
    short recordings.  When no buffer exceeds the limit of 20 MB and the
    probe never reports more than ten minutes, the two entry points give
    the same response and leave the same world, on success and on every
    failure.  (They part on longer or larger files only: there
    processFile has branches that processFileWithProgress lacks.) *)
Theorem processFileWithProgress_without_callback
        (Buffer World : Type) (bufferLength : Buffer -> Z)
        (engine : Engine Buffer World) (backend : Backend Buffer World)
        (fileBuffer : Buffer) (fileName : string) (config : TranscriptionConfig)
        (w : World) :
  (forall b, (bufferLength b <= maxSize)%Z) ->
  (forall b f w0 mediaInfo w1,
      getMediaInfo engine b f w0 = (Normal mediaInfo, w1) ->
      (duration mediaInfo <= 600)%Q) ->
  processFileWithProgress engine backend fileBuffer fileName config None w
  = processFile bufferLength engine backend fileBuffer fileName config w.
Proof.
  intros Hsmall Hshort.
  unfold processFileWithProgress, processFile, tryCatch.
  unfold processFileWithProgressBody, processFileBody, prepareAudio.
  cbn [updateProgress]. unfold Async.bind, ret.
  destruct (getMediaInfo engine fileBuffer fileName w) as [[mediaInfo|e] w1] eqn:Hinfo;
    [|reflexivity].
  destruct (hasAudio mediaInfo); cbn [negb]; [|reflexivity].
  assert (Hduration : Qltb (10 * 60) (duration mediaInfo) = false).
  { apply AnalyticsFacts.Qltb_ge. apply (Hshort _ _ _ _ _ Hinfo). }
  destruct (hasVideo mediaInfo);
    [destruct (extractAudio engine fileBuffer fileName w1) as [[audio|e] w2]
    |destruct (optimizeAudio engine fileBuffer fileName w1) as [[audio|e] w2]];
    try reflexivity;
    cbv beta iota zeta;
    (replace (maxSize <? bufferLength audio)%Z with false
      by (symmetry; apply Z.ltb_ge; apply Hsmall));
    rewrite Hduration; reflexivity.
Qed.

Lemma processFileWithProgress_without_callback_witness :
  processFileWithProgress
    (Scenario.engine (Scenario.audioOnly 120) 1000%Z 500%Z)
    (Scenario.backend Scenario.alwaysAnswers)
    1000%Z "talk.wav" emptyConfig None 0
  = processFile (fun _ : Scenario.Buffer => 1000%Z)
                (Scenario.engine (Scenario.audioOnly 120) 1000%Z 500%Z)
                (Scenario.backend Scenario.alwaysAnswers)
                1000%Z "talk.wav" emptyConfig 0.
Proof.
  apply (processFileWithProgress_without_callback
           Scenario.Buffer Scenario.World (fun _ => 1000%Z)).
  - intros b. unfold maxSize. lia.
  - intros b f w0 mediaInfo w1 H. injection H as <- _. cbn. discriminate.
Defined.

End ProgressFacts.

(* ================================================================== *)
(** * The API route and the duration it measures                        *)
(* ================================================================== *)

Module ApiFacts.

Import Str Buf Types SpeechAnalyticsService.
Import AccurateDurationExtractor TranscribeApi.
Import AnalyticsFacts.
Local Open Scope string_scope.
Local Open Scope list_scope.

Local Notation "a +++ b" := (String.append a b) (at level 60, right associativity).

Section Extractor.

Variable World : Type.
Variable parseBuffer : Buffer -> M World IFormat.

(** The one message that [extractDuration] throws. *)
Local Abbreviation cannotExtract fileName :=
  ("Cannot extract duration from " +++ fileName
   +++ ". This file format may not be supported for duration extraction. Please try converting to MP4, MP3, or WAV format.").

(** [extractDuration] in terms of what the parser answers. *)
Lemma extractDuration_cases (buffer : Buffer) (fileName : string) (w : World) :
  extractDuration parseBuffer buffer fileName w
  = match parseBuffer buffer w with
    | (Normal metadata, w') =>
        match AccurateDurationExtractor.duration metadata with
        | Some q =>
            if Qltb 0 q then (Normal (round q), w')
            else (Throw (cannotExtract fileName), w')
        | None => (Throw (cannotExtract fileName), w')
        end
    | (Throw _, w') => (Throw (cannotExtract fileName), w')
    end.
Proof.
  unfold extractDuration, tryCatch, Async.bind.
  destruct (parseBuffer buffer w) as [[metadata|e] w']; [|reflexivity].
  destruct (AccurateDurationExtractor.duration metadata) as [q|]; cbn [truthyNumber].
  - destruct (Qltb 0 q) eqn:Hq.
    + assert (Hnz : Qeq_bool q 0 = false).
      { apply Qltb_lt in Hq. destruct (Qeq_bool q 0) eqn:E; [|reflexivity].
        apply Qeq_bool_iff in E. rewrite E in Hq. exfalso. exact (Qlt_irrefl 0 Hq). }
      rewrite Hnz. reflexivity.
    + rewrite andb_false_r.
      destruct (truthyNumber (bitrate metadata) || truthyString (codec metadata));
        reflexivity.
  - cbn [andb].
    destruct (truthyNumber (bitrate metadata) || truthyString (codec metadata));
      reflexivity.
Qed.

(** X22 -- What AccurateDurationExtractor.extractDuration gives.  It
    returns only for metadata with a positive duration, and then
    Math.round of it: an integer that is 0 for a recording shorter than
    half a second.  In every other case (the parser throws, no duration,
    a complex container) the error thrown has the one message 'Cannot
    extract duration from <fileName>...': the messages of the parser,
    of handleComplexContainer and 'No duration information found' never
    reach the caller. *)
Theorem extractDuration_outcomes (buffer : Buffer) (fileName : string) (w : World) :
  (forall d w',
      extractDuration parseBuffer buffer fileName w = (Normal d, w') ->
      exists metadata q,
        parseBuffer buffer w = (Normal metadata, w')
        /\ AccurateDurationExtractor.duration metadata = Some q
        /\ 0 < q /\ d = round q /\ (0 <= d)%Z)
  /\ (forall e w',
         extractDuration parseBuffer buffer fileName w = (Throw e, w') ->
         e = cannotExtract fileName)
  /\ (forall metadata q w',
         parseBuffer buffer w = (Normal metadata, w') ->
         AccurateDurationExtractor.duration metadata = Some q ->
         0 < q -> q < 1 # 2 ->
         extractDuration parseBuffer buffer fileName w = (Normal 0%Z, w')).
Proof.
  rewrite extractDuration_cases. split; [|split].
  - intros d w' H.
    destruct (parseBuffer buffer w) as [[metadata|e] w1]; [|discriminate].
    destruct (AccurateDurationExtractor.duration metadata) as [q|] eqn:Hd;
      [|discriminate].
    destruct (Qltb 0 q) eqn:Hq; [|discriminate].
    apply Qltb_lt in Hq. injection H as <- <-.
    exists metadata, q. repeat split; try assumption; try reflexivity.
    apply (round_bounds q 0 (Qceiling q)).
    + apply Qlt_le_weak. exact Hq.
    + apply Qle_ceiling.
  - intros e w' H.
    destruct (parseBuffer buffer w) as [[metadata|e1] w1].
    + destruct (AccurateDurationExtractor.duration metadata) as [q|].
      * destruct (Qltb 0 q); [discriminate|]. congruence.
      * congruence.
    + congruence.
  - intros metadata q w' Hp Hd Hpos Hhalf. rewrite Hp, Hd.
    apply Qltb_lt in Hpos as Hb. rewrite Hb.
    replace (round q) with 0%Z; [reflexivity|].
    pose proof (round_nearest q) as [H1 H2].
    assert (Hlo : (-1 # 1) < inject_Z (round q)) by lra.
    assert (Hhi : inject_Z (round q) < 1) by lra.
    change (-1 # 1) with (inject_Z (-1)) in Hlo.
    change 1 with (inject_Z 1) in Hhi.
    rewrite <- Zlt_Qlt in Hlo, Hhi. lia.
Qed.

End Extractor.

(** ** The duration that the route measures *)

Lemma analyzePace_optimal (wordsPerMinute : Q) :
  paceCategory (analyzePace wordsPerMinute) = "Optimal"
  <-> 140 <= wordsPerMinute /\ wordsPerMinute <= 180.
Proof.
  unfold analyzePace, OPTIMAL_WPM_MIN, OPTIMAL_WPM_MAX.
  destruct (Qle_bool 140 wordsPerMinute) eqn:E1;
    [apply Qle_bool_iff in E1|];
    (destruct (Qle_bool wordsPerMinute 180) eqn:E2; [apply Qle_bool_iff in E2|]);
    cbn [andb].
  - split; [intros _; split; assumption|reflexivity].
  - split; [|intros [_ H]; apply Qle_bool_iff in H; congruence].
    repeat match goal with |- context [if ?c then _ else _] => destruct c end;
      cbn; discriminate.
  - split; [|intros [H _]; apply Qle_bool_iff in H; congruence].
    repeat match goal with |- context [if ?c then _ else _] => destruct c end;
      cbn; discriminate.
  - split; [|intros [H _]; apply Qle_bool_iff in H; congruence].
    repeat match goal with |- context [if ?c then _ else _] => destruct c end;
      cbn; discriminate.
Qed.

(** The estimate from the number of words, and the pace it implies. *)
Lemma estimate_pace (n : nat) :
  let d := if Nat.ltb 0 n then Z.max 10 (round (ofNat n * 60 / 150)) else 60%Z in
  (10 <= d)%Z
  /\ (140 <= ofNat n / (inject_Z d / 60) /\ ofNat n / (inject_Z d / 60) <= 180
      <-> (24 <= n)%nat).
Proof.
  destruct n as [|n'].
  - cbn [Nat.ltb Nat.leb]. split; [lia|]. split; [|lia].
    intros [H _]. exfalso. unfold ofNat in H. cbn in H.
    apply Qle_bool_iff in H. discriminate H.
  - set (n := S n'). replace (Nat.ltb 0 n) with true by reflexivity.
    set (N := ofNat n).
    assert (HN : 1 <= N).
    { unfold N, ofNat. change 1 with (inject_Z 1). rewrite <- Zle_Qle. lia. }
    pose proof (round_nearest (N * 60 / 150)) as [Hlo Hhi].
    set (r := round (N * 60 / 150)) in *.
    assert (Hx : N * 60 / 150 == N * (2 # 5)) by field.
    rewrite Hx in Hlo, Hhi. clear Hx.
    cbv zeta. split; [lia|].
    destruct (Nat.le_gt_cases 24 n) as [Hn|Hn].
    + assert (HN24 : 24 <= N).
      { unfold N, ofNat. change 24 with (inject_Z 24). rewrite <- Zle_Qle. lia. }
      assert (Hr : (10 <= r)%Z).
      { assert (H : inject_Z 9 < inject_Z r) by (change (inject_Z 9) with 9; lra).
        rewrite <- Zlt_Qlt in H. lia. }
      rewrite Z.max_r by exact Hr.
      assert (HR : 10 <= inject_Z r).
      { change 10 with (inject_Z 10). rewrite <- Zle_Qle. exact Hr. }
      assert (Hdm : inject_Z r / 60 == inject_Z r * (1 # 60)) by field.
      rewrite Hdm.
      split; [intros _; exact Hn|]. intros _. split.
      * apply Qle_shift_div_l; [lra|]. lra.
      * apply Qle_shift_div_r; [lra|]. lra.
    + assert (HN23 : N <= 23).
      { unfold N, ofNat. change 23 with (inject_Z 23). rewrite <- Zle_Qle. lia. }
      assert (Hr : (r <= 9)%Z).
      { assert (H : inject_Z r < inject_Z 10) by (change (inject_Z 10) with 10; lra).
        rewrite <- Zlt_Qlt in H. lia. }
      rewrite Z.max_l by lia.
      split; [|lia]. intros [H _]. exfalso.
      assert (E : N / (inject_Z 10 / 60) == N * 6) by (change (inject_Z 10) with 10; field).
      rewrite E in H. lra.
Qed.

Section Route.

Variable World : Type.
Variable services : Services World.

(** X23 -- The duration of last resort.  When the metadata give no
    duration (extractDuration throws), the route estimates the duration
    from the transcript at 150 words per minute, 10 seconds at least
    (60 seconds for a transcript without words), and the analytics are
    computed with it: the pace of the analytics is then 'Optimal'
    exactly when the transcript has 24 words or more, whatever the pace
    of the recording was. *)
Theorem word_count_fallback (buffer : Buffer) (fileName : string)
        (result : TranscriptionResult) (w w1 : World) (e : string) :
  extractDuration (parseBuffer services) buffer fileName w = (Throw e, w1) ->
  exists d,
    actualDuration services buffer fileName result w = (Normal d, w1)
    /\ (10 <= d)%Z
    /\ (paceCategory (paceAnalysis (analyzeSpeech (text result) (inject_Z d / 60)))
        = "Optimal"
        <-> (24 <= List.length (extractWords (chars (text result))))%nat).
Proof.
  intros Hthrow. unfold actualDuration, tryCatch. rewrite Hthrow.
  fold (extractWords (chars (text result))).
  set (n := List.length (extractWords (chars (text result)))).
  destruct (estimate_pace n) as [Hd Hpace]. cbv zeta in Hd, Hpace.
  exists (if Nat.ltb 0 n then Z.max 10 (round (ofNat n * 60 / 150)) else 60%Z).
  split; [destruct (Nat.ltb 0 n); reflexivity|]. split; [exact Hd|].
  set (d := if Nat.ltb 0 n then Z.max 10 (round (ofNat n * 60 / 150)) else 60%Z) in *.
  unfold analyzeSpeech. cbn [paceAnalysis]. fold n.
  assert (Hpos : Qltb 0 (inject_Z d / 60) = true).
  { apply Qltb_lt. apply Qlt_shift_div_l; [reflexivity|].
    rewrite Qmult_0_l. change 0 with (inject_Z 0). rewrite <- Zlt_Qlt. lia. }
  rewrite Hpos, analyzePace_optimal. exact Hpace.
Qed.

End Route.

Lemma word_count_fallback_witness :
  exists d,
    actualDuration (ApiSpec.withoutMetadata "hello world") [] "talk.ogg"
                   {| text := "hello world" |} tt
    = (Normal d, tt)
    /\ (10 <= d)%Z
    /\ (paceCategory
          (paceAnalysis (analyzeSpeech "hello world" (inject_Z d / 60)))
        = "Optimal"
        <-> (24 <= List.length (extractWords (chars "hello world")))%nat).
Proof.
  apply (word_count_fallback unit (ApiSpec.withoutMetadata "hello world") []
                             "talk.ogg" {| text := "hello world" |} tt tt
                             ("Cannot extract duration from talk.ogg. This file format may not be supported for duration extraction. Please try converting to MP4, MP3, or WAV format.")).
  reflexivity.
Defined.

(** ** The answers of the route *)

Section Answers.

Variable World : Type.
Variable services : Services World.

(** An answer of a status of the route, that is a success exactly for
    the status 200, a success carrying the transcript, the duration and
    the analytics of this transcript for this duration. *)
Local Abbreviation shaped response :=
  (In (status response) [200; 400; 405; 413; 500]%Z
   /\ (status response = 200%Z <-> success (json response) = Some true)
   /\ (status response = 200%Z ->
       exists t f d,
         transcription (json response) = Some t
         /\ fileName (json response) = Some f
         /\ TranscribeApi.duration (json response) = Some d
         /\ (0 <= d)%Z
         /\ analytics (json response) = Some (analyzeSpeech t (inject_Z d / 60)))).

Ltac refusal :=
  split; [cbn; tauto|];
  split; [split; intros H; discriminate H|intros H; discriminate H].

Lemma actualDuration_returns (buffer : Buffer) (fileName : string)
      (result : TranscriptionResult) (w : World) :
  exists d w',
    actualDuration services buffer fileName result w = (Normal d, w') /\ (0 <= d)%Z.
Proof.
  unfold actualDuration, tryCatch. rewrite extractDuration_cases.
  destruct (parseBuffer services buffer w) as [[metadata|e] w'].
  - destruct (AccurateDurationExtractor.duration metadata) as [q|].
    + destruct (Qltb 0 q) eqn:Hq.
      * apply Qltb_lt in Hq. exists (round q), w'. split; [reflexivity|].
        apply (round_bounds q 0 (Qceiling q));
          [apply Qlt_le_weak; exact Hq|apply Qle_ceiling].
      * destruct (Nat.ltb 0 _); eexists; exists w'; (split; [reflexivity|lia]).
    + destruct (Nat.ltb 0 _); eexists; exists w'; (split; [reflexivity|lia]).
  - destruct (Nat.ltb 0 _); eexists; exists w'; (split; [reflexivity|lia]).
Qed.

(** Transcription, duration and analytics: the end of both branches. *)
Ltac transcribed buffer name w1 :=
  let result := fresh "result" in
  let e := fresh "e" in
  let w2 := fresh "w" in
  let w3 := fresh "w" in
  let d := fresh "d" in
  let E := fresh "E" in
  let Hd := fresh "Hd" in
  unfold Async.bind;
  destruct (GeminiTranscriptionService.transcribeWithRetry
              (transcriptionService services) buffer name emptyConfig w1)
    as [[result|e] w2];
  [ destruct (actualDuration_returns buffer name result w2) as [d [w3 [E Hd]]];
    rewrite E; eexists; exists w3; split; [reflexivity|];
    cbn [status json succeeded success transcription fileName
                TranscribeApi.duration analytics];
    split; [cbn; tauto|]; split; [split; reflexivity|];
    intros _; exists (text result), name, d; repeat split; exact Hd
  | eexists; exists w2; split; [reflexivity|]; refusal ].

Lemma handleUrl_answers (url : string) (w : World) :
  exists response w',
    handleUrl services url w = (Normal response, w') /\ shaped response.
Proof.
  unfold handleUrl, tryCatch. unfold Async.bind at 1.
  destruct (downloadFile services url w) as [[downloadResult|e] w1].
  - cbv zeta. destruct (maxFileSize <? length (buffer downloadResult))%Z.
    + eexists. exists w1. split; [reflexivity|]. refusal.
    + transcribed (buffer downloadResult) (filename downloadResult) w1.
  - eexists. exists w1. split; [reflexivity|]. refusal.
Qed.

Lemma handleUpload_answers (uploadedFile : UploadedFile) (w : World) :
  exists response w',
    handleUpload services uploadedFile w = (Normal response, w') /\ shaped response.
Proof.
  unfold handleUpload, tryCatch. unfold Async.bind at 1.
  destruct (readFileSync services (filepath uploadedFile) w) as [[fileBuffer|e] w1].
  - cbv zeta. destruct (maxFileSize <? length fileBuffer)%Z.
    + eexists. exists w1. split; [reflexivity|]. refusal.
    + match goal with |- context [if ?c then _ else _] => destruct c end.
      * eexists. exists w1. split; [reflexivity|]. refusal.
      * match goal with
        | |- context [GeminiTranscriptionService.transcribeWithRetry _ _ ?name _] =>
            transcribed fileBuffer name w1
        end.
  - eexists. exists w1. split; [reflexivity|]. refusal.
Qed.


End Answers.

End ApiFacts.

(* ================================================================== *)
(** * The analytics of a transcript without words                       *)
(* ================================================================== *)

Module SilenceFacts.

Import Str RegExp TextSpec SpeechAnalyticsService.
Import AnalyticsFacts TokenFacts WordFacts CaseFacts.
Local Open Scope list_scope.

Local Abbreviation blank := (Forall (fun c : ascii => isSpace c = true)).

Lemma space_not_word (c : ascii) : isSpace c = true -> isWordChar c = false.
Proof.
  destruct c as [b0 b1 b2 b3 b4 b5 b6 b7].
  destruct b0, b1, b2, b3, b4, b5, b6, b7; intros H; try reflexivity; discriminate H.
Qed.

Lemma concat_nil_all (ps : list (list ascii)) :
  List.concat ps = [] -> filter (fun w => Nat.ltb 0 (List.length w)) ps = [].
Proof.
  induction ps as [|p ps IH]; intros H; [reflexivity|].
  cbn [List.concat] in H. apply app_eq_nil in H. destruct H as [-> H].
  cbn. apply IH. exact H.
Qed.

Lemma extractWords_blank (text : list ascii) : blank text -> extractWords text = [].
Proof.
  intros Hblank. unfold extractWords, split, segments.
  destruct (pieces_between_spaces text [] None 0) as [_ Hcat]; [constructor|].
  apply concat_nil_all. rewrite Hcat. cbn [rev app]. apply filter_spaces. exact Hblank.
Qed.

(** No word begins or ends in a text of white space. *)
Lemma no_boundary_in_blank (r : regex) :
  forall (s : list ascii) (b : option ascii) (n : nat),
    blank s ->
    match b with Some c => isWordChar c = false | None => True end ->
    hits (scan true (Seq WordB r) b n s 0) = [].
Proof.
  induction s as [|c s IH]; intros b n Hs Hb.
  - cbn [scan]. unfold exec. cbn [rmatch]. unfold wordBefore, wordAfter.
    cbn [before rest]. destruct b as [c|]; [rewrite Hb|]; reflexivity.
  - inversion Hs as [|c' s' Hc Hs']; subst.
    cbn [scan]. unfold exec. cbn [rmatch]. unfold wordBefore, wordAfter.
    cbn [before rest]. rewrite (space_not_word c Hc).
    assert (Hnext : hits (Lit c :: scan true (Seq WordB r) (Some c) (S n) s 0) = []).
    { cbn [hits flat_map app]. apply IH; [exact Hs'|]. apply space_not_word. exact Hc. }
    destruct b as [c0|]; [rewrite Hb|]; exact Hnext.
Qed.

Lemma phrasePattern_shape (word : string) :
  exists r, phrasePattern word = Seq WordB r.
Proof. unfold phrasePattern. eexists. reflexivity. Qed.

Lemma countIndicators_blank (indicators : list string) (textLower : list ascii) :
  blank textLower -> countIndicators indicators textLower = 0%nat.
Proof.
  intros Hblank. unfold countIndicators.
  assert (Hzero : forall word,
             List.length (matchAll true (phrasePattern word) textLower) = 0%nat).
  { intros word. unfold matchAll, segments.
    destruct (phrasePattern_shape word) as [r ->].
    rewrite no_boundary_in_blank by (try exact Hblank; exact I). reflexivity. }
  assert (H : forall total,
             fold_left (fun total word =>
                          (total + List.length
                                     (matchAll true (phrasePattern word) textLower))%nat)
                       indicators total = total).
  { induction indicators as [|word indicators IH]; intros total; [reflexivity|].
    cbn [fold_left]. rewrite Hzero, Nat.add_0_r. apply IH. }
  apply H.
Qed.

Lemma analyzePace_too_slow (wordsPerMinute : Q) :
  wordsPerMinute < 100 ->
  analyzePace wordsPerMinute
  = {| paceCategory := "Too Slow"; paceScore := 4;
       paceRecommendation :=
         "Consider speaking faster to maintain audience engagement and energy." |}.
Proof.
  intros H. unfold analyzePace, OPTIMAL_WPM_MIN.
  replace (Qle_bool 140 wordsPerMinute) with false.
  - cbn [andb]. replace (Qltb wordsPerMinute 100) with true; [reflexivity|].
    symmetry. apply Qltb_lt. exact H.
  - symmetry. destruct (Qle_bool 140 wordsPerMinute) eqn:E; [|reflexivity].
    apply Qle_bool_iff in E. exfalso. lra.
Qed.

Lemma Qmin_zero (x bound : Q) : x == 0 -> 0 < bound -> Qmin x bound == 0.
Proof.
  intros Hx Hb. unfold Qmin. destruct (Qle_bool x bound) eqn:E; [exact Hx|].
  exfalso. assert (H : x <= bound) by lra. apply Qle_bool_iff in H. congruence.
Qed.

Lemma analyzeConfidence_blank (textLower : list ascii) :
  blank textLower ->
  analyzeConfidence textLower
  = {| confidenceScore := 6;
       confidenceFeedback :=
         "Moderate confidence. Consider using more definitive language.";
       confidenceWords := 0;
       uncertaintyWords := 0 |}.
Proof.
  intros Hblank. unfold analyzeConfidence.
  rewrite !countIndicators_blank by exact Hblank.
  set (scale := Qmax (ofNat (List.length (split false (Plus isSpace) textLower)) / 100) 1).
  assert (Hratio : ofNat 0 / scale * 2 == 0).
  { unfold Qdiv. change (ofNat 0) with 0. rewrite !Qmult_0_l. reflexivity. }
  assert (Hround : round (6 + Qmin (ofNat 0 / scale * 2) 3
                          - Qmin (ofNat 0 / scale * 2) 4) = 6%Z).
  { pose proof (Qmin_zero _ 3 Hratio eq_refl) as H3.
    pose proof (Qmin_zero _ 4 Hratio eq_refl) as H4.
    assert (H : (6 <= round (6 + Qmin (ofNat 0 / scale * 2) 3
                             - Qmin (ofNat 0 / scale * 2) 4) <= 6)%Z).
    { apply round_bounds; change (inject_Z 6) with 6; lra. }
    lia. }
  cbv zeta. rewrite Hround. reflexivity.
Qed.

(** X25 -- The analytics of a transcript without words.  For a text that
    is empty or made of white space only, and any duration, analyzeSpeech
    counts no word and a pace of 0 words per minute, judged 'Too Slow'
    (score 4); no filler word (score 10); no vocabulary (score 2); a
    confidence of 6; the overall score is 5.7, and the recommendations
    are to speak faster, to expand the vocabulary and to boost the
    confidence, then the two standing ones. *)
Theorem analyzeSpeech_of_silence (text : string) (durationMinutes : Q) :
  blank (chars text) ->
  let a := analyzeSpeech text durationMinutes in
  totalWords a = 0%nat
  /\ wordsPerMinute a == 0
  /\ paceCategory (paceAnalysis a) = "Too Slow"%string
  /\ paceScore (paceAnalysis a) = 4%Z
  /\ totalFillerWords (fillerWordAnalysis a) = 0%nat
  /\ fillerWordScore (fillerWordAnalysis a) = 10%Z
  /\ uniqueWords (vocabularyAnalysis a) = 0%nat
  /\ vocabularyScore (vocabularyAnalysis a) = 2%Z
  /\ confidenceScore (confidenceAnalysis a) = 6%Z
  /\ overallScore a == 5.7
  /\ recommendations a
     = [ PaceImprovement (paceRecommendation (paceAnalysis a));
         ExpandVocabulary (vocabularyFeedback (vocabularyAnalysis a));
         BoostConfidence (confidenceFeedback (confidenceAnalysis a));
         PracticeRegularly; StudyGreatSpeakers ].
Proof.
  intros Hblank a. unfold a, analyzeSpeech.
  rewrite (extractWords_blank (chars text) Hblank).
  assert (Hlower : blank (toLowerCase (chars text))).
  { unfold toLowerCase. apply Forall_map. revert Hblank. apply Forall_impl.
    intros c Hc. rewrite isSpace_lowerChar. exact Hc. }
  rewrite (analyzeConfidence_blank _ Hlower).
  cbn [List.length].
  set (wpm := if Qltb 0 durationMinutes then ofNat 0 / durationMinutes else 0).
  assert (Hwpm : wpm == 0).
  { unfold wpm. destruct (Qltb 0 durationMinutes); [|reflexivity].
    unfold Qdiv. change (ofNat 0) with 0. apply Qmult_0_l. }
  rewrite (analyzePace_too_slow wpm) by lra.
  cbn [totalWords wordsPerMinute paceAnalysis fillerWordAnalysis vocabularyAnalysis
       confidenceAnalysis overallScore recommendations paceCategory paceScore
       paceRecommendation confidenceScore confidenceFeedback].
  split; [reflexivity|]. split; [exact Hwpm|].
  do 7 (split; [reflexivity|]).
  split; [vm_compute; reflexivity|]. vm_compute. reflexivity.
Qed.

Lemma analyzeSpeech_of_silence_witness :
  overallScore (analyzeSpeech "  " 1) == 5.7.
Proof.
  apply (analyzeSpeech_of_silence "  " 1). repeat constructor.
Defined.

End SilenceFacts.

(* ================================================================== *)
(** * The API route with the Gemini service behind it                   *)
(* ================================================================== *)

Module RouteFacts.

Import Str Buf Types.
Import AccurateDurationExtractor TranscribeApi.
Local Open Scope string_scope.
Local Open Scope list_scope.

Local Notation "a +++ b" := (String.append a b) (at level 60, right associativity).

(** The message of [transcribe] for a type that is not supported. *)
Local Abbreviation unsupported fileName buffer :=
  ("Transcription failed: Unsupported file format: "
   +++ GeminiTranscribe.detectMimeType fileName buffer
   +++ ". Supported formats: WAV, MP3, AAC, OGG, FLAC, MP4, MOV, AVI, WebM").

Section Service.

Variable World : Type.
Variable collaborators : GeminiTranscribe.Collaborators World.
Variable sleep : Z -> M World unit.

Lemma transcribe_unsupported (audioBuffer : Buffer) (fileName : string)
      (config : TranscriptionConfig) (w : World) :
  (length audioBuffer <= GeminiTranscribe.maxSize)%Z ->
  GeminiTranscribe.isGeminiSupportedFormat
    (GeminiTranscribe.detectMimeType fileName audioBuffer) = false ->
  GeminiTranscribe.transcribe collaborators audioBuffer fileName config w
  = (Throw (unsupported fileName audioBuffer), w).
Proof.
  intros Hsize Hformat. unfold GeminiTranscribe.transcribe, tryCatch.
  replace (GeminiTranscribe.maxSize <? length audioBuffer)%Z with false
    by (symmetry; apply Z.ltb_ge; exact Hsize).
  rewrite Hformat. reflexivity.
Qed.

(** Three attempts, two pauses, and the error of the last attempt. *)
Lemma transcribeWithRetry_unsupported (audioBuffer : Buffer) (fileName : string)
      (w w2 w3 : World) :
  (length audioBuffer <= GeminiTranscribe.maxSize)%Z ->
  GeminiTranscribe.isGeminiSupportedFormat
    (GeminiTranscribe.detectMimeType fileName audioBuffer) = false ->
  sleep 2000%Z w = (Normal tt, w2) ->
  sleep 4000%Z w2 = (Normal tt, w3) ->
  GeminiTranscriptionService.transcribeWithRetry
    (GeminiTranscribe.backend collaborators sleep) audioBuffer fileName emptyConfig w
  = (Throw (unsupported fileName audioBuffer), w3).
Proof.
  intros Hsize Hformat Hs1 Hs2.
  unfold GeminiTranscriptionService.transcribeWithRetry.
  cbn [maxRetries emptyConfig]. change (Z.to_nat 3) with 3%nat.
  cbn [GeminiTranscriptionService.attempts].
  unfold tryCatch, Async.bind.
  cbn [GeminiTranscriptionService.transcribe GeminiTranscriptionService.sleep
       GeminiTranscribe.backend].
  unfold Async.bind.
  rewrite (transcribe_unsupported _ _ _ w Hsize Hformat).
  change (1 <? 3)%Z with true. change (2 ^ 1 * 1000)%Z with 2000%Z.
  cbv iota. rewrite Hs1.
  rewrite (transcribe_unsupported _ _ _ w2 Hsize Hformat).
  change (1 + 1 <? 3)%Z with true. change (2 ^ (1 + 1) * 1000)%Z with 4000%Z.
  cbv iota. rewrite Hs2.
  rewrite (transcribe_unsupported _ _ _ w3 Hsize Hformat).
  change (1 + 1 + 1 <? 3)%Z with false. reflexivity.
Qed.

End Service.

(** X27 -- An upload whose name has the extension webm, mkv or wmv never
    reaches the model.  Behind the route stands the Gemini service: for a
    POST of a form whose file passes the checks of the route (at most
    20 MB; an audio or video type, a media extension such as .webm, or
    text/plain), if the extension of the name is webm, mkv or wmv the
    format check of transcribe rejects each of the three attempts, the
    retry loop pauses 2 and 4 seconds between them, and the route answers
    500 'Transcription failed' with the message 'Transcription failed:
    Unsupported file format: ...'; nothing else is called, so the world
    is changed by reading the form and the file and by the two pauses
    only. *)
Theorem upload_of_an_unsupported_format
        (World : Type)
        (collaborators : GeminiTranscribe.Collaborators World)
        (sleep : Z -> M World unit)
        (services : Services World) (req : Request) (formType name : string)
        (uploadedFile : UploadedFile) (others : list UploadedFile)
        (fileBuffer : Buffer) (w w0 w1 w2 w3 : World) :
  transcriptionService services = GeminiTranscribe.backend collaborators sleep ->
  method req = "POST" ->
  truthyString (GEMINI_API_KEY services) = true ->
  contentType req = Some formType ->
  includes formType "application/json" = false ->
  includes formType "multipart/form-data" = true ->
  parseForm services w = (Normal (uploadedFile :: others), w0) ->
  readFileSync services (filepath uploadedFile) w0 = (Normal fileBuffer, w1) ->
  (length fileBuffer <= maxFileSize)%Z ->
  originalFilename uploadedFile = Some name ->
  name <> "" ->
  In (SimpleDurationExtractor.extensionOf name) ["webm"; "mkv"; "wmv"] ->
  (let mimeType := match mimetype uploadedFile with Some s => s | None => "" end in
   startsWith mimeType "audio/" || startsWith mimeType "video/"
   || matches mediaExtension name || String.eqb mimeType "text/plain" = true) ->
  sleep 2000%Z w1 = (Normal tt, w2) ->
  sleep 4000%Z w2 = (Normal tt, w3) ->
  handler services req w
  = (Normal {| status := 500%Z;
               json := failed "Transcription failed"
                              (Some (unsupported name fileBuffer)) None |}, w3).
Proof.
  intros Hservice Hpost Hkey Htype Hjson Hform Hparse Hread Hsize Hname Hne Hext
         Hvalid Hs1 Hs2.
  assert (Hformat : GeminiTranscribe.isGeminiSupportedFormat
                      (GeminiTranscribe.detectMimeType name fileBuffer) = false).
  { rewrite GeminiFacts.format_gate. apply negb_false_iff.
    apply GeminiFacts.among_extensions. exact Hext. }
  unfold handler. rewrite Hpost. cbn [String.eqb Ascii.eqb Bool.eqb negb andb].
  rewrite Hkey, Htype. cbn [negb]. cbv zeta. rewrite Hjson, Hform.
  unfold tryCatch at 1. unfold Async.bind at 1. rewrite Hparse. cbn [hd_error].
  unfold handleUpload, tryCatch. unfold Async.bind at 1. rewrite Hread.
  replace (maxFileSize <? length fileBuffer)%Z with false
    by (symmetry; apply Z.ltb_ge; exact Hsize).
  cbv zeta. rewrite Hname.
  assert (Htruthy : truthyString (Some name) = true).
  { cbn [truthyString]. destruct (String.eqb_spec name ""); [contradiction|reflexivity]. }
  rewrite Htruthy.
  cbv zeta in Hvalid.
  set (mimeType := match mimetype uploadedFile with Some s => s | None => "" end) in *.
  replace (negb (startsWith mimeType "audio/" || startsWith mimeType "video/"
                 || matches mediaExtension name)
           && negb (String.eqb mimeType "text/plain")) with false.
  2: { symmetry. rewrite <- negb_orb. apply negb_false_iff. exact Hvalid. }
  unfold Async.bind at 1. rewrite Hservice.
  rewrite (transcribeWithRetry_unsupported World collaborators sleep fileBuffer name
                                           w1 w2 w3 Hsize Hformat Hs1 Hs2).
  reflexivity.
Qed.

Lemma upload_of_an_unsupported_format_witness :
  handler
    (ApiSpec.uploading
       {| originalFilename := Some "talk.webm"; mimetype := Some "video/webm";
          size := 4%Z; filepath := "/tmp/upload_1" |}
       [x1a; x45; xdf; xa3])
    {| method := "POST";
       contentType := Some "multipart/form-data; boundary=x" |}
    0%nat
  = (Normal {| status := 500%Z;
               json := failed "Transcription failed"
                              (Some "Transcription failed: Unsupported file format: audio/webm. Supported formats: WAV, MP3, AAC, OGG, FLAC, MP4, MOV, AVI, WebM")
                              None |}, 0%nat).
Proof.
  apply (upload_of_an_unsupported_format
           nat
           {| GeminiTranscribe.generateContent := fun _ calls => (Normal "hello", S calls);
              GeminiTranscribe.now := ret 0%Z |}
           (fun _ => ret tt)
           (ApiSpec.uploading
              {| originalFilename := Some "talk.webm"; mimetype := Some "video/webm";
                 size := 4%Z; filepath := "/tmp/upload_1" |}
              [x1a; x45; xdf; xa3])
           {| method := "POST";
              contentType := Some "multipart/form-data; boundary=x" |}
           "multipart/form-data; boundary=x" "talk.webm"
           {| originalFilename := Some "talk.webm"; mimetype := Some "video/webm";
              size := 4%Z; filepath := "/tmp/upload_1" |}
           []
           [x1a; x45; xdf; xa3] 0%nat 0%nat 0%nat 0%nat 0%nat);
    try reflexivity.
  - discriminate.
  - discriminate.
  - left. reflexivity.
Defined.

End RouteFacts.

(* ================================================================== *)
(** * Properties of ClientMediaProcessingService                        *)
(* ================================================================== *)

Module ClientFacts.

Import ClientMediaProcessingService.
Import AnalyticsFacts.
Local Open Scope string_scope.
Local Open Scope list_scope.

(** X28 -- needsProcessing and getProcessingStrategy.  Whenever a
    strategy other than 'none' is recommended for a file, needsProcessing
    says that the file needs processing.  The converse fails: the files
    that need processing and for which 'none' is recommended are the
    files that are not videos, have at most 20 MB, and have more than
    10 MB or a type other than audio/wav and audio/x-wav (every MP3 of at
    most 20 MB, for one). *)
Theorem strategy_and_needsProcessing (file : File) :
  (getProcessingStrategy file <> none -> needsProcessing file = true)
  /\ (needsProcessing file = true /\ getProcessingStrategy file = none
      <-> TranscribeApi.startsWith (type file) "video/" = false
          /\ (size file <= 20 * 1024 * 1024)%Z
          /\ ((10 * 1024 * 1024 < size file)%Z
              \/ (type file <> "audio/wav" /\ type file <> "audio/x-wav"))).
Proof.
  unfold getProcessingStrategy, needsProcessing.
  destruct (TranscribeApi.startsWith (type file) "video/").
  - split; [reflexivity|]. split; [intros [_ H]; discriminate H|intros [H _]; discriminate H].
  - destruct (Z.ltb_spec (50 * 1024 * 1024) (size file)) as [H50|H50].
    + replace (10 * 1024 * 1024 <? size file)%Z with true
        by (symmetry; apply Z.ltb_lt; lia).
      split; [reflexivity|].
      split; [intros [_ H]; discriminate H|intros [_ [H _]]; lia].
    + destruct (Z.ltb_spec (20 * 1024 * 1024) (size file)) as [H20|H20].
      * replace (10 * 1024 * 1024 <? size file)%Z with true
          by (symmetry; apply Z.ltb_lt; lia).
        split; [reflexivity|].
        split; [intros [_ H]; discriminate H|intros [_ [H _]]; lia].
      * split; [congruence|].
        destruct (Z.ltb_spec (10 * 1024 * 1024) (size file)) as [H10|H10]; cbn [orb].
        -- split; [intros _; repeat split; [exact H20|left; exact H10]
                  |intros _; split; reflexivity].
        -- destruct (String.eqb_spec (type file) "audio/wav") as [Hwav|Hwav];
             destruct (String.eqb_spec (type file) "audio/x-wav") as [Hx|Hx];
             cbn [orb negb].
           ++ split; [intros [H _]; discriminate H|].
              intros [_ [_ [H|[H _]]]]; [lia|contradiction].
           ++ split; [intros [H _]; discriminate H|].
              intros [_ [_ [H|[H _]]]]; [lia|contradiction].
           ++ split; [intros [H _]; discriminate H|].
              intros [_ [_ [H|[_ H]]]]; [lia|contradiction].
           ++ split; [|intros _; split; reflexivity].
              intros _. repeat split; [exact H20|]. right. split; assumption.
Qed.

(** ** The chunks of splitAudio *)

Lemma estimatedDuration_least (file : File) : 600 <= estimatedDuration file.
Proof.
  unfold estimatedDuration, Qmax.
  destruct (Qle_bool 600 _) eqn:E; [apply Qle_bool_iff; exact E|apply Qle_refl].
Qed.

Lemma estimatedDuration_small (file : File) :
  (size file <= 60000000)%Z -> estimatedDuration file == 600.
Proof.
  intros Hsize. unfold estimatedDuration, Qmax.
  destruct (Qle_bool 600 _) eqn:E; [|reflexivity].
  apply Qle_bool_iff in E. apply Qle_antisym; [|exact E].
  assert (H : inject_Z (size file) <= inject_Z 60000000) by (rewrite <- Zle_Qle; exact Hsize).
  assert (Hx : inject_Z (size file) / 1000000 * 10
               == inject_Z (size file) * (1 # 100000)) by field.
  rewrite Hx. change (inject_Z 60000000) with 60000000 in H. lra.
Qed.

Lemma client_cutChunks_length (Blob World : Type) (engine : Engine Blob World)
      (onProgress : option (Q -> M World unit)) :
  forall (requests : list (Q * Q * Q)) (acc chunks : list Blob) (w w' : World),
    cutChunks engine onProgress requests acc w = (Normal chunks, w') ->
    List.length chunks = (List.length acc + List.length requests)%nat.
Proof.
  induction requests as [|[[startTime chunkDuration] chunkProgress] requests IH];
    intros acc chunks w w' H; cbn [cutChunks] in H.
  - unfold ret in H. injection H as <- _. cbn. lia.
  - unfold Async.bind in H.
    destruct (report onProgress chunkProgress w) as [[[]|e] w0]; [|discriminate].
    destruct (cutChunk engine startTime chunkDuration w0) as [[chunk|e] w1];
      [|discriminate].
    apply IH in H. rewrite H, length_app. cbn. lia.
Qed.



End ClientFacts.
